(* ===== verification/_CoqProject ===== *)
-Q . S2P
Prelude.v
RustStd.v
IpAddr.v
IpAddrText.v
BTreeMap.v
Journal.v
Externs.v
Fixtures.v
Http.v
FarcasterMessage.v
FarcasterClient.v
FarcasterVerify.v
FarcasterTheorems.v
Hypersnap.v
HypersnapTheorems.v
RepoSyntax.v
RepoRecords.v
RepoRecordSet.v
RepoMst.v
RepoCar.v
Repository.v
CredIdentity.v
CredTokens.v
CredStore.v
CredProofs.v
CredTheorems.v
Settings.v
ConfigStore.v
SettingsTheorems.v
Storage.v
ConfigCrash.v
AccountNode.v
AccountExec.v
Web.v
AccountHttp.v
AccountLogic.v
AccountLimits.v
AccountTheorems.v
AccountSafety.v
AccountDemo.v
ReportJson.v
Lab.v
FixtureExport.v
Console.v
ConsoleTheorems.v
NodeRestart.v
Publication.v
CommandLine.v
Startup.v
ConsoleDemo.v
TestKit.v
SettingsTests.v
AccountTests.v
ConsoleTests.v
MessageTests.v
