(* ===== verification/Prelude.v ===== *)
(** * PurpleSky: a verified model of the Rust workspace

    PurpleSky is a node that binds one Farcaster identity to one ATProto
    account: it verifies Farcaster sign-ins against the Optimism chain, issues
    revocable app passwords and sessions for the account, builds and exports
    signed ATProto repositories, checks Hypersnap peers, and is operated from a
    console on the loopback interface.  This library models the implementation
    crates under [src/crates/] as executable functions and proves what makes
    them correct.

    ** Components

    Each file opens with what it holds.  In dependency order:

    - Foundations.  [Prelude] (fallible results with [?] as monadic bind,
      notations, tactics, the [psky] hint and rewrite databases), [RustStd]
      (strings, integers and their parsers as in Rust's standard library),
      [IpAddr] and [IpAddrText] (addresses, their parser and printer, and the
      round trip between them), [BTreeMap] (ordered maps), [Externs] (the
      third-party crates the sources call, as classes of operations and of
      their laws), [Fixtures] (concrete instances of all of them, on which the
      witnesses run), [Http] (the outgoing requests, with peers that answer
      from the whole history), [Web] (requests and answers of the node's own
      listeners).
    - Repository library ([psky-repo]).  [RepoSyntax] is [syntax.rs];
      [RepoRecords] and [RepoRecordSet] are the records and the record set of
      [lib.rs]; [RepoMst] is [mst.rs], with a structural reference
      construction of the tree; [RepoCar] is [car.rs]; [Repository] is
      building, signing, verifying and exporting, of [lib.rs];
      [FixtureExport] is the program [examples/export_fixture.rs].
    - Credential store ([psky-credentials]).  [CredIdentity] (identities, DIDs,
      clock revisions), [CredTokens] (session tokens), [CredStore] (the tables
      and every operation as a transaction on them), [CredProofs] (what each
      operation preserves), [CredTheorems] (histories of operations).
    - Farcaster sign-in ([psky-farcaster-auth]).  [FarcasterMessage] is
      [message.rs], [FarcasterClient] and [FarcasterVerify] are the relay and
      the chain half of [client.rs], [FarcasterTheorems] their properties.
    - Hypersnap preflight ([psky-hypersnap]).  [Hypersnap],
      [HypersnapTheorems]; [ReportJson] is the report as JSON.
    - The node ([psky]).  [Journal] is [journal.rs]; [Settings], [ConfigStore]
      and [SettingsTheorems] are [settings.rs], [Storage] is a directory that
      can lose power and [ConfigCrash] the configuration store on it, call by
      call; [AccountNode], [AccountExec]
      and [AccountHttp] are the state, the operations and the requests of
      [account.rs], with [AccountLogic] (rules for postconditions of its
      computations), [AccountLimits], [AccountTheorems] and [AccountSafety];
      [Lab] is [lab.rs]; [Console] and [ConsoleTheorems] are [server.rs];
      [NodeRestart] composes them; [Publication] is what the public listener
      serves; [CommandLine] is [main.rs], with the node that is served, used
      and served again; [Startup] is starting again after failed attempts.  [AccountDemo] and [ConsoleDemo] are
      concrete runs on which the theorems are instantiated.
    - The unit tests of the crates, replayed on the model.  [TestKit] is what a
      test is made of; [SettingsTests], [AccountTests], [MessageTests] and
      [ConsoleTests] (which also has those of [lab.rs] and [journal.rs]) are the
      [mod tests] of the sources, each test a boolean definition of the same
      name, and the kernel evaluates that they pass.

    ** How the code is rendered

    - A fallible function returns [result E A]; early returns are [reject_if]
      and bind.  Integers are [Z] with their checks and saturations written
      out; bytes and strings keep their lengths in bytes.
    - Stateful components thread their state.  A credential operation is a
      transaction [Store -> Store * result]; an operation of the account
      service is a computation over its [World]: the core behind the lock, the
      exchanges so far, and counters for the clock, the random generator and
      the network calls.  The console is a [Node]: control state, account
      world, data directory and spawned tasks, moved by [console_step].
    - The environment is arbitrary.  A [Peer] answers each request from the
      whole history of exchanges; [clock n] and [random n] are the n-th reading
      and draw; [Trouble] says after how many exchanges the 25-second deadline of
      a request drops its n-th network call ([cut]) and which queries of the
      database fail ([broken]); [Faults] says which system calls of the
      configuration store fail, [TokenFault] and [DatabaseFault] what a start
      meets at the token file and at the database; a request's [Occasion] says which locks
      are held when they are tried; the order of requests, tasks and shutdown
      is any sequence of steps.  Operations that hold a lock for their whole
      duration are one step.
    - Crashes.  [ConfigCrash] lists the system calls each operation of the
      configuration store makes; the operation is proved to be these calls in
      order, and a process may be killed after any of them, in the middle of a
      write, or by a power failure that keeps any of the changes that were not
      synchronized.
    - Third-party code (hashes, signatures, DAG-CBOR, JSON text, URLs, SIWE,
      time formats, QR codes, Base58) is a class parameter; the laws a theorem
      needs, such as that parsing undoes printing for plain values, are classes
      of their own and hold of the instances in [Fixtures].
    - Recursion is structural.  The fuel of [Journal.follow], a client of the
      code, is any number above the number of events.

    ** What is proved

    - Account service: an enabled account was signed in to by its holder, for
      this service and a challenge this service drew; sessions and passwords
      need an authority confirmed within half a minute; outages lose no
      credential; guesses are rate limited.
    - Console: management needs the operator's token; updates of the settings
      are all or nothing over disk, memory and the account service; the shown
      peer report belongs to the settings in force; actions are serial; the
      shutdown ends; the console refines the account service; public requests
      change nothing but the account service, and that only from its own host.
    - Credentials: refresh tokens work once, ended sessions stay ended, issued
      passwords log in, deadlines and bindings are fixed, tokens are sound, and
      the tables keep their invariant.
    - Farcaster: a verified identity is backed by the message, the signature
      and one finalized block; rechecks are fresh and monotone; the relay
      protocol is followed.
    - Repositories: what is built verifies, exports are complete and read
      back, verification is sound, the tree builder equals the reference, the
      record set refines a finite map, records convert exactly.
    - Hypersnap, settings, journal, laboratory: healthy reports are backed by
      answers, preflights only read and end, validated settings are usable,
      replacements are atomic and survive crashes, pages refine the full history,
      and the two workers of the laboratory never diverge.
    - The whole node: failed starts can be repeated, a stopped node restarts on
      what it saved, and the repository it serves verifies under the key its
      DID document names.

    ** Not modelled

    Of [main.rs] the parsing of the options, the sockets and the signals, and
    [lib.rs] (module declarations); the browser pages, scripts and documentation; the web
    framework's body limits and answers of its own, which are parameters (the
    route tables are modelled, the decoding of a path segment is not); the pages of the database file, whose transactions are taken to
    be atomic; of the unit tests the one that drives the official SDK, the
    signature computed outside and the texts of the pages; panics other than those of a background task; exhaustion of the
    64-bit counters of the journal and the actions.  Constant-time comparison
    and the erasure of secrets have no counterpart in a functional model. *)

From Stdlib Require Export ZArith Lia.
From Stdlib Require Export Strings.Ascii.
From Stdlib Require Export Strings.Byte.
From stdpp Require Export prelude gmap strings pretty sorting.

Open Scope Z_scope.


(** ** Fallible results

    [result E A] is Rust's [Result<A, E>]; the error type comes first so that
    [result E] is a monad and stdpp's [x ← e; k] is Rust's [?] operator. *)

Inductive result (E A : Type) : Type :=
| Ok (a : A)
| Err (e : E).

Arguments Ok {E A} a.
Arguments Err {E A} e.

#[export] Instance result_ret {E} : MRet (result E) := λ A a, Ok a.
#[export] Instance result_bind {E} : MBind (result E) := λ A B f r,
  match r with Ok a => f a | Err e => Err e end.
#[export] Instance result_fmap {E} : FMap (result E) := λ A B f r,
  match r with Ok a => Ok (f a) | Err e => Err e end.

#[export] Instance result_eq_dec {E A} `{EqDecision E, EqDecision A} : EqDecision (result E A).
Proof. solve_decision. Defined.

(** [ok_or e o] is [Option::ok_or]. *)
Definition ok_or {E A} (e : E) (o : option A) : result E A :=
  match o with Some a => Ok a | None => Err e end.

(** [map_err f r] is [Result::map_err]. *)
Definition map_err {E F A} (f : E → F) (r : result E A) : result F A :=
  match r with Ok a => Ok a | Err e => Err (f e) end.

(** [result_ok r] is [Result::ok]. *)
Definition result_ok {E A} (r : result E A) : option A :=
  match r with Ok a => Some a | Err _ => None end.

Definition is_ok {E A} (r : result E A) : bool :=
  match r with Ok _ => true | Err _ => false end.

(** [guard b e] is [if b { return Err(e); }]. *)
Definition reject_if {E} (b : bool) (e : E) : result E () :=
  if b then Err e else Ok ().

(** [mapM_result] is [iter().map(f).collect::<Result<Vec<_>, _>>()]: the first
    error stops the traversal. *)
Fixpoint mapM_result {E A B} (f : A → result E B) (l : list A) : result E (list B) :=
  match l with
  | [] => Ok []
  | x :: l => y ← f x; ys ← mapM_result f l; Ok (y :: ys)
  end.

Lemma bind_ok {E A B} (r : result E A) (f : A → result E B) b :
  (r ≫= f) = Ok b ↔ ∃ a, r = Ok a ∧ f a = Ok b.
Proof. destruct r; simpl; naive_solver. Qed.

Lemma bind_err {E A B} (r : result E A) (f : A → result E B) e :
  (r ≫= f) = Err e ↔ r = Err e ∨ ∃ a, r = Ok a ∧ f a = Err e.
Proof. destruct r; simpl; naive_solver. Qed.

Lemma ok_or_ok {E A} (e : E) (o : option A) a : ok_or e o = Ok a ↔ o = Some a.
Proof. destruct o; simpl; naive_solver. Qed.

Lemma ok_or_err {E A} (e e' : E) (o : option A) : ok_or e o = Err e' ↔ o = None ∧ e = e'.
Proof. destruct o; simpl; naive_solver. Qed.

Lemma map_err_ok {E F A} (f : E → F) (r : result E A) a : map_err f r = Ok a ↔ r = Ok a.
Proof. destruct r; simpl; naive_solver. Qed.

Lemma map_err_err {E F A} (f : E → F) (r : result E A) e :
  map_err f r = Err e ↔ ∃ e', r = Err e' ∧ f e' = e.
Proof. destruct r; simpl; naive_solver. Qed.

Lemma reject_if_ok {E} (b : bool) (e : E) u : reject_if b e = Ok u ↔ b = false.
Proof. destruct b, u; simpl; naive_solver. Qed.

Lemma reject_if_err {E} (b : bool) (e e' : E) : reject_if b e = Err e' ↔ b = true ∧ e = e'.
Proof. destruct b; simpl; naive_solver. Qed.

Lemma mapM_result_ok {E A B} (f : A → result E B) l k :
  mapM_result f l = Ok k ↔ Forall2 (λ x y, f x = Ok y) l k.
Proof.
  revert k. induction l as [|x l IH]; intros k; simpl.
  - split; [intros [= <-]; constructor | by inversion 1].
  - rewrite bind_ok. setoid_rewrite bind_ok. setoid_rewrite IH. split.
    + intros (y & ? & ys & ? & [= <-]). by constructor.
    + inversion 1; subst. naive_solver.
Qed.

Create HintDb psky.
Create Rewrite HintDb psky.

(** [inv_result] takes apart equations between results built with [?], guards
    and error conversions. *)
Ltac inv_result_step :=
  match goal with
  | H : (_ ≫= _) = Ok _ |- _ => apply bind_ok in H; destruct H as (? & ? & H)
  | H : ok_or _ _ = Ok _ |- _ => apply ok_or_ok in H
  | H : map_err _ _ = Ok _ |- _ => apply map_err_ok in H
  | H : reject_if _ _ = Ok _ |- _ => apply reject_if_ok in H
  | H : Ok _ = Ok _ |- _ => injection H as H
  | H : Err _ = Err _ |- _ => injection H as H
  | H : Ok _ = Err _ |- _ => discriminate H
  | H : Err _ = Ok _ |- _ => discriminate H
  | H : (_, _) = (_, _) |- _ => injection H as ? ?
  | H : Some _ = Some _ |- _ => injection H as H
  | H : Some _ = None |- _ => discriminate H
  | H : None = Some _ |- _ => discriminate H
  | u : () |- _ => destruct u
  end.
Ltac inv_result := repeat (inv_result_step; subst).

(** [case_all] splits every [match] and [if] of the hypothesis [H], dropping
    the impossible branches. *)
Ltac case_in H :=
  repeat (match type of H with
          | context [match ?x with _ => _ end] => destruct x eqn:?
          end; simplify_eq/=).

(** Boolean conditions of the code as propositions. *)
Ltac boolify :=
  repeat match goal with
  | H : _ && _ = true |- _ => apply andb_true_iff in H as [? ?]
  | H : _ || _ = false |- _ => apply orb_false_iff in H as [? ?]
  | H : negb _ = true |- _ => apply negb_true_iff in H
  | H : negb _ = false |- _ => apply negb_false_iff in H
  | H : bool_decide _ = true |- _ => apply bool_decide_eq_true in H
  | H : bool_decide _ = false |- _ => apply bool_decide_eq_false in H
  | H : (_ <? _) = true |- _ => apply Z.ltb_lt in H
  | H : (_ <? _) = false |- _ => apply Z.ltb_ge in H
  | H : (_ <=? _) = true |- _ => apply Z.leb_le in H
  | H : (_ <=? _) = false |- _ => apply Z.leb_gt in H
  | H : (_ =? _) = true |- _ => apply Z.eqb_eq in H
  | H : (_ =? _) = false |- _ => apply Z.eqb_neq in H
  end.

(** ** Machine integers

    A Rust [u64] or [usize] (64-bit targets) is a [Z] in [0 .. 2^64). *)

Definition U64_MAX : Z := 18446744073709551615.
Definition I64_MAX : Z := 9223372036854775807.
Definition U32_MAX : Z := 4294967295.
Definition U16_MAX : Z := 65535.

Definition is_u64 (n : Z) : Prop := 0 ≤ n ≤ U64_MAX.
#[export] Instance is_u64_dec n : Decision (is_u64 n).
Proof. unfold is_u64. apply _. Defined.

Definition saturating_add (a b : Z) : Z := Z.min (a + b) U64_MAX.
Definition saturating_sub (a b : Z) : Z := Z.max (a - b) 0.
Definition saturating_mul (a b : Z) : Z := Z.min (a * b) U64_MAX.
Definition checked_sub (a b : Z) : option Z := if a <? b then None else Some (a - b).
Definition checked_add (a b : Z) : option Z := if U64_MAX <? a + b then None else Some (a + b).

Lemma checked_sub_Some a b c : checked_sub a b = Some c ↔ b ≤ a ∧ c = a - b.
Proof. unfold checked_sub. destruct (Z.ltb_spec a b); naive_solver lia. Qed.

Lemma checked_add_Some a b c : checked_add a b = Some c ↔ a + b ≤ U64_MAX ∧ c = a + b.
Proof. unfold checked_add. destruct (Z.ltb_spec U64_MAX (a + b)); naive_solver lia. Qed.

Lemma saturating_add_le a b : saturating_add a b ≤ a + b.
Proof. apply Z.le_min_l. Qed.
Lemma saturating_add_bound a b n : a + b ≤ n → saturating_add a b ≤ n.
Proof. pose proof (saturating_add_le a b). lia. Qed.
Lemma saturating_add_unsat a b : saturating_add a b < U64_MAX → saturating_add a b = a + b.
Proof. intros Hm. apply Z.min_l. apply Z.min_lt_iff in Hm as [Hm|Hm]; [by apply Z.lt_le_incl|by apply Z.lt_irrefl in Hm]. Qed.
Lemma saturating_sub_ge a b : a - b ≤ saturating_sub a b.
Proof. apply Z.le_max_l. Qed.

(** Length of a [Vec] as the [usize] the code computes with. *)
Definition len {A} (l : list A) : Z := Z.of_nat (length l).

Lemma len_nil {A} : len (@nil A) = 0.
Proof. done. Qed.
Lemma len_cons {A} (x : A) l : len (x :: l) = 1 + len l.
Proof. unfold len. simpl. lia. Qed.
Lemma len_app {A} (l k : list A) : len (l ++ k) = len l + len k.
Proof. unfold len. rewrite length_app. lia. Qed.
Lemma len_nonneg {A} (l : list A) : 0 ≤ len l.
Proof. unfold len. lia. Qed.
#[export] Hint Rewrite @len_nil @len_cons @len_app : psky.
#[export] Hint Resolve len_nonneg : psky.

(** Sum of a measure over a list, for the byte budgets. *)
Definition sum_with {A} (f : A → Z) (l : list A) : Z := foldr (λ x s, f x + s) 0 l.

#[global] Arguments sum_with : simpl never.

Lemma sum_with_nil {A} (f : A → Z) : sum_with f [] = 0.
Proof. done. Qed.
Lemma sum_with_cons {A} (f : A → Z) x l : sum_with f (x :: l) = f x + sum_with f l.
Proof. done. Qed.
#[export] Hint Rewrite @sum_with_nil @sum_with_cons : psky.
Lemma sum_with_app {A} (f : A → Z) l k : sum_with f (l ++ k) = sum_with f l + sum_with f k.
Proof. induction l; simpl; autorewrite with psky; lia. Qed.
Lemma sum_with_nonneg {A} (f : A → Z) l : (∀ x, 0 ≤ f x) → 0 ≤ sum_with f l.
Proof.
  intros Hf. induction l as [|x l IH]; autorewrite with psky; [done|]. specialize (Hf x). lia.
Qed.

(** ** Bytes *)

Abbreviation bytes := (list byte).

#[export] Instance byte_eq_decision : EqDecision byte := byte_eq_dec.
#[export] Program Instance byte_countable : Countable byte :=
  inj_countable' Byte.to_N (λ n, default x00 (Byte.of_N n)) _.
Next Obligation. intros b. simpl. by rewrite Byte.of_to_N. Qed.

Definition byte_Z (b : byte) : Z := Z.of_N (Byte.to_N b).
(** [n as u8]: the low eight bits. *)
Definition Z_byte (n : Z) : byte := default x00 (Byte.of_N (Z.to_N (n mod 256))).

Lemma byte_Z_range b : 0 ≤ byte_Z b < 256.
Proof. unfold byte_Z. pose proof (Byte.to_N_bounded b). lia. Qed.

Lemma byte_Z_of n : byte_Z (Z_byte n) = n mod 256.
Proof.
  unfold byte_Z, Z_byte.
  pose proof (Z.mod_pos_bound n 256 ltac:(lia)) as Hb.
  destruct (Byte.of_N (Z.to_N (n mod 256))) as [b|] eqn:Hn; simpl.
  - apply Byte.to_of_N in Hn. rewrite Hn. lia.
  - apply Byte.of_N_None_iff in Hn. lia.
Qed.

Lemma Z_byte_Z b : Z_byte (byte_Z b) = b.
Proof.
  unfold Z_byte. rewrite Z.mod_small by apply byte_Z_range.
  unfold byte_Z. by rewrite N2Z.id, Byte.of_to_N.
Qed.

Lemma byte_Z_inj a b : byte_Z a = byte_Z b → a = b.
Proof. intros H. by rewrite <-(Z_byte_Z a), <-(Z_byte_Z b), H. Qed.

#[export] Hint Rewrite byte_Z_of Z_byte_Z : psky.

(** Conjunctions of arithmetic and trivial facts. *)
Ltac split_lia := repeat match goal with |- _ ∧ _ => split end; first [done | lia | solve [eauto]].

#[export] Instance sum_with_perm {A} (f : A → Z) : Proper ((≡ₚ) ==> eq) (sum_with f).
Proof. induction 1; autorewrite with psky; lia. Qed.
