(* ===== verification/RustStd.v ===== *)
(** * The Rust standard library operations the code uses on strings

    A [String] or [&str] is a Stdlib [string], read as its UTF-8 bytes: every
    length is a byte length, as in Rust.  Only the operations that occur in the
    sources are defined. *)

From S2P Require Import Prelude.

(** ** Byte predicates ([u8::is_ascii_*]) *)

Definition ascii_Z (c : ascii) : Z := Z.of_N (Ascii.N_of_ascii c).

Definition in_range (lo hi : Z) (c : ascii) : bool := (lo <=? ascii_Z c) && (ascii_Z c <=? hi).
Definition is_ascii_digit : ascii → bool := in_range 48 57.
Definition is_ascii_lowercase : ascii → bool := in_range 97 122.
Definition is_ascii_uppercase : ascii → bool := in_range 65 90.
Definition is_ascii_alphabetic (c : ascii) : bool := is_ascii_lowercase c || is_ascii_uppercase c.
Definition is_ascii_alphanumeric (c : ascii) : bool := is_ascii_alphabetic c || is_ascii_digit c.
Definition is_ascii_hexdigit (c : ascii) : bool :=
  is_ascii_digit c || in_range 97 102 c || in_range 65 70 c.
Definition is_ascii_control (c : ascii) : bool := (ascii_Z c <? 32) || (ascii_Z c =? 127).
(** space, tab, line feed, form feed, carriage return *)
Definition is_ascii_whitespace (c : ascii) : bool :=
  bool_decide (ascii_Z c ∈ [32; 9; 10; 12; 13]).
Definition is_ascii (c : ascii) : bool := ascii_Z c <? 128.

(** ** Strings as byte sequences *)

Definition str_len (s : string) : Z := Z.of_nat (String.length s).
Definition as_bytes (s : string) : bytes := String.list_byte_of_string s.
Definition from_bytes (b : bytes) : string := String.string_of_list_byte b.
Definition chars_of (s : string) : list ascii := String.list_ascii_of_string s.
Definition of_chars (l : list ascii) : string := String.string_of_list_ascii l.

(** [s.bytes().all(p)] and [s.bytes().any(p)]. *)
Definition all_bytes (p : ascii → bool) (s : string) : bool := forallb p (chars_of s).
Definition any_byte (p : ascii → bool) (s : string) : bool := existsb p (chars_of s).
(** [b"...".contains(&c)]: membership in a byte-string literal. *)
Definition one_of (set : string) (c : ascii) : bool := bool_decide (c ∈ chars_of set).

Definition str_is_empty (s : string) : bool := bool_decide (s = EmptyString).
(** [s.as_bytes().first()] *)
Definition first_byte (s : string) : option ascii := head (chars_of s).
Definition last_byte (s : string) : option ascii := last (chars_of s).
Definition starts_with (c : ascii) (s : string) : bool := bool_decide (first_byte s = Some c).
Definition ends_with (c : ascii) (s : string) : bool := bool_decide (last_byte s = Some c).

(** [s.strip_prefix(p)] for a string pattern. *)
Fixpoint strip_prefix (p s : string) : option string :=
  match p, s with
  | EmptyString, _ => Some s
  | String c p, String d s => if Ascii.eqb c d then strip_prefix p s else None
  | String _ _, EmptyString => None
  end.

Definition starts_with_str (p s : string) : bool := bool_decide (is_Some (strip_prefix p s)).

Definition str_rev (s : string) : string := of_chars (reverse (chars_of s)).
Definition strip_suffix (p s : string) : option string :=
  str_rev <$> strip_prefix (str_rev p) (str_rev s).
Definition ends_with_str (p s : string) : bool := bool_decide (is_Some (strip_suffix p s)).

(** [s.split_once(c)]: around the first occurrence. *)
Fixpoint split_once (c : ascii) (s : string) : option (string * string) :=
  match s with
  | EmptyString => None
  | String d s =>
      if Ascii.eqb c d then Some (EmptyString, s)
      else '(a, b) ← split_once c s; Some (String d a, b)
  end.

(** [s.rsplit_once(c)]: around the last occurrence. *)
Fixpoint rsplit_once (c : ascii) (s : string) : option (string * string) :=
  match s with
  | EmptyString => None
  | String d s' =>
      match rsplit_once c s' with
      | Some (a, b) => Some (String d a, b)
      | None => if Ascii.eqb c d then Some (EmptyString, s') else None
      end
  end.

(** [s.split(c).collect::<Vec<_>>()]: never empty. *)
Fixpoint split_on (c : ascii) (s : string) : list string :=
  match s with
  | EmptyString => [EmptyString]
  | String d s =>
      if Ascii.eqb c d then EmptyString :: split_on c s
      else match split_on c s with
           | [] => [String d EmptyString]
           | x :: xs => String d x :: xs
           end
  end.

(** [s.contains(c)] for a character pattern. *)
Definition contains_char (c : ascii) (s : string) : bool := any_byte (Ascii.eqb c) s.
(** [s.rsplit(c).next()]: the last segment; never [None]. *)
Definition rsplit_next (c : ascii) (s : string) : option string := last (split_on c s).

(** ** Integer parsing ([str::parse::<uN>], [uN::from_str_radix])

    An optional [+] sign, at least one digit, digits of the radix only, and an
    error on overflow. *)

Definition digit_value (radix : Z) (c : ascii) : option Z :=
  let n := ascii_Z c in
  let v := if is_ascii_digit c then Some (n - 48)
           else if is_ascii_lowercase c then Some (n - 87)
           else if is_ascii_uppercase c then Some (n - 55) else None in
  v ← v; if v <? radix then Some v else None.

Fixpoint parse_digits (radix max acc : Z) (l : list ascii) : option Z :=
  match l with
  | [] => Some acc
  | c :: l =>
      d ← digit_value radix c;
      let acc := acc * radix + d in
      if max <? acc then None else parse_digits radix max acc l
  end.

Definition from_str_radix (radix max : Z) (s : string) : option Z :=
  match chars_of s with
  | [] => None
  | c :: l =>
      if Ascii.eqb c "+"%char
      then match l with [] => None | _ => parse_digits radix max 0 l end
      else parse_digits radix max 0 (c :: l)
  end.

(** [str::parse::<u64>()] and [str::parse::<u16>()]. *)
Definition parse_u64 (s : string) : option Z := from_str_radix 10 U64_MAX s.
Definition parse_u16 (s : string) : option Z := from_str_radix 10 U16_MAX s.

(** [n.to_string()] of an unsigned integer. *)
Definition to_string (n : Z) : string := pretty (Z.to_N n).

(** [a.eq_ignore_ascii_case(b)] *)
Definition to_ascii_lowercase (c : ascii) : ascii :=
  if is_ascii_uppercase c then Ascii.ascii_of_N (Ascii.N_of_ascii c + 32) else c.
Definition eq_ignore_ascii_case (a b : string) : bool :=
  bool_decide (to_ascii_lowercase <$> chars_of a = to_ascii_lowercase <$> chars_of b).

(** ** Lemmas *)

Lemma of_chars_of s : of_chars (chars_of s) = s.
Proof. apply String.string_of_list_ascii_of_string. Qed.
Lemma chars_of_of l : chars_of (of_chars l) = l.
Proof. apply String.list_ascii_of_string_of_list_ascii. Qed.
Lemma chars_of_app a b : chars_of (a +:+ b) = chars_of a ++ chars_of b.
Proof. induction a as [|c a IH]; simpl; [done|]. by f_equal. Qed.
Lemma chars_of_length s : length (chars_of s) = String.length s.
Proof. induction s; simpl; congruence. Qed.
Lemma chars_of_inj a b : chars_of a = chars_of b → a = b.
Proof. intros H. by rewrite <-(of_chars_of a), <-(of_chars_of b), H. Qed.
Lemma str_len_app a b : str_len (a +:+ b) = str_len a + str_len b.
Proof. unfold str_len. rewrite <-!chars_of_length, chars_of_app, length_app. lia. Qed.
Lemma str_len_nonneg s : 0 ≤ str_len s.
Proof. unfold str_len. lia. Qed.
Lemma as_bytes_from b : as_bytes (from_bytes b) = b.
Proof. apply String.list_byte_of_string_of_list_byte. Qed.
Lemma from_bytes_as s : from_bytes (as_bytes s) = s.
Proof. apply String.string_of_list_byte_of_string. Qed.
Lemma as_bytes_inj a b : as_bytes a = as_bytes b → a = b.
Proof. intros H. by rewrite <-(from_bytes_as a), <-(from_bytes_as b), H. Qed.
#[export] Hint Rewrite of_chars_of chars_of_of chars_of_app str_len_app as_bytes_from from_bytes_as : psky.
#[export] Hint Resolve str_len_nonneg : psky.

Lemma all_bytes_app p a b : all_bytes p (a +:+ b) = all_bytes p a && all_bytes p b.
Proof. unfold all_bytes. rewrite chars_of_app. apply forallb_app. Qed.

Lemma all_bytes_spec p s : all_bytes p s = true ↔ ∀ c, c ∈ chars_of s → p c = true.
Proof. unfold all_bytes. rewrite forallb_forall. by setoid_rewrite list_elem_of_In. Qed.

Lemma all_bytes_impl (p q : ascii → bool) s :
  (∀ c, p c = true → q c = true) → all_bytes p s = true → all_bytes q s = true.
Proof. rewrite !all_bytes_spec. eauto. Qed.

Lemma strip_prefix_Some p s r : strip_prefix p s = Some r ↔ s = p +:+ r.
Proof.
  revert s. induction p as [|c p IH]; intros s; simpl; [split; by intros [= ->]|].
  destruct s as [|d s]; simpl; [done|].
  destruct (Ascii.eqb_spec c d) as [->|].
  - rewrite IH. split; [by intros ->|by intros [= ->]].
  - split; [done|]. by intros [= -> ->].
Qed.

Lemma strip_prefix_app p r : strip_prefix p (p +:+ r) = Some r.
Proof. by apply strip_prefix_Some. Qed.
#[export] Hint Rewrite strip_prefix_app : psky.

Lemma split_once_Some c s a b :
  split_once c s = Some (a, b) ↔ s = a +:+ String c b ∧ c ∉ chars_of a.
Proof.
  revert a. induction s as [|d s IH]; intros a; simpl.
  { split; [done|]. by destruct a; intros [[=] _]. }
  destruct (Ascii.eqb_spec c d) as [->|Hcd].
  - split.
    + intros [= <- <-]. split; [done|]. apply not_elem_of_nil.
    + intros [Ha Hn]. destruct a as [|e a]; simpl in *.
      * by injection Ha as ->.
      * injection Ha as <- _. by destruct Hn; left.
  - rewrite bind_Some. split.
    + intros ([x y] & Hs & [= <- <-]). apply IH in Hs as [-> Hn].
      split; [done|]. simpl. by rewrite not_elem_of_cons.
    + intros [Ha Hn]. destruct a as [|e a]; simpl in *; injection Ha as -> Ha; [done|].
      apply not_elem_of_cons in Hn as [_ Hn].
      exists (a, b). split; [by apply IH|done].
Qed.

Lemma split_on_nonempty c s : split_on c s ≠ [].
Proof. destruct s as [|d s]; simpl; [done|]. by destruct (Ascii.eqb c d), (split_on c s). Qed.

Lemma rsplit_next_Some c s : is_Some (rsplit_next c s).
Proof. unfold rsplit_next. apply last_is_Some, split_on_nonempty. Qed.

Lemma parse_digits_bound radix max l acc n :
  0 ≤ radix → 0 ≤ acc ≤ max → parse_digits radix max acc l = Some n → acc ≤ n ∧ n ≤ max ∨ l ≠ [] ∧ 0 ≤ n ≤ max.
Proof.
  intros Hr. revert acc. induction l as [|c l IH]; intros acc Hacc; simpl.
  - intros [= <-]. lia.
  - destruct (digit_value radix c) as [d|] eqn:Hd; simpl; [|done].
    assert (0 ≤ d).
    { revert Hd. unfold digit_value, is_ascii_digit, is_ascii_lowercase, is_ascii_uppercase, in_range.
      repeat (case_match; simpl; try done); intros [= <-]; boolify; lia. }
    destruct (Z.ltb_spec max (acc * radix + d)); [done|]. intros Hp.
    right. split; [done|]. apply IH in Hp; [|nia]. destruct Hp; nia.
Qed.

Lemma from_str_radix_bound radix max s n :
  0 ≤ radix → 0 ≤ max → from_str_radix radix max s = Some n → 0 ≤ n ≤ max.
Proof.
  intros Hr Hm. unfold from_str_radix.
  destruct (chars_of s) as [|c l]; [done|].
  destruct (Ascii.eqb c "+"%char); [destruct l; [done|]|];
    intros H; apply parse_digits_bound in H; lia.
Qed.

Lemma parse_u64_bound s n : parse_u64 s = Some n → is_u64 n.
Proof. apply from_str_radix_bound; done. Qed.

(** ** Byte-lexicographic order ([Ord for str]) *)

Definition str_ltb (a b : string) : bool :=
  match String.compare a b with Lt => true | _ => false end.

Fixpoint chars_ltb (a b : list ascii) : bool :=
  match a, b with
  | _, [] => false
  | [], _ :: _ => true
  | c :: a, d :: b => (ascii_Z c <? ascii_Z d) || ((ascii_Z c =? ascii_Z d) && chars_ltb a b)
  end.

Lemma str_ltb_chars a b : str_ltb a b = chars_ltb (chars_of a) (chars_of b).
Proof.
  unfold str_ltb. revert b. induction a as [|c a IH]; intros [|d b]; simpl; try done.
  rewrite <-IH. unfold Ascii.compare, ascii_Z.
  destruct (N.compare_spec (Ascii.N_of_ascii c) (Ascii.N_of_ascii d)) as [E|E|E].
  - rewrite E, Z.ltb_irrefl, Z.eqb_refl. simpl. by destruct (String.compare a b).
  - by rewrite (proj2 (Z.ltb_lt _ _)) by lia.
  - rewrite (proj2 (Z.ltb_ge _ _)), (proj2 (Z.eqb_neq _ _)) by lia. done.
Qed.

Lemma ascii_Z_inj a b : ascii_Z a = ascii_Z b → a = b.
Proof.
  unfold ascii_Z. intros H. rewrite <-(Ascii.ascii_N_embedding a), <-(Ascii.ascii_N_embedding b).
  f_equal. lia.
Qed.

Lemma chars_ltb_irrefl a : chars_ltb a a = false.
Proof. induction a as [|c a IH]; simpl; [done|]. by rewrite Z.ltb_irrefl, Z.eqb_refl, IH. Qed.

Lemma chars_ltb_trans a b c : chars_ltb a b = true → chars_ltb b c = true → chars_ltb a c = true.
Proof.
  revert b c. induction a as [|x a IH]; intros [|y b] [|z c]; simpl; try done.
  rewrite !orb_true_iff, !andb_true_iff, !Z.ltb_lt, !Z.eqb_eq.
  intros [?|[? ?]] [?|[? ?]]; [left; lia..|]. right. split; [lia|eauto].
Qed.

Lemma chars_ltb_total a b : chars_ltb a b = false → chars_ltb b a = false → a = b.
Proof.
  revert b. induction a as [|x a IH]; intros [|y b]; simpl; try done.
  rewrite !orb_false_iff, !andb_false_iff, !Z.ltb_ge, !Z.eqb_neq.
  intros [? [?|?]] [? [?|?]]; try lia.
  assert (ascii_Z x = ascii_Z y) as ?%ascii_Z_inj by lia. f_equal; eauto.
Qed.

Lemma str_ltb_irrefl a : str_ltb a a = false.
Proof. rewrite str_ltb_chars. apply chars_ltb_irrefl. Qed.
Lemma str_ltb_trans a b c : str_ltb a b = true → str_ltb b c = true → str_ltb a c = true.
Proof. rewrite !str_ltb_chars. apply chars_ltb_trans. Qed.
Lemma str_ltb_total a b : str_ltb a b = false → str_ltb b a = false → a = b.
Proof. rewrite !str_ltb_chars. intros. by apply chars_of_inj, chars_ltb_total. Qed.

(** ** Round trip of decimal integers *)

Lemma digit_value_pretty n : (n < 10)%N → digit_value 10 (pretty_N_char n) = Some (Z.of_N n).
Proof.
  intros Hn. assert (n = 0 ∨ n = 1 ∨ n = 2 ∨ n = 3 ∨ n = 4 ∨ n = 5 ∨ n = 6 ∨ n = 7 ∨ n = 8 ∨ n = 9)%N as Hc by lia.
  by repeat destruct Hc as [->|Hc]; [vm_compute..|]; subst.
Qed.

Lemma parse_pretty_go max n s : Z.of_N n ≤ max →
  parse_digits 10 max 0 (chars_of (pretty_N_go n s)) = parse_digits 10 max (Z.of_N n) (chars_of s).
Proof.
  revert s. induction (N.lt_wf_0 n) as [n _ IH]; intros s Hn.
  destruct (decide (n = 0)%N) as [->|Hne]; [by rewrite pretty_N_go_0|].
  rewrite pretty_N_go_step by lia. pose proof (N.div_mod n 10 ltac:(lia)) as Hd.
  pose proof (N.mod_lt n 10 ltac:(lia)) as Hm.
  set (q := (n / 10)%N) in *. set (r := (n mod 10)%N) in *.
  rewrite IH by lia. cbn [chars_of String.list_ascii_of_string parse_digits].
  rewrite digit_value_pretty by done. cbn [mbind option_bind].
  replace (Z.of_N q * 10 + Z.of_N r) with (Z.of_N n) by lia.
  by rewrite (proj2 (Z.ltb_ge _ _)) by lia.
Qed.

Definition is_digit_char (c : ascii) : Prop := is_ascii_digit c = true.

Lemma pretty_go_digits n s :
  Forall is_digit_char (chars_of s) → Forall is_digit_char (chars_of (pretty_N_go n s)).
Proof.
  revert s. induction (N.lt_wf_0 n) as [n _ IH]; intros s Hs.
  destruct (decide (n = 0)%N) as [->|Hne]; [by rewrite pretty_N_go_0|].
  rewrite pretty_N_go_step by lia. apply IH; [apply N.div_lt; lia|]. simpl. constructor; [|done].
  pose proof (N.mod_lt n 10 ltac:(lia)) as Hm. generalize dependent (n mod 10)%N. intros k Hk.
  assert (k = 0 ∨ k = 1 ∨ k = 2 ∨ k = 3 ∨ k = 4 ∨ k = 5 ∨ k = 6 ∨ k = 7 ∨ k = 8 ∨ k = 9)%N as Hc by lia.
  by repeat destruct Hc as [->|Hc]; [vm_compute..|]; subst.
Qed.

Lemma to_string_digits n : Forall is_digit_char (chars_of (to_string n)).
Proof.
  unfold to_string, pretty, pretty_N. destruct (decide _); [by repeat constructor|].
  apply pretty_go_digits. constructor.
Qed.

Lemma to_string_nonempty n : chars_of (to_string n) ≠ [].
Proof.
  unfold to_string, pretty, pretty_N. destruct (decide _) as [|Hne]; [done|].
  intros Hn. pose proof (parse_pretty_go (Z.of_N (Z.to_N n)) (Z.to_N n) "" ltac:(done)) as Hp.
  rewrite Hn in Hp. simpl in Hp. injection Hp. lia.
Qed.

Lemma from_str_radix_to_string max n : 0 ≤ n ≤ max → from_str_radix 10 max (to_string n) = Some n.
Proof.
  intros Hn. unfold from_str_radix. pose proof (to_string_digits n) as Hd.
  destruct (chars_of (to_string n)) as [|c l] eqn:Hc; [by apply to_string_nonempty in Hc|].
  apply Forall_cons in Hd as [Hd _].
  assert (Ascii.eqb c "+" = false) as ->.
  { apply Ascii.eqb_neq. intros ->. by vm_compute in Hd. }
  rewrite <-Hc. unfold to_string, pretty, pretty_N. destruct (decide _) as [E|E].
  - assert (n = 0) as -> by lia. change (chars_of "0") with ["0"%char]. cbn [parse_digits].
    change (digit_value 10 "0") with (Some 0). cbn [mbind option_bind]. change (0 * 10 + 0) with 0.
    destruct (Z.ltb_spec max 0); [lia|done].
  - rewrite parse_pretty_go by lia. simpl. f_equal. lia.
Qed.

(** Conversely, digits without a leading zero are the text of their value. *)
Definition digits_N (l : list ascii) : N :=
  foldl (λ n c, (n * 10 + (Ascii.N_of_ascii c - 48))%N) 0%N l.

Lemma digit_facts c : is_ascii_digit c = true →
  digit_value 10 c = Some (Z.of_N (Ascii.N_of_ascii c - 48)) ∧
  (Ascii.N_of_ascii c - 48 < 10)%N ∧ pretty_N_char (Ascii.N_of_ascii c - 48) = c.
Proof.
  intros Hc. unfold digit_value. rewrite Hc. unfold is_ascii_digit, in_range, ascii_Z in *. boolify.
  assert (48 ≤ Ascii.N_of_ascii c ≤ 57)%N as Hr by lia.
  cbn [mbind option_bind]. rewrite (proj2 (Z.ltb_lt _ 10)) by lia. split_and!; [f_equal; lia|lia|].
  rewrite <-(Ascii.ascii_N_embedding c) at 2. revert Hr. generalize (Ascii.N_of_ascii c). intros k Hr.
  assert (k = 48 ∨ k = 49 ∨ k = 50 ∨ k = 51 ∨ k = 52 ∨ k = 53 ∨ k = 54 ∨ k = 55 ∨ k = 56 ∨ k = 57)%N as Hk by lia.
  by repeat destruct Hk as [->|Hk]; [vm_compute..|]; subst.
Qed.

Lemma parse_digits_value max l acc n : forallb is_ascii_digit l = true →
  parse_digits 10 max (Z.of_N acc) l = Some n →
  n = Z.of_N (foldl (λ n c, (n * 10 + (Ascii.N_of_ascii c - 48))%N) acc l).
Proof.
  revert acc. induction l as [|c l IH]; intros acc Hl Hp; cbn [forallb parse_digits foldl] in *; [by injection Hp|].
  boolify. destruct (digit_facts c ltac:(done)) as (Hd & _ & _). rewrite Hd in Hp. cbn [mbind option_bind] in Hp.
  destruct (_ <? _); [done|]. apply IH; [done|]. rewrite <-Hp. f_equal. lia.
Qed.

Lemma pretty_go_digits_N l s : forallb is_ascii_digit l = true → head l ≠ Some "0"%char →
  pretty_N_go (digits_N l) s = of_chars l +:+ s.
Proof.
  revert s. induction l as [|c l IH] using rev_ind; intros s Hl Hz; [done|].
  rewrite forallb_app in Hl. cbn [forallb] in Hl. boolify.
  destruct (digit_facts c ltac:(done)) as (_ & Hlt & Hc).
  unfold digits_N. rewrite foldl_app. cbn [foldl]. fold (digits_N l).
  set (d := (Ascii.N_of_ascii c - 48)%N) in *.
  assert (of_chars (l ++ [c]) +:+ s = of_chars l +:+ String c s) as ->.
  { apply chars_of_inj. rewrite !chars_of_app. rewrite !chars_of_of, <-app_assoc.
    change (chars_of (String c s)) with (c :: chars_of s). by rewrite <-(chars_of_of [c]), !chars_of_of. }
  destruct (decide (digits_N l * 10 + d = 0)%N) as [Hzero|Hne].
  - (* a digit that is zero cannot be alone, nor follow a zero value *)
    exfalso. destruct l as [|c0 l0].
    + cbn in Hz. apply Hz. f_equal. rewrite <-Hc. by replace d with 0%N by lia.
    + assert (digits_N (c0 :: l0) = 0)%N as Hz0 by lia.
      assert (pretty_N_go (digits_N (c0 :: l0)) "" = of_chars (c0 :: l0) +:+ "") as Hp by (apply IH; done).
      by rewrite Hz0, pretty_N_go_0 in Hp.
  - rewrite pretty_N_go_step by lia.
    replace ((digits_N l * 10 + d) `div` 10)%N with (digits_N l)
      by (rewrite N.div_add_l, N.div_small by lia; lia).
    replace ((digits_N l * 10 + d) `mod` 10)%N with d
      by (rewrite N.add_comm, N.Div0.mod_add, N.mod_small by lia; done).
    rewrite Hc. apply IH; [done|]. by destruct l.
Qed.

(** A parsed integer written with digits only and no leading zero is in
    canonical form. *)
Lemma parse_u64_canonical s n : all_bytes is_ascii_digit s = true → starts_with "0" s = false →
  parse_u64 s = Some n → s = to_string n.
Proof.
  unfold parse_u64, from_str_radix, all_bytes, starts_with, first_byte. intros Hd Hz Hp. boolify.
  destruct (chars_of s) as [|c l] eqn:Hs; [done|].
  assert (Ascii.eqb c "+" = false) as Hplus.
  { apply Ascii.eqb_neq. intros ->. by vm_compute in Hd. }
  rewrite Hplus in Hp. apply (parse_digits_value _ _ 0%N) in Hp; [|done].
  fold (digits_N (c :: l)) in Hp. subst n.
  pose proof (pretty_go_digits_N (c :: l) "" Hd Hz) as Hg.
  unfold to_string, pretty, pretty_N. rewrite N2Z.id. destruct (decide _) as [H0|H0].
  { by rewrite H0, pretty_N_go_0 in Hg. }
  rewrite Hg, <-Hs, of_chars_of. apply chars_of_inj. rewrite chars_of_app. by rewrite app_nil_r.
Qed.

Lemma pretty_go_no_zero n s : (0 < n)%N → head (chars_of (pretty_N_go n s)) ≠ Some "0"%char.
Proof.
  revert s. induction (N.lt_wf_0 n) as [n _ IH]; intros s Hn.
  rewrite pretty_N_go_step by lia. destruct (decide (n / 10 = 0)%N) as [Hq|Hq].
  - rewrite Hq, pretty_N_go_0. pose proof (N.div_mod n 10 ltac:(lia)) as Hd. rewrite Hq in Hd.
    pose proof (N.mod_lt n 10 ltac:(lia)) as Hm. generalize dependent (n mod 10)%N. intros k Hd Hk.
    assert (k = 1 ∨ k = 2 ∨ k = 3 ∨ k = 4 ∨ k = 5 ∨ k = 6 ∨ k = 7 ∨ k = 8 ∨ k = 9)%N as Hc by lia.
    by repeat destruct Hc as [->|Hc]; [vm_compute..|]; subst.
  - apply IH; [apply N.div_lt; lia|by apply N.neq_0_lt_0].
Qed.

Lemma to_string_no_zero n : 0 < n → starts_with "0" (to_string n) = false.
Proof.
  intros Hn. apply bool_decide_eq_false. unfold first_byte, to_string, pretty, pretty_N.
  destruct (decide _); [lia|]. apply pretty_go_no_zero. lia.
Qed.

Lemma to_string_all_digits n : all_bytes is_ascii_digit (to_string n) = true.
Proof. apply all_bytes_spec. intros c Hc. pose proof (to_string_digits n) as Hd. rewrite Forall_forall in Hd. by apply Hd. Qed.

Lemma strip_suffix_Some p s r : strip_suffix p s = Some r ↔ s = r +:+ p.
Proof.
  assert (∀ a, chars_of (str_rev a) = reverse (chars_of a)) as Hrev.
  { intros a. unfold str_rev. by rewrite chars_of_of. }
  unfold strip_suffix. split.
  - intros Hs. destruct (strip_prefix (str_rev p) (str_rev s)) as [q|] eqn:Hq; simplify_eq/=.
    apply strip_prefix_Some in Hq. apply (f_equal chars_of) in Hq.
    rewrite Hrev, chars_of_app, Hrev in Hq. apply (f_equal reverse) in Hq.
    rewrite reverse_involutive, reverse_app, reverse_involutive in Hq.
    apply chars_of_inj. by rewrite chars_of_app, Hrev, Hq.
  - intros ->. assert (str_rev (r +:+ p) = str_rev p +:+ str_rev r) as ->.
    { apply chars_of_inj. by rewrite Hrev, !chars_of_app, !Hrev, reverse_app. }
    rewrite strip_prefix_app. simpl. f_equal. apply chars_of_inj. by rewrite !Hrev, reverse_involutive.
Qed.

(** ** [str::chars]

    The code points of a (valid UTF-8) string. *)
Fixpoint decode_utf8 (l : list ascii) : list Z :=
  let low c := ascii_Z c mod 64 in
  match l with
  | [] => []
  | a :: l1 =>
      let n := ascii_Z a in
      if n <? 0x80 then n :: decode_utf8 l1 else
      match l1 with
      | [] => [n]
      | b :: l2 =>
          if n <? 0xe0 then ((n mod 32) * 64 + low b) :: decode_utf8 l2 else
          match l2 with
          | [] => [n]
          | c :: l3 =>
              if n <? 0xf0 then ((n mod 16) * 4096 + low b * 64 + low c) :: decode_utf8 l3 else
              match l3 with
              | [] => [n]
              | d :: l4 => ((n mod 8) * 262144 + low b * 4096 + low c * 64 + low d) :: decode_utf8 l4
              end
          end
      end
  end.
Definition code_points (s : string) : list Z := decode_utf8 (chars_of s).

(** [char::is_control] (category Cc), [char::is_whitespace] (White_Space). *)
Definition is_control (c : Z) : bool := (c <? 32) || ((127 <=? c) && (c <=? 159)).
Definition is_whitespace (c : Z) : bool :=
  ((9 <=? c) && (c <=? 13)) || ((8192 <=? c) && (c <=? 8202))
  || bool_decide (c ∈ [32; 133; 160; 5760; 8232; 8233; 8239; 8287; 12288]).

(** [s.trim().is_empty()] *)
Definition trims_to_empty (s : string) : bool := forallb is_whitespace (code_points s).

Example code_points_accents : code_points "aé€" = [97; 233; 8364].
Proof. reflexivity. Qed.

(** ** [str::trim]

    ASCII white space: of the callers one requires printable ASCII, and the
    other has room for one byte around what it keeps. *)
Definition is_trimmed_space (c : ascii) : bool := in_range 9 13 c || Ascii.eqb c " ".
Fixpoint trim_start_chars (l : list ascii) : list ascii :=
  match l with
  | c :: l' => if is_trimmed_space c then trim_start_chars l' else l
  | [] => []
  end.
Definition trim (s : string) : string :=
  of_chars (reverse (trim_start_chars (reverse (trim_start_chars (chars_of s))))).
