(* ===== verification/IpAddr.v ===== *)
(** * [std::net::IpAddr]

    The address parser of the standard library ([FromStr for IpAddr]), with the
    predicates the sources apply to parsed addresses. *)

From S2P Require Import Prelude RustStd.

(** [Ipv4Addr] by its octets, [Ipv6Addr] by its eight 16-bit segments. *)
Inductive IpAddr :=
| V4 (octets : list Z)
| V6 (segments : list Z).

#[export] Instance IpAddr_eq_dec : EqDecision IpAddr.
Proof. solve_decision. Defined.

(** [is_loopback]: [127.0.0.0/8] and [::1]. *)
Definition ip_is_loopback (ip : IpAddr) : bool :=
  match ip with
  | V4 octets => bool_decide (head octets = Some 127)
  | V6 segments => bool_decide (segments = [0; 0; 0; 0; 0; 0; 0; 1])
  end.

(** [is_multicast]: [224.0.0.0/4] and [ff00::/8]. *)
Definition ip_is_multicast (ip : IpAddr) : bool :=
  match ip with
  | V4 octets => match octets with a :: _ => (224 <=? a) && (a <=? 239) | [] => false end
  | V6 segments => match segments with a :: _ => Z.land a 0xff00 =? 0xff00 | [] => false end
  end.

(** ** The parser: readers over the remaining input, which do not move when
    they fail. *)

Definition Reader (A : Type) := list ascii → option (A * list ascii).

(** The digits at the head of the input. *)
Fixpoint read_digits (radix : Z) (l : list ascii) : list Z * list ascii :=
  match l with
  | c :: rest =>
      match digit_value radix c with
      | Some d => let '(ds, rest) := read_digits radix rest in (d :: ds, rest)
      | None => ([], l)
      end
  | [] => ([], [])
  end.

(** [read_number(radix, max_digits, allow_zero_prefix)] at a width. *)
Definition read_number (radix : Z) (max_digits : option Z) (max : Z) (allow_zero_prefix : bool) : Reader Z := λ l,
  let '(ds, rest) := read_digits radix l in
  let value := foldl (λ n d, n * radix + d) 0 ds in
  if (len ds =? 0) || from_option (λ m, m <? len ds) false max_digits || (max <? value)
     || (negb allow_zero_prefix && bool_decide (head ds = Some 0) && (1 <? len ds))
  then None else Some (value, rest).

Definition read_given_char (c : ascii) : Reader () := λ l,
  match l with d :: rest => if Ascii.eqb c d then Some ((), rest) else None | [] => None end.

(** [read_separator(sep, index, inner)]: no separator before the first item. *)
Definition read_separator {A} (sep : ascii) (index : nat) (inner : Reader A) : Reader A := λ l,
  match index with
  | O => inner l
  | S _ => '(_, l) ← read_given_char sep l; inner l
  end.

Definition read_ipv4_addr : Reader (list Z) := λ l,
  let octet i := read_separator "." i (read_number 10 (Some 3) 255 false) in
  '(a, l) ← octet 0%nat l; '(b, l) ← octet 1%nat l; '(c, l) ← octet 2%nat l; '(d, l) ← octet 3%nat l;
  Some ([a; b; c; d], l).

(** [read_groups]: at most [limit] segments, an embedded IPv4 address counting
    for two and ending the run. *)
Fixpoint read_groups (left_over : nat) (i limit : nat) (l : list ascii) : list Z * bool * list ascii :=
  match left_over with
  | O => ([], false, l)
  | S left_over =>
      match (if decide (i < limit - 1)%nat then read_separator ":" i read_ipv4_addr l else None) with
      | Some (octets, l) =>
          match octets with
          | [a; b; c; d] => ([a * 256 + b; c * 256 + d], true, l)
          | _ => ([], true, l)
          end
      | None =>
          match read_separator ":" i (read_number 16 (Some 4) 65535 true) l with
          | Some (g, l) => let '(gs, v4, l) := read_groups left_over (S i) limit l in (g :: gs, v4, l)
          | None => ([], false, l)
          end
      end
  end.

Definition read_ipv6_addr : Reader (list Z) := λ l,
  let '(head, head_ipv4, l) := read_groups 8 0 8 l in
  if len head =? 8 then Some (head, l) else
  if head_ipv4 then None else
  '(_, l) ← read_given_char ":" l;
  '(_, l) ← read_given_char ":" l;
  let limit := (8 - (length head + 1))%nat in
  let '(tail, _, l) := read_groups limit 0 limit l in
  Some (head ++ repeat 0 (8 - length head - length tail) ++ tail, l).

(** [str::parse::<IpAddr>()]: all of the input must be read. *)
Definition parse_ip (s : string) : option IpAddr :=
  let whole {A} (r : option (A * list ascii)) : option A := '(a, rest) ← r; guard (rest = []);; Some a in
  match read_ipv4_addr (chars_of s) with
  | Some r => V4 <$> whole (Some r)
  | None => V6 <$> whole (read_ipv6_addr (chars_of s))
  end.

(** ** Socket addresses

    The scope of an IPv6 socket address is kept; a flow label cannot be
    written or parsed. *)

Record SocketAddr := mkSocketAddr { sa_ip : IpAddr; sa_port : Z; sa_scope : Z }.

#[export] Instance SocketAddr_eq_dec : EqDecision SocketAddr.
Proof. solve_decision. Defined.

Definition read_port : Reader Z := λ l,
  '(_, l) ← read_given_char ":" l; read_number 10 None 65535 true l.

Definition read_socket_addr_v4 : Reader SocketAddr := λ l,
  '(ip, l) ← read_ipv4_addr l; '(port, l) ← read_port l; Some (mkSocketAddr (V4 ip) port 0, l).

Definition read_scope_id : Reader Z := λ l,
  '(_, l) ← read_given_char "%" l; read_number 10 None 4294967295 true l.

Definition read_socket_addr_v6 : Reader SocketAddr := λ l,
  '(_, l) ← read_given_char "[" l;
  '(ip, l) ← read_ipv6_addr l;
  let '(scope, l) := default (0, l) (read_scope_id l) in
  '(_, l) ← read_given_char "]" l;
  '(port, l) ← read_port l;
  Some (mkSocketAddr (V6 ip) port scope, l).

(** [str::parse::<SocketAddr>()] *)
Definition parse_socket_addr (s : string) : option SocketAddr :=
  '(addr, rest) ←
    match read_socket_addr_v4 (chars_of s) with
    | Some r => Some r
    | None => read_socket_addr_v6 (chars_of s)
    end;
  guard (rest = []);; Some addr.

Definition hex_digit (n : Z) : ascii := if n <? 10 then ascii_of_nat (Z.to_nat (48 + n)) else ascii_of_nat (Z.to_nat (87 + n)).
(** [{:x}] of a 16-bit segment *)
Definition hex_segment (n : Z) : string :=
  let digits := [hex_digit (n / 4096); hex_digit (n / 256 mod 16); hex_digit (n / 16 mod 16)] in
  let fix skip l := match l with c :: l' => if Ascii.eqb c "0" then skip l' else l | [] => [] end in
  of_chars (skip digits ++ [hex_digit (n mod 16)]).

Definition fmt_octets (octets : list Z) : string := String.concat "." (to_string <$> octets).
Definition fmt_segments (segments : list Z) : string := String.concat ":" (hex_segment <$> segments).

(** The longest run of zero segments, the first among equals: its start and length. *)
Fixpoint longest_zeros (i : nat) (current best : nat * nat) (segments : list Z) : nat * nat :=
  match segments with
  | [] => best
  | segment :: segments =>
      if segment =? 0 then
        let current := (if decide (current.2 = 0%nat) then i else current.1, S current.2) in
        longest_zeros (S i) current (if decide (best.2 < current.2)%nat then current else best) segments
      else longest_zeros (S i) (0%nat, 0%nat) best segments
  end.

Definition fmt_ipv6 (segments : list Z) : string :=
  match segments with
  | [0; 0; 0; 0; 0; 65535; ab; cd] =>
      "::ffff:" +:+ fmt_octets [ab / 256; ab mod 256; cd / 256; cd mod 256]
  | _ =>
      let '(start, n) := longest_zeros 0 (0%nat, 0%nat) (0%nat, 0%nat) segments in
      if decide (1 < n)%nat
      then fmt_segments (take start segments) +:+ "::" +:+ fmt_segments (drop (start + n) segments)
      else fmt_segments segments
  end.

(** [SocketAddr::to_string] *)
Definition socket_addr_to_string (addr : SocketAddr) : string :=
  match sa_ip addr with
  | V4 octets => fmt_octets octets +:+ ":" +:+ to_string (sa_port addr)
  | V6 segments =>
      "[" +:+ fmt_ipv6 segments +:+ (if sa_scope addr =? 0 then "" else "%" +:+ to_string (sa_scope addr))
      +:+ "]:" +:+ to_string (sa_port addr)
  end.

(** [host == "localhost" || host.parse::<IpAddr>().is_ok_and(|ip| ip.is_loopback())] *)
Definition loopback_host (host : string) : bool :=
  bool_decide (host = "localhost") || from_option ip_is_loopback false (parse_ip host).

Example parse_ip_v4 : parse_ip "127.0.0.1" = Some (V4 [127; 0; 0; 1]).
Proof. reflexivity. Qed.
Example parse_ip_v4_zero : parse_ip "127.00.0.1" = None.
Proof. reflexivity. Qed.
Example parse_ip_v6 : parse_ip "::1" = Some (V6 [0; 0; 0; 0; 0; 0; 0; 1]).
Proof. reflexivity. Qed.
Example parse_ip_mapped : parse_ip "::ffff:127.0.0.1" = Some (V6 [0; 0; 0; 0; 0; 65535; 32512; 1]).
Proof. reflexivity. Qed.
Example parse_ip_bracketed : parse_ip "[::1]" = None.
Proof. reflexivity. Qed.

Example socket_v4 : parse_socket_addr "127.0.0.1:8788" = Some (mkSocketAddr (V4 [127; 0; 0; 1]) 8788 0).
Proof. reflexivity. Qed.
Example socket_v6 : parse_socket_addr "[fe80::1%3]:80" = Some (mkSocketAddr (V6 [65152; 0; 0; 0; 0; 0; 0; 1]) 80 3).
Proof. reflexivity. Qed.
Example socket_v6_text :
  socket_addr_to_string (mkSocketAddr (V6 [65152; 0; 0; 0; 0; 0; 0; 1]) 80 3) = "[fe80::1%3]:80".
Proof. reflexivity. Qed.
Example socket_v6_text_run :
  socket_addr_to_string (mkSocketAddr (V6 [8193; 3512; 0; 0; 1; 0; 0; 0]) 80 0) = "[2001:db8:0:0:1::]:80".
Proof. reflexivity. Qed.

(** ** The text of an IPv4 socket address reads back *)

Definition not_digit_head (l : list ascii) : Prop := match l with c :: _ => digit_value 10 c = None | [] => True end.

Lemma read_digits_app l ds rest : read_digits 10 l = (ds, []) → not_digit_head rest →
  read_digits 10 (l ++ rest) = (ds, rest).
Proof.
  revert ds. induction l as [|c l IH]; intros ds Hl Hr; cbn [read_digits app] in *.
  - injection Hl as <-. destruct rest as [|c rest]; [done|]. cbn [read_digits not_digit_head] in *. by rewrite Hr.
  - destruct (digit_value 10 c); [|done]. destruct (read_digits 10 l) as [ds' rest'] eqn:Hd.
    injection Hl as <- ->. by rewrite (IH ds').
Qed.

Lemma read_number_app max_digits max zero l n rest :
  read_number 10 max_digits max zero l = Some (n, []) → not_digit_head rest →
  read_number 10 max_digits max zero (l ++ rest) = Some (n, rest).
Proof.
  unfold read_number. destruct (read_digits 10 l) as [ds r] eqn:Hd. intros Hn Hr.
  assert (r = []) as -> by (destruct (_ || _); congruence).
  rewrite (read_digits_app _ _ _ Hd Hr). destruct (_ || _); [done|]. congruence.
Qed.

Lemma parse_digits_read max acc l m : parse_digits 10 max acc l = Some m →
  ∃ ds, read_digits 10 l = (ds, []) ∧ foldl (λ n d, n * 10 + d) acc ds = m ∧ len ds = len l ∧ (l ≠ [] → m ≤ max).
Proof.
  revert acc. induction l as [|c l IH]; intros acc Hp; cbn [parse_digits read_digits] in *.
  - injection Hp as <-. by exists [].
  - destruct (digit_value 10 c) as [d|]; [|done]. cbn [mbind option_bind] in Hp.
    destruct (Z.ltb_spec max (acc * 10 + d)); [done|].
    destruct (IH _ Hp) as (ds & -> & Hf & Hl & Hm). exists (d :: ds). cbn [foldl]. autorewrite with psky.
    split_and!; [done|done|lia|]. intros _. destruct l as [|c' l]; [|by apply Hm].
    cbn [parse_digits] in Hp. by injection Hp as <-.
Qed.

Lemma to_string_parse n max : 0 ≤ n ≤ max → parse_digits 10 max 0 (chars_of (to_string n)) = Some n.
Proof.
  intros Hn. pose proof (from_str_radix_to_string max n Hn) as Hp. unfold from_str_radix in Hp.
  pose proof (to_string_digits n) as Hd. destruct (chars_of (to_string n)) as [|c l]; [done|].
  apply Forall_cons in Hd as [Hd _]. destruct (Ascii.eqb c "+") eqn:Hc; [|done].
  apply Ascii.eqb_eq in Hc as ->. by vm_compute in Hd.
Qed.

(** A number within the width is read back from its text when it has few
    enough digits. *)
Lemma read_to_string max_digits max n zero : 0 ≤ n ≤ max →
  from_option (λ m, str_len (to_string n) ≤ m) True max_digits →
  (zero = false → str_len (to_string n) = 1 ∨ starts_with "0" (to_string n) = false) →
  read_number 10 max_digits max zero (chars_of (to_string n)) = Some (n, []).
Proof.
  intros Hn Hlen Hzero. destruct (parse_digits_read _ _ _ _ (to_string_parse n max Hn)) as (ds & Hd & Hf & Hl & _).
  unfold read_number. rewrite Hd, Hf. pose proof (to_string_nonempty n) as Hne.
  unfold str_len in *. rewrite <-chars_of_length in *. unfold len in *.
  assert (Z.of_nat (length ds) =? 0 = false) as ->.
  { apply Z.eqb_neq. destruct (chars_of (to_string n)); [done|simpl in *; lia]. }
  assert (from_option (λ m, m <? Z.of_nat (length ds)) false max_digits = false) as ->.
  { destruct max_digits; cbn in *; [apply Z.ltb_ge; lia|done]. }
  rewrite (proj2 (Z.ltb_ge max n)) by lia. cbn [orb].
  destruct zero; [done|]. cbn [negb andb]. destruct (Hzero eq_refl) as [H1|H0].
  - rewrite (proj2 (Z.ltb_ge 1 _)) by lia. by rewrite andb_false_r.
  - unfold starts_with, first_byte in H0. boolify. destruct (chars_of (to_string n)) as [|c l]; [done|].
    cbn [read_digits] in Hd. destruct (digit_value 10 c) as [d|] eqn:Hdc; [|by injection Hd as <-].
    destruct (read_digits 10 l). injection Hd as <- _. rewrite bool_decide_false; [done|].
    cbn [head]. intros [= ->]. apply H0. cbn [head]. f_equal.
    unfold digit_value in Hdc. destruct (is_ascii_digit c) eqn:Hdig.
    + cbn [mbind option_bind] in Hdc. destruct (_ <? 10); [|done]. injection Hdc as Hdc.
      apply ascii_Z_inj. change (ascii_Z "0") with 48. lia.
    + unfold is_ascii_lowercase, is_ascii_uppercase, in_range in *.
      destruct (_ && _) eqn:Hlow; cbn [mbind option_bind] in Hdc;
        [boolify; destruct (Z.ltb_spec (ascii_Z c - 87) 10); [lia|done]|].
      destruct (_ && _) eqn:Hup in Hdc; cbn [mbind option_bind] in Hdc; [|done].
      boolify. destruct (Z.ltb_spec (ascii_Z c - 55) 10); [lia|done].
Qed.

Lemma octet_text : forallb (λ k, (str_len (to_string (Z.of_nat k)) <=? 3)
  && ((str_len (to_string (Z.of_nat k)) =? 1) || negb (starts_with "0" (to_string (Z.of_nat k))))) (seq 0 256) = true.
Proof. vm_compute. reflexivity. Qed.

Lemma read_octet n rest : 0 ≤ n < 256 → not_digit_head rest →
  read_number 10 (Some 3) 255 false (chars_of (to_string n) ++ rest) = Some (n, rest).
Proof.
  intros Hn Hr. pose proof octet_text as Ht. rewrite forallb_forall in Ht.
  specialize (Ht (Z.to_nat n) ltac:(apply in_seq; lia)). cbn beta in Ht. rewrite Z2Nat.id in Ht by lia. boolify.
  apply read_number_app; [|done]. apply read_to_string; [lia|cbn; lia|intros _].
  match goal with Hx : _ || _ = true |- _ => apply orb_true_iff in Hx as [Hx|Hx]; boolify; auto end.
Qed.

Lemma read_port_text n : 0 ≤ n < 65536 → read_port (chars_of (":" +:+ to_string n)) = Some (n, []).
Proof.
  intros Hn. rewrite chars_of_app. unfold read_port. cbn [app chars_of String.list_ascii_of_string read_given_char].
  change (chars_of ":" ++ chars_of (to_string n)) with (":"%char :: chars_of (to_string n)).
  cbn [read_given_char Ascii.eqb Bool.eqb mbind option_bind].
  apply read_to_string; [lia|done|done].
Qed.

Lemma socket_addr_v4_reads_back a b c d port :
  0 ≤ a < 256 → 0 ≤ b < 256 → 0 ≤ c < 256 → 0 ≤ d < 256 → 0 ≤ port < 65536 →
  let addr := mkSocketAddr (V4 [a; b; c; d]) port 0 in
  parse_socket_addr (socket_addr_to_string addr) = Some addr.
Proof.
  intros Ha Hb Hc Hd Hp. cbn zeta. unfold parse_socket_addr, socket_addr_to_string. cbn [sa_ip sa_port].
  assert (chars_of (fmt_octets [a; b; c; d] +:+ ":" +:+ to_string port) =
    chars_of (to_string a) ++ "."%char :: chars_of (to_string b) ++ "."%char :: chars_of (to_string c) ++
    "."%char :: chars_of (to_string d) ++ chars_of (":" +:+ to_string port)) as ->.
  { unfold fmt_octets. cbn [fmap list_fmap String.concat]. rewrite !chars_of_app, <-!app_assoc. done. }
  unfold read_socket_addr_v4, read_ipv4_addr. cbn [read_separator].
  rewrite read_octet by done. cbn [mbind option_bind read_given_char Ascii.eqb Bool.eqb].
  rewrite read_octet by done. cbn [mbind option_bind read_given_char Ascii.eqb Bool.eqb].
  rewrite read_octet by done. cbn [mbind option_bind read_given_char Ascii.eqb Bool.eqb].
  rewrite read_octet by done. cbn [mbind option_bind].
  rewrite read_port_text by done. done.
Qed.
