(* ===== verification/IpAddrText.v ===== *)
(** * The text of a socket address reads back

    [Display] and [FromStr] of [std::net::SocketAddr]: what the parser accepts
    is well formed, and the text of a well-formed address parses to it. *)

From S2P Require Import Prelude RustStd IpAddr.

Definition octets_wf (l : list Z) : Prop := length l = 4%nat ∧ Forall (λ n, 0 ≤ n < 256) l.
Definition segments_wf (l : list Z) : Prop := length l = 8%nat ∧ Forall (λ n, 0 ≤ n < 65536) l.
Definition socket_addr_wf (a : SocketAddr) : Prop :=
  0 ≤ sa_port a < 65536 ∧
  match sa_ip a with
  | V4 octets => octets_wf octets ∧ sa_scope a = 0
  | V6 segments => segments_wf segments ∧ 0 ≤ sa_scope a < 4294967296
  end.

(** ** Segments *)

(** A character that ends a group: it is no digit and no dot. *)
Definition closes (l : list ascii) : Prop :=
  match l with c :: _ => digit_value 16 c = None ∧ c ≠ "."%char | [] => True end.

Lemma digit_10_16 c : digit_value 16 c = None → digit_value 10 c = None.
Proof.
  unfold digit_value. destruct (if is_ascii_digit c then _ else _) as [d|]; [|done]. cbn [mbind option_bind].
  destruct (Z.ltb_spec d 16); [done|]. by destruct (Z.ltb_spec d 10); [lia|].
Qed.

Lemma read_digits_16 l ds rest : read_digits 16 l = (ds, []) → closes rest → read_digits 16 (l ++ rest) = (ds, rest).
Proof.
  revert ds. induction l as [|c l IH]; intros ds Hl Hr; cbn [read_digits app] in *.
  - injection Hl as <-. destruct rest as [|c rest]; [done|]. cbn [read_digits]. by rewrite (proj1 Hr).
  - destruct (digit_value 16 c); [|done]. destruct (read_digits 16 l) as [ds' rest'].
    injection Hl as <- ->. by rewrite (IH ds').
Qed.

Definition hex_digit_ok (d : Z) : bool :=
  bool_decide (digit_value 16 (hex_digit d) = Some d) && negb (Ascii.eqb (hex_digit d) ".")
  && Bool.eqb (Ascii.eqb (hex_digit d) "0") (d =? 0).
Lemma hex_digit_spec d : 0 ≤ d < 16 →
  digit_value 16 (hex_digit d) = Some d ∧ hex_digit d ≠ "."%char ∧ Ascii.eqb (hex_digit d) "0" = (d =? 0).
Proof.
  intros Hd. assert (Forall (λ k, hex_digit_ok (Z.of_nat k) = true) (seq 0 16)) as Hall
    by (repeat constructor; reflexivity).
  rewrite Forall_forall in Hall. specialize (Hall (Z.to_nat d)). cbn beta in Hall.
  rewrite Z2Nat.id in Hall by lia. specialize (Hall ltac:(apply elem_of_seq; lia)).
  unfold hex_digit_ok in Hall. boolify. split_and!; [done| |by apply Bool.eqb_prop].
  intros Heq. by rewrite Heq in *.
Qed.

(** The digits of a segment without its leading zeros. *)
Lemma segment_text n : 0 ≤ n < 65536 →
  ∃ ds, read_digits 16 (chars_of (hex_segment n)) = (ds, []) ∧ foldl (λ n d, n * 16 + d) 0 ds = n ∧
    1 ≤ len ds ≤ 4 ∧ Forall (λ c, c ≠ "."%char) (chars_of (hex_segment n)).
Proof.
  intros Hn.
  assert (∃ a b c d, n / 4096 = a ∧ n / 256 mod 16 = b ∧ n / 16 mod 16 = c ∧ n mod 16 = d ∧
    n = 4096 * a + 256 * b + 16 * c + d ∧ 0 ≤ a < 16 ∧ 0 ≤ b < 16 ∧ 0 ≤ c < 16 ∧ 0 ≤ d < 16)
    as (a & b & c & d & Ha & Hb & Hc & Hd & Hsum & Ra & Rb & Rc & Rd).
  { do 4 eexists. split_and!; [done..| | | | | | | | |]; Z.to_euclidean_division_equations; lia. }
  unfold hex_segment. rewrite Ha, Hb, Hc, Hd, chars_of_of.
  destruct (hex_digit_spec a Ra) as (Va & Na & ->), (hex_digit_spec b Rb) as (Vb & Nb & ->),
    (hex_digit_spec c Rc) as (Vc & Nc & ->), (hex_digit_spec d Rd) as (Vd & Nd & _).
  destruct (Z.eqb_spec a 0), (Z.eqb_spec b 0), (Z.eqb_spec c 0); cbn [app read_digits];
    rewrite ?Va, ?Vb, ?Vc, ?Vd; eexists; (split_and!; [reflexivity|cbn; lia|unfold len; cbn; lia..|by repeat constructor]).
Qed.

Lemma read_segment n rest : 0 ≤ n < 65536 → closes rest →
  read_number 16 (Some 4) 65535 true (chars_of (hex_segment n) ++ rest) = Some (n, rest).
Proof.
  intros Hn Hr. destruct (segment_text n Hn) as (ds & Hd & Hf & Hl & _).
  unfold read_number. rewrite (read_digits_16 _ _ _ Hd Hr), Hf. cbn [from_option].
  rewrite (proj2 (Z.eqb_neq _ _)), (proj2 (Z.ltb_ge _ _)), (proj2 (Z.ltb_ge _ _)) by lia. done.
Qed.

Lemma no_number radix m max zero l : match l with c :: _ => digit_value radix c = None | [] => True end →
  read_number radix m max zero l = None.
Proof. unfold read_number. destruct l as [|c l]; [done|]. intros Hc. cbn [read_digits]. by rewrite Hc. Qed.

Lemma digits_reach_no_dot h rest : Forall (λ c, c ≠ "."%char) h → closes rest →
  head (read_digits 10 (h ++ rest)).2 ≠ Some "."%char.
Proof.
  intros Hh Hr. induction Hh as [|c h Hc Hh IH]; cbn [app read_digits].
  - destruct rest as [|c rest]; [done|]. cbn [read_digits]. rewrite digit_10_16 by apply Hr.
    intros [= ->]. by apply Hr.
  - destruct (digit_value 10 c); [|intros [= ->]; done].
    destruct (read_digits 10 (h ++ rest)) as [ds r]. exact IH.
Qed.

Lemma read_number_rest radix m max zero l v l' : read_number radix m max zero l = Some (v, l') →
  l' = (read_digits radix l).2.
Proof. unfold read_number. destruct (read_digits radix l). destruct (_ || _); [done|]. by intros [= _ <-]. Qed.

Lemma not_ipv4 h rest : Forall (λ c, c ≠ "."%char) h → closes rest → read_ipv4_addr (h ++ rest) = None.
Proof.
  intros Hh Hr. pose proof (digits_reach_no_dot h rest Hh Hr) as Hd. unfold read_ipv4_addr.
  cbn [read_separator]. destruct (read_number 10 (Some 3) 255 false (h ++ rest)) as [[v r]|] eqn:Hn; [|done].
  apply read_number_rest in Hn. subst r. cbn [mbind option_bind].
  destruct (read_digits 10 (h ++ rest)).2 as [|c r]; [done|]. unfold read_given_char.
  destruct (Ascii.eqb "." c) eqn:Hc; [|done]. apply Ascii.eqb_eq in Hc as <-. by cbn in Hd.
Qed.

(** ** Groups *)

Fixpoint groups_text (i : nat) (gs : list Z) : list ascii :=
  match gs with
  | [] => []
  | g :: gs => (match i with O => [] | S _ => [":"%char] end) ++ chars_of (hex_segment g) ++ groups_text (S i) gs
  end.

Lemma groups_text_S i gs : groups_text (S i) gs =
  match gs with [] => [] | _ => ":"%char :: chars_of (fmt_segments gs) end.
Proof.
  revert i. induction gs as [|g gs IH]; intros i; [done|]. cbn [groups_text app]. f_equal. rewrite IH.
  unfold fmt_segments. destruct gs as [|g' gs]; [by rewrite app_nil_r|].
  cbn [fmap list_fmap String.concat]. by rewrite !chars_of_app.
Qed.

Lemma groups_text_0 gs : groups_text 0 gs = chars_of (fmt_segments gs).
Proof.
  destruct gs as [|g gs]; [done|]. cbn [groups_text app]. rewrite groups_text_S. unfold fmt_segments.
  destruct gs as [|g' gs]; [by rewrite app_nil_r|]. cbn [fmap list_fmap String.concat]. by rewrite !chars_of_app.
Qed.

Lemma groups_close i gs rest : (0 < i)%nat → closes rest → closes (groups_text i gs ++ rest).
Proof. by destruct gs, i; [..|lia|]. Qed.

(** No group can be read after [i] groups. *)
Definition stuck (i : nat) (rest : list ascii) : Prop :=
  read_separator ":" i read_ipv4_addr rest = None ∧
  read_separator ":" i (read_number 16 (Some 4) 65535 true) rest = None.

Lemma read_groups_text gs : ∀ left i limit rest, Forall (λ n, 0 ≤ n < 65536) gs → (length gs ≤ left)%nat → closes rest →
  length gs = left ∨ stuck (i + length gs) rest →
  read_groups left i limit (groups_text i gs ++ rest) = (gs, false, rest).
Proof.
  induction gs as [|g gs IH]; intros left i limit rest Hgs Hlen Hr Hend.
  - destruct left as [|left]; [done|]. destruct Hend as [?|[H1 H2]]; [done|].
    cbn [read_groups groups_text app]. rewrite Nat.add_0_r in H1, H2. rewrite H1, H2. by destruct (decide _).
  - destruct left as [|left]; [cbn in Hlen; lia|]. apply Forall_cons in Hgs as [Hg Hgs]. cbn [length] in *.
    cbn [read_groups groups_text]. rewrite <-!app_assoc. pose proof (groups_close (S i) gs rest ltac:(lia) Hr) as Hc.
    destruct (segment_text g Hg) as (_ & _ & _ & _ & Hdot).
    assert (read_separator ":" i read_ipv4_addr ((match i with O => [] | S _ => [":"%char] end) ++
      chars_of (hex_segment g) ++ groups_text (S i) gs ++ rest) = None) as ->.
    { destruct i; cbn [app read_separator read_given_char Ascii.eqb Bool.eqb mbind option_bind]; by apply not_ipv4. }
    assert (read_separator ":" i (read_number 16 (Some 4) 65535 true) ((match i with O => [] | S _ => [":"%char] end) ++
      chars_of (hex_segment g) ++ groups_text (S i) gs ++ rest) = Some (g, groups_text (S i) gs ++ rest)) as ->.
    { destruct i; cbn [app read_separator read_given_char Ascii.eqb Bool.eqb mbind option_bind]; by apply read_segment. }
    assert (length gs = left ∨ stuck (S i + length gs) rest) as Hend'.
    { destruct Hend as [?|Hs]; [left; lia|right]. by replace (S i + length gs)%nat with (i + S (length gs))%nat by lia. }
    rewrite (IH left (S i) limit rest Hgs ltac:(lia) Hr Hend'). by destruct (decide _).
Qed.

(** ** IPv6 addresses *)

(** A character after an address: it ends a group and separates none. *)
Definition ends (l : list ascii) : Prop := closes l ∧ head l ≠ Some ":"%char.

Lemma closes_digit l : closes l → match l with c :: _ => digit_value 16 c = None | [] => True end.
Proof. destruct l; [done|]. by intros []. Qed.

Lemma stuck_ends i rest : ends rest → stuck i rest.
Proof.
  intros [Hc Hh]. unfold stuck. destruct i; cbn [read_separator].
  - split; [apply (not_ipv4 [] rest); by (constructor || done)|by apply no_number, closes_digit].
  - destruct rest as [|c rest]; [done|]. unfold read_given_char. destruct (Ascii.eqb ":" c) eqn:Hd; [|done].
    apply Ascii.eqb_eq in Hd as <-. by cbn in Hh.
Qed.
Lemma stuck_colons i l : stuck i (":"%char :: ":"%char :: l).
Proof.
  unfold stuck. assert (∀ l, closes (":"%char :: l)) as Hc by done.
  destruct i; cbn [read_separator read_given_char Ascii.eqb Bool.eqb mbind option_bind];
    (split; [apply (not_ipv4 []); by (constructor || done)|by apply no_number]).
Qed.

Lemma read_ipv4_text a b c d rest : octets_wf [a; b; c; d] → not_digit_head rest →
  read_ipv4_addr (chars_of (fmt_octets [a; b; c; d]) ++ rest) = Some ([a; b; c; d], rest).
Proof.
  intros [_ Hr] Hend. repeat apply Forall_cons in Hr as [? Hr].
  assert (chars_of (fmt_octets [a; b; c; d]) ++ rest =
    chars_of (to_string a) ++ "."%char :: chars_of (to_string b) ++ "."%char :: chars_of (to_string c) ++
    "."%char :: chars_of (to_string d) ++ rest) as ->.
  { unfold fmt_octets. cbn [fmap list_fmap String.concat]. rewrite !chars_of_app, <-!app_assoc. done. }
  unfold read_ipv4_addr. cbn [read_separator].
  do 3 (rewrite read_octet by done; cbn [mbind option_bind read_given_char Ascii.eqb Bool.eqb]).
  by rewrite read_octet by done.
Qed.

(** A run of zero segments. *)
Definition zero_run (l : list Z) (run : nat * nat) : Prop := ∀ k, (run.1 ≤ k < run.1 + run.2)%nat → l !! k = Some 0.

Lemma zero_run_app l l' run : zero_run l run → zero_run (l ++ l') run.
Proof. intros Hr k Hk. apply lookup_app_l_Some. by apply Hr. Qed.

Lemma longest_zeros_run rest : ∀ before current best, zero_run before current → zero_run before best →
  (current.2 = 0%nat ∨ (current.1 + current.2)%nat = length before) →
  zero_run (before ++ rest) (longest_zeros (length before) current best rest).
Proof.
  induction rest as [|s rest IH]; intros before current best Hc Hb Hend; cbn [longest_zeros].
  { by rewrite app_nil_r. }
  assert (S (length before) = length (before ++ [s])) as -> by (rewrite length_app; cbn; lia).
  assert (before ++ s :: rest = (before ++ [s]) ++ rest) as -> by (by rewrite <-app_assoc).
  destruct (Z.eqb_spec s 0) as [->|]; [|apply IH; [intros k; cbn; lia|by apply zero_run_app|by left]].
  set (current' := (if decide (current.2 = 0%nat) then length before else current.1, S current.2)).
  assert (zero_run (before ++ [0]) current') as Hc'.
  { intros k Hk. subst current'. cbn in Hk. destruct (decide (k = length before)) as [->|Hne].
    - by rewrite list_lookup_middle.
    - apply (zero_run_app before [0] current Hc). destruct (decide (current.2 = 0%nat)); lia. }
  assert (current'.2 = 0%nat ∨ (current'.1 + current'.2)%nat = length (before ++ [0])) as Hend'.
  { right. subst current'. rewrite length_app. cbn. destruct (decide (current.2 = 0%nat)); lia. }
  apply IH; [exact Hc'| |exact Hend']. clearbody current'. destruct (decide _); [exact Hc'|exact (zero_run_app before [0] best Hb)].
Qed.

Lemma zero_run_split l start n : zero_run l (start, n) → l = take start l ++ repeat 0 n ++ drop (start + n) l.
Proof.
  intros Hr. rewrite <-(take_drop start l) at 1. f_equal. induction n as [|n IH].
  - by rewrite Nat.add_0_r.
  - rewrite IH by (intros k Hk; apply Hr; cbn in *; lia).
    rewrite (drop_S _ 0 (start + n)) by (apply Hr; cbn; lia).
    replace (start + S n)%nat with (S (start + n)) by lia.
    rewrite (cons_middle 0), app_assoc. f_equal. change [0] with (repeat 0 1). rewrite <-repeat_app.
    by rewrite Nat.add_1_r.
Qed.

Lemma read_groups_none left limit rest : stuck 0 rest → read_groups left 0 limit rest = ([], false, rest).
Proof.
  intros [H1 H2]. destruct left as [|left]; [done|]. cbn [read_groups]. rewrite H1, H2. by destruct (decide _).
Qed.

(** An address with a run of zeros left out. *)
Lemma read_compressed hd tl rest : Forall (λ n, 0 ≤ n < 65536) (hd ++ tl) → (length hd + length tl ≤ 7)%nat → ends rest →
  read_ipv6_addr (chars_of (fmt_segments hd +:+ "::" +:+ fmt_segments tl) ++ rest)
    = Some (hd ++ repeat 0 (8 - length hd - length tl) ++ tl, rest).
Proof.
  intros [Hh Ht]%Forall_app Hlen Hend. rewrite !chars_of_app, <-!app_assoc, <-!groups_text_0. unfold read_ipv6_addr.
  change (chars_of "::" ++ groups_text 0 tl ++ rest) with (":"%char :: ":"%char :: groups_text 0 tl ++ rest).
  rewrite read_groups_text by first [done|lia|right; apply stuck_colons].
  rewrite (proj2 (Z.eqb_neq _ _)) by (unfold len; lia).
  cbn [read_given_char Ascii.eqb Bool.eqb mbind option_bind].
  rewrite read_groups_text by first [done|lia|apply Hend|right; by apply stuck_ends]. done.
Qed.

Lemma read_uncompressed segs rest : segments_wf segs → ends rest →
  read_ipv6_addr (chars_of (fmt_segments segs) ++ rest) = Some (segs, rest).
Proof.
  intros [Hl Hs] Hend. rewrite <-groups_text_0. unfold read_ipv6_addr.
  rewrite read_groups_text by first [done|lia|apply Hend|by left]. by unfold len; rewrite Hl.
Qed.

Lemma ends_not_digit l : ends l → not_digit_head l.
Proof. intros [Hc _]. destruct l; [done|]. apply digit_10_16, Hc. Qed.

Lemma read_mapped ab cd rest : 0 ≤ ab < 65536 → 0 ≤ cd < 65536 → ends rest →
  read_ipv6_addr (chars_of ("::ffff:" +:+ fmt_octets [ab / 256; ab mod 256; cd / 256; cd mod 256]) ++ rest)
    = Some ([0; 0; 0; 0; 0; 65535; ab; cd], rest).
Proof.
  intros Hab Hcd Hend. rewrite chars_of_app, <-app_assoc. set (l := chars_of (fmt_octets _) ++ rest).
  assert (read_ipv4_addr l = Some ([ab / 256; ab mod 256; cd / 256; cd mod 256], rest)) as Hv4.
  { apply read_ipv4_text; [|by apply ends_not_digit]. split; [done|].
    repeat constructor; Z.to_euclidean_division_equations; lia. }
  clearbody l. change (chars_of "::ffff:" ++ l) with (":"%char :: ":"%char :: chars_of (hex_segment 65535) ++ ":"%char :: l).
  unfold read_ipv6_addr. rewrite read_groups_none by apply stuck_colons.
  cbn [read_given_char Ascii.eqb Bool.eqb mbind option_bind len length Z.eqb Nat.sub Nat.add].
  assert (closes (":"%char :: l)) as Hc by done. cbn [read_groups]. rewrite decide_True by (cbn; lia).
  unfold read_separator at 1. rewrite (not_ipv4 (chars_of (hex_segment 65535))) by first [done | by repeat constructor].
  unfold read_separator at 1. rewrite read_segment by done. rewrite decide_True by (cbn; lia).
  unfold read_separator at 1. cbn [read_given_char Ascii.eqb Bool.eqb mbind option_bind]. rewrite Hv4.
  rewrite !(Z.mul_comm _ 256), <-!Z.div_mod by lia. done.
Qed.

Lemma fmt_ipv6_cases segs :
  (∃ ab cd, segs = [0; 0; 0; 0; 0; 65535; ab; cd] ∧
     fmt_ipv6 segs = "::ffff:" +:+ fmt_octets [ab / 256; ab mod 256; cd / 256; cd mod 256]) ∨
  fmt_ipv6 segs =
    let '(start, n) := longest_zeros 0 (0%nat, 0%nat) (0%nat, 0%nat) segs in
    if decide (1 < n)%nat
    then fmt_segments (take start segs) +:+ "::" +:+ fmt_segments (drop (start + n) segs)
    else fmt_segments segs.
Proof.
  unfold fmt_ipv6.
  repeat (first [right; reflexivity | match goal with |- context [match ?x with _ => _ end] => is_var x; destruct x end]).
  left. by do 2 eexists.
Qed.

Lemma read_ipv6_text segs rest : segments_wf segs → ends rest →
  read_ipv6_addr (chars_of (fmt_ipv6 segs) ++ rest) = Some (segs, rest).
Proof.
  intros Hwf Hend. pose proof Hwf as [Hl Hr]. destruct (fmt_ipv6_cases segs) as [(ab & cd & -> & ->)| ->].
  - do 6 apply Forall_cons in Hr as [_ Hr]. apply Forall_cons in Hr as [? Hr]. apply Forall_cons in Hr as [? _].
    by apply read_mapped.
  - assert (zero_run segs (longest_zeros 0 (0%nat, 0%nat) (0%nat, 0%nat) segs)) as Hrun.
    { apply (longest_zeros_run segs []); [intros k Hk; cbn in Hk; lia..|by left]. }
    destruct (longest_zeros _ _ _ _) as [start n]. destruct (decide (1 < n)%nat); [|by apply read_uncompressed].
    assert (start + n ≤ 8)%nat.
    { pose proof (Hrun (start + n - 1)%nat ltac:(cbn; lia)) as Hk. apply lookup_lt_Some in Hk. lia. }
    rewrite read_compressed; [| |rewrite length_take, length_drop; lia|done].
    + rewrite length_take, length_drop.
      replace (8 - start `min` length segs - (length segs - (start + n)))%nat with n by lia.
      by rewrite <-zero_run_split.
    + apply Forall_app; split; [by apply Forall_take|by apply Forall_drop].
Qed.

(** ** Socket addresses *)

Lemma read_scope_text n rest : 0 ≤ n < 4294967296 → not_digit_head rest →
  read_scope_id ("%"%char :: chars_of (to_string n) ++ rest) = Some (n, rest).
Proof.
  intros Hn Hr. unfold read_scope_id. cbn [read_given_char Ascii.eqb Bool.eqb mbind option_bind].
  apply read_number_app; [|done]. apply read_to_string; [lia|done|done].
Qed.

(** Writing a well-formed address and parsing the text gives the address. *)
Lemma socket_addr_reads_back a : socket_addr_wf a → parse_socket_addr (socket_addr_to_string a) = Some a.
Proof.
  destruct a as [[octets|segs] port scope]; intros [Hport Hip]; cbn [sa_ip sa_port sa_scope] in *.
  - destruct Hip as [[Hl Hr] ->]. destruct octets as [|a [|b [|c [|d [|]]]]]; try done.
    repeat apply Forall_cons in Hr as [? Hr]. by apply socket_addr_v4_reads_back.
  - destruct Hip as [Hwf Hscope]. unfold parse_socket_addr, socket_addr_to_string. cbn [sa_ip sa_port sa_scope].
    set (tail := chars_of (":" +:+ to_string port)).
    assert (chars_of ("[" +:+ fmt_ipv6 segs +:+ (if scope =? 0 then "" else "%" +:+ to_string scope) +:+ "]:" +:+ to_string port)
      = "["%char :: chars_of (fmt_ipv6 segs) ++
        (if scope =? 0 then [] else "%"%char :: chars_of (to_string scope)) ++ "]"%char :: tail) as ->.
    { rewrite !chars_of_app. by destruct (scope =? 0). }
    assert (∀ l, read_socket_addr_v4 ("["%char :: l) = None) as -> by done.
    unfold read_socket_addr_v6. cbn [read_given_char Ascii.eqb Bool.eqb mbind option_bind].
    assert (read_port tail = Some (port, [])) as Hp by by apply read_port_text.
    rewrite read_ipv6_text by (done || by destruct (scope =? 0)). cbn [mbind option_bind].
    destruct (Z.eqb_spec scope 0) as [->|]; cbn [app].
    + cbn [read_scope_id read_given_char Ascii.eqb Bool.eqb mbind option_bind default from_option]. by rewrite Hp.
    + rewrite read_scope_text by done. cbn [default id from_option read_given_char Ascii.eqb Bool.eqb mbind option_bind].
      by rewrite Hp.
Qed.

(** ** What the parser accepts is well formed *)

Lemma digit_value_nonneg radix c d : digit_value radix c = Some d → 0 ≤ d < radix.
Proof.
  unfold digit_value, is_ascii_digit, is_ascii_lowercase, is_ascii_uppercase, in_range. intros Hd.
  repeat (match type of Hd with context [if ?b then _ else _] => destruct b eqn:? end; cbn [mbind option_bind] in Hd);
    boolify; try done; injection Hd as <-; cbn in *; lia.
Qed.

Lemma read_number_bounds radix m max zero l n l' : 0 ≤ radix → read_number radix m max zero l = Some (n, l') → 0 ≤ n ≤ max.
Proof.
  intros Hradix. unfold read_number. destruct (read_digits radix l) as [ds rest] eqn:Hd.
  assert (Forall (λ d, 0 ≤ d) ds) as Hds.
  { revert ds rest Hd. induction l as [|c l IH]; intros ds rest; cbn [read_digits]; [by intros [= <- _]|].
    destruct (digit_value radix c) eqn:Hc; [|by intros [= <- _]].
    destruct (read_digits radix l) as [ds' rest'] eqn:Hl. intros [= <- _]. constructor; [|by eapply IH].
    by apply digit_value_nonneg in Hc as []. }
  assert (∀ acc, 0 ≤ acc → 0 ≤ foldl (λ n d, n * radix + d) acc ds) as Hfold.
  { clear Hd. induction Hds as [|d ds ? _ IH]; intros acc Hacc; [done|]. cbn [foldl]. apply IH. nia. }
  destruct (_ || _) eqn:Hbad; [done|]. intros [= <- _]. boolify. split; [by apply Hfold|lia].
Qed.

Lemma read_separator_number radix m max zero c i l n l' : 0 ≤ radix →
  read_separator c i (read_number radix m max zero) l = Some (n, l') → 0 ≤ n ≤ max.
Proof.
  intros Hradix. destruct i; cbn [read_separator]; [by apply read_number_bounds|].
  destruct (read_given_char c l) as [[[] l1]|]; [|done]. cbn [mbind option_bind]. by apply read_number_bounds.
Qed.

Lemma read_ipv4_wf l octets l' : read_ipv4_addr l = Some (octets, l') → octets_wf octets.
Proof.
  unfold read_ipv4_addr. intros Hr.
  repeat match type of Hr with (?x ≫= _) = _ =>
    let Hx := fresh "Hx" in destruct x as [[? ?]|] eqn:Hx; [|done];
    apply read_separator_number in Hx; [|done]; cbn [mbind option_bind] in Hr end.
  injection Hr as <- _. split; [done|]. repeat constructor; lia.
Qed.
Lemma read_separator_ipv4 c i l octets l' : read_separator c i read_ipv4_addr l = Some (octets, l') → octets_wf octets.
Proof.
  destruct i; cbn [read_separator]; [by apply read_ipv4_wf|].
  destruct (read_given_char c l) as [[[] l1]|]; [|done]. cbn [mbind option_bind]. by apply read_ipv4_wf.
Qed.

Lemma read_groups_wf left : ∀ i limit l gs v4 l', (left + i = limit)%nat → read_groups left i limit l = (gs, v4, l') →
  (length gs ≤ left)%nat ∧ Forall (λ n, 0 ≤ n < 65536) gs.
Proof.
  induction left as [|left IH]; intros i limit l gs v4 l' Hi; cbn [read_groups]; [by intros [= <- _ _]|].
  destruct (if decide _ then _ else _) as [[octets l1]|] eqn:Hv4.
  - destruct (decide _); [|done]. apply read_separator_ipv4 in Hv4 as [Hl Hr].
    destruct octets as [|a [|b [|c [|d [|]]]]]; try done. intros [= <- _ _]. cbn [length].
    repeat apply Forall_cons in Hr as [? Hr]. split; [lia|]. repeat constructor; lia.
  - destruct (read_separator ":" i (read_number 16 (Some 4) 65535 true) l) as [[g l1]|] eqn:Hg; [|by intros [= <- _ _]; split; [cbn; lia|]].
    apply read_separator_number in Hg; [|done].
    destruct (read_groups left (S i) limit l1) as [[gs' v'] l2] eqn:Hrec. intros [= <- _ _].
    apply IH in Hrec as [? ?]; [|lia]. cbn [length]. split; [lia|constructor; [lia|done]].
Qed.

Lemma read_ipv6_wf l segs l' : read_ipv6_addr l = Some (segs, l') → segments_wf segs.
Proof.
  unfold read_ipv6_addr. destruct (read_groups 8 0 8 l) as [[hd v4] l1] eqn:Hh.
  apply read_groups_wf in Hh as [Hlen Hhd]; [|done]. destruct (Z.eqb_spec (len hd) 8) as [H8|H8].
  { intros [= <- _]. unfold len in H8. split; [lia|done]. }
  destruct v4; [done|]. destruct (read_given_char ":" l1) as [[[] l2]|]; [|done]. cbn [mbind option_bind].
  destruct (read_given_char ":" l2) as [[[] l3]|]; [|done]. cbn [mbind option_bind].
  destruct (read_groups _ 0 _ l3) as [[tl v'] l4] eqn:Ht. apply read_groups_wf in Ht as [Htlen Htl]; [|lia].
  intros [= <- _]. unfold len in H8. split.
  - rewrite !length_app, repeat_length. lia.
  - apply Forall_app; split; [done|]. apply Forall_app; split; [|done].
    by apply Forall_forall; intros n ->%list_elem_of_In%repeat_spec.
Qed.

Lemma read_port_wf l n l' : read_port l = Some (n, l') → 0 ≤ n < 65536.
Proof.
  unfold read_port. destruct (read_given_char ":" l) as [[[] l1]|]; [|done]. cbn [mbind option_bind].
  intros Hn. apply read_number_bounds in Hn; lia.
Qed.

Lemma parse_socket_addr_wf s a : parse_socket_addr s = Some a → socket_addr_wf a.
Proof.
  unfold parse_socket_addr. intros Hp.
  destruct (match read_socket_addr_v4 _ with Some _ => _ | None => _ end) as [[addr rest]|] eqn:Ha; [|done].
  cbn [mbind option_bind] in Hp. assert (addr = a) as -> by (rewrite option_guard_decide in Hp; destruct (decide _); by simplify_eq). clear Hp.
  destruct (read_socket_addr_v4 (chars_of s)) as [r|] eqn:H4.
  - injection Ha as ->. unfold read_socket_addr_v4 in H4.
    destruct (read_ipv4_addr _) as [[ip l]|] eqn:Hip; [|done]. cbn [mbind option_bind] in H4.
    destruct (read_port l) as [[port l1]|] eqn:Hport; [|done]. injection H4 as <- <-.
    apply read_ipv4_wf in Hip. apply read_port_wf in Hport. by split.
  - unfold read_socket_addr_v6 in Ha. destruct (read_given_char "[" _) as [[[] l]|]; [|done]. cbn [mbind option_bind] in Ha.
    destruct (read_ipv6_addr l) as [[ip l1]|] eqn:Hip; [|done]. cbn [mbind option_bind] in Ha.
    destruct (default (0, l1) (read_scope_id l1)) as [scope l2] eqn:Hs.
    assert (0 ≤ scope < 4294967296) as Hscope.
    { unfold read_scope_id in Hs. destruct (read_given_char "%" l1) as [[[] l3]|]; cbn [mbind option_bind default id] in Hs.
      - destruct (read_number 10 None 4294967295 true l3) as [[n l4]|] eqn:Hn; injection Hs as <- _; [|lia].
        apply read_number_bounds in Hn; lia.
      - injection Hs as <- _. lia. }
    destruct (read_given_char "]" l2) as [[[] l3]|]; [|done]. cbn [mbind option_bind] in Ha.
    destruct (read_port l3) as [[port l4]|] eqn:Hport; [|done]. injection Ha as <- <-.
    apply read_ipv6_wf in Hip. apply read_port_wf in Hport. by split.
Qed.

(** The text of a parsed address parses to the same address. *)
Lemma parsed_reads_back s a : parse_socket_addr s = Some a → parse_socket_addr (socket_addr_to_string a) = Some a.
Proof. intros Hp. by eapply socket_addr_reads_back, parse_socket_addr_wf. Qed.
