(* ===== verification/BTreeMap.v ===== *)
(** * [std::collections::BTreeMap] as a strictly sorted association list

    The code iterates over its maps in key order (repository paths, block
    CIDs), so the model keeps the order: a map is a list of pairs that every
    operation leaves strictly increasing in the key. *)

From S2P Require Import Prelude RustStd.

(** Rust's [Ord] on the key type, as a strict boolean order, and its laws. *)
Class KeyOrd (K : Type) := key_ltb : K → K → bool.

Class KeyOrdLaws (K : Type) `{KeyOrd K} : Prop := {
  key_irrefl k : key_ltb k k = false;
  key_trans a b c : key_ltb a b = true → key_ltb b c = true → key_ltb a c = true;
  key_total a b : key_ltb a b = false → key_ltb b a = false → a = b
}.

#[export] Instance string_key_ord : KeyOrd string := str_ltb.
#[export] Instance string_key_ord_laws : KeyOrdLaws string.
Proof.
  split; [apply str_ltb_irrefl | apply str_ltb_trans | apply str_ltb_total].
Qed.

Section btree.
Context {K V : Type} `{KeyOrd K}.

Abbreviation btree := (list (K * V)).

Fixpoint bt_get (m : btree) (k : K) : option V :=
  match m with
  | [] => None
  | (k', v) :: m =>
      if key_ltb k k' then None
      else if key_ltb k' k then bt_get m k
      else Some v
  end.

Fixpoint bt_insert (m : btree) (k : K) (v : V) : btree :=
  match m with
  | [] => [(k, v)]
  | (k', v') :: m' =>
      if key_ltb k k' then (k, v) :: m
      else if key_ltb k' k then (k', v') :: bt_insert m' k v
      else (k, v) :: m'
  end.

Fixpoint bt_remove (m : btree) (k : K) : btree :=
  match m with
  | [] => []
  | (k', v') :: m' =>
      if key_ltb k k' then m
      else if key_ltb k' k then (k', v') :: bt_remove m' k
      else m'
  end.

Definition bt_contains (m : btree) (k : K) : bool := bool_decide (is_Some (bt_get m k)).

Definition bt_lt (x y : K * V) : Prop := key_ltb x.1 y.1 = true.
Definition bt_sorted (m : btree) : Prop := StronglySorted bt_lt m.

(** [iter.collect::<BTreeMap<_, _>>()] *)
Definition bt_collect (l : list (K * V)) : btree := foldl (λ m '(k, v), bt_insert m k v) [] l.

Context `{!KeyOrdLaws K}.

Lemma key_lt_asym a b : key_ltb a b = true → key_ltb b a = false.
Proof.
  intros Hab. destruct (key_ltb b a) eqn:Hba; [|done].
  pose proof (key_trans _ _ _ Hab Hba) as Haa. by rewrite key_irrefl in Haa.
Qed.

(** Three-way comparison of two keys, as the operations test it. *)
Inductive key_cmp (a b : K) : bool → bool → Prop :=
| key_cmp_lt : key_ltb a b = true → a ≠ b → key_cmp a b true false
| key_cmp_eq : a = b → key_cmp a b false false
| key_cmp_gt : key_ltb b a = true → a ≠ b → key_cmp a b false true.

Lemma key_compare a b : key_cmp a b (key_ltb a b) (key_ltb b a).
Proof.
  destruct (key_ltb a b) eqn:Hab.
  - rewrite (key_lt_asym _ _ Hab). constructor; [done|]. intros ->. by rewrite key_irrefl in Hab.
  - destruct (key_ltb b a) eqn:Hba; constructor; [done| |by apply key_total].
    intros ->. by rewrite key_irrefl in Hba.
Qed.

Lemma bt_sorted_cons x m :
  bt_sorted (x :: m) ↔ bt_sorted m ∧ Forall (bt_lt x) m.
Proof. split; [by inversion 1|]. intros []. by constructor. Qed.

Lemma bt_get_below m k :
  bt_sorted m → Forall (λ x, key_ltb k x.1 = true) m → bt_get m k = None.
Proof.
  destruct m as [|[k' v'] m]; [done|]. intros _ [Hk _]%Forall_cons. simpl in *. by rewrite Hk.
Qed.

Lemma bt_below_trans k k' (m : btree) :
  key_ltb k k' = true → Forall (λ x, key_ltb k' x.1 = true) m → Forall (λ x, key_ltb k x.1 = true) m.
Proof. intros Hk Hf. eapply Forall_impl; [exact Hf|]. intros x Hx. by apply key_trans with k'. Qed.

Lemma bt_get_elem m k v : bt_sorted m → bt_get m k = Some v ↔ (k, v) ∈ m.
Proof.
  induction m as [|[k' v'] m IH]; intros Hs; simpl.
  { split; [done|]. by intros ?%not_elem_of_nil. }
  apply bt_sorted_cons in Hs as [Hs Hf]. rewrite Forall_forall in Hf.
  rewrite elem_of_cons.
  destruct (key_compare k k') as [Hlt Hne|<-|Hgt Hne].
  - split; [done|]. intros [[=]|Hin]; [done|].
    pose proof (Hf _ Hin) as Hk. unfold bt_lt in Hk. simpl in Hk.
    apply key_lt_asym in Hk. by rewrite Hlt in Hk.
  - split; [by intros [= ->]; left|]. intros [[= ->]|Hin]; [done|].
    pose proof (Hf _ Hin) as Hk. unfold bt_lt in Hk. simpl in Hk. by rewrite key_irrefl in Hk.
  - rewrite IH by done. split; [by right|]. intros [[=]|?]; done.
Qed.

Lemma bt_insert_elem m k v x :
  x ∈ bt_insert m k v → x = (k, v) ∨ x ∈ m.
Proof.
  induction m as [|[k' v'] m IH]; simpl.
  { rewrite list_elem_of_singleton. by left. }
  destruct (key_compare k k'); rewrite ?elem_of_cons; naive_solver.
Qed.

Lemma bt_insert_sorted m k v : bt_sorted m → bt_sorted (bt_insert m k v).
Proof.
  induction m as [|[k' v'] m IH]; intros Hs; simpl.
  { apply bt_sorted_cons. by split. }
  pose proof Hs as Hs'. apply bt_sorted_cons in Hs as [Hs Hf].
  destruct (key_compare k k') as [Hlt Hne|<-|Hgt Hne].
  - apply bt_sorted_cons. split; [done|]. constructor; [done|].
    by apply (bt_below_trans k k').
  - by apply bt_sorted_cons.
  - apply bt_sorted_cons. split; [by apply IH|]. apply Forall_forall. intros x Hx.
    apply bt_insert_elem in Hx as [->|Hx]; [done|]. rewrite Forall_forall in Hf. by apply Hf.
Qed.

Lemma bt_remove_elem m k x : x ∈ bt_remove m k → x ∈ m.
Proof.
  induction m as [|[k' v'] m IH]; simpl; [done|].
  destruct (key_compare k k'); rewrite ?elem_of_cons; naive_solver.
Qed.

Lemma bt_remove_sorted m k : bt_sorted m → bt_sorted (bt_remove m k).
Proof.
  induction m as [|[k' v'] m IH]; intros Hs; simpl; [done|].
  pose proof Hs as Hs'. apply bt_sorted_cons in Hs as [Hs Hf].
  destruct (key_compare k k'); [done..|].
  apply bt_sorted_cons. split; [by apply IH|]. apply Forall_forall. intros x Hx.
  apply bt_remove_elem in Hx. rewrite Forall_forall in Hf. by apply Hf.
Qed.

Lemma bt_get_insert m k v k' : bt_sorted m →
  bt_get (bt_insert m k v) k' =
    if key_ltb k k' then bt_get m k' else if key_ltb k' k then bt_get m k' else Some v.
Proof.
  induction m as [|[k0 v0] m IH]; intros Hs; simpl.
  { by destruct (key_compare k k'). }
  apply bt_sorted_cons in Hs as [Hs Hf].
  assert (Hf' : Forall (λ x, key_ltb k0 x.1 = true) m) by exact Hf.
  destruct (key_compare k k0) as [Hlt Hne|<-|Hgt Hne]; simpl.
  - destruct (key_compare k' k) as [Hlt'|<-|Hgt']; [|done|done].
    by rewrite (key_trans _ _ _ Hlt' Hlt).
  - by destruct (key_compare k' k).
  - rewrite IH by done.
    destruct (key_compare k' k0) as [Hlt'|<-|Hgt']; [|by rewrite Hgt, key_lt_asym|done].
    pose proof (key_trans _ _ _ Hlt' Hgt) as Hk. by rewrite Hk, (key_lt_asym _ _ Hk).
Qed.

Lemma bt_get_insert_eq m k v : bt_sorted m → bt_get (bt_insert m k v) k = Some v.
Proof. intros Hs. by rewrite bt_get_insert, !key_irrefl. Qed.

Lemma bt_get_insert_ne m k v k' : bt_sorted m → k ≠ k' → bt_get (bt_insert m k v) k' = bt_get m k'.
Proof. intros Hs Hne. rewrite bt_get_insert by done. by destruct (key_compare k k'). Qed.

Lemma bt_get_remove_eq m k : bt_sorted m → bt_get (bt_remove m k) k = None.
Proof.
  induction m as [|[k0 v0] m IH]; intros Hs; simpl; [done|].
  apply bt_sorted_cons in Hs as [Hs Hf].
  destruct (key_compare k k0) as [Hlt|<-|Hgt]; simpl.
  - by rewrite Hlt.
  - by apply bt_get_below.
  - rewrite Hgt, (key_lt_asym _ _ Hgt). by apply IH.
Qed.

Lemma bt_get_remove_ne m k k' : bt_sorted m → k ≠ k' → bt_get (bt_remove m k) k' = bt_get m k'.
Proof.
  induction m as [|[k0 v0] m IH]; intros Hs Hne; simpl; [done|].
  apply bt_sorted_cons in Hs as [Hs Hf].
  destruct (key_compare k k0) as [Hlt|<-|Hgt]; simpl; [done| |by rewrite IH].
  destruct (key_compare k' k) as [Hlt'| ->|Hgt']; [|done|done].
  apply bt_get_below; [done|]. by apply (bt_below_trans k' k).
Qed.

(** A map is determined by its lookups. *)
Lemma bt_ext m1 m2 : bt_sorted m1 → bt_sorted m2 → (∀ k, bt_get m1 k = bt_get m2 k) → m1 = m2.
Proof.
  revert m2. induction m1 as [|[k1 v1] m1 IH]; intros [|[k2 v2] m2] Hs1 Hs2 Hg; [done|..].
  - specialize (Hg k2). simpl in Hg. by rewrite key_irrefl in Hg.
  - specialize (Hg k1). simpl in Hg. by rewrite key_irrefl in Hg.
  - pose proof Hs1 as Hc1. pose proof Hs2 as Hc2.
    apply bt_sorted_cons in Hs1 as [Hs1 Hf1]. apply bt_sorted_cons in Hs2 as [Hs2 Hf2].
    pose proof (Hg k1) as Hg1. pose proof (Hg k2) as Hg2. simpl in Hg1, Hg2.
    rewrite key_irrefl in Hg1, Hg2.
    destruct (key_compare k1 k2) as [Hlt|<-|Hgt].
    + done.
    + injection Hg1 as ->. f_equal. apply IH; [done..|]. intros k. specialize (Hg k). simpl in Hg.
      destruct (key_compare k k1) as [Hlt|<-|Hgt]; [| |done].
      * rewrite !bt_get_below; try done; by apply (bt_below_trans k k1).
      * rewrite !bt_get_below; try done.
    + done.
Qed.

(** Sizes and sums of a measure under [insert] and [remove]. *)
Lemma bt_sum_insert (f : V → Z) m k v : bt_sorted m →
  sum_with (f ∘ snd) (bt_insert m k v) =
    sum_with (f ∘ snd) m - from_option f 0 (bt_get m k) + f v.
Proof.
  induction m as [|[k0 v0] m IH]; intros Hs; simpl; [autorewrite with psky; simpl; lia|].
  apply bt_sorted_cons in Hs as [Hs Hf].
  destruct (key_compare k k0); simpl; autorewrite with psky; simpl; [lia|lia|].
  rewrite IH by done. lia.
Qed.

Lemma bt_sum_remove (f : V → Z) m k : bt_sorted m →
  sum_with (f ∘ snd) (bt_remove m k) = sum_with (f ∘ snd) m - from_option f 0 (bt_get m k).
Proof.
  induction m as [|[k0 v0] m IH]; intros Hs; simpl; [autorewrite with psky; simpl; lia|].
  apply bt_sorted_cons in Hs as [Hs Hf].
  destruct (key_compare k k0); simpl; autorewrite with psky; simpl; [lia|lia|].
  rewrite IH by done. lia.
Qed.

Lemma bt_len_insert m k v : bt_sorted m →
  len (bt_insert m k v) = len m + (if bt_contains m k then 0 else 1).
Proof.
  unfold bt_contains.
  induction m as [|[k0 v0] m IH]; intros Hs; simpl; [done|].
  apply bt_sorted_cons in Hs as [Hs Hf].
  destruct (key_compare k k0); simpl; autorewrite with psky; [lia|lia|]. rewrite IH by done. lia.
Qed.

Lemma bt_len_remove_le m k : len (bt_remove m k) ≤ len m.
Proof.
  induction m as [|[k0 v0] m IH]; simpl; [lia|].
  destruct (key_compare k k0); autorewrite with psky; lia.
Qed.

Lemma bt_collect_sorted_app m l : bt_sorted m → bt_sorted (foldl (λ m '(k, v), bt_insert m k v) m l).
Proof.
  revert m. induction l as [|[k v] l IH]; intros m Hs; simpl; [done|].
  by apply IH, bt_insert_sorted.
Qed.

Lemma bt_collect_sorted l : bt_sorted (bt_collect l).
Proof. apply bt_collect_sorted_app. constructor. Qed.

Lemma bt_insert_last m k v :
  Forall (λ x, key_ltb x.1 k = true) m → bt_insert m k v = m ++ [(k, v)].
Proof.
  induction m as [|[k0 v0] m IH]; intros Hf; simpl; [done|].
  apply Forall_cons in Hf as [Hk Hf]. simpl in Hk.
  rewrite Hk, (key_lt_asym _ _ Hk). by rewrite IH.
Qed.

(** Collecting pairs that are already sorted is the identity. *)
Lemma bt_collect_id l : bt_sorted l → bt_collect l = l.
Proof.
  intros Hs. unfold bt_collect.
  enough (Hg : ∀ m, bt_sorted (m ++ l) → foldl (λ m '(k, v), bt_insert m k v) m l = m ++ l) by by apply (Hg []).
  clear Hs. induction l as [|[k v] l IH]; intros m Hs; simpl; [by rewrite app_nil_r|].
  rewrite bt_insert_last.
  - rewrite IH; [by rewrite <-app_assoc|]. by rewrite <-app_assoc.
  - apply Forall_forall. intros x Hx.
    apply (StronglySorted_app_1_elem_of _ _ _ _ (k, v) Hs Hx). left.
Qed.

Lemma bt_keys_nodup m : bt_sorted m → NoDup m.*1.
Proof.
  induction m as [|[k v] m IH]; intros Hs; simpl; [constructor|].
  apply bt_sorted_cons in Hs as [Hs Hf]. constructor; [|by apply IH].
  intros ([k' v'] & Hk & Hin)%list_elem_of_fmap. simpl in Hk. subst k'.
  rewrite Forall_forall in Hf. specialize (Hf _ Hin). unfold bt_lt in Hf. simpl in Hf.
  by rewrite key_irrefl in Hf.
Qed.
End btree.

Arguments bt_lt {K V _} x y /.
#[export] Hint Extern 1 (bt_sorted (bt_insert _ _ _)) => apply bt_insert_sorted : psky.
#[export] Hint Extern 1 (bt_sorted (bt_remove _ _)) => apply bt_remove_sorted : psky.
#[export] Hint Extern 1 (bt_sorted (bt_collect _)) => apply bt_collect_sorted : psky.

(** Mapping the values keeps the keys, hence the order. *)
Lemma bt_map_sorted {K V W} `{KeyOrd K} (f : K * V → W) (m : list (K * V)) :
  bt_sorted m → bt_sorted ((λ kv, (kv.1, f kv)) <$> m).
Proof.
  unfold bt_sorted. induction 1 as [|x m Hs IH Hf]; simpl; constructor; [done|].
  apply Forall_fmap. eapply Forall_impl; [exact Hf|]. by intros y Hy.
Qed.

(** ** A sorted list seen as a finite map *)
Section to_map.
Context {K V : Type} `{KeyOrdLaws K} `{Countable K}.
Implicit Types m : list (K * V).

Definition bt_map m : gmap K V := list_to_map m.

Lemma bt_map_lookup m k : bt_sorted m → bt_map m !! k = bt_get m k.
Proof.
  intros Hs. apply option_eq. intros v. rewrite bt_get_elem by done.
  symmetry. apply elem_of_list_to_map, bt_keys_nodup, Hs.
Qed.

Lemma bt_map_insert m k v : bt_sorted m → bt_map (bt_insert m k v) = <[k := v]> (bt_map m).
Proof.
  intros Hs. apply map_eq. intros k'. rewrite bt_map_lookup by auto with psky.
  destruct (decide (k = k')) as [<-|Hne].
  - by rewrite bt_get_insert_eq, lookup_insert_eq.
  - by rewrite bt_get_insert_ne, lookup_insert_ne, bt_map_lookup.
Qed.

Lemma bt_map_remove m k : bt_sorted m → bt_map (bt_remove m k) = delete k (bt_map m).
Proof.
  intros Hs. apply map_eq. intros k'. rewrite bt_map_lookup by auto with psky.
  destruct (decide (k = k')) as [<-|Hne].
  - by rewrite bt_get_remove_eq, lookup_delete_eq.
  - by rewrite bt_get_remove_ne, lookup_delete_ne, bt_map_lookup.
Qed.

Lemma bt_map_to_list m : bt_sorted m → map_to_list (bt_map m) ≡ₚ m.
Proof. intros Hs. by apply map_to_list_to_map, bt_keys_nodup. Qed.

Lemma bt_map_size m : bt_sorted m → Z.of_nat (size (bt_map m)) = len m.
Proof. intros Hs. unfold len. by rewrite <-length_map_to_list, bt_map_to_list. Qed.
End to_map.
