(* ===== verification/Journal.v ===== *)
(** * Operator journal ([crates/psky/src/journal.rs])

    The bounded ring of sanitized events, its cursor pages, and the record of
    an operator action.  [now()] reads the system clock; the time is an
    argument of [push]. *)

From S2P Require Import Prelude RustStd.

Definition LOG_CAPACITY : Z := 200.
Definition OPERATION_CAPACITY : Z := 32.

Record Event := mkEvent {
  ev_sequence : Z;
  ev_timestamp : Z;
  ev_level : string;
  ev_event : string;
  ev_message : string
}.

Record LogPage := mkLogPage {
  page_entries : list Event;
  next_cursor : Z;
  dropped_before : Z;
  truncated : bool
}.

Record Journal := mkJournal {
  entries : list Event;
  sequence : Z
}.

Definition journal_default : Journal := mkJournal [] 0.

Definition push (now : Z) (level event message : string) (j : Journal) : Journal :=
  let sequence' := sequence j + 1 in
  let kept := if len (entries j) =? LOG_CAPACITY then tail (entries j) else entries j in
  mkJournal (kept ++ [mkEvent sequence' now level event message]) sequence'.

Definition page (j : Journal) (after limit : Z) : LogPage :=
  let dropped := from_option (λ e, ev_sequence e - 1) 0 (head (entries j)) in
  let es := take (Z.to_nat (Z.min limit LOG_CAPACITY))
                 (filter (λ e, after < ev_sequence e) (entries j)) in
  mkLogPage es
    (from_option ev_sequence (sequence j) (last es))
    dropped
    (after <? dropped).

Definition last_sequence (j : Journal) : Z := sequence j.

Inductive OperationKind := Preflight | Reconstruct.

#[export] Instance operation_kind_eq_dec : EqDecision OperationKind.
Proof. solve_decision. Defined.

Record Operation := mkOperation {
  op_id : Z;
  op_kind : OperationKind;
  op_status : string;
  op_started_at : Z;
  op_finished_at : option Z;
  op_error : option string;
  op_config_revision : Z
}.

(** ** Abstract specification: the unbounded history

    [history ps] is the journal a machine with unlimited memory would keep for
    the pushes [ps] (time, level, event, message), oldest first. *)

Abbreviation push_args := (Z * string * string * string)%type.

Definition push_all (ps : list push_args) : Journal :=
  foldl (λ j '(now, l, e, m), push now l e m j) journal_default ps.

Definition history (ps : list push_args) : list Event :=
  imap (λ i '(now, l, e, m), mkEvent (Z.of_nat i + 1) now l e m) ps.

(** What a journal keeps of a history: its last [LOG_CAPACITY] events. *)
Definition retained (h : list Event) : list Event := drop (length h - 200) h.

Lemma history_snoc ps now l e m :
  history (ps ++ [(now, l, e, m)]) = history ps ++ [mkEvent (len ps + 1) now l e m].
Proof. unfold history. rewrite imap_app. simpl. by rewrite Nat.add_0_r. Qed.

Lemma history_length ps : length (history ps) = length ps.
Proof. apply length_imap. Qed.

Lemma history_lookup ps i e : history ps !! i = Some e → ev_sequence e = Z.of_nat i + 1.
Proof.
  unfold history. rewrite list_lookup_imap. intros ([[[now l] ev] m] & _ & ->)%fmap_Some. done.
Qed.

Lemma retained_length h : length (retained h) = (length h `min` 200)%nat.
Proof. unfold retained. rewrite length_drop. lia. Qed.

Lemma retained_snoc h e :
  retained (h ++ [e]) =
    (if decide (200 ≤ length h)%nat then tail (retained h) else retained h) ++ [e].
Proof.
  unfold retained. rewrite length_app. change (length [e]) with 1%nat.
  destruct (decide (200 ≤ length h)%nat) as [Hge|Hlt].
  - rewrite drop_app_le by lia. f_equal.
    replace (length h + 1 - 200)%nat with ((length h - 200) + 1)%nat by lia.
    rewrite <-drop_drop. by destruct (drop (length h - 200) h).
  - rewrite drop_app_le by lia. f_equal. f_equal. lia.
Qed.

(** The ring refines the history. *)
Lemma push_all_refines ps :
  entries (push_all ps) = retained (history ps) ∧ sequence (push_all ps) = len ps.
Proof.
  induction ps as [|[[[now l] e] m] ps [IHe IHs]] using rev_ind; [done|].
  assert (Hp : push_all (ps ++ [(now, l, e, m)]) = push now l e m (push_all ps))
    by (unfold push_all; by rewrite foldl_app).
  rewrite Hp. unfold push. cbn [entries sequence]. rewrite IHe, IHs. split.
  - rewrite history_snoc, retained_snoc. f_equal.
    unfold len, LOG_CAPACITY. rewrite retained_length, history_length.
    destruct (decide (200 ≤ length ps)%nat).
    + rewrite (proj2 (Z.eqb_eq _ _)) by lia. done.
    + rewrite (proj2 (Z.eqb_neq _ _)) by lia. done.
  - rewrite len_app. done.
Qed.

Lemma filter_history_after ps after d :
  filter (λ e, after < ev_sequence e) (drop d (history ps)) =
    drop (Z.to_nat after `max` d) (history ps).
Proof.
  set (h := history ps).
  assert (Hh : ∀ i e, h !! i = Some e → ev_sequence e = Z.of_nat i + 1) by apply history_lookup.
  clearbody h. remember (length h - d)%nat as n eqn:Hn. revert d Hn.
  induction n as [|n IH]; intros d Hn.
  - rewrite !drop_ge by lia. done.
  - destruct (lookup_lt_is_Some_2 h d ltac:(lia)) as [e He].
    rewrite (drop_S _ _ _ He), filter_cons, IH by lia.
    pose proof (Hh _ _ He). destruct (decide (after < ev_sequence e)).
    + replace (Z.to_nat after `max` d)%nat with d by lia.
      rewrite (drop_S _ _ _ He). f_equal. f_equal. lia.
    + f_equal. lia.
Qed.

(** The cursor below which events have been evicted. *)
Definition evicted (ps : list push_args) : Z := Z.max (len ps - LOG_CAPACITY) 0.

Lemma page_push_all ps after limit :
  page (push_all ps) after limit =
    let es := take (Z.to_nat (Z.min limit LOG_CAPACITY))
                (drop (Z.to_nat (Z.max after (evicted ps))) (history ps)) in
    mkLogPage es (from_option ev_sequence (len ps) (last es)) (evicted ps) (after <? evicted ps).
Proof.
  unfold page. destruct (push_all_refines ps) as [-> ->].
  assert (Hev : from_option (λ e, ev_sequence e - 1) 0 (head (retained (history ps))) = evicted ps).
  { rewrite head_lookup. unfold retained. rewrite lookup_drop, history_length, Nat.add_0_r.
    destruct (history ps !! (length ps - 200)%nat) as [e|] eqn:He; simpl.
    - apply history_lookup in He. unfold evicted, LOG_CAPACITY, len. lia.
    - apply lookup_ge_None in He. rewrite history_length in He.
      unfold evicted, LOG_CAPACITY, len. lia. }
  rewrite Hev. unfold retained.
  rewrite filter_history_after, history_length.
  replace (Z.to_nat after `max` (length ps - 200))%nat
    with (Z.to_nat (Z.max after (evicted ps)))
    by (unfold evicted, LOG_CAPACITY, len; lia).
  done.
Qed.

(** ** Properties *)

(** C40: Refinement of the ring buffer: after any sequence of pushes, a page is
    exactly the window of the unbounded history that starts after the cursor
    (or after the evicted prefix when the cursor is older), limited to [limit]
    events and never more than [LOG_CAPACITY]; the cursor it returns is the
    last returned sequence number, or the journal's when nothing is returned;
    truncation is reported exactly when evicted events lie after the cursor. *)
Theorem page_refines_history ps after limit :
  page (push_all ps) after limit =
    let es := take (Z.to_nat (Z.min limit LOG_CAPACITY))
                (drop (Z.to_nat (Z.max after (evicted ps))) (history ps)) in
    mkLogPage es (from_option ev_sequence (len ps) (last es)) (evicted ps) (after <? evicted ps).
Proof. apply page_push_all. Qed.

(** A client that follows [next_cursor] until a page is empty. *)
Fixpoint follow (fuel : nat) (j : Journal) (cursor limit : Z) : list Event :=
  match fuel with
  | O => []
  | S fuel =>
      let p := page j cursor limit in
      match page_entries p with
      | [] => []
      | es => es ++ follow fuel j (next_cursor p) limit
      end
  end.

Lemma last_take_history ps c n e :
  (0 < n)%nat → last (take n (drop c (history ps))) = Some e →
  ev_sequence e = Z.of_nat ((c + n) `min` length ps) ∧ (c < length ps)%nat.
Proof.
  intros Hn. rewrite last_lookup, lookup_take_Some, lookup_drop.
  intros [He Hlt]. rewrite length_take, length_drop, history_length in *.
  apply lookup_lt_Some in He as Hl. rewrite history_length in Hl.
  apply history_lookup in He. lia.
Qed.

Lemma follow_complete fuel ps cursor limit :
  0 < limit → 0 ≤ cursor →
  (length ps - Z.to_nat (Z.max cursor (evicted ps)) < fuel)%nat →
  follow fuel (push_all ps) cursor limit =
    drop (Z.to_nat (Z.max cursor (evicted ps))) (history ps).
Proof.
  intros Hlim. revert cursor. induction fuel as [|fuel IH]; intros cursor Hc Hf; [lia|].
  cbn [follow]. cbv zeta. rewrite page_push_all. cbv zeta. cbn [page_entries next_cursor].
  set (c := Z.to_nat (Z.max cursor (evicted ps))) in *.
  set (n := Z.to_nat (Z.min limit LOG_CAPACITY)).
  assert (Hn : (0 < n)%nat) by (unfold n, LOG_CAPACITY; lia).
  destruct (take n (drop c (history ps))) as [|e es] eqn:Hes.
  - rewrite drop_ge; [done|]. apply (f_equal length) in Hes.
    rewrite length_take, length_drop in Hes. simpl in Hes. lia.
  - rewrite <-Hes.
    destruct (last (take n (drop c (history ps)))) as [el|] eqn:Hl;
      [|by rewrite Hes, last_None in Hl].
    apply last_take_history in Hl as [Hs Hlt]; [|done]. simpl.
    assert (0 ≤ evicted ps ≤ len ps) by (unfold evicted, LOG_CAPACITY, len; lia).
    unfold len in *.
    assert (Hmax : Z.to_nat (Z.max (ev_sequence el) (evicted ps)) = ((c + n) `min` length ps)%nat) by lia.
    rewrite IH, Hmax by lia.
    rewrite <-(take_drop n (drop c (history ps))) at 2. f_equal. rewrite drop_drop.
    destruct (decide (c + n ≤ length ps)%nat) as [|Hgt].
    + f_equal. lia.
    + rewrite !drop_ge; [done|rewrite history_length; lia..].
Qed.

(** Paging terminates and is complete: a client that starts at any cursor,
    asks for pages of any positive size and follows the returned cursors
    receives every event of the history after its cursor that has not been
    evicted, each once and in order, after at most one page per event. *)
Theorem follow_reads_all fuel ps cursor limit :
  0 < limit → 0 ≤ cursor → len ps < Z.of_nat fuel →
  follow fuel (push_all ps) cursor limit =
    drop (Z.to_nat (Z.max cursor (evicted ps))) (history ps).
Proof. intros. apply follow_complete; [done..|]. unfold len in *. lia. Qed.

Definition sample_pushes : list push_args :=
  replicate 205 (1770000000, "info"%string, "test"%string, "fixed"%string).

Example page_sample :
  let p := page (push_all sample_pushes) 0 2 in
  (ev_sequence <$> page_entries p, next_cursor p, dropped_before p, truncated p) = ([6; 7], 7, 5, true).
Proof. vm_compute. done. Qed.

Lemma follow_reads_all_witness :
  len sample_pushes < Z.of_nat 300 ∧
  follow 300 (push_all sample_pushes) 7 3 =
    drop (Z.to_nat (Z.max 7 (evicted sample_pushes))) (history sample_pushes).
Proof.
  split; [vm_compute; done|].
  apply (follow_reads_all 300 sample_pushes 7 3); vm_compute; done.
Defined.
