(* ===== verification/Externs.v ===== *)
(** * Interfaces of the third-party crates

    Code that is not in the repository is a parameter of the model: one class
    per crate with the operations the sources call, and a companion class with
    the documented behaviour the proofs rely on.  [Fixtures.v] gives concrete
    instances of all of them. *)

From S2P Require Import Prelude RustStd IpAddr BTreeMap.

(** ** [serde_json::Value]

    Numbers keep serde_json's three representations: non-negative integers up
    to [u64::MAX], negative integers from [i64::MIN], and floats (opaque).
    Objects are listed in the iteration order of their map, with unique keys. *)

Inductive Number :=
| PosInt (n : Z)
| NegInt (n : Z)
| Float (repr : string).

Inductive Json :=
| JNull
| JBool (b : bool)
| JNumber (n : Number)
| JString (s : string)
| JArray (l : list Json)
| JObject (fields : list (string * Json)).

Fixpoint field_get (k : string) (fields : list (string * Json)) : option Json :=
  match fields with
  | [] => None
  | (k', v) :: fields => if bool_decide (k = k') then Some v else field_get k fields
  end.

(** [Value::get(key)]: [None] on anything but an object. *)
Definition json_get (k : string) (v : Json) : option Json :=
  match v with JObject fields => field_get k fields | _ => None end.
Definition as_str (v : Json) : option string :=
  match v with JString s => Some s | _ => None end.
Definition as_array (v : Json) : option (list Json) :=
  match v with JArray l => Some l | _ => None end.
Definition as_object (v : Json) : option (list (string * Json)) :=
  match v with JObject o => Some o | _ => None end.
Definition as_bool (v : Json) : option bool :=
  match v with JBool b => Some b | _ => None end.
(** a [PosInt] holds a [u64] by its Rust type *)
Definition num_as_u64 (n : Number) : option Z :=
  match n with PosInt n => if bool_decide (is_u64 n) then Some n else None | _ => None end.
Definition num_as_i64 (n : Number) : option Z :=
  match n with
  | PosInt n => if n <=? I64_MAX then Some n else None
  | NegInt n => Some n
  | Float _ => None
  end.
Definition as_u64 (v : Json) : option Z :=
  match v with JNumber n => num_as_u64 n | _ => None end.
Definition is_null (v : Json) : bool := match v with JNull => true | _ => false end.

Section json_ind.
Context (P : Json → Prop)
  (Hnull : P JNull) (Hbool : ∀ b, P (JBool b)) (Hnum : ∀ n, P (JNumber n))
  (Hstr : ∀ s, P (JString s))
  (Harr : ∀ l, Forall P l → P (JArray l))
  (Hobj : ∀ fields, Forall (λ kv, P kv.2) fields → P (JObject fields)).

(** Induction with hypotheses for the elements of arrays and objects. *)
Fixpoint json_nested_ind (v : Json) : P v :=
  match v with
  | JNull => Hnull
  | JBool b => Hbool b
  | JNumber n => Hnum n
  | JString s => Hstr s
  | JArray l => Harr l ((fix go l : Forall P l := match l with
      | [] => List.Forall_nil _
      | x :: l => List.Forall_cons _ _ _ (json_nested_ind x) (go l)
      end) l)
  | JObject fs => Hobj fs ((fix go fs : Forall (λ kv, P kv.2) fs := match fs with
      | [] => List.Forall_nil _
      | kv :: fs => List.Forall_cons _ _ _ (json_nested_ind kv.2) (go fs)
      end) fs)
  end.
End json_ind.

(** ** [sha2], [cid], [ipld-core] and [serde_ipld_dagcbor] *)

Class Sha256 := sha256 : bytes → bytes.

Class Sha256Laws `{Sha256} : Prop := { sha256_len b : len (sha256 b) = 32 }.

Class CidLib := {
  Cid : Type;
  #[global] cid_eq_dec :: EqDecision Cid;
  (** [Ord for Cid], the order of [BTreeMap<Cid, _>] *)
  #[global] cid_key_ord :: KeyOrd Cid;
  (** [Cid::new_v1(codec, Multihash::wrap(code, digest))] *)
  cid_new_v1 : Z → Z → bytes → Cid;
  cid_is_v1 : Cid → bool;
  cid_codec : Cid → Z;
  cid_hash_code : Cid → Z;
  cid_hash_size : Cid → Z;
  (** [str::parse::<Cid>()], [Cid::to_string], [Cid::to_bytes] *)
  cid_parse : string → option Cid;
  cid_to_string : Cid → string;
  cid_to_bytes : Cid → bytes;
  (** [Cid::read_bytes]: the CID at the head of a byte string, and the rest *)
  cid_read_bytes : bytes → option (Cid * bytes)
}.

Class CidLaws `{CidLib} : Prop := {
  #[global] cid_key_laws :: KeyOrdLaws Cid;
  cid_read_to_bytes c rest : cid_read_bytes (cid_to_bytes c ++ rest) = Some (c, rest)
}.

Section ipld.
Context `{CidLib}.

(** [ipld_core::ipld::Ipld], with the constructors the sources use. *)
Inductive Ipld :=
| INull
| IBool (b : bool)
| IInteger (n : Z)
| IString (s : string)
| IBytes (b : bytes)
| IList (l : list Ipld)
| IMap (m : list (string * Ipld))
| ILink (c : Cid).

(** The data-model value of a [#[derive(Serialize)]] struct: a map from its
    field names, in the map's key order. *)
Definition ser_struct (fields : list (string * Ipld)) : Ipld := IMap (bt_collect fields).

Definition ser_option_cid (o : option Cid) : Ipld := from_option ILink INull o.

(** Reading a struct field back. *)
Definition de_field (k : string) (v : Ipld) : option Ipld :=
  match v with IMap m => bt_get m k | _ => None end.
Definition de_string (v : Ipld) : option string :=
  match v with IString s => Some s | _ => None end.
Definition de_u64 (v : Ipld) : option Z :=
  match v with IInteger n => if bool_decide (is_u64 n) then Some n else None | _ => None end.
Definition de_cid (v : Ipld) : option Cid :=
  match v with ILink c => Some c | _ => None end.
Definition de_bytes (v : Ipld) : option bytes :=
  match v with IBytes b => Some b | _ => None end.
(** An [Option] field: null or absent is [None]. *)
Definition de_option_cid (v : option Ipld) : option (option Cid) :=
  match v with
  | None | Some INull => Some None
  | Some v => Some <$> de_cid v
  end.
End ipld.

Class DagCbor `{CidLib} := {
  (** [serde_ipld_dagcbor::to_vec] and [from_slice]; errors carry their text *)
  cbor_to_vec : Ipld → result string bytes;
  cbor_from_slice : bytes → result string Ipld
}.

Class DagCborLaws `{DagCbor} : Prop := {
  cbor_roundtrip v b : cbor_to_vec v = Ok b → cbor_from_slice b = Ok v
}.

(** ** [base64], [hex] *)

Class Base64Std := {
  (** standard alphabet, padding optional, no trailing bits *)
  b64_std_decode : string → option bytes
}.

Class HexLib := {
  hex_encode : bytes → string;
  hex_decode : string → option bytes
}.

Class HexLaws `{HexLib} : Prop := {
  hex_decode_encode b : hex_decode (hex_encode b) = Some b;
  hex_encode_len b : str_len (hex_encode b) = 2 * len b;
  hex_encode_digits b : all_bytes (λ c, is_ascii_digit c || in_range 97 102 c) (hex_encode b) = true
}.

(** ** [k256::ecdsa] *)

Class Ecdsa := {
  SigningKey : Type;
  VerifyingKey : Type;
  Signature : Type;
  sk_from_bytes : bytes → option SigningKey;
  (** [verifying_key().to_encoded_point(true)] *)
  sk_public_sec1 : SigningKey → bytes;
  sk_sign : SigningKey → bytes → Signature;
  sig_normalize_s : Signature → option Signature;
  sig_to_bytes : Signature → bytes;
  sig_from_slice : bytes → option Signature;
  vk_from_sec1_bytes : bytes → option VerifyingKey;
  vk_verify : VerifyingKey → bytes → Signature → bool
}.

Class EcdsaLaws `{Ecdsa} : Prop := {
  vk_of_sk k : is_Some (vk_from_sec1_bytes (sk_public_sec1 k));
  (** a signature verifies under the signer's key, and so does its low-S form *)
  vk_verify_sign k vk m :
    vk_from_sec1_bytes (sk_public_sec1 k) = Some vk → vk_verify vk m (sk_sign k m) = true;
  vk_verify_low_s vk m s s' :
    sig_normalize_s s = Some s' → vk_verify vk m s = true → vk_verify vk m s' = true;
  (** [normalize_s] answers [None] exactly on signatures already in low-S form *)
  sig_normalize_idem s s' : sig_normalize_s s = Some s' → sig_normalize_s s' = None;
  sig_from_to_bytes s : sig_from_slice (sig_to_bytes s) = Some s
}.

(** ** [url] *)

(** [url::Host] *)
Inductive UrlHost :=
| HostDomain (name : string)
| HostIp (ip : IpAddr).

Class UrlLib := {
  Url : Type;
  #[global] url_eq_dec :: EqDecision Url;
  url_parse : string → option Url;
  url_scheme : Url → string;
  url_username : Url → string;
  url_password : Url → option string;
  url_host_str : Url → option string;
  url_host : Url → option UrlHost;
  (** [&url[Position::BeforeHost..Position::AfterPort]] *)
  url_authority : Url → string;
  (** [None] for the scheme's default port *)
  url_port : Url → option Z;
  url_path : Url → string;
  url_query : Url → option string;
  url_fragment : Url → option string;
  (** [query_pairs().collect()] *)
  url_query_pairs : Url → list (string * string);
  (** [origin().ascii_serialization()] *)
  url_origin : Url → string;
  (** [Url::to_string] *)
  url_to_string : Url → string;
  (** [url.join(reference)], [url.set_path(path)] *)
  url_join : Url → string → option Url;
  url_set_path : Url → string → Url
}.

Class UrlLaws `{UrlLib} : Prop := {
  (** a port is a [u16] *)
  url_port_range u p : url_port u = Some p → 0 ≤ p ≤ U16_MAX
}.

(** ** [serde_json] text *)

Class JsonText := {
  json_to_string : Json → string;
  json_from_str : string → option Json;
  (** what [#[derive(Deserialize)]] on a struct finds for the named fields, in
      object or sequence form: [None] for an absent field; repeated fields and
      malformed text fail *)
  json_struct_from_str : list string → string → option (list (option Json))
}.

(** [from_slice] *)
Definition json_from_slice `{JsonText} (b : bytes) : option Json := json_from_str (from_bytes b).
Definition json_struct_from_slice `{JsonText} (names : list string) (b : bytes) : option (list (option Json)) :=
  json_struct_from_str names (from_bytes b).

(** A typed document: [to_vec_pretty] on a struct, and the parse that typed
    deserialization performs, which keeps the fields of an object in the order
    of the text, repeated ones included. *)
Class JsonDocument := {
  json_to_vec_pretty : Json → bytes;
  json_raw_from_slice : bytes → option Json
}.

(** The fields of a [#[serde(deny_unknown_fields)]] struct, in the order of
    [names]: unknown and repeated fields are errors; serde also takes the
    fields as a sequence. *)
Definition strict_struct (names : list string) (v : Json) : option (list (option Json)) :=
  match v with
  | JObject fs =>
      if forallb (λ kv, bool_decide (kv.1 ∈ names)) fs && bool_decide (NoDup fs.*1)
      then Some ((λ n, field_get n fs) <$> names) else None
  | JArray l => if bool_decide (length l = length names) then Some (Some <$> l) else None
  | _ => None
  end.

(** [json!({...})]: the map of serde_json's default build is ordered by key. *)
Definition json_object (fs : list (string * Json)) : Json := JObject (bt_collect fs).

(** The values the sources print: no floats, integers in range, unique keys. *)
Fixpoint json_plain (v : Json) : bool :=
  match v with
  | JNumber (PosInt n) => bool_decide (is_u64 n)
  | JNumber (NegInt n) => bool_decide (- I64_MAX - 1 ≤ n < 0)
  | JNumber (Float _) => false
  | JArray l => forallb json_plain l
  | JObject fs => bool_decide (NoDup fs.*1) && forallb (λ kv, json_plain kv.2) fs
  | _ => true
  end.

Class JsonTextLaws `{JsonText} : Prop := {
  json_parse_print v : json_plain v = true → json_from_str (json_to_string v) = Some v
}.

Class JsonDocumentLaws `{JsonDocument} : Prop := {
  json_raw_parse_pretty v : json_plain v = true → json_raw_from_slice (json_to_vec_pretty v) = Some v
}.

(** ** [base64::URL_SAFE_NO_PAD], [hmac], [bs58] *)

Class Base64Url := {
  b64_url_encode : bytes → string;
  b64_url_decode : string → option bytes
}.

Class Base64UrlLaws `{Base64Url} : Prop := {
  b64_url_decode_encode b : b64_url_decode (b64_url_encode b) = Some b;
  b64_url_no_dot b : contains_char "." (b64_url_encode b) = false;
  b64_url_len b : str_len (b64_url_encode b) = (len b * 4 + 2) / 3
}.

(** HMAC-SHA256; [new_from_slice] accepts keys of any length. *)
Class HmacSha256 := hmac_sha256 : bytes → bytes → bytes.

Class Base58 := bs58_encode : bytes → string.

(** ** [sha3], [time], [siwe] *)

Class Keccak256 := keccak256 : bytes → bytes.
Class Keccak256Laws `{Keccak256} : Prop := { keccak256_len b : len (keccak256 b) = 32 }.

Record OffsetDateTime := mkOffsetDateTime { unix_timestamp : Z; nanosecond : Z }.

Class TimeLib := {
  (** [OffsetDateTime::from_unix_timestamp], an error outside the years the
      crate supports; [format(&Rfc3339)] *)
  from_unix_timestamp : Z → option OffsetDateTime;
  format_rfc3339 : OffsetDateTime → option string
}.

Class SiweLib := {
  SiweMessage : Type;
  (** [str::parse::<Message>()], [Message::to_string] *)
  siwe_parse : string → option SiweMessage;
  siwe_to_string : SiweMessage → string;
  siwe_domain : SiweMessage → string;
  siwe_address : SiweMessage → bytes;
  siwe_statement : SiweMessage → option string;
  siwe_uri : SiweMessage → string;
  siwe_chain_id : SiweMessage → Z;
  siwe_nonce : SiweMessage → string;
  siwe_issued_at : SiweMessage → OffsetDateTime;
  siwe_expiration_time : SiweMessage → option OffsetDateTime;
  siwe_not_before : SiweMessage → option OffsetDateTime;
  siwe_request_id : SiweMessage → option string;
  siwe_resources : SiweMessage → list string;
  (** [verify_eip191(&[u8; 65])] *)
  siwe_verify_eip191 : SiweMessage → bytes → bool
}.

Class SiweLaws `{SiweLib} : Prop := {
  (** an address is a [[u8; 20]] *)
  siwe_address_len m : len (siwe_address m) = 20
}.

(** [json_raw_from_slice] also reads compact text. *)
Class JsonRawTextLaws `{JsonText} `{JsonDocument} : Prop := {
  json_raw_parse_print v : json_plain v = true → json_raw_from_slice (as_bytes (json_to_string v)) = Some v
}.

(** The fields of a struct that ignores unknown ones: a repeated field is an
    error, an absent one is [None]; serde also takes the fields as a sequence. *)
Definition lenient_struct (names : list string) (v : Json) : option (list (option Json)) :=
  match v with
  | JObject fs =>
      if bool_decide (NoDup (filter (λ k, k ∈ names) fs.*1))
      then Some ((λ n, field_get n fs) <$> names) else None
  | JArray l => if bool_decide (length l = length names) then Some (Some <$> l) else None
  | _ => None
  end.

(** ** [qrcode] and the encoder of [base64] *)

Class QrCodeLib := {
  (** [QrCode::new(data)] rendered as SVG text; an error for oversized data *)
  qr_svg : bytes → option string
}.

Class Base64StdEncode := b64_std_encode : bytes → string.
