(* ===== verification/Fixtures.v ===== *)
(** * Concrete instances of the third-party interfaces

    Small executable stand-ins for the crates of [Externs.v].  They satisfy the
    companion laws, so every hypothesis of the development can be met, and
    they compute, so that theorems can be tried on concrete inputs.  None of
    them claims to be the real algorithm. *)

From S2P Require Import Prelude RustStd IpAddr BTreeMap Externs.

(** A polynomial checksum, repeated to 32 bytes, in the place of SHA-256. *)
Definition toy_hash (b : bytes) : Z := foldl (λ h c, (h * 31 + byte_Z c + 7) mod 4294967296) 5381 b.
#[export] Instance toy_sha : Sha256 := λ b,
  let h := toy_hash b in
  concat (repeat [Z_byte h; Z_byte (h / 65536); Z_byte (h / 256); Z_byte (h / 16777216)] 8).

#[export] Instance toy_sha_laws : Sha256Laws.
Proof. by split. Qed.

(** A CID is its text: codec, hash code and digest. *)
Definition escape (b : bytes) : bytes := concat ((λ c, [x01; c]) <$> b) ++ [x00].
Fixpoint unescape (b : bytes) : option (bytes * bytes) :=
  match b with
  | x00 :: rest => Some ([], rest)
  | _ :: c :: rest => '(d, rest) ← unescape rest; Some (c :: d, rest)
  | _ => None
  end.

Lemma unescape_escape b rest : unescape (escape b ++ rest) = Some (b, rest).
Proof.
  unfold escape. rewrite <-app_assoc. induction b as [|c b IH]; [done|].
  cbn [fmap list_fmap concat app unescape] in *. by rewrite IH.
Qed.

#[export] Instance toy_cid : CidLib := {|
  Cid := string;
  cid_eq_dec := String.eq_dec;
  cid_key_ord := string_key_ord;
  cid_new_v1 codec code digest := from_bytes (Z_byte codec :: Z_byte code :: digest);
  cid_is_v1 c := true;
  cid_codec c := from_option ascii_Z 0 (first_byte c);
  cid_hash_code c := from_option ascii_Z 0 (head (tail (chars_of c)));
  cid_hash_size c := str_len c - 2;
  cid_parse := Some;
  cid_to_string c := c;
  cid_to_bytes c := escape (as_bytes c);
  cid_read_bytes b := '(c, rest) ← unescape b; Some (from_bytes c, rest)
|}.

#[export] Instance toy_cid_laws : CidLaws.
Proof.
  split; [exact string_key_ord_laws|].
  intros c rest. simpl. rewrite unescape_escape. simpl. by rewrite from_bytes_as.
Qed.

(** A self-delimiting tagged code in the place of DAG-CBOR. *)
Fixpoint pos_bits (p : positive) : bytes :=
  match p with xH => [] | xO p => x00 :: pos_bits p | xI p => x01 :: pos_bits p end.
Fixpoint bits_pos (b : bytes) : positive :=
  match b with [] => xH | x00 :: b => xO (bits_pos b) | _ :: b => xI (bits_pos b) end.

Lemma bits_pos_bits p : bits_pos (pos_bits p) = p.
Proof. induction p; simpl; congruence. Qed.

Fixpoint enc (v : Ipld) : bytes :=
  match v with
  | INull => [x00]
  | IBool b => [if b then x01 else x02]
  | IInteger n => x03 :: escape (pos_bits (encode n))
  | IString s => x04 :: escape (as_bytes s)
  | IBytes b => x05 :: escape b
  | IList l => x06 :: foldr (λ v b, x01 :: enc v ++ b) [x00] l
  | IMap m => x07 :: foldr (λ kv b, x01 :: escape (as_bytes kv.1) ++ enc kv.2 ++ b) [x00] m
  | ILink c => x08 :: escape (as_bytes c)
  end.

Definition dec_items (dec : bytes → option (Ipld * bytes)) :
    nat → bytes → option (list Ipld * bytes) :=
  fix go n b :=
    match n, b with
    | S n, x01 :: b => '(v, b) ← dec b; '(l, b) ← go n b; Some (v :: l, b)
    | _, _ :: b => Some ([], b)
    | _, _ => None
    end.

Definition dec_fields (dec : bytes → option (Ipld * bytes)) :
    nat → bytes → option (list (string * Ipld) * bytes) :=
  fix go n b :=
    match n, b with
    | S n, x01 :: b =>
        '(k, b) ← unescape b; '(v, b) ← dec b; '(l, b) ← go n b; Some ((from_bytes k, v) :: l, b)
    | _, _ :: b => Some ([], b)
    | _, _ => None
    end.

Fixpoint dec (fuel : nat) (b : bytes) : option (Ipld * bytes) :=
  match fuel, b with
  | S fuel, x00 :: b => Some (INull, b)
  | S fuel, x01 :: b => Some (IBool true, b)
  | S fuel, x02 :: b => Some (IBool false, b)
  | S fuel, x03 :: b => '(n, b) ← unescape b; n ← decode (bits_pos n); Some (IInteger n, b)
  | S fuel, x04 :: b => '(s, b) ← unescape b; Some (IString (from_bytes s), b)
  | S fuel, x05 :: b => '(s, b) ← unescape b; Some (IBytes s, b)
  | S fuel, x06 :: b => '(l, b) ← dec_items (dec fuel) fuel b; Some (IList l, b)
  | S fuel, x07 :: b => '(m, b) ← dec_fields (dec fuel) fuel b; Some (IMap m, b)
  | S fuel, x08 :: b => '(c, b) ← unescape b; Some (ILink (from_bytes c), b)
  | _, _ => None
  end.

Section ipld_ind.
Context (P : Ipld → Prop)
  (Hnull : P INull) (Hbool : ∀ b, P (IBool b)) (Hint : ∀ n, P (IInteger n))
  (Hstr : ∀ s, P (IString s)) (Hbytes : ∀ b, P (IBytes b))
  (Hlist : ∀ l, Forall P l → P (IList l))
  (Hmap : ∀ m, Forall (λ kv, P kv.2) m → P (IMap m))
  (Hlink : ∀ c, P (ILink c)).

Fixpoint ipld_nested_ind (v : Ipld) : P v :=
  match v with
  | INull => Hnull
  | IBool b => Hbool b
  | IInteger n => Hint n
  | IString s => Hstr s
  | IBytes b => Hbytes b
  | IList l => Hlist l ((fix go l : Forall P l := match l with
      | [] => List.Forall_nil _
      | x :: l => List.Forall_cons _ _ _ (ipld_nested_ind x) (go l)
      end) l)
  | IMap m => Hmap m ((fix go m : Forall (λ kv, P kv.2) m := match m with
      | [] => List.Forall_nil _
      | kv :: m => List.Forall_cons _ _ _ (ipld_nested_ind kv.2) (go m)
      end) m)
  | ILink c => Hlink c
  end.
End ipld_ind.

Lemma dec_enc v : ∀ fuel rest, (length (enc v) ≤ fuel)%nat → dec fuel (enc v ++ rest) = Some (v, rest).
Proof.
  induction v as [|b|n|s|b|l IH|m IH|c] using ipld_nested_ind; intros [|fuel] rest Hf;
    cbn [enc] in *; simpl in Hf; try lia.
  all: try (cbn [app dec]; rewrite unescape_escape; cbn [mbind option_bind];
    rewrite ?bits_pos_bits, ?decode_encode, ?from_bytes_as; done).
  - done.
  - by destruct b.
  - cbn [app dec]. enough (Hg : ∀ n, (length (foldr (λ v b, x01 :: enc v ++ b) [x00] l) ≤ n)%nat → (n ≤ fuel)%nat →
      dec_items (dec fuel) n (foldr (λ v b, x01 :: enc v ++ b) [x00] l ++ rest) = Some (l, rest))
      by (rewrite Hg by lia; done).
    clear Hf. induction IH as [|v l Hv _ IH]; intros [|n] Hn Hle; simpl in *; try lia; [done|].
    rewrite length_app in Hn. rewrite <-app_assoc, Hv by lia. simpl. by rewrite IH by lia.
  - cbn [app dec].
    enough (Hg : ∀ n, (length (foldr (λ kv b, x01 :: escape (as_bytes kv.1) ++ enc kv.2 ++ b) [x00] m) ≤ n)%nat →
      (n ≤ fuel)%nat →
      dec_fields (dec fuel) n (foldr (λ kv b, x01 :: escape (as_bytes kv.1) ++ enc kv.2 ++ b) [x00] m ++ rest)
      = Some (m, rest)) by (rewrite Hg by lia; done).
    clear Hf. induction IH as [|[k v] m Hv _ IH]; intros [|n] Hn Hle; simpl in *; try lia; [done|].
    rewrite !length_app in Hn. rewrite <-!app_assoc, unescape_escape. simpl.
    rewrite Hv by lia. simpl. rewrite IH by lia. simpl. by rewrite from_bytes_as.
Qed.

#[export] Instance toy_cbor : DagCbor := {|
  cbor_to_vec v := Ok (enc v);
  cbor_from_slice b := ok_or "bad block" (fst <$> dec (length b) b)
|}.

#[export] Instance toy_cbor_laws : DagCborLaws.
Proof.
  split. intros v b [= <-]. simpl.
  pose proof (dec_enc v (length (enc v)) [] ltac:(lia)) as Hd. rewrite app_nil_r in Hd. by rewrite Hd.
Qed.

(** Base64 and hexadecimal. *)
#[export] Instance toy_base64 : Base64Std := {| b64_std_decode s := Some (as_bytes s) |}.

(** ECDSA: a signature is the public key followed by the digest. *)
#[export] Instance toy_ecdsa : Ecdsa := {|
  SigningKey := bytes;
  VerifyingKey := bytes;
  Signature := bytes;
  sk_from_bytes b := if bool_decide (len b = 32) then Some b else None;
  sk_public_sec1 k := k;
  sk_sign k m := k ++ sha256 m;
  sig_normalize_s s := None;
  sig_to_bytes s := s;
  sig_from_slice := Some;
  vk_from_sec1_bytes := Some;
  vk_verify k m s := bool_decide (s = k ++ sha256 m)
|}.

#[export] Instance toy_ecdsa_laws : EcdsaLaws.
Proof.
  split; simpl; try done.
  intros k vk m [= ->]. by apply bool_decide_true.
Qed.

(** Hexadecimal, lower case on output, either case on input. *)
Definition nibbles : string := "0123456789abcdef".
Definition hex_char (n : Z) : ascii := default "0"%char (chars_of nibbles !! Z.to_nat n).

Fixpoint hex_pairs (l : list ascii) : option bytes :=
  match l with
  | [] => Some []
  | a :: b :: l =>
      hi ← digit_value 16 a; lo ← digit_value 16 b; rest ← hex_pairs l; Some (Z_byte (hi * 16 + lo) :: rest)
  | _ => None
  end.

Fixpoint hex_chars (b : bytes) : list ascii :=
  match b with
  | [] => []
  | c :: b => hex_char (byte_Z c / 16) :: hex_char (byte_Z c mod 16) :: hex_chars b
  end.

#[export] Instance toy_hex : HexLib := {|
  hex_encode b := of_chars (hex_chars b);
  hex_decode s := hex_pairs (chars_of s)
|}.

Definition small_nats (n : nat) : list Z := Z.of_nat <$> seq 0 n.
Lemma small_nats_check (n : nat) (p : Z → bool) k :
  forallb p (small_nats n) = true → 0 ≤ k < Z.of_nat n → p k = true.
Proof.
  rewrite forallb_forall. intros Hp Hk. apply Hp, list_elem_of_In. unfold small_nats.
  apply list_elem_of_fmap. exists (Z.to_nat k). split; [lia|]. apply elem_of_seq. lia.
Qed.

Lemma hex_char_digit k : 0 ≤ k < 16 → digit_value 16 (hex_char k) = Some k.
Proof.
  intros Hk.
  pose proof (small_nats_check 16 (λ k, from_option (Z.eqb k) false (digit_value 16 (hex_char k))) k eq_refl Hk) as Hd.
  simpl in Hd. destruct (digit_value 16 (hex_char k)); simpl in Hd; [|done]. apply Z.eqb_eq in Hd. by subst.
Qed.

Lemma hex_char_lower k : 0 ≤ k < 16 → is_ascii_digit (hex_char k) || in_range 97 102 (hex_char k) = true.
Proof. intros Hk. by apply (small_nats_check 16 (λ k, is_ascii_digit (hex_char k) || in_range 97 102 (hex_char k))). Qed.

Lemma byte_nibbles c : 0 ≤ byte_Z c / 16 < 16 ∧ 0 ≤ byte_Z c mod 16 < 16.
Proof.
  pose proof (byte_Z_range c). split; [|apply Z.mod_pos_bound; lia].
  split; [apply Z.div_pos; lia|apply Z.div_lt_upper_bound; lia].
Qed.

#[export] Instance toy_hex_laws : HexLaws.
Proof.
  split; intros b; simpl; unfold all_bytes, str_len; rewrite <-?chars_of_length, chars_of_of; unfold len.
  - induction b as [|c b IH]; [done|]. destruct (byte_nibbles c). cbn [hex_chars hex_pairs].
    rewrite !hex_char_digit, IH by done. cbn [mbind option_bind]. do 2 f_equal.
    rewrite Z.mul_comm, <-Z.div_mod by lia. apply Z_byte_Z.
  - induction b as [|c b IH]; [done|]. cbn [hex_chars length]. lia.
  - induction b as [|c b IH]; [done|]. destruct (byte_nibbles c). cbn [hex_chars forallb].
    by rewrite !hex_char_lower, IH.
Qed.

(** URL-safe base64 without padding. *)
Definition b64_alphabet : string := "ABCDEFGHIJKLMNOPQRSTUVWXYZabcdefghijklmnopqrstuvwxyz0123456789-_".
Definition b64_char (n : Z) : ascii := default "A"%char (chars_of b64_alphabet !! Z.to_nat n).
Definition b64_value (c : ascii) : option Z :=
  Z.of_nat ∘ fst <$> list_find (λ d, c = d) (chars_of b64_alphabet).

Fixpoint b64_groups (b : bytes) : list ascii :=
  match b with
  | x :: y :: z :: b =>
      let n := byte_Z x * 65536 + byte_Z y * 256 + byte_Z z in
      b64_char (n / 262144) :: b64_char (n / 4096 mod 64) :: b64_char (n / 64 mod 64) :: b64_char (n mod 64)
        :: b64_groups b
  | [x; y] =>
      let n := byte_Z x * 1024 + byte_Z y * 4 in
      [b64_char (n / 4096); b64_char (n / 64 mod 64); b64_char (n mod 64)]
  | [x] => let n := byte_Z x * 16 in [b64_char (n / 64); b64_char (n mod 64)]
  | [] => []
  end.

Fixpoint b64_ungroup (l : list ascii) : option bytes :=
  match l with
  | a :: b :: c :: d :: l =>
      a ← b64_value a; b ← b64_value b; c ← b64_value c; d ← b64_value d; rest ← b64_ungroup l;
      let n := a * 262144 + b * 4096 + c * 64 + d in
      Some (Z_byte (n / 65536) :: Z_byte (n / 256) :: Z_byte n :: rest)
  | [a; b; c] =>
      a ← b64_value a; b ← b64_value b; c ← b64_value c;
      let n := a * 4096 + b * 64 + c in
      if n mod 4 =? 0 then Some [Z_byte (n / 1024); Z_byte (n / 4)] else None
  | [a; b] =>
      a ← b64_value a; b ← b64_value b; let n := a * 64 + b in
      if n mod 16 =? 0 then Some [Z_byte (n / 16)] else None
  | [_] => None
  | [] => Some []
  end.

#[export] Instance toy_b64 : Base64Url := {|
  b64_url_encode b := of_chars (b64_groups b);
  b64_url_decode s := b64_ungroup (chars_of s)
|}.

Lemma b64_char_value k : 0 ≤ k < 64 → b64_value (b64_char k) = Some k.
Proof.
  intros Hk.
  pose proof (small_nats_check 64 (λ k, from_option (Z.eqb k) false (b64_value (b64_char k))) k eq_refl Hk) as Hd.
  simpl in Hd. destruct (b64_value (b64_char k)); simpl in Hd; [|done]. apply Z.eqb_eq in Hd. by subst.
Qed.

Lemma b64_char_not_dot k : Ascii.eqb "." (b64_char k) = false.
Proof.
  unfold b64_char. destruct (chars_of b64_alphabet !! Z.to_nat k) as [c|] eqn:Hc; [|done].
  apply list_elem_of_lookup_2 in Hc. revert c Hc. apply Forall_forall. by repeat constructor.
Qed.

Lemma Z_byte_eq n b : n mod 256 = byte_Z b → Z_byte n = b.
Proof. intros Hn. apply byte_Z_inj. by rewrite byte_Z_of. Qed.

(** Splitting a number below [64^k] into base 64 digits and back. *)
Lemma b64_bytes_3 x y z : let n := byte_Z x * 65536 + byte_Z y * 256 + byte_Z z in
  0 ≤ n / 262144 < 64 ∧ n / 262144 * 262144 + n / 4096 mod 64 * 4096 + n / 64 mod 64 * 64 + n mod 64 = n.
Proof.
  intros n. pose proof (byte_Z_range x). pose proof (byte_Z_range y). pose proof (byte_Z_range z).
  assert (0 ≤ n < 16777216) by lia. clearbody n. split; [split; [apply Z.div_pos; lia|apply Z.div_lt_upper_bound; lia]|].
  pose proof (Z.div_mod n 64 ltac:(lia)). pose proof (Z.div_mod (n / 64) 64 ltac:(lia)).
  pose proof (Z.div_mod (n / 4096) 64 ltac:(lia)).
  rewrite (Z.div_div n 64 64) in * by lia. change (64 * 64) with 4096 in *.
  rewrite (Z.div_div n 4096 64) in * by lia. change (4096 * 64) with 262144 in *. lia.
Qed.

Ltac digit_range :=
  first [apply Z.mod_pos_bound; lia | split; [apply Z.div_pos; lia | apply Z.div_lt_upper_bound; lia]].

Lemma b64_roundtrip b : b64_ungroup (b64_groups b) = Some b.
Proof.
  induction b as [b IH] using (induction_ltof1 _ (@length byte)). unfold ltof in IH.
  destruct b as [|x [|y [|z b]]]; cbn [b64_groups b64_ungroup]; [done|..].
  - pose proof (byte_Z_range x). rewrite !b64_char_value by digit_range.
    cbn [mbind option_bind]. rewrite (Z.mul_comm (_ / 64)), <-Z.div_mod by lia.
    rewrite Z.mod_mul, Z.eqb_refl, Z.div_mul by lia. by rewrite Z_byte_Z.
  - pose proof (byte_Z_range x). pose proof (byte_Z_range y).
    set (n := byte_Z x * 1024 + byte_Z y * 4). assert (0 ≤ n < 262144) by lia.
    rewrite !b64_char_value by digit_range.
    cbn [mbind option_bind].
    assert (n / 4096 * 4096 + n / 64 mod 64 * 64 + n mod 64 = n) as ->.
    { pose proof (Z.div_mod n 64 ltac:(lia)). pose proof (Z.div_mod (n / 64) 64 ltac:(lia)).
      rewrite (Z.div_div n 64 64) in * by lia. change (64 * 64) with 4096 in *. lia. }
    assert (n = (byte_Z x * 256 + byte_Z y) * 4) as Hn by (unfold n; lia).
    rewrite Hn at 1. rewrite Z.mod_mul, Z.eqb_refl by lia. do 2 f_equal; [|f_equal]; apply Z_byte_eq.
    + replace n with (byte_Z y * 4 + byte_Z x * 1024) by (unfold n; lia).
      rewrite Z.div_add, Z.div_small by lia. apply Z.mod_small. lia.
    + rewrite Hn, Z.div_mul by lia. rewrite Z.add_comm, Z.mod_add, Z.mod_small by lia. done.
  - destruct (b64_bytes_3 x y z) as [Hq Hn]. set (n := _ + _ + byte_Z z) in *.
    rewrite !b64_char_value by first [exact Hq|digit_range].
    cbn [mbind option_bind]. rewrite IH by (simpl; lia). cbn [mbind option_bind]. rewrite Hn.
    pose proof (byte_Z_range x). pose proof (byte_Z_range y). pose proof (byte_Z_range z).
    do 2 f_equal; [|f_equal; [|f_equal]]; apply Z_byte_eq.
    + replace n with ((byte_Z y * 256 + byte_Z z) + byte_Z x * 65536) by (unfold n; lia).
      rewrite Z.div_add, Z.div_small by lia. apply Z.mod_small. lia.
    + replace n with (byte_Z z + (byte_Z x * 256 + byte_Z y) * 256) by (unfold n; lia).
      rewrite Z.div_add, Z.div_small by lia. rewrite Z.add_0_l, Z.add_comm, Z.mod_add, Z.mod_small by lia. done.
    + replace n with (byte_Z z + (byte_Z x * 256 + byte_Z y) * 256) by (unfold n; lia).
      rewrite Z.mod_add, Z.mod_small by lia. done.
Qed.

Lemma b64_length b : Z.of_nat (length (b64_groups b)) = (len b * 4 + 2) / 3.
Proof.
  induction b as [b IH] using (induction_ltof1 _ (@length byte)). unfold ltof in IH.
  destruct b as [|x [|y [|z b]]]; [done..|].
  cbn [b64_groups length]. autorewrite with psky.
  replace ((1 + (1 + (1 + len b))) * 4 + 2) with (len b * 4 + 2 + 4 * 3) by lia.
  rewrite Z.div_add by lia. rewrite <-IH by (simpl; lia). lia.
Qed.

Lemma b64_no_dot b : existsb (Ascii.eqb ".") (b64_groups b) = false.
Proof.
  induction b as [b IH] using (induction_ltof1 _ (@length byte)). unfold ltof in IH.
  destruct b as [|x [|y [|z b]]]; cbn [b64_groups existsb]; rewrite ?b64_char_not_dot; [done..|].
  by rewrite IH by (simpl; lia).
Qed.

#[export] Instance toy_b64_laws : Base64UrlLaws.
Proof.
  split; intros b; simpl; unfold contains_char, any_byte, str_len; rewrite <-?chars_of_length, chars_of_of.
  - apply b64_roundtrip.
  - apply b64_no_dot.
  - apply b64_length.
Qed.

(** JSON text, through the tagged code above. *)
Fixpoint json_ipld (v : Json) : Ipld :=
  match v with
  | JNull => INull
  | JBool b => IBool b
  | JNumber (PosInt n) | JNumber (NegInt n) => IInteger n
  | JNumber (Float r) => IBytes (as_bytes r)
  | JString s => IString s
  | JArray l => IList (json_ipld <$> l)
  | JObject fs => IMap ((λ kv, (kv.1, json_ipld kv.2)) <$> fs)
  end.

Fixpoint ipld_json (v : Ipld) : Json :=
  match v with
  | INull => JNull
  | IBool b => JBool b
  | IInteger n => JNumber (if 0 <=? n then PosInt n else NegInt n)
  | IBytes b => JNumber (Float (from_bytes b))
  | IString s => JString s
  | IList l => JArray (ipld_json <$> l)
  | IMap m => JObject ((λ kv, (kv.1, ipld_json kv.2)) <$> m)
  | ILink c => JString c
  end.

Lemma ipld_json_ipld v : json_plain v = true → ipld_json (json_ipld v) = v.
Proof.
  induction v as [| |n| |l IH|fs IH] using json_nested_ind; intros Hp; simpl in *; try done.
  - destruct n; simpl in *; boolify; [|by rewrite (proj2 (Z.leb_gt _ _)) by lia|done].
    by rewrite (proj2 (Z.leb_le _ _)) by (unfold is_u64 in *; lia).
  - f_equal. induction IH as [|v l Hv _ IHl]; simpl in *; [done|]. boolify.
    f_equal; [by apply Hv|by apply IHl].
  - apply andb_true_iff in Hp as [_ Hp]. f_equal.
    induction IH as [|[k v] fs Hv _ IHl]; simpl in *; [done|]. boolify.
    f_equal; [by rewrite Hv|by apply IHl].
Qed.

#[export] Instance toy_json : JsonText := {|
  json_to_string v := from_bytes (enc (json_ipld v));
  json_from_str s := ipld_json ∘ fst <$> dec (String.length s) (as_bytes s);
  json_struct_from_str names s :=
    v ← dec (String.length s) (as_bytes s);
    match ipld_json v.1 with
    | JObject fs => if bool_decide (NoDup fs.*1) then Some ((λ n, field_get n fs) <$> names) else None
    | _ => None
    end
|}.

Lemma as_bytes_length s : length (as_bytes s) = String.length s.
Proof. unfold as_bytes. induction s; simpl; [done|]. by f_equal. Qed.

#[export] Instance toy_json_laws : JsonTextLaws.
Proof.
  split. intros v Hv. simpl.
  set (b := enc (json_ipld v)). rewrite <-as_bytes_length, as_bytes_from.
  pose proof (dec_enc (json_ipld v) (length b) [] (Nat.le_refl _)) as Hd. rewrite app_nil_r in Hd.
  fold b in Hd. rewrite Hd. simpl. by rewrite ipld_json_ipld.
Qed.

#[export] Instance toy_document : JsonDocument := {|
  json_to_vec_pretty v := as_bytes (json_to_string v);
  json_raw_from_slice b := json_from_str (from_bytes b)
|}.
#[export] Instance toy_document_laws : JsonDocumentLaws.
Proof.
  split. intros v Hv. cbn [json_raw_from_slice json_to_vec_pretty toy_document].
  rewrite from_bytes_as. by apply json_parse_print.
Qed.

#[export] Instance toy_hmac : HmacSha256 := λ key msg, sha256 (key ++ msg).
#[export] Instance toy_base58 : Base58 := λ b, of_chars (hex_chars b).

(** URLs [scheme://host[:port][/path]]. *)
Record ToyUrl := mkToyUrl {
  toy_scheme : string; toy_user : string; toy_host : string; toy_port : option Z; toy_path : string;
  toy_query : option string
}.

Definition default_port (scheme : string) : option Z :=
  if bool_decide (scheme = "https") then Some 443
  else if bool_decide (scheme = "http") then Some 80 else None.

Definition toy_url_parse (s : string) : option ToyUrl :=
  '(scheme, rest) ← split_once ":" s;
  rest ← strip_prefix "//" rest;
  let '(rest, query) := match split_once "?" rest with Some (r, q) => (r, Some q) | None => (rest, None) end in
  let '(authority, path) :=
    match split_once "/" rest with Some (a, p) => (a, "/" +:+ p) | None => (rest, "/") end in
  let '(user, authority) :=
    match split_once "@" authority with Some (u, a) => (u, a) | None => ("", authority) end in
  if str_is_empty authority then None else
  match split_once ":" authority with
  | None => Some (mkToyUrl scheme user authority None path query)
  | Some (host, port) =>
      port ← parse_u16 port;
      Some (mkToyUrl scheme user host
        (if bool_decide (default_port scheme = Some port) then None else Some port) path query)
  end.

Definition toy_authority (u : ToyUrl) : string :=
  toy_host u +:+ match toy_port u with Some p => ":" +:+ to_string p | None => "" end.

#[export] Instance ToyUrl_eq_dec : EqDecision ToyUrl.
Proof. solve_decision. Defined.

(** Following a relative or absolute path reference. *)
Definition toy_set_path (u : ToyUrl) (path : string) : ToyUrl :=
  mkToyUrl (toy_scheme u) (toy_user u) (toy_host u) (toy_port u)
    (if starts_with "/" path then path else "/" +:+ path) (toy_query u).

#[export] Instance toy_url : UrlLib := {|
  Url := ToyUrl;
  url_eq_dec := ToyUrl_eq_dec;
  url_host u := Some (match parse_ip (toy_host u) with Some ip => HostIp ip | None => HostDomain (toy_host u) end);
  url_authority := toy_authority;
  url_join u r := Some (toy_set_path u r);
  url_set_path := toy_set_path;
  url_parse := toy_url_parse;
  url_scheme := toy_scheme;
  url_username := toy_user;
  url_password _ := None;
  url_host_str u := Some (toy_host u);
  url_port u := if decide (0 ≤ default 0 (toy_port u) ≤ U16_MAX) then toy_port u else None;
  url_path := toy_path;
  url_query := toy_query;
  url_fragment _ := None;
  url_query_pairs u :=
    match toy_query u with
    | Some q => (λ kv, default (kv, "") (split_once "=" kv)) <$> split_on "&" q
    | None => []
    end;
  url_origin u := toy_scheme u +:+ "://" +:+ toy_authority u;
  url_to_string u := toy_scheme u +:+ "://" +:+ toy_authority u +:+ toy_path u
|}.

#[export] Instance toy_url_laws : UrlLaws.
Proof.
  split. intros u p. simpl. destruct (decide _); [|done]. intros Hp. by rewrite Hp in *.
Qed.

#[export] Instance toy_keccak : Keccak256 := λ b, sha256 (x01 :: b).
#[export] Instance toy_keccak_laws : Keccak256Laws.
Proof. by split. Qed.

(** Times are written as their number of seconds. *)
#[export] Instance toy_time : TimeLib := {|
  from_unix_timestamp n := if decide (n ≤ 253402300799) then Some (mkOffsetDateTime n 0) else None;
  format_rfc3339 t := Some (to_string (unix_timestamp t))
|}.

(** A sign-in message is a line of fields separated by bars: domain, address,
    statement, URI, chain, nonce, issue time, expiration, resource.  Its
    signature is the address followed by 45 more bytes. *)
Definition toy_field (m : list string) (i : nat) : string := default "" (m !! i).
Definition toy_when (s : string) : OffsetDateTime := mkOffsetDateTime (default 0 (parse_u64 s)) 0.

#[export] Instance toy_siwe : SiweLib := {|
  SiweMessage := list string;
  siwe_parse s := Some (split_on "|" s);
  siwe_to_string m := String.concat "|" m;
  siwe_domain m := toy_field m 0;
  siwe_address m := take 20 (default [] (hex_decode (toy_field m 1)) ++ repeat x00 20);
  siwe_statement m := Some (toy_field m 2);
  siwe_uri m := toy_field m 3;
  siwe_chain_id m := default 0 (parse_u64 (toy_field m 4));
  siwe_nonce m := toy_field m 5;
  siwe_issued_at m := toy_when (toy_field m 6);
  siwe_expiration_time m := Some (toy_when (toy_field m 7));
  siwe_not_before m := None;
  siwe_request_id m := None;
  siwe_resources m := [toy_field m 8];
  siwe_verify_eip191 m signature :=
    bool_decide (take 20 signature = take 20 (default [] (hex_decode (toy_field m 1)) ++ repeat x00 20))
|}.

#[export] Instance toy_siwe_laws : SiweLaws.
Proof.
  split. intros m. cbn [siwe_address toy_siwe]. unfold len. rewrite length_take, length_app, repeat_length. lia.
Qed.

#[export] Instance toy_raw_text_laws : JsonRawTextLaws.
Proof. split. intros v Hv. exact (json_raw_parse_pretty v Hv). Qed.

#[export] Instance toy_qr : QrCodeLib := {| qr_svg b := if 2953 <? len b then None else Some (from_bytes b) |}.
#[export] Instance toy_b64_std : Base64StdEncode := λ b, of_chars (b64_groups b).
