(* ===== verification/Http.v ===== *)
(** * HTTP exchanges with an arbitrary peer

    The sources send requests through [reqwest] and read the response body in
    chunks.  A peer is any function from the exchanges that already happened
    and the next request to a reply, so that it may answer adversarially; the
    exchanges performed are the state the client code threads. *)

From S2P Require Import Prelude RustStd Externs.

(** [reqwest::Error] as the sources look at it ([is_timeout]). *)
Inductive TransportError := TimedOut | TransportFailed.

Inductive HttpMethod := GET | POST.

Section http.
Context `{UrlLib}.

(** A [RequestBuilder] as sent: method, URL, query pairs, bearer credential,
    content type and body text. *)
Record Request := mkRequest {
  rq_method : HttpMethod;
  rq_url : Url;
  rq_query : list (string * string);
  rq_bearer : option string;
  rq_content_type : option string;
  rq_body : option string
}.

(** A response: status, announced length, and the chunks [chunk()] yields
    before it ends or fails. *)
Record HttpResponse := mkHttpResponse {
  rs_status : Z;
  rs_content_length : option Z;
  rs_chunks : list bytes;
  rs_failure : option TransportError
}.

Definition Reply := result TransportError HttpResponse.
Definition Exchange : Type := Request * Reply.
Definition Peer := list Exchange → Request → Reply.

(** Client code: the result, and the exchanges performed so far. *)
Definition Net (E A : Type) := list Exchange → result E A * list Exchange.

#[export] Instance net_ret {E} : MRet (Net E) := λ A a tr, (Ok a, tr).
#[export] Instance net_bind {E} : MBind (Net E) := λ A B f m tr,
  match m tr with (Ok a, tr) => f a tr | (Err e, tr) => (Err e, tr) end.

(** A pure step. *)
Definition lift {E A} (r : result E A) : Net E A := λ tr, (r, tr).

(** [request.send().await] *)
Definition transmit {E} (peer : Peer) (request : Request) : Net E Reply := λ tr,
  let reply := peer tr request in (Ok reply, tr ++ [(request, reply)]).

Lemma net_bind_ok {E A B} (m : Net E A) (f : A → Net E B) tr b tr' :
  (m ≫= f) tr = (Ok b, tr') ↔ ∃ a tr1, m tr = (Ok a, tr1) ∧ f a tr1 = (Ok b, tr').
Proof. unfold mbind, net_bind. destruct (m tr) as [[a|e] tr1]; naive_solver. Qed.

Lemma net_bind_err {E A B} (m : Net E A) (f : A → Net E B) tr e tr' :
  (m ≫= f) tr = (Err e, tr') ↔
  m tr = (Err e, tr') ∨ ∃ a tr1, m tr = (Ok a, tr1) ∧ f a tr1 = (Err e, tr').
Proof. unfold mbind, net_bind. destruct (m tr) as [[a|e1] tr1]; naive_solver. Qed.

Lemma lift_ok {E A} (r : result E A) tr a tr' : lift r tr = (Ok a, tr') ↔ r = Ok a ∧ tr' = tr.
Proof. unfold lift. naive_solver. Qed.

Lemma lift_err {E A} (r : result E A) tr e tr' : lift r tr = (Err e, tr') ↔ r = Err e ∧ tr' = tr.
Proof. unfold lift. naive_solver. Qed.

(** [grows P m]: [m] only appends exchanges that satisfy [P]. *)
Definition grows {E A} (P : Exchange → Prop) (m : Net E A) : Prop :=
  ∀ tr, ∃ new, (m tr).2 = tr ++ new ∧ Forall P new.

Lemma grows_lift {E A} P (r : result E A) : grows P (lift r).
Proof. intros tr. exists []. by rewrite app_nil_r. Qed.

Lemma grows_bind {E A B} P (m : Net E A) (f : A → Net E B) :
  grows P m → (∀ a, grows P (f a)) → grows P (m ≫= f).
Proof.
  intros Hm Hf tr. unfold mbind, net_bind. destruct (Hm tr) as (new & Heq & Hnew).
  destruct (m tr) as [[a|e] tr1]; simpl in Heq; subst; [|by exists new].
  destruct (Hf a (tr ++ new)) as (new' & -> & Hnew'). exists (new ++ new').
  rewrite app_assoc. split; [done|]. by apply Forall_app.
Qed.

Lemma grows_transmit {E} (P : Exchange → Prop) peer request :
  (∀ reply, P (request, reply)) → grows P (@transmit E peer request).
Proof. intros HP tr. eexists. split; [done|]. by repeat constructor. Qed.

Lemma grows_run {E A} P (m : Net E A) tr r tr' :
  grows P m → m tr = (r, tr') → ∃ new, tr' = tr ++ new ∧ Forall P new.
Proof. intros Hm Hr. destruct (Hm tr) as (new & Heq & ?). rewrite Hr in Heq. by exists new. Qed.

Lemma grows_impl {E A} (P Q : Exchange → Prop) (m : Net E A) :
  (∀ x, P x → Q x) → grows P m → grows Q m.
Proof. intros HPQ Hm tr. destruct (Hm tr) as (new & ? & ?). eauto using Forall_impl. Qed.

(** [grows_by P n m]: [m] appends at most [n] exchanges, all satisfying [P]. *)
Definition grows_by {E A} (P : Exchange → Prop) (n : nat) (m : Net E A) : Prop :=
  ∀ tr, ∃ new, (m tr).2 = tr ++ new ∧ Forall P new ∧ (length new ≤ n)%nat.

Lemma grows_by_ret {E A} P n (a : A) : grows_by P n (mret a : Net E A).
Proof. intros tr. exists []. rewrite app_nil_r. split_and!; [done|done|simpl; lia]. Qed.

Lemma grows_by_transmit {E} (P : Exchange → Prop) peer request :
  (∀ reply, P (request, reply)) → grows_by P 1 (@transmit E peer request).
Proof. intros HP tr. eexists. split_and!; [done|by repeat constructor|simpl; lia]. Qed.

Lemma grows_by_bind {E A B} P n k (m : Net E A) (f : A → Net E B) :
  grows_by P n m → (∀ a, grows_by P k (f a)) → grows_by P (n + k) (m ≫= f).
Proof.
  intros Hm Hf tr. unfold mbind, net_bind. destruct (Hm tr) as (new & Heq & Hnew & Hlen).
  destruct (m tr) as [[a|e] tr1]; simpl in Heq; subst; [|exists new; split_and!; [done|done|lia]].
  destruct (Hf a (tr ++ new)) as (new' & -> & Hnew' & Hlen'). exists (new ++ new').
  rewrite app_assoc, length_app. split_and!; [done|by apply Forall_app|lia].
Qed.

Lemma grows_by_impl {E A} (P Q : Exchange → Prop) n k (m : Net E A) :
  (∀ x, P x → Q x) → (n ≤ k)%nat → grows_by P n m → grows_by Q k m.
Proof.
  intros HPQ Hn Hm tr. destruct (Hm tr) as (new & ? & ? & ?). exists new.
  split_and!; [done|by eapply Forall_impl|lia].
Qed.

(** The result of a run, and the exchanges it ended with. *)
Lemma run_result {A B} (run : A * B) r : run.1 = r → run = (r, run.2).
Proof. intros <-. by destruct run. Qed.

(** [fails_with P m]: the errors of [m] satisfy [P]. *)
Definition fails_with {E A} (P : E → Prop) (m : Net E A) : Prop :=
  ∀ tr e tr', m tr = (Err e, tr') → P e.

Lemma fails_lift {E A} (P : E → Prop) (r : result E A) : (∀ e, r = Err e → P e) → fails_with P (lift r).
Proof. intros HP tr e tr' Hr. apply lift_err in Hr as [Hr _]. by apply HP. Qed.

Lemma fails_bind {E A B} (P : E → Prop) (m : Net E A) (f : A → Net E B) :
  fails_with P m → (∀ a, fails_with P (f a)) → fails_with P (m ≫= f).
Proof. intros Hm Hf tr e tr' Hr. apply net_bind_err in Hr as [Hr|(a & tr1 & _ & Hr)]; [by eapply Hm|by eapply Hf]. Qed.

Lemma fails_ret {E A} (P : E → Prop) (a : A) : fails_with P (mret a : Net E A).
Proof. by intros tr e tr'. Qed.

Lemma grows_ret {E A} P (a : A) : grows P (mret a : Net E A).
Proof. apply (grows_lift P (Ok a)). Qed.
End http.

#[export] Hint Resolve grows_lift grows_ret grows_bind grows_transmit fails_ret fails_bind : psky.
Global Arguments lift : simpl never.
Global Arguments transmit : simpl never.

(** [inv_net] takes apart successful runs of client code. *)
Ltac inv_net_step :=
  match goal with
  | H : (_ ≫= _) _ = (Ok _, _) |- _ => apply net_bind_ok in H; destruct H as (? & ? & ? & H)
  | H : lift _ _ = (Ok _, _) |- _ => apply lift_ok in H; destruct H as [? ?]
  | H : lift _ _ = (Err _, _) |- _ => apply lift_err in H; destruct H as [? ?]
  | H : mret _ _ = (Ok _, _) |- _ => injection H as ? ?
  | H : mret _ _ = (Err _, _) |- _ => discriminate H
  | H : (Ok _, _) = (Ok _, _) |- _ => injection H as ? ?
  | H : (Err _, _) = (Ok _, _) |- _ => discriminate H
  | H : (Ok _, _) = (Err _, _) |- _ => discriminate H
  end.
Ltac inv_net := repeat (first [inv_net_step | inv_result_step]; subst).
