(* ===== verification/FarcasterMessage.v ===== *)
(** * Farcaster sign-in messages ([psky-farcaster-auth], [lib.rs] and [message.rs])

    The data of the sign-in flow, the checks on a local challenge, and the
    parser that turns an untrusted relay proof into a claim about one FID. *)

From S2P Require Import Prelude RustStd Externs Fixtures.

Definition MAX_CHALLENGE_SECONDS : Z := 600.

Record Challenge := mkChallenge { ch_nonce : string; ch_created_at : Z; ch_expires_at : Z }.

Record Channel := mkChannel { channel_token : string; auth_url : string }.

Record SignedProof := mkSignedProof { proof_message : string; proof_signature : string }.

Inductive ChannelStatus :=
| StatusPending
| StatusCompleted (proof : SignedProof).

Inductive ProofKind := Custody | AuthAddress.
Inductive WalletKind := Eoa | Erc1271.

Record VerifiedIdentity := mkVerifiedIdentity {
  vi_fid : Z;
  vi_address : string;
  vi_custody_address : string;
  vi_wallet_kind : WalletKind;
  vi_proof_kind : ProofKind;
  vi_checked_block : Z;
  vi_block_hash : string;
  vi_checked_at : Z
}.

Inductive AuthError :=
| InvalidConfig
| InvalidChallenge
| InvalidRelayResponse
| ChannelExpired
| Unavailable
| InvalidMessage
| InvalidSignature
| UnsupportedWallet
| InvalidChainEvidence
| Unauthorized.

#[export] Instance AuthError_eq_dec : EqDecision AuthError.
Proof. solve_decision. Defined.
#[export] Instance WalletKind_eq_dec : EqDecision WalletKind.
Proof. solve_decision. Defined.
#[export] Instance ProofKind_eq_dec : EqDecision ProofKind.
Proof. solve_decision. Defined.
#[export] Instance SignedProof_eq_dec : EqDecision SignedProof.
Proof. solve_decision. Defined.
#[export] Instance Challenge_eq_dec : EqDecision Challenge.
Proof. solve_decision. Defined.
#[export] Instance VerifiedIdentity_eq_dec : EqDecision VerifiedIdentity.
Proof. solve_decision. Defined.

Definition MAX_MESSAGE_BYTES : Z := 8192.
Definition MAX_SIGNATURE_BYTES : Z := 4096.
Definition MAX_FID : Z := 9007199254740991.
Definition CLOCK_SKEW_SECONDS : Z := 60.

(** [n as i64] for a [u64]: two's complement. *)
Definition as_i64 (n : Z) : Z := if n <=? I64_MAX then n else n - 18446744073709551616.

(** 16 to 128 ASCII letters and digits. *)
Definition nonce_ok (nonce : string) : bool :=
  (16 <=? str_len nonce) && (str_len nonce <=? 128) && all_bytes is_ascii_alphanumeric nonce.

Section message.
Context `{TimeLib} `{SiweLib} `{Keccak256} `{HexLib}.

Record ParsedProof := mkParsedProof {
  pp_message : SiweMessage;
  pp_fid : Z;
  pp_signature : bytes;
  pp_digest : bytes
}.

Definition timestamp (seconds : Z) : result AuthError string :=
  _ ← reject_if (I64_MAX <? seconds) InvalidChallenge;
  time ← ok_or InvalidChallenge (from_unix_timestamp seconds);
  ok_or InvalidChallenge (format_rfc3339 time).

Definition validate_challenge (challenge : Challenge) : result AuthError () :=
  let lifetime := checked_sub (ch_expires_at challenge) (ch_created_at challenge) in
  _ ← reject_if
    (negb (nonce_ok (ch_nonce challenge)) ||
     negb (from_option (λ l, (1 <=? l) && (l <=? MAX_CHALLENGE_SECONDS)) false lifetime)) InvalidChallenge;
  _ ← timestamp (ch_created_at challenge);
  _ ← timestamp (ch_expires_at challenge);
  Ok ().

(** The FID named by the message's only resource. *)
Definition fid_of_resource (fid_resource : string) : result AuthError Z :=
  digits ← ok_or InvalidMessage (strip_prefix "farcaster://fid/" fid_resource);
  let digits := default digits (strip_suffix "/" digits) in
  _ ← reject_if (starts_with "0" digits || str_is_empty digits || negb (all_bytes is_ascii_digit digits))
    InvalidMessage;
  fid ← ok_or InvalidMessage (parse_u64 digits);
  _ ← reject_if ((fid =? 0) || (MAX_FID <? fid)) InvalidMessage;
  Ok fid.

(** [signature.ends_with(&[0x64, 0x92].repeat(16))] *)
Definition ERC6492_SUFFIX : bytes := concat (repeat [x64; x92] 16).
Definition ends_with_bytes (suffix b : bytes) : bool :=
  bool_decide (drop (length b - length suffix) b = suffix).

Definition decode_signature (text : string) : result AuthError bytes :=
  signature ← ok_or InvalidSignature (strip_prefix "0x" text);
  _ ← reject_if (str_is_empty signature || (MAX_SIGNATURE_BYTES * 2 <? str_len signature)) InvalidSignature;
  signature ← ok_or InvalidSignature (hex_decode signature);
  _ ← reject_if (ends_with_bytes ERC6492_SUFFIX signature) UnsupportedWallet;
  Ok signature.

(** The ERC-191 personal-message digest. *)
Definition erc191_digest (text : string) : bytes :=
  keccak256 (x19 :: as_bytes "Ethereum Signed Message:" ++ [x0a] ++ as_bytes (to_string (str_len text)) ++ as_bytes text).

Definition statement_ok (statement : option string) : bool :=
  match statement with
  | Some s => bool_decide (s = "Farcaster Auth") || bool_decide (s = "Farcaster Connect")
  | None => false
  end.

Definition parse_authority (proof : SignedProof) (domain uri : string) : result AuthError ParsedProof :=
  _ ← reject_if ((MAX_MESSAGE_BYTES <? str_len (proof_message proof))
                 || negb (all_bytes is_ascii (proof_message proof))) InvalidMessage;
  message ← ok_or InvalidMessage (siwe_parse (proof_message proof));
  _ ← reject_if
    (negb (bool_decide (siwe_to_string message = proof_message proof))
     || negb (bool_decide (siwe_domain message = domain))
     || negb (bool_decide (siwe_uri message = uri))
     || negb (nonce_ok (siwe_nonce message))
     || negb (siwe_chain_id message =? 10)
     || negb (statement_ok (siwe_statement message))
     || bool_decide (is_Some (siwe_request_id message))
     || negb (len (siwe_resources message) =? 1)) InvalidMessage;
  fid ← fid_of_resource (default EmptyString (head (siwe_resources message)));
  signature ← decode_signature (proof_signature proof);
  Ok (mkParsedProof message fid signature (erc191_digest (proof_message proof))).

Definition parse (proof : SignedProof) (challenge : Challenge) (domain uri : string) (now : Z) :
    result AuthError ParsedProof :=
  _ ← validate_challenge challenge;
  _ ← reject_if ((now <? ch_created_at challenge) || (ch_expires_at challenge <=? now)) InvalidChallenge;
  parsed ← parse_authority proof domain uri;
  let message := pp_message parsed in
  _ ← reject_if (negb (bool_decide (siwe_nonce message = ch_nonce challenge))) InvalidMessage;
  let issued := unix_timestamp (siwe_issued_at message) in
  _ ← reject_if (issued <? 0) InvalidMessage;
  _ ← reject_if
    ((issued <? saturating_sub (ch_created_at challenge) CLOCK_SKEW_SECONDS)
     || (saturating_add now CLOCK_SKEW_SECONDS <? issued)
     || (ch_expires_at challenge <=? issued)) InvalidMessage;
  expiry ← ok_or InvalidMessage (siwe_expiration_time message);
  _ ← reject_if
    (negb (unix_timestamp expiry =? as_i64 (ch_expires_at challenge)) || negb (nanosecond expiry =? 0))
    InvalidMessage;
  _ ← match siwe_not_before message with
      | Some value =>
          reject_if
            (negb (unix_timestamp value =? as_i64 (ch_created_at challenge)) || negb (nanosecond value =? 0))
            InvalidMessage
      | None => Ok ()
      end;
  Ok parsed.

(** [signature.as_slice().try_into::<[u8; 65]>()], the recovery byte, then the
    library's recovery. *)
Definition verify_eoa (proof : ParsedProof) : result AuthError () :=
  _ ← reject_if (negb (len (pp_signature proof) =? 65)) InvalidSignature;
  let v := byte_Z (default x00 (pp_signature proof !! 64%nat)) in
  _ ← reject_if (negb ((v =? 0) || (v =? 1) || (v =? 27) || (v =? 28))) InvalidSignature;
  reject_if (negb (siwe_verify_eip191 (pp_message proof) (pp_signature proof))) InvalidSignature.

(** ** Challenges and messages *)

Lemma timestamp_range n s : timestamp n = Ok s → n ≤ I64_MAX ∧ as_i64 n = n.
Proof.
  unfold timestamp, as_i64. intros Ht. inv_result. boolify. split; [done|].
  by rewrite (proj2 (Z.leb_le _ _)).
Qed.

Lemma nonce_ok_len nonce : nonce_ok nonce = true →
  16 ≤ str_len nonce ≤ 128 ∧ all_bytes is_ascii_alphanumeric nonce = true.
Proof. unfold nonce_ok. intros Hn. boolify. split_lia. Qed.

Lemma validate_challenge_ok ch u : validate_challenge ch = Ok u →
  nonce_ok (ch_nonce ch) = true ∧
  1 ≤ ch_expires_at ch - ch_created_at ch ≤ MAX_CHALLENGE_SECONDS ∧
  is_Some (result_ok (timestamp (ch_created_at ch))) ∧ is_Some (result_ok (timestamp (ch_expires_at ch))) ∧
  as_i64 (ch_created_at ch) = ch_created_at ch ∧ as_i64 (ch_expires_at ch) = ch_expires_at ch.
Proof.
  unfold validate_challenge. intros Hv. inv_result.
  destruct (checked_sub _ _) as [l|] eqn:Hl; cbn [from_option] in *; boolify; [|done].
  apply checked_sub_Some in Hl as [? ->].
  repeat match goal with Ht : timestamp _ = Ok _ |- _ =>
    rewrite ?Ht; apply timestamp_range in Ht as [_ ?] end.
  cbn [result_ok]. split_and!; eauto; lia.
Qed.

(** The two texts a FID resource may have. *)
Definition fid_resource (fid : Z) (slash : bool) : string :=
  "farcaster://fid/" +:+ to_string fid +:+ if slash then "/" else "".

Lemma default_strip_slash digits n : starts_with "0" (default digits (strip_suffix "/" digits)) = false →
  all_bytes is_ascii_digit (default digits (strip_suffix "/" digits)) = true →
  parse_u64 (default digits (strip_suffix "/" digits)) = Some n →
  digits = to_string n ∨ digits = to_string n +:+ "/".
Proof.
  destruct (strip_suffix "/" digits) as [r|] eqn:Hr; cbn [default from_option]; intros Hz Hd Hp.
  - right. apply strip_suffix_Some in Hr. rewrite Hr. f_equal. by apply parse_u64_canonical.
  - left. by apply parse_u64_canonical.
Qed.

Lemma to_string_no_slash n : strip_suffix "/" (to_string n) = None.
Proof.
  destruct (strip_suffix "/" (to_string n)) as [r|] eqn:Hr; [|done]. apply strip_suffix_Some in Hr.
  pose proof (to_string_all_digits n) as Hd. rewrite Hr, all_bytes_app in Hd. by boolify.
Qed.

(** The resource of a message names a FID exactly when it is the canonical
    text of a positive safe integer, with or without a trailing slash; no other
    spelling of a number is accepted. *)
Lemma fid_of_resource_exact r n :
  fid_of_resource r = Ok n ↔ 1 ≤ n ≤ MAX_FID ∧ ∃ slash, r = fid_resource n slash.
Proof.
  unfold fid_of_resource. split.
  - intros Hf. inv_result. boolify.
    repeat match goal with Hp : strip_prefix _ _ = Some _ |- _ => apply strip_prefix_Some in Hp; subst r end.
    match goal with Hp : parse_u64 _ = Some n |- _ =>
      pose proof (parse_u64_bound _ _ Hp) as Hb; apply default_strip_slash in Hp as Hd; [|done..] end.
    unfold is_u64 in Hb. split; [lia|]. unfold fid_resource.
    destruct Hd as [Hd|Hd]; rewrite Hd; [exists false|exists true]; [|done].
    apply chars_of_inj. by rewrite !chars_of_app, app_nil_r.
  - intros [Hn (slash & ->)]. unfold fid_resource. rewrite strip_prefix_app. cbn [ok_or mbind result_bind].
    assert (default (to_string n +:+ (if slash then "/" else "")) (strip_suffix "/" (to_string n +:+ (if slash then "/" else "")))
            = to_string n) as ->.
    { destruct slash; [by rewrite (proj2 (strip_suffix_Some _ _ _) eq_refl)|].
      assert (to_string n +:+ "" = to_string n) as -> by (apply chars_of_inj; by rewrite chars_of_app, app_nil_r).
      by rewrite to_string_no_slash. }
    rewrite to_string_no_zero, to_string_all_digits by lia.
    assert (str_is_empty (to_string n) = false) as ->.
    { apply bool_decide_eq_false. intros He. apply (to_string_nonempty n). by rewrite He. }
    cbn [orb negb reject_if]. unfold parse_u64. rewrite from_str_radix_to_string by (unfold MAX_FID, U64_MAX in *; lia).
    cbn [ok_or mbind result_bind]. assert ((n =? 0) || (MAX_FID <? n) = false) as -> by (apply orb_false_iff; split_and!; [apply Z.eqb_neq|apply Z.ltb_ge]; lia). done.
Qed.

(** A message that asks for exactly what a challenge offers, at a time. *)
Definition consents (m : SiweMessage) (ch : Challenge) (domain uri : string) (now : Z) : Prop :=
  siwe_domain m = domain ∧ siwe_uri m = uri ∧ siwe_nonce m = ch_nonce ch ∧ siwe_chain_id m = 10 ∧
  statement_ok (siwe_statement m) = true ∧ siwe_request_id m = None ∧
  siwe_expiration_time m = Some (mkOffsetDateTime (ch_expires_at ch) 0) ∧
  (∀ t, siwe_not_before m = Some t → t = mkOffsetDateTime (ch_created_at ch) 0) ∧
  ch_created_at ch ≤ now < ch_expires_at ch ∧
  0 ≤ unix_timestamp (siwe_issued_at m) < ch_expires_at ch ∧
  ch_created_at ch - 60 ≤ unix_timestamp (siwe_issued_at m) ≤ now + 60.

(** What the parser claims of a message and its signature, whatever the time. *)
Definition claims (proof : SignedProof) (p : ParsedProof) : Prop :=
  siwe_parse (proof_message proof) = Some (pp_message p) ∧
  siwe_to_string (pp_message p) = proof_message proof ∧
  str_len (proof_message proof) ≤ MAX_MESSAGE_BYTES ∧
  1 ≤ pp_fid p ≤ MAX_FID ∧
  (∃ slash, siwe_resources (pp_message p) = [fid_resource (pp_fid p) slash]) ∧
  (∃ text, proof_signature proof = "0x" +:+ text ∧ hex_decode text = Some (pp_signature p)) ∧
  ends_with_bytes ERC6492_SUFFIX (pp_signature p) = false ∧
  pp_digest p = erc191_digest (proof_message proof).

Lemma parse_authority_ok proof domain uri p : parse_authority proof domain uri = Ok p →
  claims proof p ∧ siwe_domain (pp_message p) = domain ∧ siwe_uri (pp_message p) = uri ∧
  siwe_chain_id (pp_message p) = 10 ∧ statement_ok (siwe_statement (pp_message p)) = true ∧
  siwe_request_id (pp_message p) = None.
Proof.
  unfold parse_authority, decode_signature. intros Hp. inv_result. boolify.
  match goal with Hf : fid_of_resource _ = Ok _ |- _ => apply fid_of_resource_exact in Hf as [? (slash & Hr)] end.
  match goal with Hl : len (siwe_resources ?m) = 1 |- _ =>
    destruct (siwe_resources m) as [|r [|]] eqn:Hres; autorewrite with psky in Hl;
      [lia| |pose proof (len_nonneg l); lia] end.
  lazymatch type of Hr with _ = ?f => assert (r = f) as -> by exact Hr end.
  repeat match goal with Hs : strip_prefix _ _ = Some _ |- _ => apply strip_prefix_Some in Hs end.
  unfold claims. cbn [pp_message pp_fid pp_signature pp_digest].
  rewrite eq_None_not_Some. split_and!; eauto; lia.
Qed.

Lemma date_eq t n : (unix_timestamp t =? n) = true → (nanosecond t =? 0) = true → t = mkOffsetDateTime n 0.
Proof. destruct t. cbn. intros. boolify. by subst. Qed.

(** A proof is accepted only for its own challenge: the message is the
    exact text that was signed, it consents to this domain, URI, nonce, chain
    and expiration while the challenge lasts, and it names one FID. *)
Lemma parse_sound proof ch domain uri now p :
  parse proof ch domain uri now = Ok p →
  consents (pp_message p) ch domain uri now ∧ claims proof p ∧
  nonce_ok (ch_nonce ch) = true ∧ 1 ≤ ch_expires_at ch - ch_created_at ch ≤ MAX_CHALLENGE_SECONDS.
Proof.
  unfold parse. intros Hp. inv_result.
  match goal with Hv : validate_challenge _ = Ok _ |- _ =>
    apply validate_challenge_ok in Hv as (Hnonce & Hlife & _ & _ & Hc & He) end.
  rewrite Hc, He in *.
  match goal with Ha : parse_authority _ _ _ = Ok _ |- _ =>
    apply parse_authority_ok in Ha as (? & ? & ? & ? & ? & ?) end.
  boolify. split; [|by auto].
  pose proof (saturating_add_le now CLOCK_SKEW_SECONDS) as Hadd.
  pose proof (saturating_sub_ge (ch_created_at ch) CLOCK_SKEW_SECONDS) as Hsub.
  unfold CLOCK_SKEW_SECONDS in *. split_and!; [by auto..| | |lia|lia|lia|lia|lia|lia].
  - match goal with Ht : siwe_expiration_time _ = Some _ |- _ => rewrite Ht end.
    f_equal. apply date_eq; by apply Z.eqb_eq.
  - intros t Ht. rewrite Ht in *. inv_result. boolify. apply date_eq; by apply Z.eqb_eq.
Qed.
End message.
