(* ===== verification/FarcasterClient.v ===== *)
(** * The relay and Optimism client ([psky-farcaster-auth], [client.rs])

    Configuration checks, the relay protocol, and the verification of a parsed
    proof against the Farcaster registries at one finalized block. *)

From S2P Require Import Prelude RustStd IpAddr Externs Http FarcasterMessage.

Definition MAX_RESPONSE_BYTES : Z := 65536.
Definition MAX_FINALIZED_AGE_SECONDS : Z := 3600.
Definition ID_REGISTRY : string := "0x00000000fc6c5f01fc30151999387bb99a9f489b".
Definition KEY_REGISTRY : string := "0x00000000fc1237824fb747abde0ff18990e59b7e".

Record AuthConfig := mkAuthConfig {
  cfg_domain : string;
  cfg_uri : string;
  cfg_relay_url : string;
  cfg_optimism_rpc_url : string
}.

(** ** Pure helpers *)

Definition valid_channel (input : string) : bool :=
  (8 <=? str_len input) && (str_len input <=? 128)
  && all_bytes (λ b, is_ascii_alphanumeric b || one_of "_-" b) input.

Definition field (value : Json) (key : string) : result AuthError string :=
  ok_or InvalidChainEvidence (json_get key value ≫= as_str).

Definition quantity (input : string) : result AuthError Z :=
  digits ← ok_or InvalidChainEvidence (strip_prefix "0x" input);
  _ ← reject_if (str_is_empty digits || ((1 <? str_len digits) && starts_with "0" digits)) InvalidChainEvidence;
  ok_or InvalidChainEvidence (from_str_radix 16 U64_MAX digits).

Definition zeros (n : nat) : bytes := repeat x00 n.
Definition all_zero (b : bytes) : bool := forallb (λ v, bool_decide (v = x00)) b.

(** [u64::from_be_bytes], [u64::to_be_bytes] *)
Definition from_be_bytes (b : bytes) : Z := foldl (λ n v, n * 256 + byte_Z v) 0 b.
Fixpoint to_be (n : nat) (v : Z) : bytes :=
  match n with O => [] | S n => to_be n (v / 256) ++ [Z_byte v] end.
Definition to_be_bytes (v : Z) : bytes := to_be 8 v.

Definition word_u64 (word : bytes) : result AuthError Z :=
  _ ← reject_if (negb (len word =? 32) || negb (all_zero (take 24 word))) InvalidChainEvidence;
  Ok (from_be_bytes (drop 24 word)).

Definition append_word (output : bytes) (value : Z) : bytes := output ++ zeros 24 ++ to_be_bytes value.

Section calldata.
Context `{Keccak256}.

Definition function_selector (signature : string) : bytes := take 4 (keccak256 (as_bytes signature)).

Definition id_of_calldata (address : bytes) : bytes :=
  function_selector "idOf(address)" ++ zeros 12 ++ address.

Definition auth_key_calldata (fid : Z) (address : bytes) : bytes :=
  let data := function_selector "keyDataOf(uint256,bytes)" in
  let data := append_word (append_word (append_word data fid) 64) 32 in
  data ++ zeros 12 ++ address.

Definition erc1271_calldata (digest signature : bytes) : bytes :=
  let data := function_selector "isValidSignature(bytes32,bytes)" ++ digest in
  let data := append_word (append_word data 64) (len signature) in
  let data := data ++ signature in
  data ++ zeros (Z.to_nat ((32 - len signature mod 32) mod 32)).
End calldata.

Section hex.
Context `{HexLib}.

Definition decode_hex (input : string) : result AuthError bytes :=
  digits ← ok_or InvalidChainEvidence (strip_prefix "0x" input);
  ok_or InvalidChainEvidence (hex_decode digits).

Definition hex0x (b : bytes) : string := "0x" +:+ hex_encode b.
End hex.

(** ** URLs *)

Section urls.
Context `{UrlLib}.

Definition safe_url (input : string) : result AuthError Url :=
  _ ← reject_if (2048 <? str_len input) InvalidConfig;
  url ← ok_or InvalidConfig (url_parse input);
  let loopback := from_option loopback_host false (url_host_str url) in
  _ ← reject_if
    ((negb (bool_decide (url_scheme url = "https")) && negb (bool_decide (url_scheme url = "http") && loopback))
     || bool_decide (url_host_str url = None)
     || contains_char "@" input
     || negb (str_is_empty (url_username url))
     || bool_decide (is_Some (url_password url))
     || bool_decide (is_Some (url_query url))
     || bool_decide (is_Some (url_fragment url))
     || any_byte (λ b, is_ascii_control b || is_ascii_whitespace b) input) InvalidConfig;
  Ok url.

Definition domain_byte (b : ascii) : bool := is_ascii_alphanumeric b || one_of ".:-" b.

(** [AuthConfig::validate] *)
Definition validate (config : AuthConfig) : result AuthError () :=
  uri ← safe_url (cfg_uri config);
  let authority := url_authority uri in
  _ ← reject_if
    (negb (bool_decide (cfg_domain config = authority))
     || (253 <? str_len (cfg_domain config))
     || str_is_empty (cfg_domain config)
     || negb (all_bytes domain_byte (cfg_domain config))) InvalidConfig;
  relay ← safe_url (cfg_relay_url config);
  _ ← reject_if (negb (bool_decide (url_path relay = "/"))) InvalidConfig;
  _ ← safe_url (cfg_optimism_rpc_url config);
  Ok ().

Definition validate_auth_url (input token : string) : result AuthError () :=
  _ ← reject_if (1024 <? str_len input) InvalidRelayResponse;
  url ← ok_or InvalidRelayResponse (url_parse input);
  reject_if
    (negb (bool_decide (url_scheme url = "https"))
     || negb (bool_decide (url_host_str url = Some "farcaster.xyz") || bool_decide (url_host_str url = Some "warpcast.com"))
     || negb (bool_decide (url_path url = "/~/siwf"))
     || bool_decide (is_Some (url_port url))
     || negb (str_is_empty (url_username url))
     || bool_decide (is_Some (url_password url))
     || bool_decide (is_Some (url_fragment url))
     || negb (bool_decide (url_query_pairs url = [("channelToken", token)]))) InvalidRelayResponse.

Record AuthClient := mkAuthClient { client_config : AuthConfig; client_relay : Url; client_rpc : Url }.

(** [AuthClient::new] *)
Definition new (config : AuthConfig) : result AuthError AuthClient :=
  _ ← validate config;
  relay ← safe_url (cfg_relay_url config);
  rpc ← safe_url (cfg_optimism_rpc_url config);
  Ok (mkAuthClient config relay rpc).
End urls.
