(* ===== verification/FarcasterVerify.v ===== *)
(** * Relay and chain operations ([psky-farcaster-auth], [client.rs])

    [AuthClient::start], [status], [verify] and [recheck_identity], against any
    relay and any RPC provider. *)

From S2P Require Import Prelude RustStd IpAddr Externs Http FarcasterMessage FarcasterClient.

Section client.
Context `{UrlLib} `{JsonText} `{TimeLib} `{SiweLib} `{Keccak256} `{HexLib}.
Context (peer : Peer).

Abbreviation AuthNet := (Net AuthError).

(** The [chunk()] loop of [send]: [bytes] holds what was read so far. *)
Fixpoint read_chunks (bytes : bytes) (chunks : list (list byte)) (failure : option TransportError) :
    result AuthError (list byte) :=
  match chunks with
  | [] => if failure then Err Unavailable else Ok bytes
  | chunk :: chunks =>
      if MAX_RESPONSE_BYTES <? saturating_add (len bytes) (len chunk) then Err Unavailable
      else read_chunks (bytes ++ chunk) chunks failure
  end.

Definition send (request : Request) : AuthNet (Z * bytes) :=
  reply ← transmit peer request;
  response ← lift (map_err (λ _, Unavailable) reply);
  _ ← lift (reject_if (from_option (Z.ltb MAX_RESPONSE_BYTES) false (rs_content_length response)) Unavailable);
  bytes ← lift (read_chunks [] (rs_chunks response) (rs_failure response));
  mret (rs_status response, bytes).

(** ** The relay *)

Definition get_string (v : option Json) : option string := v ≫= as_str.
(** an [Option<String>] field: absent and null are [None] *)
Definition get_opt_string (v : option Json) : option (option string) :=
  match v with
  | None | Some JNull => Some None
  | Some (JString s) => Some (Some s)
  | Some _ => None
  end.

Definition de_created (response : bytes) : option (string * string * string) :=
  fs ← json_struct_from_slice ["channelToken"; "url"; "nonce"] response;
  match fs with
  | [t; u; n] => t ← get_string t; u ← get_string u; n ← get_string n; Some (t, u, n)
  | _ => None
  end.

Definition de_status (response : bytes) : option (string * option string * option string) :=
  fs ← json_struct_from_slice ["state"; "message"; "signature"] response;
  match fs with
  | [s; m; g] => s ← get_string s; m ← get_opt_string m; g ← get_opt_string g; Some (s, m, g)
  | _ => None
  end.

Definition start_request (c : AuthClient) (challenge : Challenge) : result AuthError Request :=
  _ ← validate_challenge challenge;
  not_before ← timestamp (ch_created_at challenge);
  expiration ← timestamp (ch_expires_at challenge);
  let request := json_object
    [("domain", JString (cfg_domain (client_config c)));
     ("siweUri", JString (cfg_uri (client_config c)));
     ("nonce", JString (ch_nonce challenge));
     ("notBefore", JString not_before);
     ("expirationTime", JString expiration);
     ("acceptAuthAddress", JBool true)] in
  url ← ok_or InvalidConfig (url_join (client_relay c) "v1/channel");
  Ok (mkRequest POST url [] None (Some "application/json") (Some (json_to_string request))).

Definition start (c : AuthClient) (challenge : Challenge) : AuthNet Channel :=
  request ← lift (start_request c challenge);
  '(status, response) ← send request;
  _ ← lift (reject_if (negb (status =? 201)) Unavailable);
  '(token, url, nonce) ← lift (ok_or InvalidRelayResponse (de_created response));
  _ ← lift (reject_if
        (negb (bool_decide (nonce = ch_nonce challenge)) || negb (valid_channel token)) InvalidRelayResponse);
  _ ← lift (validate_auth_url url token);
  mret (mkChannel token url).

(** [status] from the check of the response's status code on. *)
Definition status_answer (status : Z) (response : bytes) : AuthNet ChannelStatus :=
  _ ← lift (reject_if (negb ((status =? 200) || (status =? 202))) Unavailable);
  '(state, message, signature) ← lift (ok_or InvalidRelayResponse (de_status response));
  if (status =? 202) && bool_decide (state = "pending") then mret StatusPending
  else if (status =? 200) && bool_decide (state = "completed") then
    message ← lift (ok_or InvalidRelayResponse message);
    signature ← lift (ok_or InvalidRelayResponse signature);
    _ ← lift (reject_if
          ((MAX_MESSAGE_BYTES <? str_len message) || (MAX_SIGNATURE_BYTES * 2 + 2 <? str_len signature))
          InvalidRelayResponse);
    mret (StatusCompleted (mkSignedProof message signature))
  else lift (Err InvalidRelayResponse).

Definition status (c : AuthClient) (token : string) : AuthNet ChannelStatus :=
  _ ← lift (reject_if (negb (valid_channel token)) InvalidRelayResponse);
  url ← lift (ok_or InvalidConfig (url_join (client_relay c) "v1/channel/status"));
  '(status, response) ← send (mkRequest GET url [] (Some token) None None);
  _ ← lift (reject_if (status =? 401) ChannelExpired);
  status_answer status response.

(** ** JSON-RPC *)

Definition rpc_request (c : AuthClient) (method : string) (params : Json) : Request :=
  let body := json_object
    [("jsonrpc", JString "2.0"); ("id", JNumber (PosInt 1)); ("method", JString method); ("params", params)] in
  mkRequest POST (client_rpc c) [] None (Some "application/json") (Some (json_to_string body)).

Definition rpc_result (response : bytes) : result AuthError Json :=
  value ← ok_or InvalidChainEvidence (json_from_slice response);
  _ ← reject_if
    (negb (bool_decide ((json_get "jsonrpc" value ≫= as_str) = Some "2.0"))
     || negb (bool_decide ((json_get "id" value ≫= as_u64) = Some 1))
     || bool_decide (is_Some (json_get "error" value))) InvalidChainEvidence;
  match json_get "result" value with
  | Some v => if is_null v then Err InvalidChainEvidence else Ok v
  | None => Err InvalidChainEvidence
  end.

Definition rpc (c : AuthClient) (method : string) (params : Json) : AuthNet Json :=
  '(status, response) ← send (rpc_request c method params);
  _ ← lift (reject_if (negb (status =? 200)) Unavailable);
  lift (rpc_result response).

Definition eth_call_params (to : string) (data : bytes) (block : Json) : Json :=
  JArray [json_object [("to", JString to); ("data", JString (hex0x data))]; block].

Definition eth_call (c : AuthClient) (to : string) (data : bytes) (block : Json) : AuthNet bytes :=
  result ← rpc c "eth_call" (eth_call_params to data block);
  lift (text ← ok_or InvalidChainEvidence (as_str result); decode_hex text).

(** ** Verification at one finalized block *)

(** The EIP-1898 selector that pins a read to a block. *)
Definition block_selector (block_hash : string) : Json :=
  json_object [("blockHash", JString block_hash); ("requireCanonical", JBool true)].

(** Chain 10, then the latest finalized block: its number and hash. *)
Definition finalized_block (c : AuthClient) (now : Z) : AuthNet (Z * string) :=
  chain ← rpc c "eth_chainId" (JArray []);
  chain ← lift (text ← ok_or InvalidChainEvidence (as_str chain); quantity text);
  _ ← lift (reject_if (negb (chain =? 10)) InvalidChainEvidence);
  block ← rpc c "eth_getBlockByNumber" (JArray [JString "finalized"; JBool false]);
  number ← lift (text ← field block "number"; quantity text);
  block_hash ← lift (field block "hash");
  hash ← lift (decode_hex block_hash);
  _ ← lift (reject_if (negb (len hash =? 32)) InvalidChainEvidence);
  block_time ← lift (text ← field block "timestamp"; quantity text);
  _ ← lift (reject_if
        ((number =? 0) || (saturating_add now 60 <? block_time)
         || (MAX_FINALIZED_AGE_SECONDS <? saturating_sub now block_time)) InvalidChainEvidence);
  mret (number, block_hash).

(** Evidence older than, or forked from, what was accepted before. *)
Definition regressed (previous : VerifiedIdentity) (number : Z) (block_hash : string) : bool :=
  (number <? vi_checked_block previous)
  || ((number =? vi_checked_block previous) && negb (eq_ignore_ascii_case block_hash (vi_block_hash previous))).

Definition DELEGATION_PREFIX : bytes := [xef; x01; x00].
Definition ERC1271_MAGIC : bytes := [x16; x26; xba; x7e].

(** The signature, by a key or by the contract deployed at the address. *)
Definition check_wallet (c : AuthClient) (parsed : ParsedProof) (address : string) (selector : Json) :
    AuthNet WalletKind :=
  code ← rpc c "eth_getCode" (JArray [JString address; selector]);
  code ← lift (text ← ok_or InvalidChainEvidence (as_str code); decode_hex text);
  if bool_decide (code = []) then
    _ ← lift (verify_eoa parsed);
    mret Eoa
  else
    _ ← lift (reject_if (bool_decide (take 3 code = DELEGATION_PREFIX)) UnsupportedWallet);
    result ← eth_call c address (erc1271_calldata (pp_digest parsed) (pp_signature parsed)) selector;
    _ ← lift (reject_if
          (negb (len result =? 32) || negb (bool_decide (take 4 result = ERC1271_MAGIC))
           || negb (all_zero (drop 4 result))) InvalidSignature);
    mret Erc1271.

(** The custody address of the FID, which a recheck expects unchanged. *)
Definition read_custody (c : AuthClient) (fid : Z) (expected : option VerifiedIdentity) (selector : Json) :
    AuthNet string :=
  custody ← eth_call c ID_REGISTRY (append_word (function_selector "custodyOf(uint256)") fid) selector;
  _ ← lift (reject_if (negb (len custody =? 32) || negb (all_zero (take 12 custody))) InvalidChainEvidence);
  _ ← lift (reject_if (all_zero (drop 12 custody)) Unauthorized);
  let custody_address := hex0x (drop 12 custody) in
  _ ← lift (reject_if
        (from_option (λ e, negb (bool_decide (vi_custody_address e = custody_address))) false expected)
        Unauthorized);
  mret custody_address.

(** An active type-2 key of the FID, or custody by the signing address. *)
Definition read_permission (c : AuthClient) (parsed : ParsedProof) (address custody_address : string)
    (selector : Json) : AuthNet ProofKind :=
  auth ← eth_call c KEY_REGISTRY (auth_key_calldata (pp_fid parsed) (siwe_address (pp_message parsed))) selector;
  _ ← lift (reject_if (negb (len auth =? 64)) InvalidChainEvidence);
  key_state ← lift (word_u64 (take 32 auth));
  key_type ← lift (word_u64 (drop 32 auth));
  _ ← lift (reject_if ((2 <? key_state) || (U32_MAX <? key_type)) InvalidChainEvidence);
  if (key_state =? 1) && (key_type =? 2) then mret AuthAddress
  else
    custody ← eth_call c ID_REGISTRY (id_of_calldata (siwe_address (pp_message parsed))) selector;
    _ ← lift (reject_if (negb (len custody =? 32)) InvalidChainEvidence);
    owned ← lift (word_u64 custody);
    _ ← lift (reject_if (negb (owned =? pp_fid parsed) || negb (bool_decide (custody_address = address))) Unauthorized);
    mret Custody.

Definition verify_authority (c : AuthClient) (parsed : ParsedProof) (now : Z)
    (expected_identity : option VerifiedIdentity) : AuthNet VerifiedIdentity :=
  '(number, block_hash) ← finalized_block c now;
  _ ← lift (reject_if (from_option (λ previous, regressed previous number block_hash) false expected_identity)
        InvalidChainEvidence);
  let selector := block_selector block_hash in
  let address := hex0x (siwe_address (pp_message parsed)) in
  wallet_kind ← check_wallet c parsed address selector;
  custody_address ← read_custody c (pp_fid parsed) expected_identity selector;
  proof_kind ← read_permission c parsed address custody_address selector;
  mret (mkVerifiedIdentity (pp_fid parsed) address custody_address wallet_kind proof_kind number block_hash now).

Definition verify (c : AuthClient) (proof : SignedProof) (challenge : Challenge) (now : Z) :
    AuthNet VerifiedIdentity :=
  parsed ← lift (parse proof challenge (cfg_domain (client_config c)) (cfg_uri (client_config c)) now);
  verify_authority c parsed now None.

(** The checks [recheck_identity] makes before any request. *)
Definition recheck_local (c : AuthClient) (identity : VerifiedIdentity) (proof : SignedProof) (now : Z) :
    result AuthError ParsedProof :=
  parsed ← parse_authority proof (cfg_domain (client_config c)) (cfg_uri (client_config c));
  _ ← reject_if
    (negb (pp_fid parsed =? vi_fid identity)
     || negb (bool_decide (hex0x (siwe_address (pp_message parsed)) = vi_address identity))) Unauthorized;
  custody ← decode_hex (vi_custody_address identity);
  _ ← reject_if (negb (len custody =? 20)) Unauthorized;
  _ ← reject_if ((now <? vi_checked_at identity) || (vi_checked_block identity =? 0)) InvalidChainEvidence;
  hash ← decode_hex (vi_block_hash identity);
  _ ← reject_if (negb (len hash =? 32)) InvalidChainEvidence;
  Ok parsed.

Definition recheck_identity (c : AuthClient) (identity : VerifiedIdentity) (proof : SignedProof) (now : Z) :
    AuthNet VerifiedIdentity :=
  parsed ← lift (recheck_local c identity proof now);
  verify_authority c parsed now (Some identity).
End client.
