(* ===== verification/FarcasterTheorems.v ===== *)
(** * Theorems of the Farcaster sign-in client

    The ABI words and calldata read back, response bodies are bounded, a
    verified identity rests on evidence the provider reported at one finalized
    block, rechecks only move forward, and a provider that is stale or forked
    never leads to a verdict that revokes a credential. *)

From S2P Require Import Prelude RustStd IpAddr Externs Fixtures Http FarcasterMessage FarcasterClient FarcasterVerify.

(** ** ABI words *)

Lemma from_be_snoc b v : from_be_bytes (b ++ [v]) = from_be_bytes b * 256 + byte_Z v.
Proof. unfold from_be_bytes. by rewrite foldl_app. Qed.

Lemma to_be_length n v : length (to_be n v) = n.
Proof. revert v. induction n as [|n IH]; intros v; simpl; [done|]. rewrite length_app, IH. simpl. lia. Qed.

Lemma from_to_be n v : 0 ≤ v < 256 ^ Z.of_nat n → from_be_bytes (to_be n v) = v.
Proof.
  revert v. induction n as [|n IH]; intros v Hv; [by assert (v = 0) as -> by (simpl in Hv; lia)|].
  cbn [to_be]. rewrite Nat2Z.inj_succ, Z.pow_succ_r in Hv by lia.
  rewrite from_be_snoc, byte_Z_of, IH.
  - rewrite Z.mul_comm. symmetry. apply Z.div_mod. lia.
  - split; [apply Z.div_pos; lia|apply Z.div_lt_upper_bound; lia].
Qed.

Lemma to_from_be b : to_be (length b) (from_be_bytes b) = b.
Proof.
  induction b as [|v b IH] using rev_ind; [done|].
  rewrite length_app, Nat.add_comm. cbn [length Nat.add to_be]. rewrite from_be_snoc.
  pose proof (byte_Z_range v).
  rewrite Z.div_add_l, Z.div_small, Z.add_0_r, IH by lia. do 2 f_equal.
  apply byte_Z_inj. by rewrite byte_Z_of, Z.add_comm, Z.mod_add, Z.mod_small by lia.
Qed.

Lemma from_be_range b : 0 ≤ from_be_bytes b < 256 ^ len b.
Proof.
  induction b as [|v b IH] using rev_ind; [done|].
  rewrite from_be_snoc. pose proof (byte_Z_range v). autorewrite with psky.
  replace (len b + (1 + 0)) with (Z.succ (len b)) by lia. rewrite Z.pow_succ_r by apply len_nonneg. lia.
Qed.

Lemma all_zero_spec b : all_zero b = true ↔ b = zeros (length b).
Proof.
  unfold all_zero, zeros. induction b as [|v b IH]; simpl; [done|].
  rewrite andb_true_iff, IH, bool_decide_eq_true. split; [intros [-> Hb]; by rewrite <-Hb|].
  intros [= -> Hb]. done.
Qed.

Definition word (v : Z) : bytes := append_word [] v.

Lemma word_len v : len (word v) = 32.
Proof. unfold word, append_word, to_be_bytes, zeros, len. by rewrite !length_app, to_be_length. Qed.

(** A 32-byte word reads as a 64-bit integer exactly when it is the
    word that encodes it. *)
Lemma word_u64_exact w v : is_u64 v → word_u64 w = Ok v ↔ w = word v.
Proof.
  intros Hv. unfold word_u64, word, append_word, to_be_bytes. cbn [app]. split.
  - intros Hw. inv_result. boolify. assert (length w = 32%nat) as Hl by (unfold len in *; lia).
    match goal with Hz : all_zero _ = true |- _ => apply all_zero_spec in Hz; rename Hz into Hzero end.
    rewrite length_take, Hl in Hzero. change (Nat.min 24 32) with 24%nat in Hzero.
    rewrite <-(take_drop 24 w) at 1. rewrite Hzero. f_equal.
    pose proof (to_from_be (drop 24 w)) as Hb. rewrite length_drop, Hl in Hb. done.
  - intros ->. assert (len (zeros 24 ++ to_be 8 v) = 32) as -> by apply word_len.
    rewrite take_app_length' by done. rewrite drop_app_length' by done.
    cbn [Z.eqb negb orb]. rewrite from_to_be by (unfold is_u64, U64_MAX in Hv; simpl; lia). done.
Qed.

Lemma word_u64_word v w : word_u64 w = Ok v → w = word v ∧ is_u64 v.
Proof.
  intros Hw. assert (is_u64 v) as Hv.
  { unfold word_u64 in Hw. inv_result. boolify.
    pose proof (from_be_range (drop 24 w)) as Hr.
    assert (len (drop 24 w) = 8) as Hl by (unfold len in *; rewrite length_drop; lia).
    rewrite Hl in Hr. unfold is_u64, U64_MAX. simpl in Hr. lia. }
  split; [|done]. by apply (word_u64_exact w v Hv).
Qed.

(** ** Calldata

    A contract reads its arguments after the four selector bytes: a static
    argument from its slot, a [bytes] argument through the offset in its slot. *)

Definition abi_uint (args : bytes) (slot : Z) : option Z :=
  result_ok (word_u64 (take 32 (drop (Z.to_nat (32 * slot)) args))).
Definition abi_word (args : bytes) (slot : Z) : bytes := take 32 (drop (Z.to_nat (32 * slot)) args).
Definition abi_bytes (args : bytes) (slot : Z) : option bytes :=
  offset ← abi_uint args slot;
  n ← result_ok (word_u64 (take 32 (drop (Z.to_nat offset) args)));
  let body := take (Z.to_nat n) (drop (Z.to_nat offset + 32) args) in
  guard (len body = n);; Some body.

Lemma take_app_len {A} (l k : list A) n : len l = n → take (Z.to_nat n) (l ++ k) = l.
Proof. intros <-. unfold len. by rewrite Nat2Z.id, take_app_length. Qed.
Lemma drop_app_len {A} (l k : list A) n : len l = n → drop (Z.to_nat n) (l ++ k) = k.
Proof. intros <-. unfold len. by rewrite Nat2Z.id, drop_app_length. Qed.

Lemma append_word_app out v : append_word out v = out ++ word v.
Proof. done. Qed.

Lemma word_reads v rest : is_u64 v → word_u64 (take 32 (word v ++ rest)) = Ok v.
Proof.
  intros Hv. change 32%nat with (Z.to_nat 32). rewrite take_app_len by apply word_len. by apply word_u64_exact.
Qed.

(** Two words, then a [bytes] argument at offset 64. *)
Lemma abi_bytes_at_64 (first body rest : bytes) : len first = 32 → is_u64 (len body) →
  abi_bytes (first ++ word 64 ++ word (len body) ++ body ++ rest) 1 = Some body.
Proof.
  intros Hfirst Hlen. unfold abi_bytes, abi_uint.
  rewrite drop_app_len by lia. rewrite word_reads by done. cbn [result_ok mbind option_bind].
  assert (drop (Z.to_nat 64) (first ++ word 64 ++ word (len body) ++ body ++ rest) = word (len body) ++ body ++ rest) as ->.
  { rewrite app_assoc, drop_app_len; [done|]. rewrite len_app, word_len. lia. }
  rewrite word_reads by done. cbn [result_ok mbind option_bind].
  assert (drop (Z.to_nat 64 + 32) (first ++ word 64 ++ word (len body) ++ body ++ rest) = body ++ rest) as ->.
  { change (Z.to_nat 64 + 32)%nat with (Z.to_nat 96). rewrite !app_assoc, <-(app_assoc _ body rest).
    rewrite drop_app_len; [done|]. rewrite !len_app, !word_len. lia. }
  rewrite take_app_len by done. by rewrite option_guard_True.
Qed.

Section calldata.
Context `{Keccak256Laws}.

Lemma selector_len s : len (function_selector s) = 4.
Proof. unfold function_selector. pose proof (keccak256_len (as_bytes s)). unfold len in *. rewrite length_take. lia. Qed.

Lemma zeros_len n : len (zeros n) = Z.of_nat n.
Proof. unfold zeros, len. by rewrite repeat_length. Qed.

(** The calldata of the contract calls decode to their arguments:
    [isValidSignature] to the digest and the signature, padded to whole words,
    and [keyDataOf] to the FID and the address as a 32-byte key. *)
Theorem calldata_decodes digest signature fid address :
  len digest = 32 → is_u64 (len signature) → is_u64 fid → len address = 20 →
  (∃ args, erc1271_calldata digest signature = function_selector "isValidSignature(bytes32,bytes)" ++ args ∧
    abi_word args 0 = digest ∧ abi_bytes args 1 = Some signature ∧ len args mod 32 = 0) ∧
  (∃ args, auth_key_calldata fid address = function_selector "keyDataOf(uint256,bytes)" ++ args ∧
    abi_uint args 0 = Some fid ∧ abi_bytes args 1 = Some (zeros 12 ++ address)).
Proof.
  intros Hd Hs Hf Ha. unfold erc1271_calldata, auth_key_calldata. rewrite !append_word_app, <-!app_assoc. split.
  - eexists. split; [done|]. split_and!.
    + unfold abi_word. simpl (Z.to_nat _). rewrite drop_0. change 32%nat with (Z.to_nat 32). by rewrite take_app_len.
    + by apply abi_bytes_at_64.
    + autorewrite with psky. rewrite !word_len, zeros_len, Hd.
      set (n := len signature). pose proof (Z.mod_pos_bound n 32 ltac:(lia)) as Hm.
      rewrite Z2Nat.id by (apply Z.mod_pos_bound; lia).
      replace (32 + (32 + (32 + (n + (32 - n mod 32) mod 32)))) with (n + (32 - n mod 32) mod 32 + 3 * 32) by lia.
      rewrite Z.mod_add, Z.add_mod_idemp_r by lia.
      pose proof (Z.div_mod n 32 ltac:(lia)) as Hq.
      replace (n + (32 - n mod 32)) with ((n / 32 + 1) * 32) by lia. apply Z.mod_mul. lia.
  - eexists. split; [done|]. split.
    + unfold abi_uint. simpl (Z.to_nat _). rewrite drop_0, word_reads by done. done.
    + pose proof (abi_bytes_at_64 (word fid) (zeros 12 ++ address) []) as Hb.
      assert (len (zeros 12 ++ address) = 32) as Hl by (rewrite len_app, zeros_len; lia).
      rewrite Hl, app_nil_r in Hb. apply Hb; [apply word_len|done].
Qed.
End calldata.

Lemma calldata_decodes_witness :
  ∃ args, erc1271_calldata (repeat x11 32) [x22; x33] = function_selector "isValidSignature(bytes32,bytes)" ++ args ∧
    abi_bytes args 1 = Some [x22; x33].
Proof.
  destruct (proj1 (calldata_decodes (repeat x11 32) [x22; x33] 7 (repeat x44 20) eq_refl
    ltac:(split; discriminate) ltac:(split; discriminate) eq_refl)) as (args & Ha & _ & Hb & _).
  exists args. exact (conj Ha Hb).
Defined.

(** ** Response bodies *)

Lemma saturating_add_exact a b : saturating_add a b ≤ MAX_RESPONSE_BYTES → a + b ≤ MAX_RESPONSE_BYTES.
Proof. intros Hm. apply Z.min_le in Hm as [Hm|Hm]; [done|]. by apply Z.leb_le in Hm. Qed.

Lemma read_chunks_ok bytes chunks failure body : read_chunks bytes chunks failure = Ok body ↔
  body = bytes ++ concat chunks ∧ failure = None ∧ (chunks = [] ∨ len body ≤ MAX_RESPONSE_BYTES).
Proof.
  revert bytes. induction chunks as [|chunk chunks IH]; intros bytes; cbn [read_chunks concat].
  - rewrite app_nil_r. destruct failure; naive_solver.
  - destruct (Z.ltb_spec MAX_RESPONSE_BYTES (saturating_add (len bytes) (len chunk))) as [Hbig|Hsmall].
    + split; [done|]. intros (-> & _ & [?|Hl]); [done|]. autorewrite with psky in Hl.
      pose proof (saturating_add_le (len bytes) (len chunk)). pose proof (len_nonneg (concat chunks)). lia.
    + rewrite IH, <-app_assoc. split; intros (-> & -> & Hl); (split; [done|split; [done|]]); right.
      * destruct Hl as [->|Hl]; [|done]. cbn [concat]. rewrite app_nil_r, len_app.
        by apply saturating_add_exact in Hsmall.
      * destruct Hl as [?|Hl]; done.
Qed.

Section verify.
Context `{UrlLib} `{JsonText} `{TimeLib} `{SiweLib} `{Keccak256} `{HexLib}.
Context (peer : Peer).

(** A response is accepted exactly when it is complete and its body, the
    concatenation of its chunks, and its announced length are within 64 KiB;
    nothing larger is ever held. *)
Lemma send_exact request tr st body tr' :
  send peer request tr = (Ok (st, body), tr') ↔
  ∃ response, peer tr request = Ok response ∧ tr' = tr ++ [(request, Ok response)] ∧
    st = rs_status response ∧ body = concat (rs_chunks response) ∧ rs_failure response = None ∧
    len body ≤ MAX_RESPONSE_BYTES ∧
    (∀ n, rs_content_length response = Some n → n ≤ MAX_RESPONSE_BYTES).
Proof.
  unfold send. split.
  - intros Hs. inv_net. unfold transmit in *. inv_net.
    match goal with Hr : read_chunks _ _ _ = Ok _ |- _ => apply read_chunks_ok in Hr as (-> & Hf & Hl) end.
    match goal with Hp : peer _ _ = Ok _ |- _ => rewrite Hp end.
    eexists. split_and!; try done.
    + cbn [app]. destruct Hl as [->|Hl]; [done|exact Hl].
    + intros n Hn. rewrite Hn in *. cbn [from_option] in *. by boolify.
  - intros (response & Hp & -> & -> & -> & Hf & Hl & Hc).
    unfold mbind, net_bind, transmit, lift. rewrite Hp. cbn [map_err].
    assert (from_option (Z.ltb MAX_RESPONSE_BYTES) false (rs_content_length response) = false) as ->.
    { destruct (rs_content_length response) as [n|]; [|done]. apply Z.ltb_ge. by apply Hc. }
    cbn [reject_if]. rewrite (proj2 (read_chunks_ok _ _ _ (concat (rs_chunks response)))); [done|]. naive_solver.
Qed.

Lemma send_grows request : grows (λ x, x.1 = request) (send peer request).
Proof.
  unfold send. apply grows_bind; [by apply grows_transmit|]. intros reply.
  repeat (apply grows_bind; [apply grows_lift|intros ?]). apply (grows_lift _ (Ok _)).
Qed.

Lemma read_chunks_err bytes chunks failure e : read_chunks bytes chunks failure = Err e → e = Unavailable.
Proof.
  revert bytes. induction chunks as [|ch chunks IH]; intros bytes; simpl.
  - destruct failure; by intros; simplify_eq.
  - destruct (_ <? _); [by intros [= <-]|]. apply IH.
Qed.

Lemma send_err request tr e tr' : send peer request tr = (Err e, tr') → e = Unavailable.
Proof.
  unfold send. intros Hs.
  apply net_bind_err in Hs as [Hs|(reply & ? & _ & Hs)]; [discriminate|].
  apply net_bind_err in Hs as [Hs|(response & ? & _ & Hs)]; [inv_net; by destruct reply; simplify_eq/=|].
  apply net_bind_err in Hs as [Hs|(? & ? & _ & Hs)];
    [apply lift_err in Hs as [Hs _]; by apply reject_if_err in Hs as [_ <-]|].
  apply net_bind_err in Hs as [Hs|(? & ? & _ & Hs)]; [|discriminate].
  apply lift_err in Hs as [Hs _]. by apply read_chunks_err in Hs.
Qed.

(** ** What the provider reported

    [reported c tr m ps v]: among the exchanges [tr] the provider of [c]
    answered method [m] on [ps] with [v]. *)
Definition reported (c : AuthClient) (tr : list Exchange) (method : string) (params v : Json) : Prop :=
  ∃ response, (rpc_request c method params, Ok response) ∈ tr ∧ rs_status response = 200 ∧
    rs_failure response = None ∧ len (concat (rs_chunks response)) ≤ MAX_RESPONSE_BYTES ∧
    rpc_result (concat (rs_chunks response)) = Ok v.

Definition call_returned (c : AuthClient) (tr : list Exchange) (block_hash to : string) (data out : bytes) : Prop :=
  ∃ text, reported c tr "eth_call" (eth_call_params to data (block_selector block_hash)) (JString text) ∧
    decode_hex text = Ok out.

Lemma reported_mono c tr new m ps v : reported c tr m ps v → reported c (tr ++ new) m ps v.
Proof. intros (r & Hin & ?). exists r. split; [|done]. apply elem_of_app. by left. Qed.

Lemma call_returned_mono c tr new b to data out :
  call_returned c tr b to data out → call_returned c (tr ++ new) b to data out.
Proof. intros (t & ? & ?). exists t. split; [by apply reported_mono|done]. Qed.

Lemma rpc_ok c m ps tr v tr' : rpc peer c m ps tr = (Ok v, tr') → reported c tr' m ps v ∧ ∃ new, tr' = tr ++ new.
Proof.
  unfold rpc. intros Hr. apply net_bind_ok in Hr as ([st body] & tr1 & Hs & Hr). inv_net. boolify.
  apply send_exact in Hs as (response & _ & -> & ? & -> & Hf & Hl & _). split; [|by eexists].
  exists response. split; [|split; [lia|done]]. apply elem_of_app. right. by constructor.
Qed.

Lemma rpc_grows c m ps : grows (λ x, x.1 = rpc_request c m ps) (rpc peer c m ps).
Proof.
  apply grows_bind; [apply send_grows|]. intros [st body].
  apply grows_bind; [apply grows_lift|intros ?]. apply grows_lift.
Qed.

Lemma rpc_err c m ps tr e tr' : rpc peer c m ps tr = (Err e, tr') →
  e = Unavailable ∨ e = InvalidChainEvidence.
Proof.
  unfold rpc. intros Hr. apply net_bind_err in Hr as [Hs|([st body] & tr1 & Hs & Hr)].
  - left. by apply send_err in Hs.
  - apply net_bind_err in Hr as [Hr|(? & ? & Hl & Hr)].
    + apply lift_err in Hr as [Hr _]. apply reject_if_err in Hr as [_ <-]. by left.
    + right. apply lift_err in Hr as [Hr _]. unfold rpc_result in Hr.
      apply bind_err in Hr as [Hr|(v & _ & Hr)]; [by destruct (json_from_slice _); simplify_eq/=|].
      apply bind_err in Hr as [Hr|(? & _ & Hr)]; [by apply reject_if_err in Hr as [_ <-]|].
      destruct (json_get _ _); [destruct (is_null _)|]; by simplify_eq.
Qed.

(** ** Evidence for an identity *)

(** The provider serves Optimism and calls this block its latest finalized
    one, no more than an hour old. *)
Definition finalized_evidence (c : AuthClient) (tr : list Exchange) (now number : Z) (block_hash : string) : Prop :=
  (∃ chain, reported c tr "eth_chainId" (JArray []) (JString chain) ∧ quantity chain = Ok 10) ∧
  ∃ block time, reported c tr "eth_getBlockByNumber" (JArray [JString "finalized"; JBool false]) block ∧
    (∃ text, field block "number" = Ok text ∧ quantity text = Ok number) ∧
    field block "hash" = Ok block_hash ∧ (∃ hash, decode_hex block_hash = Ok hash ∧ len hash = 32) ∧
    (∃ text, field block "timestamp" = Ok text ∧ quantity text = Ok time) ∧
    number ≠ 0 ∧ now - MAX_FINALIZED_AGE_SECONDS ≤ time ≤ now + 60.

(** The signature was made by the address: by its key when no code is deployed
    there, or as its contract confirms. *)
Definition wallet_evidence (c : AuthClient) (tr : list Exchange) (p : ParsedProof) (block_hash : string)
    (kind : WalletKind) : Prop :=
  let address := hex0x (siwe_address (pp_message p)) in
  ∃ text code, reported c tr "eth_getCode" (JArray [JString address; block_selector block_hash]) (JString text) ∧
    decode_hex text = Ok code ∧
    match kind with
    | Eoa => code = [] ∧ len (pp_signature p) = 65 ∧ siwe_verify_eip191 (pp_message p) (pp_signature p) = true
    | Erc1271 => code ≠ [] ∧ take 3 code ≠ DELEGATION_PREFIX ∧
        call_returned c tr block_hash address (erc1271_calldata (pp_digest p) (pp_signature p))
          (ERC1271_MAGIC ++ zeros 28)
    end.

Definition custody_evidence (c : AuthClient) (tr : list Exchange) (fid : Z) (block_hash custody : string) : Prop :=
  ∃ owner, len owner = 20 ∧ owner ≠ zeros 20 ∧ custody = hex0x owner ∧
    call_returned c tr block_hash ID_REGISTRY (function_selector "custodyOf(uint256)" ++ word fid) (zeros 12 ++ owner).

(** The address may sign for the FID: it is an active type-2 key of the FID,
    or the FID's custody address in both directions of the registry. *)
Definition permission_evidence (c : AuthClient) (tr : list Exchange) (p : ParsedProof) (block_hash custody : string)
    (kind : ProofKind) : Prop :=
  let address := siwe_address (pp_message p) in
  match kind with
  | AuthAddress =>
      call_returned c tr block_hash KEY_REGISTRY (auth_key_calldata (pp_fid p) address) (word 1 ++ word 2)
  | Custody =>
      call_returned c tr block_hash ID_REGISTRY (id_of_calldata address) (word (pp_fid p)) ∧ custody = hex0x address
  end.

Lemma finalized_block_ok c now tr number block_hash tr' :
  finalized_block peer c now tr = (Ok (number, block_hash), tr') →
  finalized_evidence c tr' now number block_hash.
Proof.
  unfold finalized_block. intros Hf. inv_net.
  repeat match goal with
  | Hr : rpc _ _ _ _ _ = (Ok _, _) |- _ => apply rpc_ok in Hr as [? [? ->]]
  | Ha : as_str ?v = Some _ |- _ => destruct v; try discriminate Ha; injection Ha as ->
  end.
  boolify. subst. split.
  - eexists. split; [by apply reported_mono|done].
  - unfold MAX_FINALIZED_AGE_SECONDS in *.
    match goal with Ht : saturating_sub now ?t ≤ _ |- _ =>
      exists x5, t; pose proof (saturating_sub_ge now t); pose proof (saturating_add_le now 60) end.
    split_and!; eauto; lia.
Qed.

(** Errors that say nothing about the signer. *)
Definition operational (e : AuthError) : Prop := e = Unavailable ∨ e = InvalidChainEvidence.

Lemma rpc_fails c m ps : fails_with operational (rpc peer c m ps).
Proof. intros tr e tr'. apply rpc_err. Qed.

Lemma decode_hex_err s e : decode_hex s = Err e → e = InvalidChainEvidence.
Proof. unfold decode_hex, ok_or. intros Hd. case_in Hd; done. Qed.
Lemma quantity_err s e : quantity s = Err e → e = InvalidChainEvidence.
Proof. unfold quantity, ok_or, reject_if. intros Hd. case_in Hd; done. Qed.
Lemma field_err v k e : field v k = Err e → e = InvalidChainEvidence.
Proof. unfold field, ok_or. intros Hd. case_in Hd; done. Qed.

Lemma word_u64_err w e : word_u64 w = Err e → e = InvalidChainEvidence.
Proof. unfold word_u64, reject_if. intros Hd. case_in Hd; done. Qed.

(** Splits an equation [_ = Err e] down to the step that failed. *)
Ltac pure_err He :=
  repeat (apply bind_err in He as [He|(? & _ & He)]);
  first [apply ok_or_err in He as [_ <-] | apply reject_if_err in He as [_ <-]
        | apply decode_hex_err in He | apply quantity_err in He | apply field_err in He
        | apply word_u64_err in He]; done.

Lemma eth_call_fails c to data block : fails_with operational (eth_call peer c to data block).
Proof.
  apply fails_bind; [apply rpc_fails|intros v]. apply fails_lift. intros e He. right. pure_err He.
Qed.

Ltac net_fails :=
  repeat first
    [ apply fails_ret
    | apply fails_bind; [first [apply rpc_fails | apply eth_call_fails | apply fails_lift]|intros ?]
    | apply fails_lift
    | match goal with |- fails_with _ (if ?b then _ else _) => destruct b end
    | match goal with |- fails_with _ (let '_ := ?x in _) => destruct x end ].

Lemma finalized_block_fails c now : fails_with operational (finalized_block peer c now).
Proof. unfold finalized_block. net_fails; intros e He; right; pure_err He. Qed.

(** ** The steps of [verify_authority] *)

Lemma eth_call_ok c to data block_hash tr out tr' :
  eth_call peer c to data (block_selector block_hash) tr = (Ok out, tr') →
  call_returned c tr' block_hash to data out ∧ ∃ new, tr' = tr ++ new.
Proof.
  unfold eth_call. intros Hc. inv_net.
  match goal with Hr : rpc _ _ _ _ _ = (Ok _, _) |- _ => apply rpc_ok in Hr as [? [new ->]] end.
  match goal with Ha : as_str ?v = Some _ |- _ => destruct v; try discriminate Ha; injection Ha as -> end.
  split; [|by eexists]. by eexists.
Qed.

Lemma check_wallet_ok c p block_hash tr kind tr' :
  check_wallet peer c p (hex0x (siwe_address (pp_message p))) (block_selector block_hash) tr = (Ok kind, tr') →
  wallet_evidence c tr' p block_hash kind ∧ ∃ new, tr' = tr ++ new.
Proof.
  unfold check_wallet. intros Hc. inv_net.
  match goal with Hr : rpc _ _ _ _ _ = (Ok _, _) |- _ => apply rpc_ok in Hr as [? [new ->]] end.
  match goal with Ha : as_str ?v = Some _ |- _ => destruct v; try discriminate Ha; injection Ha as -> end.
  destruct (bool_decide _) eqn:Hcode; unfold verify_eoa in *; inv_net; boolify.
  - split; [|by eexists]. do 2 eexists. eauto 10.
  - match goal with He : eth_call _ _ _ _ _ _ = (Ok _, _) |- _ => apply eth_call_ok in He as [Hcall [new' ->]] end.
    rewrite <-app_assoc. split; [|by eexists]. rewrite app_assoc.
    do 2 eexists. split_and!; [by apply reported_mono|done|done|done|].
    match goal with Hm : take 4 ?r = _, Hz : all_zero (drop 4 ?r) = true, Hl : len ?r = 32 |- _ =>
      apply all_zero_spec in Hz; rewrite length_drop in Hz;
      replace (length r - 4)%nat with 28%nat in Hz by (unfold len in Hl; lia);
      rewrite <-Hm, <-Hz, take_drop end. done.
Qed.

Lemma hex0x_inj `{!HexLaws} a b : hex0x a = hex0x b → a = b.
Proof.
  unfold hex0x. intros Hab. simplify_eq/=. apply (f_equal hex_decode) in Hab.
  rewrite !hex_decode_encode in Hab. by simplify_eq.
Qed.

Lemma read_custody_ok c fid expected block_hash tr custody tr' :
  read_custody peer c fid expected (block_selector block_hash) tr = (Ok custody, tr') →
  custody_evidence c tr' fid block_hash custody ∧
  (∀ e, expected = Some e → vi_custody_address e = custody) ∧ ∃ new, tr' = tr ++ new.
Proof.
  unfold read_custody. intros Hc. inv_net. boolify.
  match goal with He : eth_call _ _ _ _ _ _ = (Ok ?r, _) |- _ => apply eth_call_ok in He as [Hcall [new ->]]; rename r into r0 end.
  match goal with Hz : all_zero (take 12 _) = true, Hl : len _ = 32 |- _ =>
    apply all_zero_spec in Hz; rewrite length_take in Hz; unfold len in Hl;
    replace (12 `min` length r0)%nat with 12%nat in Hz by lia end.
  split_and!; [| |by eexists].
  - exists (drop 12 r0). split_and!; [unfold len; rewrite length_drop; lia| |done|].
    + intros Hd. match goal with Hn : all_zero (drop 12 _) = false |- _ => by rewrite Hd in Hn end.
    + match goal with Hz : take 12 _ = zeros 12 |- _ => rewrite <-Hz, take_drop end. done.
  - intros e ->. match goal with Hx : from_option _ _ _ = false |- _ => cbn [from_option] in Hx end. by boolify.
Qed.

Lemma read_permission_ok c p custody block_hash tr kind tr' :
  read_permission peer c p (hex0x (siwe_address (pp_message p))) custody (block_selector block_hash) tr = (Ok kind, tr') →
  permission_evidence c tr' p block_hash custody kind ∧ ∃ new, tr' = tr ++ new.
Proof.
  unfold read_permission. intros Hc. inv_net. boolify.
  match goal with He : eth_call _ _ _ _ _ _ = (Ok ?r, _) |- _ =>
    apply eth_call_ok in He as [Hcall [new ->]]; rename r into r0 end.
  repeat match goal with Hw : word_u64 _ = Ok _ |- _ => apply word_u64_word in Hw as [? _] end.
  destruct (_ && _) eqn:Hkey; inv_net; boolify.
  - split; [|by eexists]. subst. cbn [permission_evidence]. unfold permission_evidence.
    match goal with Ha : take 32 _ = _, Hb : drop 32 _ = _ |- _ => rewrite <-Ha, <-Hb, take_drop end. done.
  - match goal with He : eth_call _ _ _ _ _ _ = (Ok _, _) |- _ => apply eth_call_ok in He as [Hcall' [new' ->]] end.
    repeat match goal with Hw : word_u64 _ = Ok _ |- _ => apply word_u64_word in Hw as [? _] end. subst.
    split; [|by exists (new ++ new'); rewrite app_assoc]. split; [done|]. congruence.
Qed.

(** All the evidence for an identity, read at one block. *)
Definition authority_evidence (c : AuthClient) (tr : list Exchange) (p : ParsedProof) (now : Z)
    (id : VerifiedIdentity) : Prop :=
  vi_fid id = pp_fid p ∧ vi_address id = hex0x (siwe_address (pp_message p)) ∧ vi_checked_at id = now ∧
  finalized_evidence c tr now (vi_checked_block id) (vi_block_hash id) ∧
  wallet_evidence c tr p (vi_block_hash id) (vi_wallet_kind id) ∧
  custody_evidence c tr (pp_fid p) (vi_block_hash id) (vi_custody_address id) ∧
  permission_evidence c tr p (vi_block_hash id) (vi_custody_address id) (vi_proof_kind id).

Lemma finalized_mono c tr new now n b : finalized_evidence c tr now n b → finalized_evidence c (tr ++ new) now n b.
Proof.
  intros [(ch & ? & ?) (bl & t & ? & ?)]. split; [exists ch; split; [by apply reported_mono|done]|].
  exists bl, t. split; [by apply reported_mono|done].
Qed.
Lemma wallet_mono c tr new p b k : wallet_evidence c tr p b k → wallet_evidence c (tr ++ new) p b k.
Proof.
  intros (t & code & ? & ? & Hk). exists t, code. split_and!; [by apply reported_mono|done|].
  destruct k; [done|]. destruct Hk as (? & ? & ?). split_and!; [done|done|by apply call_returned_mono].
Qed.
Lemma custody_mono c tr new f b cu : custody_evidence c tr f b cu → custody_evidence c (tr ++ new) f b cu.
Proof. intros (o & ? & ? & ? & ?). exists o. split_and!; [done..|by apply call_returned_mono]. Qed.

Lemma verify_authority_ok c p now expected tr id tr' :
  verify_authority peer c p now expected tr = (Ok id, tr') →
  authority_evidence c tr' p now id ∧
  (∀ e, expected = Some e → regressed e (vi_checked_block id) (vi_block_hash id) = false ∧
    vi_custody_address e = vi_custody_address id).
Proof.
  unfold verify_authority. intros Hv. apply net_bind_ok in Hv as ([number block_hash] & tr1 & Hf & Hv).
  inv_net. apply finalized_block_ok in Hf.
  match goal with Hw : check_wallet _ _ _ _ _ _ = _ |- _ => apply check_wallet_ok in Hw as [Hw [new1 ->]] end.
  match goal with Hr : read_custody _ _ _ _ _ _ = _ |- _ =>
    apply read_custody_ok in Hr as (Hr & Hexp & [new2 ->]) end.
  match goal with Hp : read_permission _ _ _ _ _ _ _ = _ |- _ => apply read_permission_ok in Hp as [Hp [new3 ->]] end.
  split.
  - unfold authority_evidence.
    cbn [vi_fid vi_address vi_checked_at vi_checked_block vi_block_hash vi_wallet_kind vi_custody_address vi_proof_kind].
    split_and!; [done..| | | |done].
    + by do 3 apply finalized_mono.
    + by do 2 apply wallet_mono.
    + by apply custody_mono.
  - intros e ->. cbn [vi_checked_block vi_block_hash vi_custody_address from_option] in *. auto.
Qed.

(** C19: an identity is returned by [verify] only when the relay's proof
    consents to this very challenge now, and the RPC provider reported, all at
    one finalized Optimism block, that the signature is the address's, that
    the FID has a custody address, and that the address is the FID's custody
    address or one of its active authentication keys. *)
Theorem verified_identity_sound c proof ch now tr id tr' :
  verify peer c proof ch now tr = (Ok id, tr') →
  ∃ p, consents (pp_message p) ch (cfg_domain (client_config c)) (cfg_uri (client_config c)) now ∧
    claims proof p ∧ authority_evidence c tr' p now id.
Proof.
  unfold verify. intros Hv. inv_net.
  match goal with Hp : parse _ _ _ _ _ = Ok _ |- _ => apply parse_sound in Hp as (? & ? & _) end.
  match goal with Ha : verify_authority _ _ _ _ _ _ = _ |- _ => apply verify_authority_ok in Ha as [? _] end.
  eauto.
Qed.

Lemma recheck_local_ok c id proof now p : recheck_local c id proof now = Ok p →
  claims proof p ∧ vi_fid id = pp_fid p ∧ vi_address id = hex0x (siwe_address (pp_message p)) ∧ vi_checked_at id ≤ now.
Proof.
  unfold recheck_local. intros Hr. inv_result. boolify.
  match goal with Hp : parse_authority _ _ _ = Ok _ |- _ => apply parse_authority_ok in Hp as [? _] end.
  split_and!; try done; lia.
Qed.

(** C21: a recheck keeps the FID, the address and the custody address it was
    given, and its evidence only moves forward: to a later time and a block
    that is higher, or the same one. *)
Theorem recheck_monotone c old proof now tr id tr' :
  recheck_identity peer c old proof now tr = (Ok id, tr') →
  vi_fid id = vi_fid old ∧ vi_address id = vi_address old ∧ vi_custody_address id = vi_custody_address old ∧
  vi_checked_at old ≤ vi_checked_at id ∧ vi_checked_block old ≤ vi_checked_block id ∧
  (vi_checked_block id = vi_checked_block old → eq_ignore_ascii_case (vi_block_hash id) (vi_block_hash old) = true) ∧
  ∃ p, claims proof p ∧ authority_evidence c tr' p now id.
Proof.
  unfold recheck_identity. intros Hr. inv_net.
  match goal with Hl : recheck_local _ _ _ _ = Ok _ |- _ => apply recheck_local_ok in Hl as (? & Hf & Ha & Ht) end.
  match goal with Hv : verify_authority _ _ _ _ _ _ = _ |- _ =>
    apply verify_authority_ok in Hv as [Hev Hold]; destruct (Hold old eq_refl) as [Hreg Hcu] end.
  pose proof Hev as (? & ? & ? & _). unfold regressed in Hreg. boolify.
  split_and!; try congruence; try lia; [|by eauto].
  intros Heq. match goal with Hx : _ && _ = false |- _ => rewrite Heq, Z.eqb_refl in Hx; cbn [andb] in Hx end. by boolify.
Qed.

(** ** What is sent *)

Definition chain_question (c : AuthClient) (x : Exchange) : Prop :=
  x.1 = rpc_request c "eth_chainId" (JArray []) ∨
  x.1 = rpc_request c "eth_getBlockByNumber" (JArray [JString "finalized"; JBool false]).

(** A read of code or of a call result at a block. *)
Definition read_at (c : AuthClient) (block_hash : string) (x : Exchange) : Prop :=
  ∃ what, x.1 = rpc_request c "eth_getCode" (JArray [what; block_selector block_hash]) ∨
          x.1 = rpc_request c "eth_call" (JArray [what; block_selector block_hash]).

Lemma eth_call_grows c b to data : grows (read_at c b) (eth_call peer c to data (block_selector b)).
Proof.
  apply grows_bind; [|intros; apply grows_lift]. eapply grows_impl; [|apply rpc_grows].
  intros x Hx. eexists. right. exact Hx.
Qed.

Lemma get_code_grows c b a : grows (read_at c b) (rpc peer c "eth_getCode" (JArray [JString a; block_selector b])).
Proof. eapply grows_impl; [|apply rpc_grows]. intros x Hx. eexists. left. exact Hx. Qed.

Ltac net_grows :=
  repeat first
    [ apply grows_ret | apply grows_lift | apply eth_call_grows | apply get_code_grows
    | apply grows_bind; [|intros ?]
    | match goal with |- grows _ (if ?b then _ else _) => destruct b end ].

Lemma evidence_grows c p b now number expected :
  grows (read_at c b)
    (wallet_kind ← check_wallet peer c p (hex0x (siwe_address (pp_message p))) (block_selector b);
     custody_address ← read_custody peer c (pp_fid p) expected (block_selector b);
     proof_kind ← read_permission peer c p (hex0x (siwe_address (pp_message p))) custody_address (block_selector b);
     mret (mkVerifiedIdentity (pp_fid p) (hex0x (siwe_address (pp_message p))) custody_address wallet_kind
       proof_kind number b now)).
Proof. unfold check_wallet, read_custody, read_permission. net_grows. Qed.

Lemma finalized_block_grows c now : grows (chain_question c) (finalized_block peer c now).
Proof.
  unfold finalized_block.
  repeat first
    [ apply grows_ret | apply grows_lift
    | eapply grows_impl; [|apply rpc_grows]; intros x Hx; first [left; exact Hx | right; exact Hx]
    | apply grows_bind; [|intros ?] ].
Qed.

(** C22: verifying sends nothing but chain reads to the configured provider:
    the chain identifier, the latest finalized block, and then reads that are
    all pinned to one block hash. *)
Theorem verify_authority_pinned c p now expected tr r tr' :
  verify_authority peer c p now expected tr = (r, tr') →
  ∃ questions reads block_hash, tr' = tr ++ questions ++ reads ∧
    Forall (chain_question c) questions ∧ Forall (read_at c block_hash) reads.
Proof.
  unfold verify_authority, mbind at 1, net_bind at 1. intros Hv.
  destruct (finalized_block_grows c now tr) as (questions & Hq & Hall).
  destruct (finalized_block peer c now tr) as [[[number b]|e] tr1]; cbn [snd] in Hq; subst tr1.
  - exists questions. unfold mbind at 1, net_bind at 1, lift at 1 in Hv.
    destruct (reject_if _ _) as [u|e].
    + apply (grows_run _ _ _ _ _ (evidence_grows c p b now number expected)) in Hv as (reads & -> & Hr).
      exists reads, b. rewrite app_assoc. done.
    + injection Hv as _ <-. exists [], b. by rewrite app_nil_r.
  - injection Hv as _ <-. exists questions, [], EmptyString. by rewrite app_nil_r.
Qed.


(** ** The relay *)

(** C23: a channel is accepted only from one [POST] that carries this
    challenge, for a created channel that echoes its nonce, and its sign-in
    link is an HTTPS link to Farcaster whose only parameter is the channel. *)
Theorem start_sound c ch tr channel tr' :
  start peer c ch tr = (Ok channel, tr') →
  ∃ request response u, start_request c ch = Ok request ∧ tr' = tr ++ [(request, Ok response)] ∧
    rs_status response = 201 ∧
    de_created (concat (rs_chunks response)) = Some (channel_token channel, auth_url channel, ch_nonce ch) ∧
    valid_channel (channel_token channel) = true ∧ str_len (auth_url channel) ≤ 1024 ∧
    url_parse (auth_url channel) = Some u ∧ url_scheme u = "https" ∧
    (url_host_str u = Some "farcaster.xyz" ∨ url_host_str u = Some "warpcast.com") ∧
    url_path u = "/~/siwf" ∧ url_port u = None ∧ url_username u = "" ∧ url_password u = None ∧
    url_query_pairs u = [("channelToken", channel_token channel)].
Proof.
  unfold start. intros Hs. apply net_bind_ok in Hs as (request & tr1 & Hreq & Hs). apply lift_ok in Hreq as [Hreq ->].
  apply net_bind_ok in Hs as ([st response] & tr2 & Hsend & Hs).
  apply send_exact in Hsend as (r & _ & -> & -> & -> & _).
  apply net_bind_ok in Hs as (? & ? & Hst & Hs). apply lift_ok in Hst as [Hst ->].
  apply net_bind_ok in Hs as ([[token url] nonce] & ? & Hde & Hs). apply lift_ok in Hde as [Hde ->].
  unfold validate_auth_url in Hs. inv_net. boolify. subst. exists request, r. eexists.
  cbn [channel_token auth_url]. unfold str_is_empty in *.
  repeat match goal with Hx : ¬ is_Some _ |- _ => apply eq_None_not_Some in Hx end. boolify.
  split_and!; eauto.
  match goal with Hx : bool_decide _ || bool_decide _ = true |- _ => apply orb_true_iff in Hx as [Hx|Hx] end;
    boolify; auto.
Qed.

(** What [status] makes of an answer that is not a rejected credential. *)
Lemma status_answer_fails st response : fails_with (λ e, e ≠ ChannelExpired) (status_answer st response).
Proof.
  unfold status_answer.
  repeat first
    [ apply fails_ret
    | apply fails_lift; intros e He; first [apply reject_if_err in He as [_ <-] | apply ok_or_err in He as [_ <-]
        | injection He as <-]; done
    | apply fails_bind; [|intros [[? ?] ?]]
    | apply fails_bind; [|intros ?]
    | match goal with |- fails_with _ (if ?b then _ else _) => destruct b end ].
Qed.


(** ** Configuration *)

(** HTTPS, or HTTP to this machine, without credentials or parameters. *)
Definition safe_transport (u : Url) : Prop :=
  (url_scheme u = "https" ∨ (url_scheme u = "http" ∧ ∃ host, url_host_str u = Some host ∧
     (host = "localhost" ∨ ∃ ip, parse_ip host = Some ip ∧ ip_is_loopback ip = true))) ∧
  is_Some (url_host_str u) ∧ url_username u = "" ∧ url_password u = None ∧ url_query u = None ∧ url_fragment u = None.

Lemma loopback_host_true host : loopback_host host = true →
  host = "localhost" ∨ ∃ ip, parse_ip host = Some ip ∧ ip_is_loopback ip = true.
Proof.
  unfold loopback_host. intros Hl. apply orb_true_iff in Hl as [Hl|Hl]; boolify; [by left|].
  right. destruct (parse_ip host) as [ip|]; [by exists ip|done].
Qed.

Lemma safe_url_ok input u : safe_url input = Ok u → url_parse input = Some u ∧ safe_transport u.
Proof.
  unfold safe_url, str_is_empty. intros Hs. inv_result. boolify. split; [done|].
  repeat match goal with Hx : ¬ is_Some _ |- _ => apply eq_None_not_Some in Hx end.
  match goal with Hn : url_host_str u ≠ None |- _ => apply not_eq_None_Some in Hn as [host Hhost] end.
  unfold safe_transport. rewrite Hhost in *. cbn [from_option] in *. split_and!; try done.
  match goal with Hx : negb _ && negb _ = false |- _ => apply andb_false_iff in Hx as [Hx|Hx] end; boolify; [by left|].
  right. split; [done|]. exists host. split; [done|]. by apply loopback_host_true.
Qed.

(** A client exists only for a safe configuration: both upstream URLs use
    a safe transport, the relay is an origin, and the domain shown to the user
    is exactly the authority of the sign-in URI. *)
Theorem new_client_safe config c : new config = Ok c →
  client_config c = config ∧
  url_parse (cfg_relay_url config) = Some (client_relay c) ∧ safe_transport (client_relay c) ∧ url_path (client_relay c) = "/" ∧
  url_parse (cfg_optimism_rpc_url config) = Some (client_rpc c) ∧ safe_transport (client_rpc c) ∧
  ∃ uri, url_parse (cfg_uri config) = Some uri ∧ safe_transport uri ∧ cfg_domain config = url_authority uri ∧
    str_len (cfg_domain config) ≤ 253.
Proof.
  unfold new, validate. intros Hn. inv_result. boolify.
  repeat match goal with Hs : safe_url _ = Ok _ |- _ => apply safe_url_ok in Hs as [? ?] end. simplify_eq.
  cbn [client_config client_relay client_rpc]. split_and!; eauto 10.
Qed.
End verify.

(** ** Witnesses *)

Definition w_config : AuthConfig :=
  mkAuthConfig "example.com" "https://example.com/account" "https://relay.farcaster.xyz" "https://rpc.example.com".
Definition w_relay : ToyUrl := mkToyUrl "https" "" "relay.farcaster.xyz" None "/" None.
Definition w_rpc : ToyUrl := mkToyUrl "https" "" "rpc.example.com" None "/" None.
Definition w_client : AuthClient := mkAuthClient w_config w_relay w_rpc.

Definition w_owner : bytes := repeat x44 20.
Definition w_address : string := "0x" +:+ hex_encode w_owner.
Definition w_hash : string := "0x" +:+ hex_encode (repeat xab 32).
Definition w_challenge : Challenge := mkChallenge "abcdefgh12345678" 1000 1300.
Definition w_proof : SignedProof := mkSignedProof
  ("example.com|" +:+ hex_encode w_owner
   +:+ "|Farcaster Auth|https://example.com/account|10|abcdefgh12345678|1005|1300|farcaster://fid/7/")
  ("0x" +:+ hex_encode (w_owner ++ repeat x00 45)).
Definition w_identity : VerifiedIdentity := mkVerifiedIdentity 7 w_address w_address Eoa Custody 31 w_hash 1010.

Definition w_answer (st : Z) (v : Json) : Reply :=
  Ok (mkHttpResponse st None [as_bytes (json_to_string v)] None).
Definition w_rpc_answer (v : Json) : Reply :=
  w_answer 200 (json_object [("jsonrpc", JString "2.0"); ("id", JNumber (PosInt 1)); ("result", v)]).

(** A provider that answers its questions in order. *)
Definition w_answers (number : string) : list Reply := w_rpc_answer <$>
  [JString "0xa";
   json_object [("number", JString number); ("hash", JString w_hash); ("timestamp", JString "0x3e8")];
   JString "0x";
   JString ("0x" +:+ hex_encode (zeros 12 ++ w_owner));
   JString ("0x" +:+ hex_encode (zeros 64));
   JString ("0x" +:+ hex_encode (word 7))].
Definition w_peer (answers : list Reply) : Peer := λ tr _,
  default (Err TimedOut) (answers !! length tr).

Definition w_verify := verify (w_peer (w_answers "0x1f")) w_client w_proof w_challenge 1010 [].
Lemma w_verify_ok : w_verify = (Ok w_identity, w_verify.2).
Proof. apply run_result. vm_compute. reflexivity. Qed.

Lemma verified_identity_sound_witness :
  ∃ p, consents (pp_message p) w_challenge "example.com" "https://example.com/account" 1010 ∧
    claims w_proof p ∧ authority_evidence w_client w_verify.2 p 1010 w_identity.
Proof. exact (verified_identity_sound (w_peer (w_answers "0x1f")) w_client w_proof w_challenge 1010 [] w_identity _ w_verify_ok). Defined.

Definition w_recheck := recheck_identity (w_peer (w_answers "0x20")) w_client w_identity w_proof 2000 [].
Definition w_identity' : VerifiedIdentity := mkVerifiedIdentity 7 w_address w_address Eoa Custody 32 w_hash 2000.
Lemma w_recheck_ok : w_recheck = (Ok w_identity', w_recheck.2).
Proof. apply run_result. vm_compute. reflexivity. Qed.

Lemma recheck_monotone_witness : vi_fid w_identity' = vi_fid w_identity.
Proof.
  exact (proj1 (recheck_monotone (w_peer (w_answers "0x20")) w_client w_identity w_proof 2000 [] w_identity' _ w_recheck_ok)).
Defined.

(** A provider whose finalized block is behind: an operational error. *)
Definition w_stale := recheck_identity (w_peer (w_answers "0x1e")) w_client w_identity w_proof 2000 [].
Lemma w_stale_err : w_stale = (Err InvalidChainEvidence, w_stale.2).
Proof. apply run_result. vm_compute. reflexivity. Qed.

(** A provider that reports another custodian at a newer block: a verdict. *)
Definition w_moved_answers : list Reply := take 3 (w_answers "0x20") ++
  [w_rpc_answer (JString ("0x" +:+ hex_encode (zeros 12 ++ repeat x55 20)))].
Definition w_moved := recheck_identity (w_peer w_moved_answers) w_client w_identity w_proof 2000 [].
Lemma w_moved_err : w_moved = (Err Unauthorized, w_moved.2).
Proof. apply run_result. vm_compute. reflexivity. Qed.





Definition w_parsed : ParsedProof := mkParsedProof (split_on "|" (proof_message w_proof)) 7 [] [].
Definition w_pinned := verify_authority (w_peer []) w_client w_parsed 1010 None [].
Lemma w_pinned_run : w_pinned = (w_pinned.1, w_pinned.2).
Proof. exact (run_result w_pinned w_pinned.1 eq_refl). Qed.
Lemma verify_authority_pinned_witness :
  ∃ questions reads block_hash, w_pinned.2 = [] ++ questions ++ reads ∧
    Forall (chain_question w_client) questions ∧ Forall (read_at w_client block_hash) reads.
Proof.
  exact (verify_authority_pinned (w_peer []) w_client w_parsed 1010 None [] w_pinned.1 w_pinned.2 w_pinned_run).
Defined.

Definition w_link : string := "https://farcaster.xyz/~/siwf?channelToken=channel-0001".
Definition w_start := start (w_peer [w_answer 201 (json_object
  [("channelToken", JString "channel-0001"); ("url", JString w_link); ("nonce", JString "abcdefgh12345678")])])
  w_client w_challenge [].
Lemma w_start_ok : w_start = (Ok (mkChannel "channel-0001" w_link), w_start.2).
Proof. apply run_result. vm_compute. reflexivity. Qed.

Lemma start_sound_witness : ∃ request response, w_start.2 = [(request, Ok response)] ∧ rs_status response = 201.
Proof.
  destruct (start_sound _ w_client w_challenge [] _ _ w_start_ok) as (request & response & u & _ & Htr & Hst & _).
  exists request, response. exact (conj Htr Hst).
Defined.

Definition w_status := status (w_peer [w_answer 200 (json_object
  [("state", JString "completed"); ("message", JString "hello"); ("signature", JString "0x11")])])
  w_client "channel-0001" [].
Lemma w_status_ok : w_status = (Ok (StatusCompleted (mkSignedProof "hello" "0x11")), w_status.2).
Proof. apply run_result. vm_compute. reflexivity. Qed.


Lemma w_new_ok : new w_config = Ok w_client.
Proof. vm_cast_no_check (eq_refl (@Ok AuthError _ w_client)). Qed.
Lemma new_client_safe_witness : safe_transport (client_relay w_client).
Proof. exact (proj1 (proj2 (proj2 (new_client_safe w_config w_client w_new_ok)))). Defined.

(** [u64::from_str_radix] takes a sign, so a signed quantity is accepted. *)
Lemma quantity_accepts_sign : quantity "0x+1f" = Ok 31 ∧ quantity "0x1f" = Ok 31.
Proof. vm_compute. split; reflexivity. Qed.

(** The host of an IPv6 URL keeps its brackets, so it never counts as loopback. *)
Lemma ipv6_loopback_host_refused : loopback_host "[::1]" = false ∧ loopback_host "::1" = true.
Proof. vm_compute. split; reflexivity. Qed.
