(* ===== verification/Hypersnap.v ===== *)
(** * Hypersnap preflight ([psky-hypersnap], [lib.rs])

    Configuration, the parsers of the node's answers, and the read-only
    inspection of every configured endpoint. *)

From S2P Require Import Prelude RustStd IpAddr BTreeMap Externs Http.

Definition MAX_ENDPOINTS : Z := 8.
Definition DEFAULT_MAX_RESPONSE_BYTES : Z := 262144.
Definition MAX_RESPONSE_BYTES : Z := 1048576.
Definition SUPPORTED_VERSION : string := "0.13.5".
Definition DEFAULT_MAX_BLOCK_DELAY_SECS : Z := 30.
Definition MAX_BLOCK_DELAY_SECS : Z := 86400.

Inductive Network := Mainnet | Testnet | Devnet.

#[export] Instance Network_eq_dec : EqDecision Network.
Proof. solve_decision. Defined.

(** [Network::from_message] *)
Definition from_message (value : Json) : option Network :=
  let number n := bool_decide (as_u64 value = Some n) in
  let name s := bool_decide (as_str value = Some s) in
  if number 1 || name "FARCASTER_NETWORK_MAINNET" then Some Mainnet
  else if number 2 || name "FARCASTER_NETWORK_TESTNET" then Some Testnet
  else if number 3 || name "FARCASTER_NETWORK_DEVNET" then Some Devnet
  else None.

(** [Display for Network], [FromStr for Network] *)
Definition network_to_string (n : Network) : string :=
  match n with Mainnet => "mainnet" | Testnet => "testnet" | Devnet => "devnet" end.
Definition ConfigError : Type := string.
Definition network_from_str (value : string) : result ConfigError Network :=
  if bool_decide (value = "mainnet") then Ok Mainnet
  else if bool_decide (value = "testnet") then Ok Testnet
  else if bool_decide (value = "devnet") then Ok Devnet
  else Err "network must be mainnet, testnet, or devnet".

(** A [std::time::Duration], in nanoseconds. *)
Definition Duration : Type := Z.
Definition from_millis (n : Z) : Duration := n * 1000000.
Definition from_secs (n : Z) : Duration := n * 1000000000.

Inductive Compatibility := Compatible | Incompatible | CompatUnknown.
Inductive Freshness := Fresh | Lagging | FreshUnknown.
Inductive Failure := Timeout | Transport | Redirect | Unavailable | HttpStatus | Oversized | Malformed.

#[export] Instance Compatibility_eq_dec : EqDecision Compatibility.
Proof. solve_decision. Defined.
#[export] Instance Freshness_eq_dec : EqDecision Freshness.
Proof. solve_decision. Defined.
#[export] Instance Failure_eq_dec : EqDecision Failure.
Proof. solve_decision. Defined.

Record RequestEvidence := mkRequestEvidence {
  ev_route : string;
  ev_status : option Z;
  ev_response_bytes : Z;
  ev_failure : option Failure
}.

Record ShardInfo := mkShardInfo {
  shard_id : Z;
  max_height : Z;
  block_delay_seconds : Z;
  shard_num_messages : option Z
}.

Record NodeInfo := mkNodeInfo {
  version : string;
  num_shards : Z;
  num_messages : option Z;
  peer_id : option string;
  shard_infos : list ShardInfo
}.

Record StoreLimit := mkStoreLimit { sl_name : string; sl_limit : Z; sl_used : Z }.
Record StorageAllocation := mkStorageAllocation { units : Z; limits : list StoreLimit }.

Record AuthorityObservation := mkAuthorityObservation {
  registry_events : Z;
  reported_custody : option string;
  verified : bool
}.

Record NodeReport := mkNodeReport {
  nr_endpoint : string;
  nr_info : option NodeInfo;
  nr_reachable : bool;
  nr_protocol : Compatibility;
  nr_network : Compatibility;
  nr_freshness : Freshness;
  nr_peer_unique : option bool;
  nr_healthy : bool;
  nr_observed_network : option Network;
  nr_storage : option StorageAllocation;
  nr_authority : option AuthorityObservation;
  nr_requests : list RequestEvidence
}.

Record PreflightReport := mkPreflightReport {
  pr_expected_network : Network;
  pr_test_fid : option Z;
  pr_compatible : bool;
  pr_healthy : bool;
  pr_max_block_delay_seconds : Z;
  pr_distinct_peer_count : Z;
  pr_ready_for_reconstruction : bool;
  pr_nodes : list NodeReport;
  pr_limitations : list string
}.

(** [Freshness::from_info] *)
Definition from_info (info : NodeInfo) (max_block_delay_secs : Z) : Freshness :=
  if existsb (λ shard, max_block_delay_secs <? block_delay_seconds shard) (shard_infos info) then Lagging
  else if negb (len (shard_infos info) =? saturating_add (num_shards info) 1)
          || existsb (λ shard, max_height shard =? 0) (shard_infos info) then FreshUnknown
  else Fresh.

(** ** Parsers

    Each [?] of the source returns [None] for the whole parse. *)

Definition get_u64 (key : string) (value : Json) : option Z := json_get key value ≫= as_u64.
Definition get_str (key : string) (value : Json) : option string := json_get key value ≫= as_str.

(** An optional count: absent, or a [u64]. *)
Definition optional_u64 (value : option Json) : option (option Z) :=
  match value with Some count => Some <$> as_u64 count | None => Some None end.

Definition version_byte (c : ascii) : bool := is_ascii_alphanumeric c || one_of ".-+_" c.
Definition peer_byte (c : ascii) : bool := is_ascii_alphanumeric c || one_of "-_" c.

Definition parse_peer (value : option Json) : option (option string) :=
  match value with
  | Some value =>
      peer ← as_str value;
      if str_is_empty peer || (128 <? str_len peer) || negb (all_bytes peer_byte peer) then None
      else Some (Some peer)
  | None => Some None
  end.

Definition parse_shard (num_shards : Z) (shard_infos : list ShardInfo) (shard : Json) : option ShardInfo :=
  id ← get_u64 "shardId" shard;
  if U32_MAX <? id then None else
  if (num_shards <? id) || existsb (λ info, shard_id info =? id) shard_infos then None else
  height ← get_u64 "maxHeight" shard;
  delay ← get_u64 "blockDelay" shard;
  count ← optional_u64 (json_get "numMessages" shard);
  Some (mkShardInfo id height delay count).

(** The loop over [shardInfos]; [shard_infos] holds what was parsed so far. *)
Fixpoint parse_shards (num_shards : Z) (shard_infos : list ShardInfo) (shards : list Json) : option (list ShardInfo) :=
  match shards with
  | [] => Some shard_infos
  | shard :: shards =>
      info ← parse_shard num_shards shard_infos shard;
      parse_shards num_shards (shard_infos ++ [info]) shards
  end.

Definition shard_le (a b : ShardInfo) : Prop := shard_id a ≤ shard_id b.
#[export] Instance shard_le_dec : RelDecision shard_le := λ a b, decide (shard_id a ≤ shard_id b).

Definition parse_info (value : Json) : option NodeInfo :=
  version ← get_str "version" value;
  if str_is_empty version || (64 <? str_len version) || negb (all_bytes version_byte version) then None else
  num_shards ← get_u64 "numShards" value;
  if num_shards =? 0 then None else
  db_stats ← json_get "dbStats" value ≫= as_object;
  num_messages ← optional_u64 (field_get "numMessages" db_stats);
  peer_id ← parse_peer (json_get "peer_id" value);
  shard_infos ←
    match json_get "shardInfos" value with
    | Some value =>
        shards ← as_array value;
        if 256 <? len shards then None else
        infos ← parse_shards num_shards [] shards;
        Some (merge_sort shard_le infos)
    | None => Some []
    end;
  Some (mkNodeInfo version num_shards num_messages peer_id shard_infos).

Definition parse_network (value : Json) (fid : Z) : result () (option Network) :=
  messages ← ok_or () (json_get "messages" value ≫= as_array);
  match messages with
  | [] => Ok None
  | [message] =>
      data ← ok_or () (json_get "data" message);
      reported_fid ← ok_or () (get_u64 "fid" data);
      _ ← reject_if (negb (reported_fid =? fid)) ();
      Ok (json_get "network" data ≫= from_message)
  | _ => Err ()
  end.

Definition STORE_NAMES : list string :=
  ["CASTS"; "LINKS"; "REACTIONS"; "USER_DATA"; "VERIFICATIONS"; "USERNAME_PROOFS"; "STORAGE_LENDS"].

Fixpoint parse_limits (limits : list StoreLimit) (entries : list Json) : option (list StoreLimit) :=
  match entries with
  | [] => Some limits
  | entry :: entries =>
      name ← get_str "name" entry;
      if negb (bool_decide (name ∈ STORE_NAMES)) then None else
      if existsb (λ limit, bool_decide (sl_name limit = name)) limits then None else
      limit ← get_u64 "limit" entry;
      used ← get_u64 "used" entry;
      parse_limits (limits ++ [mkStoreLimit name limit used]) entries
  end.

Definition parse_storage (value : Json) : option StorageAllocation :=
  units ← get_u64 "units" value;
  entries ← json_get "limits" value ≫= as_array;
  if 32 <? len entries then None else
  limits ← parse_limits [] entries;
  Some (mkStorageAllocation units limits).

(** Block number, transaction index, log index, compared in this order. *)
Definition Position : Type := Z * Z * Z.
Definition position_ltb (p q : Position) : bool :=
  let '(a, b, c) := p in let '(a', b', c') := q in
  (a <? a') || ((a =? a') && ((b <? b') || ((b =? b') && (c <? c')))).

Definition address_ok (address : string) : bool :=
  (str_len address =? 42) && starts_with_str "0x" address
  && forallb is_ascii_hexdigit (drop 2 (chars_of address)).

(** What one event says: [None] if it is malformed, [Some None] if it is not a
    custody change, else its position and new custodian. *)
Definition custody_event (fid : Z) (event : Json) : option (option (Position * string)) :=
  event_fid ← get_u64 "fid" event;
  if negb (event_fid =? fid) then None else
  body ← json_get "idRegisterEventBody" event;
  kind ← get_str "eventType" body;
  if negb (bool_decide (kind = "Register") || bool_decide (kind = "Transfer")) then Some None else
  address ← get_str "to" body;
  if negb (address_ok address) then None else
  block ← get_u64 "blockNumber" event;
  tx ← get_u64 "txIndex" event;
  log ← get_u64 "logIndex" event;
  Some (Some ((block, tx, log), address)).

Fixpoint latest_custody (fid : Z) (latest : option (Position * string)) (events : list Json) :
    option (option (Position * string)) :=
  match events with
  | [] => Some latest
  | event :: events =>
      e ← custody_event fid event;
      match e with
      | None => latest_custody fid latest events
      | Some (position, address) =>
          if from_option (λ l, position_ltb l.1 position) true latest
          then latest_custody fid (Some (position, address)) events
          else latest_custody fid latest events
      end
  end.

Definition parse_authority (value : Json) (fid : Z) : option AuthorityObservation :=
  events ← json_get "events" value ≫= as_array;
  if 1024 <? len events then None else
  latest ← latest_custody fid None events;
  Some (mkAuthorityObservation (len events) (snd <$> latest) false).

(** ** Configuration *)

Section client.
Context `{UrlLib}.

Record PreflightConfig := mkPreflightConfig {
  endpoints : list Url;
  expected_network : Network;
  test_fid : option Z;
  timeout : Duration;
  max_response_bytes : Z;
  max_block_delay_secs : Z
}.

Definition validate_endpoint (input : string) : result ConfigError Url :=
  endpoint ← ok_or "invalid endpoint URL" (url_parse input);
  _ ← reject_if (negb (str_is_empty (url_username endpoint)) || bool_decide (is_Some (url_password endpoint)))
    "endpoint URLs must not contain credentials";
  _ ← reject_if (bool_decide (is_Some (url_query endpoint)) || bool_decide (is_Some (url_fragment endpoint)))
    "endpoint URLs must not contain queries or fragments";
  _ ← reject_if (negb (bool_decide (url_path endpoint = "/"))) "endpoint URL must use the root path";
  loopback ←
    match url_host endpoint with
    | Some (HostIp ip) => Ok (ip_is_loopback ip)
    | Some (HostDomain name) => Ok (bool_decide (name = "localhost"))
    | None => Err "endpoint URL must have a host"
    end;
  if bool_decide (url_scheme endpoint = "https") then Ok endpoint
  else if bool_decide (url_scheme endpoint = "http") && loopback then Ok endpoint
  else Err "remote endpoints require HTTPS; HTTP requires loopback".

Fixpoint validate_endpoints (urls : list Url) (inputs : list string) : result ConfigError (list Url) :=
  match inputs with
  | [] => Ok urls
  | input :: inputs =>
      endpoint ← validate_endpoint input;
      _ ← reject_if (bool_decide (endpoint ∈ urls)) "duplicate endpoints are not allowed";
      validate_endpoints (urls ++ [endpoint]) inputs
  end.

(** [PreflightConfig::new] *)
Definition config_new (inputs : list string) (network : Network) (fid : option Z) :
    result ConfigError PreflightConfig :=
  _ ← reject_if (bool_decide (inputs = []) || (MAX_ENDPOINTS <? len inputs)) "configure between 1 and 8 endpoints";
  _ ← reject_if (bool_decide (fid = Some 0)) "test FID must be greater than zero";
  urls ← validate_endpoints [] inputs;
  Ok (mkPreflightConfig urls network fid (from_secs 5) DEFAULT_MAX_RESPONSE_BYTES DEFAULT_MAX_BLOCK_DELAY_SECS).

Definition with_limits (config : PreflightConfig) (time : Duration) (bytes : Z) : result ConfigError PreflightConfig :=
  _ ← reject_if (negb ((from_millis 10 <=? time) && (time <=? from_secs 30)))
    "request timeout must be 10ms through 30s";
  _ ← reject_if ((bytes =? 0) || (MAX_RESPONSE_BYTES <? bytes)) "response limit must be 1 through 1048576 bytes";
  Ok (mkPreflightConfig (endpoints config) (expected_network config) (test_fid config) time bytes
        (max_block_delay_secs config)).

Definition with_max_block_delay_secs (config : PreflightConfig) (seconds : Z) : result ConfigError PreflightConfig :=
  _ ← reject_if (negb ((1 <=? seconds) && (seconds <=? MAX_BLOCK_DELAY_SECS)))
    "maximum block delay must be 1 through 86400 seconds";
  Ok (mkPreflightConfig (endpoints config) (expected_network config) (test_fid config) (timeout config)
        (max_response_bytes config) seconds).

(** ** Requests

    [request] and [run] never fail; they are client code without errors. *)

Context `{JsonText}.
Context (peer : Peer) (config : PreflightConfig).

Abbreviation Inspect := (Net Empty_set).

Definition classify_transport (error : TransportError) : Failure :=
  match error with TimedOut => Timeout | TransportFailed => Transport end.

Definition status_failure (status : Z) : option Failure :=
  if (200 <=? status) && (status <? 300) then None
  else Some (if (300 <=? status) && (status <? 400) then Redirect
             else if (status =? 404) || (status =? 501) then Unavailable
             else HttpStatus).

(** The [chunk()] loop: bytes read, and the body or a failure. *)
Fixpoint read_body (read : Z) (body : bytes) (chunks : list bytes) (failure : option TransportError) :
    Z * result Failure bytes :=
  match chunks with
  | [] => (read, match failure with None => Ok body | Some error => Err (classify_transport error) end)
  | chunk :: chunks =>
      let read := saturating_add read (len chunk) in
      if max_response_bytes config <? read then (read, Err Oversized)
      else read_body read (body ++ chunk) chunks failure
  end.

(** What is made of a response: the value, the bytes read and the failure. *)
Definition accept (response : HttpResponse) : option Json * Z * option Failure :=
  match status_failure (rs_status response) with
  | Some failure => (None, 0, Some failure)
  | None =>
      if from_option (Z.ltb (max_response_bytes config)) false (rs_content_length response)
      then (None, 0, Some Oversized)
      else
        match read_body 0 [] (rs_chunks response) (rs_failure response) with
        | (read, Err failure) => (None, read, Some failure)
        | (read, Ok body) =>
            match json_from_slice body with
            | Some value => (Some value, read, None)
            | None => (None, read, Some Malformed)
            end
        end
  end.

Definition get_request (endpoint : Url) (route : string) (query : list (string * string)) : Request :=
  mkRequest GET (url_set_path endpoint route) query None None None.

Definition request (endpoint : Url) (route : string) (query : list (string * string)) :
    Inspect (option Json * RequestEvidence) :=
  reply ← transmit peer (get_request endpoint route query);
  match reply with
  | Err error => mret (None, mkRequestEvidence route None 0 (Some (classify_transport error)))
  | Ok response =>
      let '(value, read, failure) := accept response in
      mret (value, mkRequestEvidence route (Some (rs_status response)) read failure)
  end.

Definition malformed (e : RequestEvidence) : RequestEvidence :=
  mkRequestEvidence (ev_route e) (ev_status e) (ev_response_bytes e) (Some Malformed).

Definition matches (b : bool) : Compatibility := if b then Compatible else Incompatible.

(** The requests about the test FID, made once the node information parsed. *)
Definition inspect_cast (endpoint : Url) (fid : Z) :
    Inspect (option Network * Compatibility * RequestEvidence) :=
  '(value, evidence) ← request endpoint "/v1/castsByFid" [("fid", to_string fid); ("pageSize", "1")];
  mret match value with
       | None => (None, CompatUnknown, evidence)
       | Some value =>
           match parse_network value fid with
           | Ok (Some network) => (Some network, matches (bool_decide (network = expected_network config)), evidence)
           | Ok None => (None, CompatUnknown, evidence)
           | Err _ => (None, CompatUnknown, malformed evidence)
           end
       end.

Definition inspect_with {A} (parse : Json → option A) (endpoint : Url) (route : string)
    (query : list (string * string)) : Inspect (option A * RequestEvidence) :=
  '(value, evidence) ← request endpoint route query;
  mret match value with
       | None => (None, evidence)
       | Some value =>
           match parse value with
           | Some parsed => (Some parsed, evidence)
           | None => (None, malformed evidence)
           end
       end.

Definition inspect_node (endpoint : Url) : Inspect NodeReport :=
  '(value, evidence) ← request endpoint "/v1/info" [];
  let reachable := bool_decide (is_Some (ev_status evidence)) in
  let report info protocol freshness network observed storage authority requests :=
    mkNodeReport (url_to_string endpoint) info reachable protocol network freshness None false observed
      storage authority requests in
  match value with
  | None => mret (report None CompatUnknown FreshUnknown CompatUnknown None None None [evidence])
  | Some value =>
      match parse_info value with
      | None => mret (report None CompatUnknown FreshUnknown CompatUnknown None None None [malformed evidence])
      | Some info =>
          let protocol := matches (bool_decide (version info = SUPPORTED_VERSION)) in
          let freshness := from_info info (max_block_delay_secs config) in
          match test_fid config with
          | None => mret (report (Some info) protocol freshness CompatUnknown None None None [evidence])
          | Some fid =>
              '(observed, network, cast_evidence) ← inspect_cast endpoint fid;
              '(storage, storage_evidence) ←
                inspect_with parse_storage endpoint "/v1/storageLimitsByFid" [("fid", to_string fid)];
              '(authority, authority_evidence) ←
                inspect_with (λ v, parse_authority v fid) endpoint "/v1/onChainEventsByFid"
                  [("fid", to_string fid); ("event_type", "EVENT_TYPE_ID_REGISTER")];
              mret (report (Some info) protocol freshness network observed storage authority
                      [evidence; cast_evidence; storage_evidence; authority_evidence])
          end
      end
  end.

Fixpoint inspect_nodes (urls : list Url) : Inspect (list NodeReport) :=
  match urls with
  | [] => mret []
  | endpoint :: urls =>
      node ← inspect_node endpoint;
      nodes ← inspect_nodes urls;
      mret (node :: nodes)
  end.

Definition node_peer (node : NodeReport) : option string := nr_info node ≫= peer_id.

(** [*peers.entry(peer_id).or_insert(0) += 1] *)
Definition count_peer (peers : list (string * Z)) (peer_id : string) : list (string * Z) :=
  bt_insert peers peer_id (default 0 (bt_get peers peer_id) + 1).
Definition count_peers (nodes : list NodeReport) : list (string * Z) :=
  foldl count_peer [] (omap node_peer nodes).

Definition node_compatible (node : NodeReport) : bool :=
  bool_decide (nr_protocol node = Compatible) && bool_decide (nr_network node = Compatible).

(** The second pass over the nodes: peer uniqueness and health. *)
Definition judge_node (peers : list (string * Z)) (all_peers_known : bool) (node : NodeReport) : NodeReport :=
  let peer_unique :=
    peer_id ← node_peer node;
    if from_option (Z.ltb 1) false (bt_get peers peer_id) then Some false
    else if all_peers_known then Some true else None in
  let healthy := node_compatible node && bool_decide (nr_freshness node = Fresh)
                 && bool_decide (peer_unique = Some true) in
  mkNodeReport (nr_endpoint node) (nr_info node) (nr_reachable node) (nr_protocol node) (nr_network node)
    (nr_freshness node) peer_unique healthy (nr_observed_network node) (nr_storage node) (nr_authority node)
    (nr_requests node).

Definition LIMITATIONS : list string :=
  ["Node responses and message signatures are not independently verified.";
   "Freshness uses reported timestamps; peer IDs do not prove independent operators.";
   "Farcaster account authority is not verified; allocation is only node-reported.";
   "Common chain history, ordering, finality, and complete replay remain unproved.";
   "Arbitrary ATProto record storage and large-file byte storage remain unproved."].

Definition report_of (nodes : list NodeReport) : PreflightReport :=
  let compatible := forallb node_compatible nodes in
  let peers := count_peers nodes in
  let all_peers_known := sum_with snd peers =? len nodes in
  let nodes := judge_node peers all_peers_known <$> nodes in
  mkPreflightReport (expected_network config) (test_fid config) compatible (forallb nr_healthy nodes)
    (max_block_delay_secs config) (len peers) false nodes LIMITATIONS.

Definition run : Inspect PreflightReport :=
  nodes ← inspect_nodes (endpoints config);
  mret (report_of nodes).
End client.
