(* ===== verification/HypersnapTheorems.v ===== *)
(** * Theorems of the Hypersnap preflight

    A healthy report means what its field says of every node, the inspection
    is a bounded number of plain reads, and the reported custodian is the one
    of the latest event. *)

From S2P Require Import Prelude RustStd IpAddr BTreeMap Externs Fixtures Http Hypersnap.

(** ** Parsed node information *)

Lemma get_u64_range k v n : get_u64 k v = Some n → is_u64 n.
Proof.
  unfold get_u64. destruct (json_get k v) as [[| |[m|m|]| | |]|]; cbn; try done.
  destruct (bool_decide (is_u64 m)) eqn:Hm; [|done]. intros [= <-]. by boolify.
Qed.

Definition shard_wf (num_shards : Z) (s : ShardInfo) : Prop :=
  0 ≤ shard_id s ≤ num_shards ∧ shard_id s ≤ U32_MAX ∧ is_u64 (max_height s) ∧ is_u64 (block_delay_seconds s).

(** Shards of parsed information: unique identifiers from 0 to the number of
    data shards, in increasing order, at most 256. *)
Definition info_wf (info : NodeInfo) : Prop :=
  0 < num_shards info ∧ Forall (shard_wf (num_shards info)) (shard_infos info) ∧
  NoDup (shard_id <$> shard_infos info) ∧ Sorted shard_le (shard_infos info) ∧ len (shard_infos info) ≤ 256.

Lemma parse_shard_ok n infos v s : parse_shard n infos v = Some s →
  shard_wf n s ∧ shard_id s ∉ shard_id <$> infos.
Proof.
  unfold parse_shard. intros Hp.
  destruct (get_u64 "shardId" v) as [id|] eqn:Hid; cbn [mbind option_bind] in Hp; [|done].
  destruct (U32_MAX <? id) eqn:H32; [done|].
  destruct (_ || _) eqn:Hdup; [done|].
  destruct (get_u64 "maxHeight" v) as [h|] eqn:Hh; cbn [mbind option_bind] in Hp; [|done].
  destruct (get_u64 "blockDelay" v) as [d|] eqn:Hd; cbn [mbind option_bind] in Hp; [|done].
  destruct (optional_u64 _) as [c|]; cbn [mbind option_bind] in Hp; [|done]. injection Hp as <-.
  apply get_u64_range in Hid, Hh, Hd. boolify. unfold shard_wf. cbn [shard_id max_height block_delay_seconds].
  split; [unfold is_u64 in *; split_lia|]. intros (x & Hx & Hin)%list_elem_of_fmap.
  match goal with He : existsb _ _ = false |- _ => rewrite <-not_true_iff_false, existsb_exists in He; apply He end.
  exists x. split; [by apply list_elem_of_In|]. apply Z.eqb_eq. by symmetry.
Qed.

Lemma parse_shards_ok n infos vs r : parse_shards n infos vs = Some r →
  Forall (shard_wf n) infos → NoDup (shard_id <$> infos) →
  Forall (shard_wf n) r ∧ NoDup (shard_id <$> r) ∧ len r = len infos + len vs.
Proof.
  revert infos. induction vs as [|v vs IH]; intros infos Hp Hwf Hnd; cbn [parse_shards] in Hp.
  - injection Hp as <-. autorewrite with psky. split_and!; [done|done|lia].
  - destruct (parse_shard n infos v) as [s|] eqn:Hs; cbn [mbind option_bind] in Hp; [|done].
    apply parse_shard_ok in Hs as [Hs Hnew]. apply IH in Hp as (? & ? & Hl).
    + split_and!; [done|done|]. autorewrite with psky in *. lia.
    + apply Forall_app. split; [done|by constructor].
    + rewrite fmap_app. apply NoDup_app. split_and!; [done| |apply NoDup_singleton].
      intros x Hx. cbn. rewrite list_elem_of_singleton. by intros ->.
Qed.

#[export] Instance shard_le_total : Total shard_le.
Proof. intros a b. unfold shard_le. lia. Qed.

Lemma parse_info_wf v info : parse_info v = Some info → info_wf info.
Proof.
  unfold parse_info. intros Hp.
  destruct (get_str "version" v) as [ver|]; cbn [mbind option_bind] in Hp; [|done].
  destruct (_ || _); [done|].
  destruct (get_u64 "numShards" v) as [n|] eqn:Hn; cbn [mbind option_bind] in Hp; [|done].
  destruct (n =? 0) eqn:H0; [done|].
  destruct (_ ≫= as_object) as [db|]; cbn [mbind option_bind] in Hp; [|done].
  destruct (optional_u64 _) as [nm|]; cbn [mbind option_bind] in Hp; [|done].
  destruct (parse_peer _) as [pe|]; cbn [mbind option_bind] in Hp; [|done].
  apply get_u64_range in Hn. boolify. assert (0 < n) as Hpos by (unfold is_u64 in *; lia).
  destruct (json_get "shardInfos" v) as [sv|]; cbn [mbind option_bind] in Hp.
  - destruct (as_array sv) as [shards|]; cbn [mbind option_bind] in Hp; [|done].
    destruct (256 <? len shards) eqn:Hl; [done|].
    destruct (parse_shards n [] shards) as [infos|] eqn:Hs; cbn [mbind option_bind] in Hp; [|done].
    injection Hp as <-. boolify.
    apply parse_shards_ok in Hs as (Hwf & Hnd & Hlen); [|constructor|constructor].
    pose proof (merge_sort_Permutation shard_le infos) as Hperm.
    unfold info_wf. cbn [num_shards shard_infos]. split_and!; [done| | | |].
    + by rewrite Hperm.
    + by rewrite Hperm.
    + apply Sorted_merge_sort, _.
    + unfold len in *. rewrite Hperm. simpl in Hlen. lia.
  - injection Hp as <-. unfold info_wf. cbn [num_shards shard_infos]. split_and!; [done|constructor..|done].
Qed.

(** ** Freshness *)

(** Every shard from 0 to [num_shards] is reported once, has blocks and is
    within the delay. *)
Definition shards_fresh (info : NodeInfo) (delay : Z) : Prop :=
  NoDup (shard_id <$> shard_infos info) ∧
  ∀ i, 0 ≤ i ≤ num_shards info →
    ∃ s, s ∈ shard_infos info ∧ shard_id s = i ∧ 0 < max_height s ∧ block_delay_seconds s ≤ delay.

Lemma existsb_false_forall {A} (f : A → bool) l x : existsb f l = false → x ∈ l → f x = false.
Proof.
  intros He Hx. destruct (f x) eqn:Hf; [|done]. exfalso.
  rewrite <-not_true_iff_false, existsb_exists in He. apply He. exists x. by rewrite <-list_elem_of_In.
Qed.

(** Distinct identifiers that fill a range cover it. *)
Lemma pigeonhole (ids : list Z) n : 0 ≤ n → NoDup ids → (∀ i, i ∈ ids → 0 ≤ i ≤ n) → len ids = n + 1 →
  ∀ i, 0 ≤ i ≤ n → i ∈ ids.
Proof.
  intros Hn Hnd Hr Hl i Hi.
  assert (ids ⊆+ seqZ 0 (n + 1)) as Hsub.
  { apply NoDup_submseteq; [done|]. intros j Hj. apply elem_of_seqZ. specialize (Hr j Hj). lia. }
  assert (ids ≡ₚ seqZ 0 (n + 1)) as Hp.
  { apply submseteq_length_Permutation; [done|]. rewrite length_seqZ. unfold len in Hl. lia. }
  rewrite Hp. apply elem_of_seqZ. lia.
Qed.

Lemma from_info_fresh info delay : info_wf info → from_info info delay = Fresh → shards_fresh info delay.
Proof.
  intros (Hpos & Hwf & Hnd & _ & Hl) Hf. unfold from_info in Hf.
  destruct (existsb _ _) eqn:Hdelay; [done|]. destruct (_ || _) eqn:Hbad; [done|]. boolify.
  match goal with Hx : existsb _ _ = false, Hy : len _ = _ |- _ => rename Hx into Hheight; rename Hy into Hcount end.
  rewrite saturating_add_unsat in Hcount by (rewrite <-Hcount; eapply Z.le_lt_trans; [exact Hl|done]).
  split; [done|]. intros i Hi. rewrite Forall_forall in Hwf.
  assert (i ∈ shard_id <$> shard_infos info) as (s & -> & Hs)%list_elem_of_fmap.
  { apply (pigeonhole _ (num_shards info)); [lia|done| |unfold len in *; by rewrite length_fmap|done].
    intros j (s & -> & Hs)%list_elem_of_fmap. by apply Hwf. }
  exists s. destruct (Hwf s Hs) as (_ & _ & Hh & _).
  pose proof (existsb_false_forall _ _ _ Hdelay Hs) as Hd. pose proof (existsb_false_forall _ _ _ Hheight Hs) as Hz.
  cbn beta in *. boolify. unfold is_u64 in Hh. split_and!; try done; lia.
Qed.

(** ** Reports *)

Section inspect.
Context `{UrlLib} `{JsonText}.
Context (peer : Peer) (config : PreflightConfig).

(** What the fields of a node report stand for. *)
Definition node_wf (n : NodeReport) : Prop :=
  (∀ info, nr_info n = Some info → info_wf info) ∧
  (nr_protocol n = Compatible → ∃ info, nr_info n = Some info ∧ version info = SUPPORTED_VERSION) ∧
  (nr_freshness n = Fresh →
     ∃ info, nr_info n = Some info ∧ from_info info (max_block_delay_secs config) = Fresh) ∧
  (nr_network n = Compatible → nr_observed_network n = Some (expected_network config)).

Lemma matches_compatible b : matches b = Compatible → b = true.
Proof. by destruct b. Qed.

Lemma inspect_cast_ok url fid tr observed network evidence tr' :
  inspect_cast peer config url fid tr = (Ok (observed, network, evidence), tr') →
  network = Compatible → observed = Some (expected_network config).
Proof.
  unfold inspect_cast. intros Hi Hn. apply net_bind_ok in Hi as ([value ev] & tr1 & _ & Hi).
  destruct value as [v|]; [destruct (parse_network v fid) as [[net|]|]|]; injection Hi as <- <- _ _; try discriminate Hn.
  apply matches_compatible in Hn. boolify. by subst.
Qed.

Lemma inspect_node_wf url tr n tr' : inspect_node peer config url tr = (Ok n, tr') → node_wf n.
Proof.
  unfold inspect_node. intros Hi. apply net_bind_ok in Hi as ([value ev] & tr1 & _ & Hi).
  destruct value as [v|]; [|injection Hi as <- _; by split_and!].
  destruct (parse_info v) as [info|] eqn:Hinfo; [|injection Hi as <- _; by split_and!].
  apply parse_info_wf in Hinfo.
  assert (∀ m, nr_info m = Some info → nr_protocol m = matches (bool_decide (version info = SUPPORTED_VERSION)) →
    nr_freshness m = from_info info (max_block_delay_secs config) →
    (nr_network m = Compatible → nr_observed_network m = Some (expected_network config)) → node_wf m) as Hwf.
  { intros m Hm Hp Hf Hn. split_and!; [|rewrite Hp|rewrite Hf|done].
    - intros i Hi'. rewrite Hm in Hi'. by injection Hi' as <-.
    - intros Hc. apply matches_compatible in Hc. boolify. by exists info.
    - intros Hc. by exists info. }
  destruct (test_fid config) as [fid|]; [|injection Hi as <- _; by apply Hwf].
  apply net_bind_ok in Hi as ([[observed network] cev] & tr2 & Hcast & Hi).
  apply net_bind_ok in Hi as ([storage sev] & tr3 & _ & Hi).
  apply net_bind_ok in Hi as ([authority aev] & tr4 & _ & Hi).
  injection Hi as <- _. apply Hwf; [done..|]. by apply (inspect_cast_ok _ _ _ _ _ _ _ Hcast).
Qed.

Lemma inspect_nodes_wf urls tr nodes tr' : inspect_nodes peer config urls tr = (Ok nodes, tr') →
  Forall node_wf nodes ∧ length nodes = length urls.
Proof.
  revert tr nodes tr'. induction urls as [|url urls IH]; intros tr nodes tr' Hi; cbn [inspect_nodes] in Hi.
  - injection Hi as <- _. done.
  - apply net_bind_ok in Hi as (n & tr1 & Hn & Hi). apply net_bind_ok in Hi as (ns & tr2 & Hns & Hi).
    injection Hi as <- _. apply IH in Hns as [? Hl]. apply inspect_node_wf in Hn. split; [by constructor|].
    cbn [length]. by rewrite Hl.
Qed.

(** *** Peer counts *)

Definition occurrences (p : string) (l : list string) : Z := len (filter (λ q, q = p) l).

Lemma count_peer_get m q p : bt_sorted m →
  default 0 (bt_get (count_peer m q) p) = default 0 (bt_get m p) + (if decide (q = p) then 1 else 0).
Proof.
  intros Hm. unfold count_peer. destruct (decide (q = p)) as [->|Hne].
  - by rewrite bt_get_insert_eq.
  - rewrite bt_get_insert_ne by done. lia.
Qed.

Lemma foldl_count_sorted m l : bt_sorted m → bt_sorted (foldl count_peer m l).
Proof. revert m. induction l as [|q l IH]; intros m Hm; [done|]. cbn [foldl]. apply IH. by apply bt_insert_sorted. Qed.

Lemma foldl_count_get m l p : bt_sorted m →
  default 0 (bt_get (foldl count_peer m l) p) = default 0 (bt_get m p) + occurrences p l.
Proof.
  revert m. induction l as [|q l IH]; intros m Hm; cbn [foldl]; [by rewrite Z.add_0_r|].
  rewrite IH by (by apply bt_insert_sorted). rewrite count_peer_get by done.
  unfold occurrences. destruct (decide (q = p));
    [rewrite filter_cons_True by done|rewrite filter_cons_False by done]; autorewrite with psky; lia.
Qed.

Lemma foldl_count_sum m l : bt_sorted m → sum_with snd (foldl count_peer m l) = sum_with snd m + len l.
Proof.
  revert m. induction l as [|q l IH]; intros m Hm; cbn [foldl]; autorewrite with psky; [lia|].
  rewrite IH by (by apply bt_insert_sorted). unfold count_peer. pose proof (bt_sum_insert (λ v, v) m q (default 0 (bt_get m q) + 1) Hm) as Hs.
  change ((λ v : Z, v) ∘ snd) with (@snd string Z) in Hs. rewrite Hs. destruct (bt_get m q); cbn; lia.
Qed.

Lemma foldl_count_len m l : bt_sorted m → NoDup l → (∀ p, p ∈ l → bt_get m p = None) →
  len (foldl count_peer m l) = len m + len l.
Proof.
  revert m. induction l as [|q l IH]; intros m Hm Hnd Hnew; cbn [foldl]; autorewrite with psky; [lia|].
  apply NoDup_cons in Hnd as [Hq Hnd].
  assert (len (count_peer m q) = len m + 1) as Hlen.
  { unfold count_peer. rewrite bt_len_insert by done. unfold bt_contains.
    by rewrite (Hnew q (list_elem_of_here _ _)), bool_decide_false by by intros []. }
  rewrite IH, Hlen; [lia|by apply bt_insert_sorted|done|].
  intros p Hp. unfold count_peer. rewrite bt_get_insert_ne; [by apply Hnew; right|done|by intros ->].
Qed.

Lemma occurrences_nodup l : (∀ p, p ∈ l → occurrences p l ≤ 1) → NoDup l.
Proof.
  induction l as [|q l IH]; intros Hl; [constructor|]. constructor.
  - intros Hq. specialize (Hl q (list_elem_of_here _ _)). unfold occurrences in Hl.
    rewrite filter_cons_True in Hl by done. autorewrite with psky in Hl.
    assert (q ∈ filter (λ x, x = q) l) as Hin by by apply list_elem_of_filter.
    destruct (filter (λ x, x = q) l) as [|x l'] eqn:Hf; [by apply elem_of_nil in Hin|].
    autorewrite with psky in Hl. pose proof (len_nonneg l'). lia.
  - apply IH. intros p Hp. specialize (Hl p ltac:(by right)). unfold occurrences in *.
    rewrite filter_cons in Hl. destruct (decide _); autorewrite with psky in Hl; lia.
Qed.

Lemma omap_all (nodes : list NodeReport) : len (omap node_peer nodes) = len nodes →
  node_peer <$> nodes = Some <$> omap node_peer nodes.
Proof.
  assert (∀ l : list NodeReport, len (omap node_peer l) ≤ len l) as Hle.
  { induction l as [|x l IH]; [done|]. cbn [omap list_omap]. destruct (node_peer x); autorewrite with psky; lia. }
  induction nodes as [|n nodes IH]; intros Hl; [done|]. cbn [omap list_omap fmap list_fmap] in *.
  destruct (node_peer n) as [p|]; autorewrite with psky in Hl; [rewrite fmap_cons, IH by lia; done|].
  specialize (Hle nodes). lia.
Qed.

(** Counting peers: how often each occurs, and how many there are. *)
Lemma count_peers_get nodes p : default 0 (bt_get (count_peers nodes) p) = occurrences p (omap node_peer nodes).
Proof. unfold count_peers. rewrite foldl_count_get by constructor. done. Qed.

Lemma count_peers_sum nodes : sum_with snd (count_peers nodes) = len (omap node_peer nodes).
Proof. unfold count_peers. rewrite foldl_count_sum by constructor. done. Qed.

Lemma judge_node_peer m k n : node_peer (judge_node m k n) = node_peer n.
Proof. done. Qed.

Lemma judge_healthy m k n : nr_healthy (judge_node m k n) = true →
  nr_protocol n = Compatible ∧ nr_network n = Compatible ∧ nr_freshness n = Fresh ∧ k = true ∧
  ∃ p, node_peer n = Some p ∧ default 0 (bt_get m p) ≤ 1.
Proof.
  unfold judge_node, node_compatible. cbn [nr_healthy]. intros Hh. boolify.
  destruct (node_peer n) as [p|]; [|done]. cbn [mbind option_bind] in *.
  destruct (from_option _ _ _) eqn:Hdup; [done|]. destruct k; [|done].
  split_and!; try done. exists p. split; [done|]. destruct (bt_get m p) as [c|]; cbn in *; [by boolify|done].
Qed.

(** C25: a report is healthy only when every configured endpoint answered with
    the supported version and the expected network, every shard of every node
    is reported once, has blocks and lags no more than configured, and no two
    nodes have the same peer identifier. *)
Theorem healthy_report_sound tr r tr' :
  run peer config tr = (Ok r, tr') → pr_healthy r = true →
  pr_compatible r = true ∧ length (pr_nodes r) = length (endpoints config) ∧
  pr_distinct_peer_count r = len (endpoints config) ∧
  (∃ peers, node_peer <$> pr_nodes r = Some <$> peers ∧ NoDup peers) ∧
  (∀ n, n ∈ pr_nodes r → nr_observed_network n = Some (expected_network config) ∧
    ∃ info, nr_info n = Some info ∧ version info = SUPPORTED_VERSION ∧
      shards_fresh info (max_block_delay_secs config)).
Proof.
  unfold run. intros Hr Hh. apply net_bind_ok in Hr as (nodes & tr1 & Hn & Hr). injection Hr as <- _.
  apply inspect_nodes_wf in Hn as [Hwf Hlen]. unfold report_of in *.
  cbn [pr_compatible pr_nodes pr_distinct_peer_count pr_healthy] in *.
  set (m := count_peers nodes) in *. set (k := _ =? _) in *.
  assert (∀ n, n ∈ nodes → nr_healthy (judge_node m k n) = true) as Hall.
  { intros n Hn. rewrite forallb_forall in Hh. apply Hh, list_elem_of_In, list_elem_of_fmap. by exists n. }
  assert (len (omap node_peer nodes) = len nodes) as Hknown.
  { destruct nodes as [|n nodes']; [done|].
    destruct (judge_healthy m k n (Hall n (list_elem_of_here _ _))) as (_ & _ & _ & Hk & _).
    apply Z.eqb_eq in Hk. by rewrite <-count_peers_sum. }
  assert (NoDup (omap node_peer nodes)) as Hnd.
  { apply occurrences_nodup. intros p (n & Hin & Hp)%list_elem_of_omap.
    destruct (judge_healthy m k n (Hall n Hin)) as (_ & _ & _ & _ & p' & Hp' & Hc).
    rewrite Hp in Hp'. injection Hp' as <-. unfold m in Hc. by rewrite count_peers_get in Hc. }
  split_and!.
  - apply forallb_forall. intros n Hin%list_elem_of_In.
    destruct (judge_healthy m k n (Hall n Hin)) as (Hp & Hne & _). unfold node_compatible. by rewrite Hp, Hne.
  - by rewrite length_fmap.
  - unfold m, count_peers. rewrite foldl_count_len by (constructor || done). rewrite len_nil, Hknown. unfold len. by rewrite Hlen.
  - exists (omap node_peer nodes). split; [|done]. rewrite <-(omap_all nodes Hknown), <-list_fmap_compose.
    apply list_fmap_ext. by intros.
  - intros n' (n & -> & Hin)%list_elem_of_fmap.
    destruct (judge_healthy m k n (Hall n Hin)) as (Hp & Hne & Hf & _).
    rewrite Forall_forall in Hwf. destruct (Hwf n Hin) as (Hiwf & Hpw & Hfw & Hnw).
    split; [by apply Hnw|]. destruct (Hpw Hp) as (info & Hi & Hv). exists info. split_and!; [done|done|].
    destruct (Hfw Hf) as (info' & Hi' & Hfresh). rewrite Hi in Hi'. injection Hi' as <-.
    apply from_info_fresh; [by apply Hiwf|done].
Qed.
End inspect.

(** ** The latest custodian *)

(** Registrations and transfers among the events, in the order received. *)
Definition custody_changes (fid : Z) (events : list Json) : option (list (Position * string)) :=
  omap id <$> mapM (custody_event fid) events.

Definition newer (latest : option (Position * string)) (e : Position * string) : option (Position * string) :=
  if from_option (λ l, position_ltb l.1 e.1) true latest then Some e else latest.

Lemma latest_custody_fold fid latest events :
  latest_custody fid latest events = foldl newer latest <$> custody_changes fid events.
Proof.
  unfold custody_changes. revert latest. induction events as [|event events IH]; intros latest; [done|].
  cbn [latest_custody mapM]. destruct (custody_event fid event) as [[[position address]|]|]; cbn [mbind option_bind]; [| |done].
  - assert (newer latest (position, address) =
      if from_option (λ l, position_ltb l.1 position) true latest then Some (position, address) else latest) as Hnew by done.
    destruct (from_option _ _ _); rewrite IH; destruct (mapM (custody_event fid) events) as [l|]; try done;
      [change (Some (foldl newer (Some (position, address)) (omap id l))
               = Some (foldl newer (newer latest (position, address)) (omap id l)))
      |change (Some (foldl newer latest (omap id l)) = Some (foldl newer (newer latest (position, address)) (omap id l)))];
      by rewrite Hnew.
  - rewrite IH. by destruct (mapM (custody_event fid) events).
Qed.

Lemma position_ltb_trans p q r : position_ltb p q = true → position_ltb q r = true → position_ltb p r = true.
Proof.
  destruct p as [[a b] c], q as [[a' b'] c'], r as [[a'' b''] c'']. unfold position_ltb.
  rewrite !orb_true_iff, !andb_true_iff, !orb_true_iff, !andb_true_iff, !Z.ltb_lt, !Z.eqb_eq. lia.
Qed.

Lemma position_ltb_le_trans p q r : position_ltb p q = false → position_ltb r q = true → position_ltb p r = false.
Proof.
  intros Hpq Hrq. destruct (position_ltb p r) eqn:Hpr; [|done].
  by rewrite (position_ltb_trans _ _ _ Hpr Hrq) in Hpq.
Qed.

(** The newest change: no later change is beyond it, every earlier one is before it. *)
Definition is_newest (changes : list (Position * string)) (latest : option (Position * string)) : Prop :=
  match latest with
  | None => changes = []
  | Some e => ∃ before after, changes = before ++ e :: after ∧
      Forall (λ f, position_ltb f.1 e.1 = true) before ∧ Forall (λ f, position_ltb e.1 f.1 = false) after
  end.

Lemma position_ltb_total p q : position_ltb p q = false → position_ltb q p = false → p = q.
Proof.
  destruct p as [[a b] c], q as [[a' b'] c']. unfold position_ltb.
  rewrite !orb_false_iff, !andb_false_iff, !orb_false_iff, !andb_false_iff, !Z.ltb_ge, !Z.eqb_neq. intros ? ?.
  f_equal; [f_equal|]; lia.
Qed.

Lemma newest_fold changes : is_newest changes (foldl newer None changes).
Proof.
  induction changes as [|e changes IH] using rev_ind; [done|]. rewrite foldl_app. cbn [foldl].
  destruct (foldl newer None changes) as [l|]; unfold newer; cbn [from_option is_newest] in *.
  - destruct IH as (before & after & -> & Hb & Ha). destruct (position_ltb l.1 e.1) eqn:Hlt; cbn [is_newest].
    + exists (before ++ l :: after), []. split_and!; [done| |constructor].
      apply Forall_app. split; [|constructor; [done|]].
      * eapply Forall_impl; [exact Hb|]. intros f Hf. exact (position_ltb_trans _ _ _ Hf Hlt).
      * eapply Forall_impl; [exact Ha|]. intros f Hf. cbn beta in *.
        destruct (position_ltb f.1 e.1) eqn:Hfe; [done|].
        destruct (position_ltb f.1 l.1) eqn:Hfl.
        { by rewrite (position_ltb_trans _ _ _ Hfl Hlt) in Hfe. }
        by rewrite (position_ltb_total _ _ Hf Hfl), Hfe in Hlt.
    + exists before, (after ++ [e]). rewrite <-app_assoc. split_and!; [done|done|].
      apply Forall_app. split; [done|by constructor].
  - subst. by exists [], [].
Qed.

(** The reported custodian is the one of the latest registration or
    transfer returned, the first one received among equals, and there is none
    exactly when no custody change was returned. *)
Theorem reported_custody_latest v fid o :
  parse_authority v fid = Some o →
  ∃ events changes latest, (json_get "events" v ≫= as_array) = Some events ∧
    custody_changes fid events = Some changes ∧ is_newest changes latest ∧
    o = mkAuthorityObservation (len events) (snd <$> latest) false.
Proof.
  unfold parse_authority. intros Hp.
  destruct (json_get "events" v ≫= as_array) as [events|]; cbn [mbind option_bind] in Hp; [|done].
  destruct (1024 <? len events); [done|]. rewrite latest_custody_fold in Hp.
  destruct (custody_changes fid events) as [changes|] eqn:Hc; cbn [mbind option_bind fmap option_fmap option_map] in Hp; [|done].
  injection Hp as <-. exists events, changes, (foldl newer None changes).
  split_and!; [done|done|apply newest_fold|done].
Qed.

(** ** What is sent *)

Definition ROUTES : list string := ["/v1/info"; "/v1/castsByFid"; "/v1/storageLimitsByFid"; "/v1/onChainEventsByFid"].

Section reads.
Context `{UrlLib} `{JsonText}.
Context (peer : Peer) (config : PreflightConfig).

(** A read of a known route of an endpoint: a [GET] without credentials or body. *)
Definition plain_read (urls : list Url) (x : Exchange) : Prop :=
  ∃ endpoint route query, endpoint ∈ urls ∧ route ∈ ROUTES ∧ x.1 = get_request endpoint route query.

Lemma request_reads endpoint route query : route ∈ ROUTES →
  grows_by (plain_read [endpoint]) 1 (request peer config endpoint route query).
Proof.
  intros Hr. apply (grows_by_bind _ 1 0).
  - apply grows_by_transmit. intros reply. exists endpoint, route, query. split; [by constructor|done].
  - intros [response|error]; [|apply grows_by_ret]. destruct (accept config response) as [[? ?] ?]. apply grows_by_ret.
Qed.

Lemma inspect_node_reads endpoint : grows_by (plain_read [endpoint]) 4 (inspect_node peer config endpoint).
Proof.
  apply (grows_by_bind _ 1 3); [apply request_reads; by constructor|]. intros [value evidence].
  destruct value as [v|]; [|apply grows_by_ret]. destruct (parse_info v) as [info|]; [|apply grows_by_ret].
  destruct (test_fid config) as [fid|]; [|apply grows_by_ret].
  apply (grows_by_bind _ 1 2).
  { apply (grows_by_bind _ 1 0); [apply request_reads; by repeat constructor|]. intros []. apply grows_by_ret. }
  intros [[? ?] ?]. apply (grows_by_bind _ 1 1).
  { apply (grows_by_bind _ 1 0); [apply request_reads; by repeat constructor|]. intros []. apply grows_by_ret. }
  intros [? ?]. apply (grows_by_bind _ 1 0).
  { apply (grows_by_bind _ 1 0); [apply request_reads; by repeat constructor|]. intros []. apply grows_by_ret. }
  intros [? ?]. apply grows_by_ret.
Qed.

Lemma inspect_nodes_reads urls : grows_by (plain_read urls) (4 * length urls) (inspect_nodes peer config urls).
Proof.
  induction urls as [|url urls IH]; [apply grows_by_ret|]. cbn [inspect_nodes length].
  replace (4 * S (length urls))%nat with (4 + (4 * length urls + 0))%nat by lia.
  apply grows_by_bind; [|intros n; apply grows_by_bind; [|intros; apply grows_by_ret]].
  - eapply grows_by_impl; [|done|apply inspect_node_reads].
    intros x (e & r & q & He & ?). apply list_elem_of_singleton in He as ->. exists url, r, q. split; [by constructor|done].
  - eapply grows_by_impl; [|done|exact IH]. intros x (e & r & q & He & ?). exists e, r, q. split; [by right|done].
Qed.

(** C26: a preflight always produces its report, with at most four plain reads
    per endpoint, of known routes of configured endpoints; it sends no body
    and no credential, whatever the peers answer. *)
Theorem run_reads_only tr : ∃ r new, run peer config tr = (Ok r, tr ++ new) ∧
  Forall (plain_read (endpoints config)) new ∧ (length new ≤ 4 * length (endpoints config))%nat.
Proof.
  assert (grows_by (plain_read (endpoints config)) (4 * length (endpoints config) + 0) (run peer config)) as Hg.
  { apply grows_by_bind; [apply inspect_nodes_reads|intros; apply grows_by_ret]. }
  destruct (Hg tr) as (new & Heq & Hnew & Hlen). destruct (run peer config tr) as [[r|[]] tr'].
  cbn [snd] in Heq. subst. exists r, new. split_and!; [done|done|lia].
Qed.
End reads.

(** ** Witnesses *)

Definition hw_node (host : string) : ToyUrl := mkToyUrl "https" "" host None "/" None.
Definition hw_config : PreflightConfig :=
  mkPreflightConfig [hw_node "one.example"; hw_node "two.example"] Mainnet (Some 7) (from_secs 5)
    DEFAULT_MAX_RESPONSE_BYTES 30.

Definition hw_num (n : Z) : Json := JNumber (PosInt n).
Definition hw_shard (id : Z) : Json :=
  json_object [("shardId", hw_num id); ("maxHeight", hw_num 100); ("blockDelay", hw_num 2)].
Definition hw_event (block : Z) (kind address : string) : Json :=
  json_object [("fid", hw_num 7); ("blockNumber", hw_num block); ("txIndex", hw_num 0); ("logIndex", hw_num 1);
    ("idRegisterEventBody", json_object [("eventType", JString kind); ("to", JString address)])].
Definition hw_address (c : byte) : string := "0x" +:+ hex_encode (repeat c 20).
Definition hw_events : Json := json_object
  [("events", JArray [hw_event 10 "Register" (hw_address x11); hw_event 30 "Transfer" (hw_address x22);
     hw_event 40 "ChangeRecovery" (hw_address x33)])].

Definition hw_value (url : ToyUrl) : Json :=
  if bool_decide (toy_path url = "/v1/info") then json_object
    [("version", JString SUPPORTED_VERSION); ("numShards", hw_num 1); ("dbStats", json_object []);
     ("peer_id", JString (if bool_decide (toy_host url = "one.example") then "one" else "two"));
     ("shardInfos", JArray [hw_shard 1; hw_shard 0])]
  else if bool_decide (toy_path url = "/v1/castsByFid") then json_object
    [("messages", JArray [json_object [("data", json_object [("fid", hw_num 7); ("network", hw_num 1)])]])]
  else if bool_decide (toy_path url = "/v1/storageLimitsByFid") then json_object
    [("units", hw_num 1); ("limits", JArray [])]
  else hw_events.

Definition hw_peer : Peer := λ _ rq,
  Ok (mkHttpResponse 200 None [as_bytes (json_to_string (hw_value (rq_url rq)))] None).

Definition hw_run := run hw_peer hw_config [].
Definition hw_report : PreflightReport :=
  match hw_run.1 with Ok r => r | Err e => match e with end end.
Lemma hw_run_ok : hw_run = (Ok hw_report, hw_run.2).
Proof. apply run_result. unfold hw_report. destruct hw_run.1 as [r|[]]. reflexivity. Qed.
Lemma hw_healthy : pr_healthy hw_report = true.
Proof. vm_compute. reflexivity. Qed.

Lemma healthy_report_sound_witness : pr_compatible hw_report = true ∧ length (pr_nodes hw_report) = 2%nat.
Proof.
  destruct (healthy_report_sound hw_peer hw_config [] hw_report _ hw_run_ok hw_healthy) as (Hc & Hl & _).
  exact (conj Hc Hl).
Defined.

Definition hw_observation : AuthorityObservation := mkAuthorityObservation 3 (Some (hw_address x22)) false.
Lemma hw_authority : parse_authority hw_events 7 = Some hw_observation.
Proof. vm_compute. reflexivity. Qed.
Lemma reported_custody_latest_witness :
  ∃ events changes latest, (json_get "events" hw_events ≫= as_array) = Some events ∧
    custody_changes 7 events = Some changes ∧ is_newest changes latest ∧
    hw_observation = mkAuthorityObservation (len events) (snd <$> latest) false.
Proof. exact (reported_custody_latest hw_events 7 hw_observation hw_authority). Defined.
