(* ===== verification/RepoSyntax.v ===== *)
(** * Repository syntax checks ([crates/psky-repo/src/syntax.rs]) and the
    error type of the crate ([crates/psky-repo/src/lib.rs]) *)

From S2P Require Import Prelude RustStd.

Module Repo.

Inductive Error :=
| InvalidPath (path : string)
| InvalidMetadata (why : string)
| InvalidRecord (why : string)
| Limit (what : string)
| Cbor (why : string)
| Signature
| Verification (why : string).

End Repo.

#[export] Instance repo_error_eq_dec : EqDecision Repo.Error.
Proof. solve_decision. Defined.

Module syntax.
Import Repo.

Definition name_byte (c : ascii) : bool := is_ascii_alphanumeric c.
(** lower-case letters, digits and hyphen: one DNS label byte *)
Definition label_byte (c : ascii) : bool :=
  is_ascii_lowercase c || is_ascii_digit c || Ascii.eqb c "-".
Definition key_byte (c : ascii) : bool := is_ascii_alphanumeric c || one_of ".-_:~" c.

(** The per-segment test shared by [nsid_valid] and [metadata]. *)
Definition label_valid (s : string) : bool :=
  negb (str_is_empty s) && (str_len s <=? 63)
  && negb (starts_with "-" s) && negb (ends_with "-" s) && all_bytes label_byte s.

Definition nsid_valid (nsid : string) : bool :=
  match rsplit_once "." nsid with
  | None => false
  | Some (authority, name) =>
      if (317 <? str_len nsid)
         || (253 <? str_len authority)
         || str_is_empty name
         || (63 <? str_len name)
         || negb (from_option is_ascii_alphabetic false (first_byte name))
         || negb (all_bytes name_byte name)
      then false
      else
        let segments := split_on "." authority in
        (2 <=? len segments)
        && from_option is_ascii_lowercase false (first_byte (default EmptyString (head segments)))
        && forallb label_valid segments
  end.

Definition path (p : string) : result Error () :=
  '(nsid, key) ← ok_or (InvalidPath p) (split_once "/" p);
  reject_if
    (negb (nsid_valid nsid) || str_is_empty key || (512 <? str_len key)
     || bool_decide (key = ".") || bool_decide (key = "..") || negb (all_bytes key_byte key))
    (InvalidPath p).

Definition plc_byte (c : ascii) : bool := is_ascii_lowercase c || in_range 50 55 c.

(** [localhost], or [localhost%3A] and a canonical non-zero port *)
Definition local_domain (domain : string) : bool :=
  bool_decide (domain = "localhost")
  || match strip_prefix "localhost%3A" domain with
     | Some port =>
         match parse_u16 port with
         | Some number => (0 <? number) && bool_decide (to_string number = port)
         | None => false
         end
     | None => false
     end.

Definition web_domain (domain : string) : bool :=
  (str_len domain <=? 253) && contains_char "." domain
  && forallb label_valid (split_on "." domain)
  && match rsplit_next "." domain with
     | Some s => any_byte is_ascii_lowercase s
     | None => false
     end.

Definition valid_did (did : string) : bool :=
  match strip_prefix "did:plc:" did with
  | Some id => (str_len id =? 24) && all_bytes plc_byte id
  | None =>
      match strip_prefix "did:web:" did with
      | Some domain => local_domain domain || web_domain domain
      | None => false
      end
  end.

Definition valid_rev (rev : string) : bool :=
  (str_len rev =? 13)
  && from_option (one_of "234567abcdefghij") false (first_byte rev)
  && all_bytes (one_of "234567abcdefghijklmnopqrstuvwxyz") rev.

Definition metadata (did rev : string) : result Error () :=
  reject_if (negb (valid_did did))
    (InvalidMetadata "expected normalized did:plc or hostname-only did:web");;
  reject_if (negb (valid_rev rev)) (InvalidMetadata "revision must be a 13-character TID").

Example path_ok : path "app.bsky.feed.post/3jzfcijpj2z2a" = Ok ().
Proof. vm_compute. done. Qed.
Example path_dots : path "app.bsky.feed.post/.." = Err (InvalidPath "app.bsky.feed.post/..").
Proof. vm_compute. done. Qed.
Example metadata_ok : metadata "did:plc:abcdefghijklmnopqrstuvwx" "3jzfcijpj2z2a" = Ok ().
Proof. vm_compute. done. Qed.
Example metadata_local : metadata "did:web:localhost%3A8787" "3jzfcijpj2z2a" = Ok ().
Proof. vm_compute. done. Qed.
Example metadata_local_port : metadata "did:web:localhost%3A+87" "3jzfcijpj2z2a" ≠ Ok ().
Proof. vm_compute. done. Qed.

(** The [expect] after validation in [RecordSet::put] cannot fail. *)
Lemma path_split p u : path p = Ok u → ∃ collection key, split_once "/" p = Some (collection, key).
Proof.
  unfold path. intros H. apply bind_ok in H as ([c k] & H & _). apply ok_or_ok in H. eauto.
Qed.

(** What an accepted path looks like. *)
Lemma path_ok_inv p u : path p = Ok u →
  ∃ collection key,
    p = collection +:+ "/" +:+ key ∧
    nsid_valid collection = true ∧
    1 ≤ str_len key ≤ 512 ∧
    key ≠ "." ∧ key ≠ ".." ∧
    all_bytes key_byte key = true.
Proof.
  unfold path. intros H. apply bind_ok in H as ([c k] & Hs & H). apply ok_or_ok in Hs.
  apply split_once_Some in Hs as [-> Hn]. apply reject_if_ok in H. boolify.
  exists c, k. repeat split; try done.
  destruct k; [done|]. unfold str_len. simpl. lia.
Qed.

End syntax.
