(* ===== verification/RepoRecords.v ===== *)
(** * JSON records as IPLD ([crates/psky-repo/src/lib.rs])

    JSON records are converted to the IPLD data model under a depth and a byte
    budget before they are encoded as DAG-CBOR.  The reference semantics at the
    end of the file gives nesting, charge and value separately. *)

From S2P Require Import Prelude RustStd BTreeMap Externs RepoSyntax.
Import Repo.

Definition MAX_RECORD_BYTES : Z := 1000000.
Definition MAX_RECORDS : Z := 100000.
Definition MAX_TOTAL_RECORD_BYTES : Z := 16 * 1024 * 1024.
Definition MAX_RECORD_DEPTH : Z := 64.
Definition MAX_SAFE_INTEGER : Z := 9007199254740991.

Section records.
Context {SHA : Sha256} {CID : CidLib} {HDC : DagCbor} {B64 : Base64Std}.

(** [encode]: DAG-CBOR bytes, library errors wrapped in [Error::Cbor]. *)
Definition encode (v : Ipld) : result Error bytes := map_err Cbor (cbor_to_vec v).
Definition decode (b : bytes) : result Error Ipld := map_err Cbor (cbor_from_slice b).

(** CIDv1, DAG-CBOR codec, SHA-256 multihash. *)
Definition cid_for (b : bytes) : Cid := cid_new_v1 0x71 0x12 (sha256 b).

Definition spend (budget charge : Z) : result Error Z :=
  ok_or (Limit "record bytes") (checked_sub budget charge).

Definition safe_integer (n : Number) : result Error Z :=
  ok_or (InvalidRecord "only safe signed JSON integers are supported")
    (n ← num_as_i64 n;
     if (- MAX_SAFE_INTEGER <=? n) && (n <=? MAX_SAFE_INTEGER) then Some n else None).

(** CIDv1, raw or DAG-CBOR codec, 32-byte SHA-256, canonical text. *)
Definition canonical_link (cid : Cid) (encoded : string) : bool :=
  cid_is_v1 cid
  && ((cid_codec cid =? 0x55) || (cid_codec cid =? 0x71))
  && (cid_hash_code cid =? 0x12)
  && (cid_hash_size cid =? 32)
  && bool_decide (cid_to_string cid = encoded).

(** The [$link] wrapper: one field, a bounded canonical CID string. *)
Definition link_to_ipld (n_fields : Z) (link : Json) (budget : Z) : result Error (Ipld * Z) :=
  reject_if (negb (n_fields =? 1)) (InvalidRecord "$link wrapper has extra fields");;
  encoded ← ok_or (InvalidRecord "$link must be a CID string") (as_str link);
  reject_if (128 <? str_len encoded) (InvalidRecord "$link CID is too long");;
  budget ← spend budget (str_len encoded);
  cid ← ok_or (InvalidRecord "invalid $link CID") (cid_parse encoded);
  reject_if (negb (canonical_link cid encoded))
    (InvalidRecord "$link must be canonical base32 CIDv1 with raw or DAG-CBOR codec and SHA-256");;
  Ok (ILink cid, budget).

(** The [$bytes] wrapper: one field, RFC 4648 base64. *)
Definition bytes_to_ipld (n_fields : Z) (b : Json) (budget : Z) : result Error (Ipld * Z) :=
  reject_if (negb (n_fields =? 1)) (InvalidRecord "$bytes wrapper has extra fields");;
  encoded ← ok_or (InvalidRecord "$bytes must be base64") (as_str b);
  budget ← spend budget (str_len encoded);
  decoded ← ok_or (InvalidRecord "invalid base64") (b64_std_decode encoded);
  Ok (IBytes decoded, budget).

(** The two loops of the conversion, over the elements of an array and over the
    fields of an object, for the conversion [conv] of one value. *)
Definition array_loop (conv : Json → Z → result Error (Ipld * Z)) :
    list Json → Z → result Error (list Ipld * Z) :=
  fix go values budget :=
    match values with
    | [] => Ok ([], budget)
    | v :: values =>
        '(i, budget) ← conv v budget;
        '(items, budget) ← go values budget;
        Ok (i :: items, budget)
    end.

Definition object_loop (conv : Json → Z → result Error (Ipld * Z)) :
    list (string * Json) → list (string * Ipld) → Z → result Error (list (string * Ipld) * Z) :=
  fix go values m budget :=
    match values with
    | [] => Ok (m, budget)
    | (k, v) :: values =>
        budget ← spend budget (str_len k);
        '(i, budget) ← conv v budget;
        go values (bt_insert m k i) budget
    end.

(** The byte budget is threaded through as the code threads [&mut budget]. *)
Fixpoint json_to_ipld (value : Json) (depth budget : Z) : result Error (Ipld * Z) :=
  if MAX_RECORD_DEPTH <? depth then Err (Limit "record nesting") else
  let charge := match value with JString s => str_len s + 1 | _ => 1 end in
  budget ← spend budget charge;
  match value with
  | JNull => Ok (INull, budget)
  | JBool v => Ok (IBool v, budget)
  | JString v => Ok (IString v, budget)
  | JNumber v => integer ← safe_integer v; Ok (IInteger integer, budget)
  | JArray values =>
      '(l, budget) ← array_loop (λ v budget, json_to_ipld v (depth + 1) budget) values budget;
      Ok (IList l, budget)
  | JObject values =>
      match field_get "$link" values with
      | Some link => link_to_ipld (len values) link budget
      | None =>
          match field_get "$bytes" values with
          | Some b => bytes_to_ipld (len values) b budget
          | None =>
              '(m, budget) ←
                object_loop (λ v budget, json_to_ipld v (depth + 1) budget) values [] budget;
              Ok (IMap m, budget)
          end
      end
  end.

(** ** Reference semantics of the conversion

    [height], [cost] and [ipld_of] give the nesting, the byte charge and the
    value of a record independently of each other and of the traversal. *)

Definition is_wrapper (fields : list (string * Json)) : bool :=
  bool_decide (is_Some (field_get "$link" fields)) || bool_decide (is_Some (field_get "$bytes" fields)).

Definition wrapped_text (fields : list (string * Json)) : string :=
  match field_get "$link" fields with
  | Some v => default EmptyString (as_str v)
  | None => default EmptyString (field_get "$bytes" fields ≫= as_str)
  end.

Fixpoint height (v : Json) : Z :=
  match v with
  | JArray l => foldr (λ v h, Z.max (1 + height v) h) 0 l
  | JObject fs => if is_wrapper fs then 0 else foldr (λ kv h, Z.max (1 + height kv.2) h) 0 fs
  | _ => 0
  end.

Fixpoint cost (v : Json) : Z :=
  match v with
  | JString s => str_len s + 1
  | JArray l => 1 + foldr (λ v c, cost v + c) 0 l
  | JObject fs =>
      1 + if is_wrapper fs then str_len (wrapped_text fs)
          else foldr (λ kv c, str_len kv.1 + cost kv.2 + c) 0 fs
  | _ => 1
  end.

Definition link_of (n : Z) (v : Json) : option Ipld :=
  s ← as_str v; c ← cid_parse s;
  if (n =? 1) && (str_len s <=? 128) && canonical_link c s then Some (ILink c) else None.

Definition bytes_of (n : Z) (v : Json) : option Ipld :=
  s ← as_str v; b ← b64_std_decode s; if n =? 1 then Some (IBytes b) else None.

Fixpoint ipld_of (v : Json) : option Ipld :=
  match v with
  | JNull => Some INull
  | JBool b => Some (IBool b)
  | JString s => Some (IString s)
  | JNumber n => IInteger <$> result_ok (safe_integer n)
  | JArray l => IList <$> foldr (λ v o, i ← ipld_of v; items ← o; Some (i :: items)) (Some []) l
  | JObject fs =>
      match field_get "$link" fs with
      | Some v => link_of (len fs) v
      | None =>
          match field_get "$bytes" fs with
          | Some v => bytes_of (len fs) v
          | None =>
              (λ kvs, IMap (bt_collect kvs)) <$>
                foldr (λ kv o, i ← ipld_of kv.2; items ← o; Some ((kv.1, i) :: items)) (Some []) fs
          end
      end
  end.

Lemma cost_pos v : 1 ≤ cost v.
Proof.
  induction v as [| | |s|l IH|fs IH] using json_nested_ind; simpl; try lia.
  - pose proof (str_len_nonneg s). lia.
  - induction IH as [|v l Hv _ IH]; simpl; lia.
  - destruct (is_wrapper fs).
    + pose proof (str_len_nonneg (wrapped_text fs)). lia.
    + induction IH as [|[k v] l Hv _ IH]; simpl in *; [lia|]. pose proof (str_len_nonneg k). lia.
Qed.

Lemma height_nonneg v : 0 ≤ height v.
Proof.
  destruct v as [| | |s|l|fs]; simpl; try lia.
  - induction l; simpl; lia.
  - destruct (is_wrapper fs); [lia|]. induction fs; simpl; lia.
Qed.

Lemma spend_ok b c b' : spend b c = Ok b' ↔ c ≤ b ∧ b' = b - c.
Proof. unfold spend. by rewrite ok_or_ok, checked_sub_Some. Qed.

Definition heights (l : list Json) : Z := foldr (λ v h, Z.max (1 + height v) h) 0 l.
Definition costs (l : list Json) : Z := foldr (λ v c, cost v + c) 0 l.
Definition field_heights (fs : list (string * Json)) : Z :=
  foldr (λ kv h, Z.max (1 + height kv.2) h) 0 fs.
Definition field_costs (fs : list (string * Json)) : Z :=
  foldr (λ kv c, str_len kv.1 + cost kv.2 + c) 0 fs.
Definition items_of (l : list Json) : option (list Ipld) :=
  foldr (λ v o, i ← ipld_of v; items ← o; Some (i :: items)) (Some []) l.
Definition fields_of (fs : list (string * Json)) : option (list (string * Ipld)) :=
  foldr (λ kv o, i ← ipld_of kv.2; items ← o; Some ((kv.1, i) :: items)) (Some []) fs.

(** [conv] agrees with the reference semantics on [v], one level down. *)
Definition converts (conv : Json → Z → result Error (Ipld * Z)) (room : Z) (v : Json) : Prop :=
  ∀ budget i budget',
    conv v budget = Ok (i, budget') ↔
      height v ≤ room ∧ cost v ≤ budget ∧ budget' = budget - cost v ∧ ipld_of v = Some i.

Lemma costs_nonneg l : 0 ≤ costs l.
Proof. induction l as [|w l IH]; simpl; [lia|]. pose proof (cost_pos w). lia. Qed.
Lemma field_costs_nonneg fs : 0 ≤ field_costs fs.
Proof. induction fs as [|[k v] l IH]; simpl; [lia|]. pose proof (cost_pos v). pose proof (str_len_nonneg k). lia. Qed.

Lemma array_loop_spec conv room l budget k budget' :
  Forall (converts conv room) l → 0 ≤ 1 + room → 0 ≤ budget →
  array_loop conv l budget = Ok (k, budget') ↔
    heights l ≤ 1 + room ∧ costs l ≤ budget ∧ budget' = budget - costs l ∧ items_of l = Some k.
Proof.
  intros Hl Hroom. revert k budget. induction Hl as [|v l Hv _ IH]; intros k budget Hb; simpl.
  - split; [intros [= <- <-]; repeat split; lia|]. intros (_ & _ & -> & [= <-]). f_equal. f_equal. lia.
  - rewrite bind_ok. split.
    + intros ([i b1] & (? & ? & -> & Hi)%Hv & Hr). apply bind_ok in Hr as ([items b2] & Hr & [= <- <-]).
      apply IH in Hr as (? & ? & -> & ->); [|lia]. rewrite Hi. split_and!; [lia..|done].
    + intros (? & ? & -> & Ho). destruct (ipld_of v) as [i|] eqn:Hi; [|done].
      apply bind_Some in Ho as (? & [= <-] & (items & Ho & [= <-])%bind_Some).
      pose proof (cost_pos v). pose proof (costs_nonneg l).
      exists (i, budget - cost v). split; [apply Hv; split_lia|].
      apply bind_ok. exists (items, budget - (cost v + costs l)).
      split; [apply IH; split_lia|done].
Qed.

Lemma object_loop_spec conv room fs acc budget m budget' :
  Forall (λ kv, converts conv room kv.2) fs → 0 ≤ 1 + room → 0 ≤ budget →
  object_loop conv fs acc budget = Ok (m, budget') ↔
    field_heights fs ≤ 1 + room ∧ field_costs fs ≤ budget ∧ budget' = budget - field_costs fs
    ∧ ∃ kvs, fields_of fs = Some kvs ∧ m = foldl (λ m '(k, v), bt_insert m k v) acc kvs.
Proof.
  intros Hl Hroom. revert acc budget. induction Hl as [|[k v] fs Hv _ IH]; intros acc budget Hb; simpl.
  - split; [intros [= <- <-]; split_and!; [lia..|by exists []]|].
    intros (_ & _ & -> & ? & [= <-] & ->). f_equal. f_equal. lia.
  - pose proof (field_costs_nonneg fs). pose proof (cost_pos v). pose proof (str_len_nonneg k). rewrite bind_ok. split.
    + intros (b0 & [? ->]%spend_ok & ([i b1] & (? & ? & -> & Hi)%Hv & Hr)%bind_ok). simpl in *.
      apply IH in Hr as (? & ? & -> & kvs & Hk & ->); [|lia].
      rewrite Hi, Hk. split_and!; [lia..|]. by eexists.
    + intros (? & ? & -> & kvs & Ho & ->). simpl in *.
      apply bind_Some in Ho as (i & Hi & (items & Ho & [= <-])%bind_Some).
      exists (budget - str_len k). split; [apply spend_ok; lia|].
      apply bind_ok. exists (i, budget - str_len k - cost v). split; [apply Hv; split_lia|].
      apply IH; [lia|]. split_and!; [lia..|]. by exists items.
Qed.

Lemma wrapper_link fs v : field_get "$link" fs = Some v → is_wrapper fs = true.
Proof. intros Hv. unfold is_wrapper. rewrite Hv. by rewrite bool_decide_true. Qed.
Lemma wrapper_bytes fs v : field_get "$bytes" fs = Some v → is_wrapper fs = true.
Proof. intros Hv. unfold is_wrapper. rewrite Hv, orb_true_iff. right. by apply bool_decide_true. Qed.
Lemma wrapper_none fs :
  field_get "$link" fs = None → field_get "$bytes" fs = None → is_wrapper fs = false.
Proof. intros H1 H2. unfold is_wrapper. by rewrite H1, H2. Qed.

Lemma link_to_ipld_spec n v budget i budget' :
  link_to_ipld n v budget = Ok (i, budget') ↔
    str_len (default EmptyString (as_str v)) ≤ budget ∧
    budget' = budget - str_len (default EmptyString (as_str v)) ∧ link_of n v = Some i.
Proof.
  unfold link_to_ipld, link_of. destruct (as_str v) as [s|]; simpl.
  2: { split; [|by intros (_ & _ & [=])]. intros H. by inv_result. }
  split.
  - intros H. inv_result.
    match goal with H : spend _ _ = _ |- _ => apply spend_ok in H as [? ->] end. boolify.
    match goal with H : cid_parse _ = _ |- _ => rewrite H end. simpl.
    rewrite (proj2 (Z.eqb_eq _ _)), (proj2 (Z.leb_le _ _)) by lia. simpl.
    by match goal with H : canonical_link _ _ = true |- _ => rewrite H end.
  - intros (Hb & -> & Hs). destruct (cid_parse s) as [c|] eqn:Hc; simpl in Hs; [|done].
    destruct (n =? 1) eqn:Hn; simpl in *; [|done].
    destruct (str_len s <=? 128) eqn:Hl; simpl in *; [|done].
    destruct (canonical_link c s) eqn:Hcl; simplify_eq/=. boolify.
    rewrite (proj2 (Z.ltb_ge _ _)) by lia. simpl.
    unfold spend. by rewrite (proj2 (checked_sub_Some _ _ _) (conj Hb eq_refl)).
Qed.

Lemma bytes_to_ipld_spec n v budget i budget' :
  bytes_to_ipld n v budget = Ok (i, budget') ↔
    str_len (default EmptyString (as_str v)) ≤ budget ∧
    budget' = budget - str_len (default EmptyString (as_str v)) ∧ bytes_of n v = Some i.
Proof.
  unfold bytes_to_ipld, bytes_of. destruct (as_str v) as [s|]; simpl.
  2: { split; [|by intros (_ & _ & [=])]. intros H. by inv_result. }
  split.
  - intros H. inv_result. boolify. subst.
    match goal with H : spend _ _ = _ |- _ => apply spend_ok in H as [? ->] end.
    match goal with H : b64_std_decode _ = _ |- _ => rewrite H end. done.
  - intros (Hb & -> & Hs). destruct (b64_std_decode s) as [c|] eqn:Hc; simpl in Hs; [|done].
    destruct (n =? 1) eqn:Hn; simplify_eq/=.
    unfold spend. by rewrite (proj2 (checked_sub_Some _ _ _) (conj Hb eq_refl)).
Qed.

Definition scalar (v : Json) : Prop :=
  match v with JArray _ | JObject _ => False | _ => True end.

Lemma scalar_converts v depth budget i budget' : scalar v →
  json_to_ipld v depth budget = Ok (i, budget') ↔
    depth ≤ MAX_RECORD_DEPTH ∧ cost v ≤ budget ∧ budget' = budget - cost v ∧ ipld_of v = Some i.
Proof.
  intros Hv. destruct v as [| |n|s| |]; try done; cbn [json_to_ipld cost ipld_of];
    (destruct (Z.ltb_spec MAX_RECORD_DEPTH depth); [split; [done|lia]|]);
    rewrite bind_ok; setoid_rewrite spend_ok.
  - split; [intros (b & [? ->] & [= <- <-]); split_lia | intros (_ & ? & -> & [= <-]); eauto with lia].
  - split; [intros (b' & [? ->] & [= <- <-]); split_lia | intros (_ & ? & -> & [= <-]); eauto with lia].
  - setoid_rewrite bind_ok. destruct (safe_integer n) as [m|e]; simpl.
    + split; [intros (b' & [? ->] & ? & [= <-] & [= <- <-]); split_lia|].
      intros (_ & ? & -> & [= <-]). exists (budget - 1). eauto with lia.
    + split; [by intros (b' & [? ->] & ? & ? & ?)|by intros (_ & _ & _ & ?)].
  - split; [intros (b' & [? ->] & [= <- <-]); split_lia|].
    intros (_ & ? & -> & [= <-]); eauto with lia.
Qed.

(** What the conversion of a value comes to. *)
Definition converts_exactly (v : Json) : Prop :=
  ∀ depth budget i budget',
    json_to_ipld v depth budget = Ok (i, budget') ↔
      depth + height v ≤ MAX_RECORD_DEPTH ∧ cost v ≤ budget ∧ budget' = budget - cost v ∧ ipld_of v = Some i.

Lemma converts_deeper depth v :
  converts_exactly v → converts (λ v b, json_to_ipld v (depth + 1) b) (MAX_RECORD_DEPTH - depth - 1) v.
Proof.
  intros Hv b i b'. split.
  - intros (? & ? & ? & ?)%Hv. split_lia.
  - intros (? & ? & ? & ?). apply Hv. split_lia.
Qed.

Lemma array_converts l : Forall converts_exactly l → converts_exactly (JArray l).
Proof.
  intros IH depth budget i budget'. cbn [json_to_ipld]. destruct (Z.ltb_spec MAX_RECORD_DEPTH depth) as [Hd|Hd].
  { split; [done|]. pose proof (height_nonneg (JArray l)). lia. }
  assert (HL : ∀ b k b', 0 ≤ b → array_loop (λ v b, json_to_ipld v (depth + 1) b) l b = Ok (k, b') ↔
    heights l ≤ 1 + (MAX_RECORD_DEPTH - depth - 1) ∧ costs l ≤ b ∧ b' = b - costs l ∧ items_of l = Some k).
  { intros b k b' Hb. apply array_loop_spec; [|lia|done]. eapply Forall_impl; [exact IH|].
    intros v Hv. by apply converts_deeper. }
  rewrite bind_ok. change (height (JArray l)) with (heights l). change (cost (JArray l)) with (1 + costs l).
  change (ipld_of (JArray l)) with (IList <$> items_of l). pose proof (costs_nonneg l). split.
  - intros (b & [? ->]%spend_ok & ([k b'] & Hk & [= <- <-])%bind_ok).
    apply HL in Hk as (? & ? & -> & ->); [|lia]. split_lia.
  - intros (? & ? & -> & (k & Hk & ->)%fmap_Some).
    exists (budget - 1). split; [apply spend_ok; lia|]. apply bind_ok. exists (k, budget - (1 + costs l)).
    split; [apply HL; split_lia|done].
Qed.

(** An object that is not a wrapper. *)
Lemma plain_object_converts fs depth budget i budget' : Forall (λ kv, converts_exactly kv.2) fs → depth ≤ MAX_RECORD_DEPTH →
  (∃ b, (1 ≤ budget ∧ b = budget - 1) ∧
     ('(map, b) ← object_loop (λ v b, json_to_ipld v (depth + 1) b) fs [] b; Ok (IMap map, b)) = Ok (i, budget')) ↔
  depth + field_heights fs ≤ MAX_RECORD_DEPTH ∧ 1 + field_costs fs ≤ budget ∧ budget' = budget - (1 + field_costs fs) ∧
  (λ kvs, IMap (foldl (λ m '(k, v), bt_insert m k v) [] kvs)) <$> fields_of fs = Some i.
Proof.
  intros IH Hd. pose proof (field_costs_nonneg fs).
  assert (HL : ∀ b m b', 0 ≤ b → object_loop (λ v b, json_to_ipld v (depth + 1) b) fs [] b = Ok (m, b') ↔
    field_heights fs ≤ 1 + (MAX_RECORD_DEPTH - depth - 1) ∧ field_costs fs ≤ b ∧ b' = b - field_costs fs
    ∧ ∃ kvs, fields_of fs = Some kvs ∧ m = foldl (λ m '(k, v), bt_insert m k v) [] kvs).
  { intros b m b' Hb. apply object_loop_spec; [|lia|done]. eapply Forall_impl; [exact IH|].
    intros [k v] Hv. by apply converts_deeper. }
  split.
  - intros (b & [? ->] & ([m b'] & Hm & [= <- <-])%bind_ok).
    apply HL in Hm as (? & ? & -> & kvs & Hk & ->); [|lia]. rewrite Hk. split_lia.
  - intros (? & ? & -> & (kvs & Hk & ->)%fmap_Some). exists (budget - 1).
    split; [lia|]. apply bind_ok. eexists (_, budget - (1 + field_costs fs)).
    split; [apply HL; [lia|]; split_and!; [lia..|eauto]|done].
Qed.

Lemma object_converts fs : Forall (λ kv, converts_exactly kv.2) fs → converts_exactly (JObject fs).
Proof.
  intros IH depth budget i budget'. cbn [json_to_ipld]. destruct (Z.ltb_spec MAX_RECORD_DEPTH depth) as [Hd|Hd].
  { split; [done|]. pose proof (height_nonneg (JObject fs)). lia. }
  rewrite bind_ok. setoid_rewrite spend_ok. cbn [height cost ipld_of].
  destruct (field_get "$link" fs) as [lk|] eqn:Hlk.
  { rewrite (wrapper_link _ _ Hlk). setoid_rewrite link_to_ipld_spec.
    unfold wrapped_text. rewrite Hlk. pose proof (str_len_nonneg (default EmptyString (as_str lk))).
    split; [intros (b & [? ->] & ? & -> & ?); split_lia|].
    intros (? & ? & -> & ?). exists (budget - 1). split_lia. }
  destruct (field_get "$bytes" fs) as [bt|] eqn:Hbt.
  { rewrite (wrapper_bytes _ _ Hbt). setoid_rewrite bytes_to_ipld_spec.
    unfold wrapped_text. rewrite Hlk, Hbt. simpl. pose proof (str_len_nonneg (default EmptyString (as_str bt))).
    split; [intros (b & [? ->] & ? & -> & ?); split_lia|].
    intros (? & ? & -> & ?). exists (budget - 1). split_lia. }
  rewrite (wrapper_none _ Hlk Hbt). fold (field_heights fs) (field_costs fs) (fields_of fs). by apply plain_object_converts.
Qed.

Lemma json_to_ipld_spec v : converts_exactly v.
Proof.
  induction v as [| | | |l IH|fs IH] using json_nested_ind;
    try (intros depth budget i budget'; rewrite scalar_converts by done; simpl; by rewrite Z.add_0_r).
  - by apply array_converts.
  - by apply object_converts.
Qed.


(** C39: a record converts exactly when it nests at most 64 deep, its byte
    charge fits the record limit and every leaf is in the supported subset;
    the result is then the reference value and the charge is its cost. *)
Theorem record_conversion_exact v i rest :
  json_to_ipld v 0 MAX_RECORD_BYTES = Ok (i, rest) ↔
    height v ≤ MAX_RECORD_DEPTH ∧ cost v ≤ MAX_RECORD_BYTES ∧ rest = MAX_RECORD_BYTES - cost v ∧ ipld_of v = Some i.
Proof. by rewrite (json_to_ipld_spec v 0 MAX_RECORD_BYTES i rest), Z.add_0_l. Qed.

End records.
