(* ===== verification/RepoRecordSet.v ===== *)
(** * The materialized record set ([RecordSet] of [crates/psky-repo/src/lib.rs])

    Records live in a map sorted by repository path, with a running count of
    their encoded bytes.  The specification is a plain finite map whose limits
    are recomputed from its contents at every operation. *)

From S2P Require Import Prelude RustStd BTreeMap Externs RepoSyntax RepoRecords.
Import Repo.

Section record_set.
Context {SHA : Sha256} {CID : CidLib} {HDC : DagCbor} {B64 : Base64Std}.

Record RepoRecord := mkRecord { rec_cid : Cid; rec_bytes : bytes }.

(** [record.bytes.len()] *)
Definition rec_len (record : RepoRecord) : Z := len (rec_bytes record).

Record RecordSet := mkRecordSet {
  records : list (string * RepoRecord);
  encoded_bytes : Z
}.

Definition new : RecordSet := mkRecordSet [] 0.
Definition rs_len (rs : RecordSet) : Z := len (records rs).
Definition rs_is_empty (rs : RecordSet) : bool := bool_decide (records rs = []).
Definition rs_get (path : string) (rs : RecordSet) : option RepoRecord := bt_get (records rs) path.
Definition rs_iter (rs : RecordSet) : list (string * RepoRecord) := records rs.

(** Everything [put] does before it writes: validation, conversion, encoding
    and the aggregate budget. *)
Definition put_prepare (path : string) (value : Json) (self : RecordSet) :
    result Error (RepoRecord * Z) :=
  syntax.path path;;
  let collection := from_option fst EmptyString (split_once "/" path) in
  reject_if (negb (bool_decide (json_get "$type" value ≫= as_str = Some collection)))
    (InvalidRecord "$type must match the collection");;
  reject_if (negb (bt_contains (records self) path) && (MAX_RECORDS <=? rs_len self))
    (Limit "record count");;
  '(ipld, _) ← json_to_ipld value 0 MAX_RECORD_BYTES;
  b ← encode ipld;
  reject_if (MAX_RECORD_BYTES <? len b) (Limit "encoded record bytes");;
  let replaced_bytes := from_option rec_len 0 (bt_get (records self) path) in
  let total := encoded_bytes self - replaced_bytes + len b in
  reject_if (MAX_TOTAL_RECORD_BYTES <? total) (Limit "aggregate record bytes");;
  Ok (mkRecord (cid_for b) b, total).

Definition put (path : string) (value : Json) (self : RecordSet) : RecordSet * result Error Cid :=
  match put_prepare path value self with
  | Err e => (self, Err e)
  | Ok (record, total) =>
      (mkRecordSet (bt_insert (records self) path record) total, Ok (rec_cid record))
  end.

Definition delete (path : string) (self : RecordSet) : RecordSet * result Error bool :=
  match syntax.path path with
  | Err e => (self, Err e)
  | Ok _ =>
      match bt_get (records self) path with
      | Some record =>
          (mkRecordSet (bt_remove (records self) path)
             (encoded_bytes self - len (rec_bytes record)), Ok true)
      | None => (self, Ok false)
      end
  end.

(** ** Specification *)

(** One call on a record set, and what it answers. *)
Inductive RsOp :=
| RsPut (path : string) (value : Json)
| RsDelete (path : string).

Inductive RsReply :=
| PutReply (r : result Error Cid)
| DeleteReply (r : result Error bool).

Definition rs_step (op : RsOp) (rs : RecordSet) : RecordSet * RsReply :=
  match op with
  | RsPut p v => let '(rs, r) := put p v rs in (rs, PutReply r)
  | RsDelete p => let '(rs, r) := delete p rs in (rs, DeleteReply r)
  end.

Fixpoint rs_run (ops : list RsOp) (rs : RecordSet) : RecordSet * list RsReply :=
  match ops with
  | [] => (rs, [])
  | op :: ops =>
      let '(rs, r) := rs_step op rs in
      let '(rs, l) := rs_run ops rs in (rs, r :: l)
  end.

(** The specification's state: path to record, with no counter. *)
Abbreviation rmap := (gmap string RepoRecord).

Definition total_bytes (m : rmap) : Z := sum_with (rec_len ∘ snd) (map_to_list m).

(** A record the specification stores: within the nesting and byte limits, of
    the right [$type], encoded, and addressed by its own bytes. *)
Definition encoded_record (path : string) (value : Json) : result Error RepoRecord :=
  syntax.path path;;
  reject_if (negb (bool_decide
      (json_get "$type" value ≫= as_str = Some (from_option fst EmptyString (split_once "/" path)))))
    (InvalidRecord "$type must match the collection");;
  '(ipld, _) ← json_to_ipld value 0 MAX_RECORD_BYTES;
  b ← encode ipld;
  reject_if (MAX_RECORD_BYTES <? len b) (Limit "encoded record bytes");;
  Ok (mkRecord (cid_for b) b).

(** What a call may do to the map: an accepted [put] stores the encoded record
    and keeps both aggregate limits, a [delete] of a valid path removes it,
    and anything refused changes nothing. *)
Inductive spec_step : RsOp → rmap → rmap → RsReply → Prop :=
| spec_put p v r m :
    encoded_record p v = Ok r →
    Z.of_nat (size (<[p := r]> m)) ≤ MAX_RECORDS →
    total_bytes (<[p := r]> m) ≤ MAX_TOTAL_RECORD_BYTES →
    spec_step (RsPut p v) m (<[p := r]> m) (PutReply (Ok (rec_cid r)))
| spec_put_invalid p v e m :
    encoded_record p v = Err e →
    spec_step (RsPut p v) m m (PutReply (Err e))
| spec_put_count p v m :
    m !! p = None → MAX_RECORDS ≤ Z.of_nat (size m) →
    spec_step (RsPut p v) m m (PutReply (Err (Limit "record count")))
| spec_put_total p v r m :
    encoded_record p v = Ok r →
    MAX_TOTAL_RECORD_BYTES < total_bytes (<[p := r]> m) →
    spec_step (RsPut p v) m m (PutReply (Err (Limit "aggregate record bytes")))
| spec_delete p m :
    syntax.path p = Ok () →
    spec_step (RsDelete p) m (base.delete p m) (DeleteReply (Ok (bool_decide (is_Some (m !! p)))))
| spec_delete_invalid p e m :
    syntax.path p = Err e →
    spec_step (RsDelete p) m m (DeleteReply (Err e)).

Inductive spec_run : list RsOp → rmap → rmap → list RsReply → Prop :=
| spec_run_nil m : spec_run [] m m []
| spec_run_cons op ops m m' m'' r l :
    spec_step op m m' r → spec_run ops m' m'' l → spec_run (op :: ops) m m'' (r :: l).

(** ** Invariant *)

Record rs_wf (rs : RecordSet) : Prop := {
  wf_sorted : bt_sorted (records rs);
  wf_bytes : encoded_bytes rs = sum_with (rec_len ∘ snd) (records rs);
  wf_total : encoded_bytes rs ≤ MAX_TOTAL_RECORD_BYTES;
  wf_count : rs_len rs ≤ MAX_RECORDS;
  wf_stored : Forall (λ kv, ∃ value, encoded_record kv.1 value = Ok kv.2) (records rs)
}.

Lemma new_wf : rs_wf new.
Proof. split; cbn; [constructor|done|done|done|constructor]. Qed.

(** The prepared total is the one recomputed from the new contents. *)
Lemma prepared_total rs p r : rs_wf rs →
  encoded_bytes rs - from_option rec_len 0 (bt_get (records rs) p) + rec_len r
  = sum_with (rec_len ∘ snd) (bt_insert (records rs) p r).
Proof. intros Hwf. rewrite (bt_sum_insert rec_len), (wf_bytes _ Hwf); [done|apply Hwf]. Qed.

(** No [usize] subtraction of the two operations wraps. *)
Lemma replaced_le rs p : rs_wf rs →
  0 ≤ from_option rec_len 0 (bt_get (records rs) p) ≤ encoded_bytes rs.
Proof.
  intros Hwf. rewrite (wf_bytes _ Hwf).
  pose proof (bt_sum_remove rec_len (records rs) p (wf_sorted _ Hwf)) as Hr.
  assert (0 ≤ sum_with (rec_len ∘ snd) (bt_remove (records rs) p))
    by (apply sum_with_nonneg; intros; apply len_nonneg).
  split; [|lia]. destruct (bt_get _ p); simpl; [apply len_nonneg|done].
Qed.

Lemma put_prepare_ok p v rs r total : put_prepare p v rs = Ok (r, total) ↔
  encoded_record p v = Ok r ∧
  (bt_contains (records rs) p = true ∨ rs_len rs < MAX_RECORDS) ∧
  total = encoded_bytes rs - from_option rec_len 0 (bt_get (records rs) p) + rec_len r ∧
  total ≤ MAX_TOTAL_RECORD_BYTES.
Proof.
  unfold put_prepare, encoded_record.
  destruct (syntax.path p) as [[]|]; simpl; [|naive_solver].
  destruct (negb (bool_decide _)); simpl; [naive_solver|].
  destruct (bt_contains (records rs) p) eqn:Hc; simpl;
    [|destruct (Z.leb_spec MAX_RECORDS (rs_len rs)); simpl;
      [split; [done|]; intros (_ & [|] & _); [done|lia]|]];
  (destruct (json_to_ipld v 0 MAX_RECORD_BYTES) as [[i b]|]; simpl; [|naive_solver]);
  (destruct (encode i) as [bs|]; simpl; [|naive_solver]);
  (destruct (MAX_RECORD_BYTES <? len bs); simpl; [naive_solver|]);
  (destruct (Z.ltb_spec MAX_TOTAL_RECORD_BYTES
      (encoded_bytes rs - from_option rec_len 0 (bt_get (records rs) p) + len bs)); simpl;
    [split; [done|]; intros ([= <-] & _ & -> & ?); unfold rec_len in *; simpl in *; lia|]);
  (split; [intros [= <- <-]; split_and!; auto|by intros ([= <-] & _ & -> & ?)]).
Qed.

Lemma put_prepare_err p v rs e : put_prepare p v rs = Err e →
  encoded_record p v = Err e
  ∨ (bt_get (records rs) p = None ∧ MAX_RECORDS ≤ rs_len rs ∧ e = Limit "record count")
  ∨ ∃ r, encoded_record p v = Ok r ∧ e = Limit "aggregate record bytes" ∧
      MAX_TOTAL_RECORD_BYTES <
        encoded_bytes rs - from_option rec_len 0 (bt_get (records rs) p) + rec_len r.
Proof.
  unfold put_prepare, encoded_record.
  destruct (syntax.path p) as [[]|]; simpl; [|naive_solver].
  destruct (negb (bool_decide _)); simpl; [naive_solver|].
  destruct (negb (bt_contains (records rs) p) && (MAX_RECORDS <=? rs_len rs)) eqn:Hc; simpl.
  { unfold bt_contains in Hc. intros [= <-]. boolify. right. left. split_and!; [by apply eq_None_not_Some|lia|done]. }
  destruct (json_to_ipld v 0 MAX_RECORD_BYTES) as [[i b]|]; simpl; [|naive_solver].
  destruct (encode i) as [bs|]; simpl; [|naive_solver].
  destruct (MAX_RECORD_BYTES <? len bs); simpl; [naive_solver|].
  destruct (Z.ltb_spec MAX_TOTAL_RECORD_BYTES
      (encoded_bytes rs - from_option rec_len 0 (bt_get (records rs) p) + len bs)); simpl; [|done].
  intros [= <-]. right. right. eexists. split_and!; eauto.
Qed.

Lemma rs_step_wf op rs : rs_wf rs → rs_wf (rs_step op rs).1.
Proof.
  intros Hwf. destruct op as [p v|p]; simpl.
  - unfold put. destruct (put_prepare p v rs) as [[r total]|] eqn:Hp; simpl; [|done].
    apply put_prepare_ok in Hp as (Henc & Hroom & -> & Htot).
    rewrite prepared_total in * by done. pose proof (wf_sorted _ Hwf). split; unfold rs_len; cbn [records encoded_bytes]; [auto with psky|done|done| |].
    + rewrite bt_len_insert by done. pose proof (wf_count _ Hwf) as Hc. unfold rs_len in *.
      destruct (bt_contains (records rs) p); [lia|]. destruct Hroom; [done|lia].
    + apply Forall_forall. intros kv [->|Hin]%bt_insert_elem; [by exists v|].
      pose proof (wf_stored _ Hwf) as Hs. rewrite Forall_forall in Hs. by apply Hs.
  - unfold delete. destruct (syntax.path p) as [u|]; simpl; [|done].
    destruct (bt_get (records rs) p) as [r|] eqn:Hg; simpl; [|done].
    pose proof (wf_sorted _ Hwf). pose proof (wf_total _ Hwf). pose proof (replaced_le rs p Hwf) as Hr.
    rewrite Hg in Hr. simpl in Hr. unfold rec_len in Hr. split; unfold rs_len; cbn [records encoded_bytes]; [auto with psky| |lia| |].
    + rewrite (bt_sum_remove rec_len), Hg, (wf_bytes _ Hwf); done.
    + pose proof (bt_len_remove_le (records rs) p). pose proof (wf_count _ Hwf). unfold rs_len in *. lia.
    + apply Forall_forall. intros kv Hin%bt_remove_elem.
      pose proof (wf_stored _ Hwf) as Hs. rewrite Forall_forall in Hs. by apply Hs.
Qed.

Lemma put_wf p v rs : rs_wf rs → rs_wf (put p v rs).1.
Proof. intros Hwf. pose proof (rs_step_wf (RsPut p v) rs Hwf) as H. simpl in H. by destruct (put p v rs). Qed.

Lemma delete_wf p rs : rs_wf rs → rs_wf (delete p rs).1.
Proof. intros Hwf. pose proof (rs_step_wf (RsDelete p) rs Hwf) as H. simpl in H. by destruct (delete p rs). Qed.

Definition rs_map (rs : RecordSet) : rmap := bt_map (records rs).

Lemma total_bytes_map (l : list (string * RepoRecord)) : bt_sorted l →
  total_bytes (bt_map l) = sum_with (rec_len ∘ snd) l.
Proof. intros Hs. unfold total_bytes. by rewrite bt_map_to_list. Qed.

Lemma put_refines p v rs : rs_wf rs →
  spec_step (RsPut p v) (rs_map rs) (rs_map (put p v rs).1) (PutReply (put p v rs).2).
Proof.
  intros Hwf. pose proof (wf_sorted _ Hwf) as Hs. unfold put.
  destruct (put_prepare p v rs) as [[r total]|e] eqn:Hp; simpl.
  - pose proof (rs_step_wf (RsPut p v) rs Hwf) as Hwf'. simpl in Hwf'. unfold put in Hwf'.
    rewrite Hp in Hwf'. simpl in Hwf'.
    pose proof (wf_count _ Hwf') as Hcount. pose proof (wf_total _ Hwf') as Htot.
    rewrite (wf_bytes _ Hwf') in Htot. unfold rs_len in Hcount. cbn [records] in *.
    apply put_prepare_ok in Hp as (Henc & _ & _ & _).
    unfold rs_map. cbn [records]. rewrite bt_map_insert by done. apply spec_put; [done|..].
    + rewrite <-bt_map_insert, bt_map_size by auto with psky. done.
    + rewrite <-bt_map_insert, total_bytes_map by auto with psky. done.
  - apply put_prepare_err in Hp as [Henc|[(Hg & Hcount & ->)|(r & Henc & -> & Htot)]].
    + by apply spec_put_invalid.
    + apply spec_put_count; unfold rs_map; [by rewrite bt_map_lookup|by rewrite bt_map_size].
    + apply spec_put_total with r; [done|]. rewrite prepared_total in Htot by done.
      unfold rs_map. rewrite <-bt_map_insert, total_bytes_map by auto with psky. done.
Qed.

Lemma delete_refines p rs : rs_wf rs →
  spec_step (RsDelete p) (rs_map rs) (rs_map (delete p rs).1) (DeleteReply (delete p rs).2).
Proof.
  intros Hwf. pose proof (wf_sorted _ Hwf) as Hs. unfold delete.
  destruct (syntax.path p) as [[]|e] eqn:Hp; simpl; [|by apply spec_delete_invalid].
  pose proof (bt_map_lookup (records rs) p Hs) as Hl. fold (rs_map rs) in Hl.
  pose proof (spec_delete p (rs_map rs) Hp) as Hd. rewrite Hl in Hd.
  destruct (bt_get (records rs) p) as [r|] eqn:Hg; simpl in *.
  - unfold rs_map at 2. cbn [records]. rewrite bt_map_remove by done. done.
  - by rewrite delete_id in Hd.
Qed.

(** C38: every sequence of [put] and [delete] calls on a new record set behaves
    as the specification's finite map does, answer by answer: limits, byte
    counter and sorted storage included.  At the end the counter is the exact
    sum of the stored records' bytes and every stored record is one [put]
    accepted under its path. *)
Theorem record_set_refines ops :
  let '(rs, replies) := rs_run ops new in
  rs_wf rs ∧ spec_run ops ∅ (rs_map rs) replies.
Proof.
  enough (Hg : ∀ rs, rs_wf rs → let '(rs', l) := rs_run ops rs in
    rs_wf rs' ∧ spec_run ops (rs_map rs) (rs_map rs') l) by apply (Hg new new_wf).
  induction ops as [|op ops IH]; intros rs Hwf; simpl; [split; [done|constructor]|].
  pose proof (rs_step_wf op rs Hwf) as Hwf'.
  assert (Hstep : spec_step op (rs_map rs) (rs_map (rs_step op rs).1) (rs_step op rs).2).
  { destruct op as [p v|p]; simpl.
    - pose proof (put_refines p v rs Hwf). by destruct (put p v rs).
    - pose proof (delete_refines p rs Hwf). by destruct (delete p rs). }
  destruct (rs_step op rs) as [rs' r]. simpl in *. specialize (IH rs' Hwf').
  destruct (rs_run ops rs') as [rs'' l]. destruct IH. split; [done|]. by econstructor.
Qed.

End record_set.
