(* ===== verification/RepoMst.v ===== *)
(** * Merkle search tree construction ([crates/psky-repo/src/mst.rs])

    The batch builder slices a sorted array of entries at its anchors, the
    entries whose layer is the current one, and recurses one layer down
    between them.  The reference [ref_subtree] splits the entries structurally
    and returns the blocks it writes as a list; [walk] is an independent reader
    of the finished tree. *)

From S2P Require Import Prelude RustStd BTreeMap Externs Fixtures RepoSyntax RepoRecords.
Import Repo.

Section mst.
Context {SHA : Sha256} {CID : CidLib} {HDC : DagCbor}.

Abbreviation blockmap := (list (Cid * bytes)).

Record Entry := mkEntry { e_p : Z; e_k : bytes; e_v : Cid; e_t : option Cid }.
Record Node := mkNode { n_l : option Cid; n_e : list Entry }.

(** The derived [Serialize] instances. *)
Definition ser_entry (e : Entry) : Ipld :=
  ser_struct [("p", IInteger (e_p e)); ("k", IBytes (e_k e)); ("v", ILink (e_v e));
              ("t", ser_option_cid (e_t e))].
Definition ser_node (n : Node) : Ipld :=
  ser_struct [("l", ser_option_cid (n_l n)); ("e", IList (ser_entry <$> n_e n))].

(** [u8::leading_zeros] *)
Definition leading_zeros (b : byte) : Z :=
  if byte_Z b =? 0 then 8 else 7 - Z.log2 (byte_Z b).

Fixpoint count_zeros (digest : bytes) (zeros : Z) : Z :=
  match digest with
  | [] => zeros
  | b :: digest =>
      let zeros := zeros + leading_zeros b in
      if negb (byte_Z b =? 0) then zeros else count_zeros digest zeros
  end.

Definition layer (key : bytes) : nat := Z.to_nat (count_zeros (sha256 key) 0 / 2).

(** An element of [entries: &[(&[u8], Cid, usize)]]. *)
Definition mentry : Type := bytes * Cid * nat.
Definition m_key (e : mentry) : bytes := e.1.1.
Definition m_value (e : mentry) : Cid := e.1.2.
Definition m_layer (e : mentry) : nat := e.2.

(** [iter().enumerate().filter_map(..)], counting from [i]. *)
Fixpoint anchors_from (i : nat) (at_ : nat) (entries : list mentry) : list nat :=
  match entries with
  | [] => []
  | e :: entries =>
      if decide (m_layer e = at_) then i :: anchors_from (S i) at_ entries
      else anchors_from (S i) at_ entries
  end.

(** [entries[a..b]] *)
Definition slice {A} (a b : nat) (l : list A) : list A := take (b - a) (drop a l).

(** [previous.iter().zip(key).take_while(|(a, b)| a == b).count()] *)
Fixpoint common_prefix (a b : bytes) : nat :=
  match a, b with
  | x :: a, y :: b => if decide (x = y) then S (common_prefix a b) else O
  | _, _ => O
  end.

(** [child]: nothing for an empty slice, otherwise the tree one layer down. *)
Definition child (subtree : nat → list mentry → blockmap → result Error (Cid * blockmap))
    (entries : list mentry) (parent_layer : nat) (blocks : blockmap) :
    result Error (option Cid * blockmap) :=
  match entries with
  | [] => Ok (None, blocks)
  | _ =>
      match parent_layer with
      | O => Err (Verification "MST layer underflow")
      | S at_ => '(c, blocks) ← subtree at_ entries blocks; Ok (Some c, blocks)
      end
  end.

(** The loop over the anchors.  An index out of range would panic; the error
    stands for it and [build_only_encoder_errors] shows it cannot happen. *)
Fixpoint anchor_loop (child : list mentry → blockmap → result Error (option Cid * blockmap))
    (entries : list mentry) (anchors : list nat) (previous : bytes) (blocks : blockmap) :
    result Error (list Entry * blockmap) :=
  match anchors with
  | [] => Ok ([], blocks)
  | start :: anchors =>
      '(key, value, _) ← ok_or (Verification "index out of range") (entries !! start);
      let end_ := default (length entries) (head anchors) in
      '(tree, blocks) ← child (slice (start + 1) end_ entries) blocks;
      let prefix := common_prefix previous key in
      let entry := mkEntry (Z.of_nat prefix) (drop prefix key) value tree in
      '(encoded_entries, blocks) ← anchor_loop child entries anchors key blocks;
      Ok (entry :: encoded_entries, blocks)
  end.

Fixpoint subtree (at_ : nat) (entries : list mentry) (blocks : blockmap) : result Error (Cid * blockmap) :=
  let anchors := anchors_from 0 at_ entries in
  let left_end := default (length entries) (head anchors) in
  '(left_, blocks) ← child subtree (slice 0 left_end entries) at_ blocks;
  '(encoded_entries, blocks) ←
    anchor_loop (λ entries blocks, child subtree entries at_ blocks) entries anchors [] blocks;
  b ← encode (ser_node (mkNode left_ encoded_entries));
  let cid := cid_for b in
  Ok (cid, bt_insert blocks cid b).

Definition entries_of (mapping : list (string * Cid)) : list mentry :=
  (λ '(k, v), (as_bytes k, v, layer (as_bytes k))) <$> mapping.

Definition top_layer (entries : list mentry) : nat := max_list_with m_layer entries.

Definition build (mapping : list (string * Cid)) (blocks : blockmap) : result Error (Cid * blockmap) :=
  let entries := entries_of mapping in
  subtree (top_layer entries) entries blocks.

(** ** Reference construction *)

(** The entries before the first anchor, then every anchor with the entries
    that follow it up to the next one. *)
Fixpoint segments (at_ : nat) (entries : list mentry) : list mentry * list (mentry * list mentry) :=
  match entries with
  | [] => ([], [])
  | e :: entries =>
      let '(left_, rest) := segments at_ entries in
      if decide (m_layer e = at_) then ([], (e, left_) :: rest) else (e :: left_, rest)
  end.

Definition written : Type := list (Cid * bytes).

Definition ref_child (sub : nat → list mentry → result Error (Cid * written))
    (entries : list mentry) (parent_layer : nat) : result Error (option Cid * written) :=
  match entries, parent_layer with
  | [], _ => Ok (None, [])
  | _, O => Err (Verification "MST layer underflow")
  | _, S at_ => '(c, w) ← sub at_ entries; Ok (Some c, w)
  end.

Fixpoint ref_loop (child : list mentry → result Error (option Cid * written))
    (rest : list (mentry * list mentry)) (previous : bytes) : result Error (list Entry * written) :=
  match rest with
  | [] => Ok ([], [])
  | (e, seg) :: rest =>
      '(tree, w) ← child seg;
      let prefix := common_prefix previous (m_key e) in
      '(es, w') ← ref_loop child rest (m_key e);
      Ok (mkEntry (Z.of_nat prefix) (drop prefix (m_key e)) (m_value e) tree :: es, w ++ w')
  end.

Fixpoint ref_subtree (at_ : nat) (entries : list mentry) : result Error (Cid * written) :=
  let '(left_, rest) := segments at_ entries in
  '(l, w) ← ref_child ref_subtree left_ at_;
  '(es, w') ← ref_loop (λ seg, ref_child ref_subtree seg at_) rest [];
  b ← encode (ser_node (mkNode l es));
  Ok (cid_for b, w ++ w' ++ [(cid_for b, b)]).

Definition ref_build (mapping : list (string * Cid)) : result Error (Cid * written) :=
  let entries := entries_of mapping in ref_subtree (top_layer entries) entries.

(** Writing a list of blocks into a map. *)
Definition write_all (blocks : blockmap) (w : written) : blockmap :=
  foldl (λ m '(c, b), bt_insert m c b) blocks w.

(** ** A reader *)

Definition de_nat (v : Ipld) : option nat :=
  match v with IInteger n => if 0 <=? n then Some (Z.to_nat n) else None | _ => None end.

Definition de_entry (v : Ipld) : option (nat * bytes * Cid * option Cid) :=
  p ← de_field "p" v ≫= de_nat; k ← de_field "k" v ≫= de_bytes;
  c ← de_field "v" v ≫= de_cid; t ← de_option_cid (de_field "t" v);
  Some (p, k, c, t).

Definition de_list (v : Ipld) : option (list Ipld) :=
  match v with IList l => Some l | _ => None end.

Definition walk_child (walk : Cid → option (list (bytes * Cid))) (o : option Cid) :
    option (list (bytes * Cid)) :=
  match o with None => Some [] | Some c => walk c end.

Fixpoint walk_entries (walk : Cid → option (list (bytes * Cid))) (previous : bytes) (es : list Ipld) :
    option (list (bytes * Cid)) :=
  match es with
  | [] => Some []
  | e :: es =>
      '(p, k, c, t) ← de_entry e;
      let key := take p previous ++ k in
      sub ← walk_child walk t;
      rest ← walk_entries walk key es;
      Some ((key, c) :: sub ++ rest)
  end.

(** In-order traversal from a node's CID, restoring the compressed keys. *)
Fixpoint walk (fuel : nat) (store : Cid → option bytes) (cid : Cid) : option (list (bytes * Cid)) :=
  match fuel with
  | O => None
  | S fuel =>
      b ← store cid;
      v ← result_ok (cbor_from_slice b);
      l ← de_option_cid (de_field "l" v);
      es ← de_field "e" v ≫= de_list;
      left_ ← walk_child (walk fuel store) l;
      rest ← walk_entries (walk fuel store) [] es;
      Some (left_ ++ rest)
  end.

(** ** The index arithmetic computes the segments *)

Definition unsegment (left_ : list mentry) (rest : list (mentry * list mentry)) : list mentry :=
  left_ ++ concat ((λ es, es.1 :: es.2) <$> rest).

Lemma segments_spec at_ entries :
  let '(left_, rest) := segments at_ entries in
  entries = unsegment left_ rest ∧
  Forall (λ e, m_layer e ≠ at_) left_ ∧
  Forall (λ es, m_layer es.1 = at_ ∧ Forall (λ e, m_layer e ≠ at_) es.2) rest.
Proof.
  unfold unsegment. induction entries as [|e entries IH]; simpl; [done|].
  destruct (segments at_ entries) as [l r]. destruct IH as (-> & Hl & Hr).
  destruct (decide (m_layer e = at_)); simpl; split_and!; try done; by constructor.
Qed.

Lemma anchors_head i at_ entries :
  default (i + length entries)%nat (head (anchors_from i at_ entries))
  = (i + length (segments at_ entries).1)%nat.
Proof.
  revert i. induction entries as [|e entries IH]; intros i; simpl; [done|].
  destruct (segments at_ entries) as [l r] eqn:Hs. destruct (decide (m_layer e = at_)); simpl; [lia|].
  rewrite <-Nat.add_succ_comm, IH. simpl. lia.
Qed.

Lemma slice_mid {A} (pre mid post : list A) :
  slice (length pre) (length pre + length mid) (pre ++ mid ++ post) = mid.
Proof. unfold slice. rewrite drop_app_length, Nat.add_comm, Nat.add_sub. apply take_app_length. Qed.

(** Running the builder on [blocks], when it writes [w] and returns [a]. *)
Definition writing {A} (blocks : blockmap) (r : result Error (A * written)) : result Error (A * blockmap) :=
  '(a, w) ← r; Ok (a, write_all blocks w).

Lemma write_all_app blocks w w' : write_all blocks (w ++ w') = write_all (write_all blocks w) w'.
Proof. apply foldl_app. Qed.

Lemma anchor_loop_segments child_ ref_child_ at_ pre suf previous blocks :
  (∀ seg blocks, child_ seg blocks = writing blocks (ref_child_ seg)) →
  anchor_loop child_ (pre ++ suf) (anchors_from (length pre) at_ suf) previous blocks
  = writing blocks (ref_loop ref_child_ (segments at_ suf).2 previous).
Proof.
  intros Hchild. revert pre previous blocks.
  induction suf as [|e suf IH]; intros pre previous blocks; simpl; [done|].
  pose proof (anchors_head (S (length pre)) at_ suf) as Hhead.
  pose proof (segments_spec at_ suf) as Hspec.
  specialize (IH (pre ++ [e])). rewrite length_app, Nat.add_comm, <-app_assoc in IH. simpl in IH.
  destruct (segments at_ suf) as [l r]. destruct Hspec as [Hspec _].
  destruct (decide (m_layer e = at_)); simpl; [|apply IH].
  assert (Hslice : slice (length pre + 1) (S (length pre) + length l) (pre ++ e :: suf) = l).
  { pose proof (slice_mid (pre ++ [e]) l (concat ((λ es, es.1 :: es.2) <$> r))) as Hm.
    rewrite length_app, <-app_assoc in Hm. rewrite Hspec. unfold unsegment.
    etransitivity; [|exact Hm]. simpl. f_equal. lia. }
  rewrite list_lookup_middle by done. destruct e as [[key value] n]. simpl.
  rewrite length_app. simpl.
  replace (length pre + S (length suf))%nat with (S (length pre) + length suf)%nat by lia.
  cbn [fst] in Hhead. rewrite Hhead.
  rewrite Hslice, Hchild. unfold writing at 1 2.
  destruct (ref_child_ l) as [[tree w]|]; simpl; [|done]. simpl in IH. rewrite IH. unfold writing.
  unfold m_key. simpl. destruct (ref_loop ref_child_ r key) as [[es w']|]; simpl; [|done].
  by rewrite write_all_app.
Qed.

Lemma subtree_eq at_ entries blocks :
  subtree at_ entries blocks =
    (let anchors := anchors_from 0 at_ entries in
     '(left_, blocks) ← child subtree (slice 0 (default (length entries) (head anchors)) entries) at_ blocks;
     '(es, blocks) ←
       anchor_loop (λ entries blocks, child subtree entries at_ blocks) entries anchors [] blocks;
     b ← encode (ser_node (mkNode left_ es));
     Ok (cid_for b, bt_insert blocks (cid_for b) b)).
Proof. by destruct at_. Qed.

Lemma ref_subtree_eq at_ entries :
  ref_subtree at_ entries =
    ('(l, w) ← ref_child ref_subtree (segments at_ entries).1 at_;
     '(es, w') ← ref_loop (λ seg, ref_child ref_subtree seg at_) (segments at_ entries).2 [];
     b ← encode (ser_node (mkNode l es));
     Ok (cid_for b, w ++ w' ++ [(cid_for b, b)])).
Proof. by destruct at_; simpl; destruct (segments _ entries). Qed.

Lemma subtree_ref at_ entries blocks :
  subtree at_ entries blocks = writing blocks (ref_subtree at_ entries).
Proof.
  revert entries blocks. induction at_ as [at_ IH] using lt_wf_ind; intros entries blocks.
  assert (Hchild : ∀ seg blocks, child subtree seg at_ blocks = writing blocks (ref_child ref_subtree seg at_)).
  { intros seg bs. destruct seg as [|e seg]; [done|]. destruct at_ as [|at_]; [done|]. cbn [child ref_child].
    rewrite IH by lia. unfold writing. by destruct (ref_subtree _ _) as [[]|]. }
  rewrite subtree_eq, ref_subtree_eq. cbv zeta.
  pose proof (anchors_head 0 at_ entries) as Hhead. simpl in Hhead. rewrite Hhead.
  pose proof (segments_spec at_ entries) as Hspec.
  assert (Hleft : slice 0 (length (segments at_ entries).1) entries = (segments at_ entries).1).
  { destruct (segments at_ entries) as [l r]. destruct Hspec as [-> _]. apply (slice_mid []). }
  rewrite Hleft, Hchild. unfold writing at 1.
  destruct (ref_child ref_subtree _ at_) as [[l w]|]; simpl; [|done].
  rewrite (anchor_loop_segments _ (λ seg, ref_child ref_subtree seg at_) at_ [] entries) by done.
  unfold writing at 1. destruct (ref_loop _ _ []) as [[es w']|]; simpl; [|done].
  destruct (encode _) as [b|]; simpl; [|done]. by rewrite !write_all_app.
Qed.

(** ** Failures *)

Lemma segments_layers at_ entries :
  Forall (λ e, (m_layer e ≤ at_)%nat) entries →
  Forall (λ e, (m_layer e < at_)%nat) (segments at_ entries).1 ∧
  Forall (λ es, Forall (λ e, (m_layer e < at_)%nat) es.2) (segments at_ entries).2.
Proof.
  intros Hle. pose proof (segments_spec at_ entries) as Hs. destruct (segments at_ entries) as [l r].
  destruct Hs as (-> & Hl & Hr). unfold unsegment in Hle. apply Forall_app in Hle as [Hle Hle'].
  rewrite Forall_concat, Forall_fmap in Hle'. simpl. split.
  - apply Forall_forall. intros e He. rewrite !Forall_forall in *. specialize (Hl e He). specialize (Hle e He).
    simpl in *. lia.
  - apply Forall_forall. intros es Hes. rewrite !Forall_forall in *. intros e He.
    destruct (Hr es Hes) as [_ Hn]. rewrite Forall_forall in Hn. specialize (Hn e He).
    specialize (Hle' es Hes). simpl in Hle'. rewrite Forall_forall in Hle'.
    specialize (Hle' e ltac:(by right)). simpl in *. lia.
Qed.

Definition encoder_error (e : Error) : Prop := ∃ n, encode (ser_node n) = Err e.

Lemma ref_subtree_err at_ entries e :
  Forall (λ e, (m_layer e ≤ at_)%nat) entries → ref_subtree at_ entries = Err e → encoder_error e.
Proof.
  revert entries. induction at_ as [at_ IH] using lt_wf_ind. intros entries Hle.
  destruct (segments_layers _ _ Hle) as [Hl Hr]. rewrite ref_subtree_eq.
  assert (Hchild : ∀ seg, Forall (λ e, (m_layer e < at_)%nat) seg →
    ref_child ref_subtree seg at_ = Err e → encoder_error e).
  { intros [|x seg] Hseg; [done|]. destruct at_ as [|at_]; simpl.
    { apply Forall_cons in Hseg as [? _]. lia. }
    intros [?|([c w] & _ & ?)]%bind_err; [|done]. apply (IH at_ ltac:(lia)) with (x :: seg); [|done].
    eapply Forall_impl; [exact Hseg|]. simpl. lia. }
  intros [?|([l w] & _ & He)]%bind_err; [by eapply Hchild|].
  apply bind_err in He as [He|([es w'] & _ & [?|(b & _ & ?)]%bind_err)]; [|by eexists|done].
  clear l w. generalize (@nil byte) as prev, He. clear He.
  induction Hr as [|[x seg] r Hseg _ IHr]; simpl; [done|].
  intros prev [?|([t w] & _ & [He|([es w'] & _ & ?)]%bind_err)]%bind_err; [by eapply Hchild| |done].
  by eapply IHr.
Qed.

Lemma top_layer_le entries : Forall (λ e, (m_layer e ≤ top_layer entries)%nat) entries.
Proof.
  unfold top_layer. induction entries as [|e entries IH]; simpl; constructor; [lia|].
  eapply Forall_impl; [exact IH|]. simpl. lia.
Qed.

(** ** Reading back *)

Lemma common_prefix_restore a b : take (common_prefix a b) a ++ drop (common_prefix a b) b = b.
Proof.
  revert b. induction a as [|x a IH]; intros [|y b]; simpl; try done.
  destruct (decide (x = y)) as [->|]; simpl; [|done]. by rewrite IH.
Qed.

Lemma de_ser_option_cid o : de_option_cid (Some (ser_option_cid o)) = Some o.
Proof. by destruct o. Qed.

Lemma de_ser_entry n k v t :
  de_entry (ser_entry (mkEntry (Z.of_nat n) k v t)) = Some (n, k, v, t).
Proof.
  unfold de_entry. set (e := ser_entry _).
  replace (de_field "p" e) with (Some (IInteger (Z.of_nat n))) by reflexivity.
  replace (de_field "k" e) with (Some (IBytes k)) by reflexivity.
  replace (de_field "v" e) with (Some (ILink v)) by reflexivity.
  replace (de_field "t" e) with (Some (ser_option_cid t)) by reflexivity.
  rewrite de_ser_option_cid. unfold de_nat, de_bytes, de_cid. cbn [mbind option_bind].
  by rewrite (proj2 (Z.leb_le _ _)), Nat2Z.id by lia.
Qed.

Definition stores (store : Cid → option bytes) (w : written) : Prop :=
  Forall (λ cb, store cb.1 = Some cb.2) w.

Definition pairs_of (entries : list mentry) : list (bytes * Cid) := (λ e, (m_key e, m_value e)) <$> entries.

Context {HLaws : DagCborLaws}.

Lemma encode_decode v b : encode v = Ok b → cbor_from_slice b = Ok v.
Proof. unfold encode. rewrite map_err_ok. apply cbor_roundtrip. Qed.

Lemma walk_entries_loop walk_ store child_ rest prev es w :
  (∀ seg o w, child_ seg = Ok (o, w) → stores store w → walk_child walk_ o = Some (pairs_of seg)) →
  ref_loop child_ rest prev = Ok (es, w) → stores store w →
  walk_entries walk_ prev (ser_entry <$> es) = Some (pairs_of (concat ((λ es, es.1 :: es.2) <$> rest))).
Proof.
  intros Hchild. revert prev es w. induction rest as [|[e seg] rest IH]; intros prev es w; simpl.
  { by intros [= <- <-]. }
  intros ([t w1] & Ht & ([es' w2] & Hes & [= <- <-])%bind_ok)%bind_ok [Hw1 Hw2]%Forall_app.
  cbn [fmap list_fmap walk_entries]. rewrite de_ser_entry. simpl.
  rewrite (Hchild _ _ _ Ht Hw1), common_prefix_restore. simpl.
  rewrite (IH _ _ _ Hes Hw2). simpl. unfold pairs_of. by rewrite fmap_app.
Qed.

Lemma walk_ref store at_ entries c w :
  ref_subtree at_ entries = Ok (c, w) → stores store w →
  walk (S at_) store c = Some (pairs_of entries).
Proof.
  revert entries c w. induction at_ as [at_ IH] using lt_wf_ind. intros entries c w.
  rewrite ref_subtree_eq.
  intros ([l w1] & Hl & ([es w2] & Hes & (b & Hb & [= <- <-])%bind_ok)%bind_ok)%bind_ok Hw.
  apply Forall_app in Hw as [Hw1 [Hw2 [Hw3 _]%Forall_cons]%Forall_app]. simpl in Hw3.
  assert (Hchild : ∀ seg o w, ref_child ref_subtree seg at_ = Ok (o, w) → stores store w →
    walk_child (walk at_ store) o = Some (pairs_of seg)).
  { intros [|x seg] o w0; simpl; [by intros [= <- <-]|]. destruct at_ as [|at_]; [done|].
    intros ([c w0'] & Hc & [= <- <-])%bind_ok Hs.
    exact (IH at_ ltac:(lia) _ _ _ Hc Hs). }
  cbn [walk]. rewrite Hw3. cbn [mbind option_bind]. rewrite (encode_decode _ _ Hb). simpl.
  replace (match ser_option_cid l with INull => Some None | _ => Some <$> de_cid (ser_option_cid l) end)
    with (Some l) by by destruct l.
  simpl. rewrite (Hchild _ _ _ Hl Hw1). simpl.
  rewrite (walk_entries_loop _ _ _ _ _ _ _ Hchild Hes Hw2). simpl.
  unfold pairs_of. rewrite <-fmap_app. do 2 f_equal.
  pose proof (segments_spec at_ entries) as Hspec. destruct (segments at_ entries). by destruct Hspec as [-> _].
Qed.

(** Every block a tree writes is addressed by its hash. *)
Lemma ref_subtree_hashes at_ entries c w :
  ref_subtree at_ entries = Ok (c, w) → Forall (λ cb, cid_for cb.2 = cb.1) w.
Proof.
  revert entries c w. induction at_ as [at_ IH] using lt_wf_ind. intros entries c w.
  rewrite ref_subtree_eq.
  intros ([l w1] & Hl & ([es w2] & Hes & (b & Hb & [= <- <-])%bind_ok)%bind_ok)%bind_ok.
  assert (Hchild : ∀ seg o w, ref_child ref_subtree seg at_ = Ok (o, w) → Forall (λ cb, cid_for cb.2 = cb.1) w).
  { intros [|x seg] o w0; simpl; [by intros [= <- <-]|]. destruct at_ as [|at_]; [done|].
    intros ([c w0'] & Hc & [= <- <-])%bind_ok. exact (IH at_ ltac:(lia) _ _ _ Hc). }
  rewrite !Forall_app. split_and!; [by eapply Hchild| |by constructor].
  clear Hl Hb. revert Hes. generalize (@nil byte) as prev.
  generalize (segments at_ entries).2 as rest. intros rest. revert es w2.
  induction rest as [|[e seg] rest IHr]; intros es w2 prev; simpl; [by intros [= <- <-]|].
  intros ([t w3] & Ht & ([es' w4] & Hes & [= <- <-])%bind_ok)%bind_ok.
  apply Forall_app. split; [by eapply Hchild|by eapply IHr].
Qed.

(** Two blocks of a list never share an address with different contents. *)
Definition no_collision (w : written) : Prop :=
  ∀ x y, x ∈ w → y ∈ w → x.1 = y.1 → x.2 = y.2.

Context {HCid : CidLaws}.

Lemma write_all_sorted blocks w : bt_sorted blocks → bt_sorted (write_all blocks w).
Proof. revert blocks. induction w as [|[c b] w IH]; intros blocks Hs; simpl; auto with psky. Qed.

Lemma write_all_get blocks w c b :
  bt_sorted blocks → no_collision (blocks ++ w) →
  bt_get (write_all blocks w) c = Some b ↔ (c, b) ∈ blocks ++ w.
Proof.
  revert blocks. induction w as [|[c' b'] w IH]; intros blocks Hs Hn; simpl.
  { rewrite app_nil_r. by apply bt_get_elem. }
  assert (Hsub : ∀ x, x ∈ bt_insert blocks c' b' ++ w ↔ x ∈ blocks ++ (c', b') :: w).
  { intros x. rewrite !elem_of_app, elem_of_cons. split.
    - intros [[->|?]%bt_insert_elem|?]; auto.
    - intros [Hx|[->|?]]; [|left; apply bt_get_elem; auto with psky; by apply bt_get_insert_eq|auto].
      left. destruct x as [cx bx]. apply bt_get_elem; [auto with psky|].
      destruct (decide (c' = cx)) as [<-|Hne].
      + rewrite bt_get_insert_eq by done. f_equal.
        apply (Hn (c', b') (c', bx)); rewrite ?elem_of_app, ?elem_of_cons; auto.
      + rewrite bt_get_insert_ne by done. by apply bt_get_elem. }
  rewrite IH by (auto with psky; intros x y; rewrite !Hsub; apply Hn). apply Hsub.
Qed.

End mst.

Section theorems.
Context {SHA : Sha256} {CID : CidLib} {HDC : DagCbor}.

(** The blocks a tree over [mapping] consists of. *)
Definition tree_blocks (mapping : list (string * Cid)) : list (Cid * bytes) :=
  match ref_build mapping with Ok (_, w) => w | Err _ => [] end.

(** A digest read as a big-endian number. *)
Definition big_endian (digest : bytes) : Z := foldr (λ b k, λ n, k (n * 256 + byte_Z b)) id digest 0.

Lemma leading_zeros_spec b :
  0 ≤ leading_zeros b ≤ 8 ∧ byte_Z b < 2 ^ (8 - leading_zeros b) ∧
  (byte_Z b ≠ 0 → leading_zeros b < 8 ∧ 2 ^ (7 - leading_zeros b) ≤ byte_Z b).
Proof.
  unfold leading_zeros. pose proof (byte_Z_range b) as Hb.
  destruct (Z.eqb_spec (byte_Z b) 0) as [->|Hne]; [by vm_compute|].
  pose proof (Z.log2_nonneg (byte_Z b)). pose proof (Z.log2_spec (byte_Z b) ltac:(lia)) as [Hl Hh].
  assert (Z.log2 (byte_Z b) < 8) by (apply Z.log2_lt_pow2; lia).
  replace (8 - (7 - Z.log2 (byte_Z b))) with (Z.succ (Z.log2 (byte_Z b))) by lia.
  replace (7 - (7 - Z.log2 (byte_Z b))) with (Z.log2 (byte_Z b)) by lia. split_lia.
Qed.

Definition be_from (n : Z) (digest : bytes) : Z := foldr (λ b k, λ n, k (n * 256 + byte_Z b)) id digest n.

Lemma be_from_split n d : be_from n d = n * 2 ^ (8 * len d) + big_endian d.
Proof.
  unfold big_endian. change (foldr _ id d 0) with (be_from 0 d).
  revert n. induction d as [|b d IH]; intros n; simpl; autorewrite with psky.
  { unfold be_from. simpl. unfold id. lia. }
  change (be_from n (b :: d)) with (be_from (n * 256 + byte_Z b) d).
  change (be_from 0 (b :: d)) with (be_from (0 * 256 + byte_Z b) d).
  rewrite IH, (IH (0 * 256 + byte_Z b)). replace (8 * (1 + len d)) with (8 + 8 * len d) by lia.
  rewrite Z.pow_add_r by (pose proof (len_nonneg d); lia). change (2 ^ 8) with 256. ring.
Qed.

Lemma big_endian_cons b d : big_endian (b :: d) = byte_Z b * 2 ^ (8 * len d) + big_endian d.
Proof.
  change (big_endian (b :: d)) with (be_from (0 * 256 + byte_Z b) d). rewrite be_from_split. f_equal; lia.
Qed.

Lemma big_endian_range d : 0 ≤ big_endian d < 2 ^ (8 * len d).
Proof.
  induction d as [|b d IH]; [by vm_compute|]. rewrite big_endian_cons. autorewrite with psky.
  pose proof (byte_Z_range b). replace (8 * (1 + len d)) with (8 + 8 * len d) by lia.
  rewrite Z.pow_add_r by (pose proof (len_nonneg d); lia). change (2 ^ 8) with 256. nia.
Qed.

Lemma count_zeros_add d z : count_zeros d z = z + count_zeros d 0.
Proof.
  revert z. induction d as [|b d IH]; intros z; cbn [count_zeros]; [lia|].
  destruct (negb (byte_Z b =? 0)); [lia|]. rewrite (IH (z + _)), (IH (0 + _)). lia.
Qed.

Lemma count_zeros_spec d :
  0 ≤ count_zeros d 0 ≤ 8 * len d ∧ big_endian d < 2 ^ (8 * len d - count_zeros d 0) ∧
  (big_endian d ≠ 0 → 2 ^ (8 * len d - count_zeros d 0 - 1) ≤ big_endian d).
Proof.
  induction d as [|b d (Hr & Hlt & Hge)]; [by vm_compute|].
  rewrite big_endian_cons. cbn [count_zeros]. autorewrite with psky.
  destruct (leading_zeros_spec b) as (Hz & Hb & Hb'). pose proof (big_endian_range d).
  pose proof (len_nonneg d).
  destruct (Z.eqb_spec (byte_Z b) 0) as [E|E]; cbn [negb].
  - rewrite count_zeros_add, E. replace (leading_zeros b) with 8 by (unfold leading_zeros; by rewrite E).
    replace (8 * (1 + len d) - (0 + 8 + count_zeros d 0)) with (8 * len d - count_zeros d 0) by lia.
    split_and!; [lia|lia|lia|done].
  - specialize (Hb' E) as [Hz' Hb']. split_and!; [lia|lia| |intros _].
    + replace (8 * (1 + len d) - (0 + leading_zeros b)) with ((8 - leading_zeros b) + 8 * len d) by lia.
      rewrite Z.pow_add_r by lia. nia.
    + replace (8 * (1 + len d) - (0 + leading_zeros b) - 1) with ((7 - leading_zeros b) + 8 * len d) by lia.
      rewrite Z.pow_add_r by lia. nia.
Qed.

Lemma build_writes mapping blocks :
  build mapping blocks = ('(root, w) ← ref_build mapping; Ok (root, write_all blocks w)).
Proof. apply subtree_ref. Qed.

(** The layer of a key is the number of leading zero bit pairs of its
    digest: the digest, read as a big-endian number, lies below the bound that
    [layer] pairs of zeros give, and below no smaller one unless it is zero. *)
Theorem layer_counts_zero_pairs key :
  let bits := 8 * len (sha256 key) in
  let n := Z.of_nat (layer key) in
  0 ≤ 2 * n ≤ bits ∧
  big_endian (sha256 key) < 2 ^ (bits - 2 * n) ∧
  (big_endian (sha256 key) ≠ 0 → 2 ^ (bits - 2 * (n + 1)) ≤ big_endian (sha256 key)).
Proof.
  cbv zeta. unfold layer. destruct (count_zeros_spec (sha256 key)) as (Hr & Hlt & Hge).
  set (z := count_zeros (sha256 key) 0) in *. rewrite Z2Nat.id by (apply Z.div_pos; lia).
  pose proof (Z.div_mod z 2 ltac:(lia)). pose proof (Z.mod_pos_bound z 2 ltac:(lia)).
  split_and!; [lia|lia| |intros Hne].
  - eapply Z.lt_le_trans; [exact Hlt|]. apply Z.pow_le_mono_r; lia.
  - etransitivity; [|exact (Hge Hne)].
    apply Z.pow_le_mono_r; lia.
Qed.

(** C37: the index arithmetic of the batch builder (anchors, slices, the
    mutable [previous] key and block map) computes the structural reference
    construction: the same root, and the reference's blocks written in order. *)
Theorem build_matches_reference mapping blocks :
  build mapping blocks = ('(root, w) ← ref_build mapping; Ok (root, write_all blocks w)).
Proof. apply subtree_ref. Qed.

(** The builder never underflows a layer and never indexes out of range:
    it succeeds, or returns the error of encoding one node. *)
Theorem build_only_encoder_errors mapping blocks :
  (∃ root, build mapping blocks = Ok (root, write_all blocks (tree_blocks mapping))) ∨
  (∃ n e, encode (ser_node n) = Err e ∧ build mapping blocks = Err e).
Proof.
  unfold build, tree_blocks, ref_build. rewrite subtree_ref. unfold writing.
  destruct (ref_subtree _ _) as [[root w]|e] eqn:Hr; simpl; [left; by eexists|right].
  apply ref_subtree_err in Hr as [n Hn]; [|apply top_layer_le]. eauto.
Qed.

(** Reading a built tree back from its blocks, in order and restoring the
    compressed keys, gives exactly the mapping, provided no two of its blocks
    collide.  The walk descends once per layer, so the top layer bounds it. *)
Theorem build_reads_back (HC : CidLaws) (HD : DagCborLaws) mapping root blocks :
  build mapping [] = Ok (root, blocks) →
  no_collision (tree_blocks mapping) →
  walk (S (top_layer (entries_of mapping))) (bt_get blocks) root
  = Some ((λ '(k, v), (as_bytes k, v)) <$> mapping).
Proof.
  unfold build, tree_blocks, ref_build. rewrite subtree_ref. unfold writing.
  destruct (ref_subtree _ _) as [[root' w]|e] eqn:Hr; cbn [mbind result_bind]; [|done]. intros [= <- <-] Hn.
  rewrite (walk_ref _ _ _ _ _ Hr).
  - unfold pairs_of, entries_of. f_equal. rewrite <-list_fmap_compose. apply list_fmap_ext. by intros ? [k v] ?.
  - apply Forall_forall. intros [c b] Hin. apply write_all_get; [constructor|done|done].
Qed.
End theorems.

Definition demo_mapping : list (string * @Cid toy_cid) :=
  [("app.bsky.feed.post/a1", "c1"); ("app.bsky.feed.post/g1", "c2"); ("app.bsky.feed.post/i1", "c3");
   ("app.bsky.feed.post/p1", "c4"); ("app.bsky.graph.follow/w1", "c5")].

(** Three layers, one of them through an empty intermediate node. *)
Example demo_layers : m_layer <$> entries_of demo_mapping = [0; 2; 0; 1; 0]%nat.
Proof. vm_compute. done. Qed.

Definition collision_free (w : list (@Cid toy_cid * bytes)) : bool :=
  forallb (λ x, forallb (λ y, negb (bool_decide (x.1 = y.1)) || bool_decide (x.2 = y.2)) w) w.

Lemma no_collision_check (w : list (@Cid toy_cid * bytes)) :
  collision_free w = true → no_collision w.
Proof.
  intros Hc x y Hx%list_elem_of_In Hy%list_elem_of_In Hxy.
  unfold collision_free in Hc. rewrite forallb_forall in Hc. specialize (Hc x Hx). simpl in Hc.
  rewrite forallb_forall in Hc. specialize (Hc y Hy). rewrite bool_decide_true in Hc by done.
  by apply bool_decide_eq_true in Hc.
Qed.

Lemma build_reads_back_witness :
  (∃ root blocks, build demo_mapping [] = Ok (root, blocks) ∧
     walk (S (top_layer (entries_of demo_mapping))) (bt_get blocks) root
     = Some ((λ '(k, v), (as_bytes k, v)) <$> demo_mapping)).
Proof.
  destruct (build demo_mapping []) as [[root blocks]|e] eqn:Hb; [|by vm_compute in Hb].
  exists root, blocks. split; [done|].
  apply (build_reads_back toy_cid_laws toy_cbor_laws demo_mapping root blocks); [exact Hb|].
  apply no_collision_check. vm_compute. done.
Defined.
