(* ===== verification/RepoCar.v ===== *)
(** * CARv1 export ([crates/psky-repo/src/car.rs])

    The exporter frames the header and every block with a varint length.
    [read_car] is an independent reader of such files; the source has none. *)

From S2P Require Import Prelude RustStd BTreeMap Externs Fixtures RepoSyntax RepoRecords.
Import Repo.

(** The [while] loop runs at most [fuel] times; a [usize] needs nine. *)
Fixpoint varint_loop (fuel : nat) (n : Z) (out : bytes) : bytes :=
  match fuel with
  | S fuel =>
      if 128 <=? n
      then varint_loop fuel (Z.shiftr n 7) (out ++ [Z_byte (Z.lor (Z.land (n mod 256) 127) 128)])
      else out ++ [Z_byte n]
  | O => out ++ [Z_byte n]
  end.

Definition varint (n : Z) (out : bytes) : bytes := varint_loop 9 n out.

Section car.
Context {CID : CidLib} {HDC : DagCbor}.

Record Header := mkHeader { roots : list Cid; version : Z }.

Definition ser_header (h : Header) : Ipld :=
  ser_struct [("roots", IList (ILink <$> roots h)); ("version", IInteger (version h))].

Definition block (cid : Cid) (b : bytes) (out : bytes) : bytes :=
  let encoded := cid_to_bytes cid in
  varint (len encoded + len b) out ++ encoded ++ b.

Definition export (root : Cid) (blocks : list (Cid * bytes)) : result Error bytes :=
  header ← encode (ser_header (mkHeader [root] 1));
  let out := varint (len header) [] ++ header in
  root_bytes ← ok_or (Verification "missing CAR root") (bt_get blocks root);
  let out := block root root_bytes out in
  Ok (foldl (λ out '(cid, b), if decide (cid = root) then out else block cid b out) out blocks).
End car.

(** ** A reader *)

Fixpoint read_varint (b : bytes) : option (Z * bytes) :=
  match b with
  | [] => None
  | c :: b =>
      if byte_Z c <? 128 then Some (byte_Z c, b)
      else '(n, rest) ← read_varint b; Some (byte_Z c - 128 + 128 * n, rest)
  end.

(** A length prefix and that many bytes. *)
Definition read_frame (b : bytes) : option (bytes * bytes) :=
  '(n, b) ← read_varint b;
  if n <=? len b then Some (take (Z.to_nat n) b, drop (Z.to_nat n) b) else None.

Section reader.
Context {CID : CidLib} {HDC : DagCbor}.

Fixpoint read_blocks (fuel : nat) (b : bytes) : option (list (Cid * bytes)) :=
  match fuel, b with
  | _, [] => Some []
  | O, _ => None
  | S fuel, _ =>
      '(frame, rest) ← read_frame b;
      '(cid, data) ← cid_read_bytes frame;
      blocks ← read_blocks fuel rest;
      Some ((cid, data) :: blocks)
  end.

Definition read_car (b : bytes) : option (list Cid * Z * list (Cid * bytes)) :=
  '(frame, rest) ← read_frame b;
  h ← result_ok (cbor_from_slice frame);
  version ← de_field "version" h ≫= de_u64;
  roots ← match de_field "roots" h with Some (IList l) => mapM de_cid l | _ => None end;
  blocks ← read_blocks (length rest) rest;
  Some (roots, version, blocks).
End reader.

(** ** Framing *)

Lemma varint_loop_out fuel n out : varint_loop fuel n out = out ++ varint_loop fuel n [].
Proof.
  revert n out. induction fuel as [|fuel IH]; intros n out; simpl; [done|].
  destruct (128 <=? n); [|done]. rewrite IH, (IH _ [_]). by rewrite <-app_assoc.
Qed.

Lemma varint_out n out : varint n out = out ++ varint n [].
Proof. apply varint_loop_out. Qed.

Lemma low_seven n : byte_Z (Z_byte (Z.lor (Z.land (n mod 256) 127) 128)) = n mod 128 + 128.
Proof.
  rewrite byte_Z_of. change 127 with (Z.ones 7). rewrite Z.land_ones by lia. change (2 ^ 7) with 128.
  rewrite <-Z.add_nocarry_lor.
  - pose proof (Z.mod_pos_bound n 128 ltac:(lia)).
    replace (n mod 256 mod 128) with (n mod 128) by (apply Znumtheory.Zmod_div_mod; [lia..|by exists 2]).
    rewrite Z.mod_small; lia.
  - apply Z.bits_inj'. intros k Hk. rewrite Z.land_spec, Z.bits_0.
    change 128 with (2 ^ 7). rewrite Z.pow2_bits_eqb by lia.
    destruct (Z.eqb_spec 7 k) as [<-|]; [|by rewrite andb_false_r].
    rewrite Z.mod_pow2_bits_high by lia. done.
Qed.

Lemma read_varint_loop fuel n rest :
  0 ≤ n < 128 * 128 ^ Z.of_nat fuel → read_varint (varint_loop fuel n [] ++ rest) = Some (n, rest).
Proof.
  revert n. induction fuel as [|fuel IH]; intros n Hn; simpl.
  - rewrite byte_Z_of, Z.mod_small by lia. by rewrite (proj2 (Z.ltb_lt _ _)) by lia.
  - destruct (Z.leb_spec 128 n).
    + rewrite varint_loop_out. simpl. rewrite low_seven.
      pose proof (Z.mod_pos_bound n 128 ltac:(lia)). rewrite (proj2 (Z.ltb_ge _ _)) by lia.
      rewrite Z.shiftr_div_pow2 by lia. change (2 ^ 7) with 128.
      rewrite IH; simpl.
      * do 2 f_equal. pose proof (Z.div_mod n 128 ltac:(lia)). lia.
      * rewrite Nat2Z.inj_succ, Z.pow_succ_r in Hn by lia.
        split; [apply Z.div_pos; lia|apply Z.div_lt_upper_bound; lia].
    + simpl. rewrite byte_Z_of, Z.mod_small by lia. by rewrite (proj2 (Z.ltb_lt _ _)) by lia.
Qed.

Lemma read_frame_varint data rest :
  len data ≤ U64_MAX → read_frame (varint (len data) [] ++ data ++ rest) = Some (data, rest).
Proof.
  intros Hd. unfold read_frame, varint. rewrite read_varint_loop.
  - cbn [mbind option_bind]. rewrite len_app, (proj2 (Z.leb_le _ _)) by (pose proof (len_nonneg rest); lia).
    unfold len. rewrite Nat2Z.id, take_app_length, drop_app_length. done.
  - pose proof (len_nonneg data). assert (U64_MAX < 128 * 128 ^ Z.of_nat 9) by (vm_compute; done). lia.
Qed.

Section export.
Context {CID : CidLib} {HDC : DagCbor}.

Definition block_bytes (cb : Cid * bytes) : bytes :=
  varint (len (cid_to_bytes cb.1) + len cb.2) [] ++ cid_to_bytes cb.1 ++ cb.2.

Definition encode_blocks (bs : list (Cid * bytes)) : bytes := concat (block_bytes <$> bs).
Lemma encode_blocks_cons cb bs : encode_blocks (cb :: bs) = block_bytes cb ++ encode_blocks bs.
Proof. done. Qed.
#[local] Opaque encode_blocks.

(** The blocks of a file, in the exporter's order: the root first. *)
Definition car_blocks (root : Cid) (root_bytes : bytes) (blocks : list (Cid * bytes)) : list (Cid * bytes) :=
  (root, root_bytes) :: filter (λ cb, cb.1 ≠ root) blocks.

Lemma block_out cid b out : block cid b out = out ++ block_bytes (cid, b).
Proof. unfold block, block_bytes. by rewrite varint_out, <-app_assoc. Qed.

Lemma export_blocks root out blocks :
  foldl (λ out '(cid, b), if decide (cid = root) then out else block cid b out) out blocks
  = out ++ encode_blocks (filter (λ cb, cb.1 ≠ root) blocks).
Proof.
  revert out. induction blocks as [|[c b] blocks IH]; intros out; simpl; [symmetry; apply app_nil_r|].
  rewrite IH. rewrite filter_cons. simpl. destruct (decide (c = root)).
  - by rewrite decide_False by (intros Hc; by apply Hc).
  - rewrite decide_True by done. by rewrite block_out, encode_blocks_cons, <-app_assoc.
Qed.

Context {HCid : CidLaws} {HLaws : DagCborLaws}.

Lemma varint_nonempty n : (1 ≤ length (varint n []))%nat.
Proof.
  unfold varint. generalize 9%nat as fuel. intros [|fuel]; simpl; [lia|].
  destruct (128 <=? n); simpl; [|lia]. rewrite varint_loop_out, length_app. simpl. lia.
Qed.

Lemma block_bytes_len cb : len cb.2 ≤ len (block_bytes cb) ∧ (1 ≤ length (block_bytes cb))%nat ∧
  len (cid_to_bytes cb.1 ++ cb.2) ≤ len (block_bytes cb).
Proof.
  unfold block_bytes. rewrite !len_app, length_app.
  pose proof (varint_nonempty (len (cid_to_bytes cb.1) + len cb.2)).
  unfold len in *. split_and!; lia.
Qed.

Lemma read_blocks_bytes fuel bs :
  len (encode_blocks bs) ≤ U64_MAX → (length (encode_blocks bs) ≤ fuel)%nat →
  read_blocks fuel (encode_blocks bs) = Some bs.
Proof.
  revert bs. induction fuel as [|fuel IH]; intros [|[c b] bs] Hb Hf; try done;
    rewrite encode_blocks_cons in *; rewrite length_app in Hf; rewrite len_app in Hb;
    destruct (block_bytes_len (c, b)) as (Hl & Hn & Hcb); [lia..|].
  cbn [read_blocks]. destruct (block_bytes (c, b) ++ encode_blocks bs) as [|x l] eqn:E.
  { apply app_eq_nil in E as [E _]. rewrite E in Hn. simpl in Hn. lia. }
  rewrite <-E. unfold block_bytes at 1. rewrite <-app_assoc. cbn [fst snd] in *.
  pose proof (len_nonneg (encode_blocks bs)). pose proof (len_nonneg b).
  rewrite <-len_app, read_frame_varint by lia. cbn [mbind option_bind].
  rewrite cid_read_to_bytes. cbn [mbind option_bind].
  rewrite IH; [done|lia|lia].
Qed.

Lemma car_reads_back root blocks out :
  export root blocks = Ok out → len out ≤ U64_MAX →
  ∃ root_bytes, bt_get blocks root = Some root_bytes ∧
    read_car out = Some ([root], 1, car_blocks root root_bytes blocks).
Proof.
  unfold export. intros (h & Hh & (rb & Hrb & [= <-])%bind_ok)%bind_ok Hlen.
  apply ok_or_ok in Hrb. exists rb. split; [done|].
  rewrite export_blocks, block_out, <-!app_assoc in *.
  rewrite <-encode_blocks_cons in *. fold (car_blocks root rb blocks) in *.
  rewrite !len_app in Hlen. pose proof (len_nonneg (varint (len h) [])). pose proof (len_nonneg h).
  pose proof (len_nonneg (encode_blocks (car_blocks root rb blocks))).
  unfold read_car. rewrite read_frame_varint by lia. cbn [mbind option_bind].
  unfold encode in Hh. apply map_err_ok, cbor_roundtrip in Hh. rewrite Hh. simpl.
  rewrite read_blocks_bytes by (try done; lia). done.
Qed.

(** A CARv1 reader recovers an export: one root, version 1, and the root's
    block first, followed by every other block once in CID order. *)
Theorem export_reads_back root blocks out :
  export root blocks = Ok out → len out ≤ U64_MAX →
  ∃ root_bytes, bt_get blocks root = Some root_bytes ∧
    read_car out = Some ([root], 1, car_blocks root root_bytes blocks).
Proof. apply car_reads_back. Qed.

(** The exporter fails only on a missing root or an encoder error. *)
Lemma export_ok root blocks b h :
  bt_get blocks root = Some b → encode (ser_header (mkHeader [root] 1)) = Ok h →
  is_Some (result_ok (export root blocks)).
Proof. intros Hb Hh. unfold export. rewrite Hh. simpl. rewrite Hb. simpl. done. Qed.
End export.

Definition demo_blocks : list (@Cid toy_cid * bytes) :=
  [("aa", [x01; x02]); ("bb", repeat x05 200); ("cc", [])].

Definition demo_root : @Cid toy_cid := "bb".

Lemma export_reads_back_witness :
  ∃ out root_bytes, export demo_root demo_blocks = Ok out ∧
    read_car out = Some ([demo_root], 1, car_blocks demo_root root_bytes demo_blocks).
Proof.
  destruct (export demo_root demo_blocks) as [out|] eqn:He; [|by vm_compute in He].
  destruct (export_reads_back demo_root demo_blocks out He) as (rb & _ & Hr).
  - vm_compute in He. injection He as <-. by vm_compute.
  - by exists out, rb.
Defined.
