(* ===== verification/Repository.v ===== *)
(** * Signed repository snapshots ([Repository] of [crates/psky-repo/src/lib.rs])

    [build] assembles the tree, the record blocks and a signed commit;
    [verify] re-derives all of it. *)

From S2P Require Import Prelude RustStd BTreeMap Externs Fixtures RepoSyntax RepoRecords RepoRecordSet RepoMst RepoCar.
Import Repo.

Section repository.
Context {SHA : Sha256} {CID : CidLib} {HDC : DagCbor} {ECD : Ecdsa}.

(** [RepoSigner(SigningKey)] *)
Definition RepoSigner : Type := SigningKey.

Definition signer_from_bytes (b : bytes) : result Error RepoSigner :=
  ok_or Repo.Signature (sk_from_bytes b).

Definition public_key_sec1 (self : RepoSigner) : bytes := sk_public_sec1 self.

Definition sign (self : RepoSigner) (b : bytes) : bytes :=
  let signature := sk_sign self b in
  sig_to_bytes (default signature (sig_normalize_s signature)).

Record UnsignedCommit := mkUnsigned {
  u_did : string; u_version : Z; u_data : Cid; u_rev : string; u_prev : option Cid
}.

Record SignedCommit := mkSigned {
  c_did : string; c_version : Z; c_data : Cid; c_rev : string; c_prev : option Cid; c_sig : bytes
}.

Definition unsigned (self : SignedCommit) : UnsignedCommit :=
  mkUnsigned (c_did self) (c_version self) (c_data self) (c_rev self) (c_prev self).

(** The derived [Serialize] and [Deserialize] instances. *)
Definition ser_unsigned (c : UnsignedCommit) : Ipld :=
  ser_struct [("did", IString (u_did c)); ("version", IInteger (u_version c)); ("data", ILink (u_data c));
              ("rev", IString (u_rev c)); ("prev", ser_option_cid (u_prev c))].

Definition ser_signed (c : SignedCommit) : Ipld :=
  ser_struct [("did", IString (c_did c)); ("version", IInteger (c_version c)); ("data", ILink (c_data c));
              ("rev", IString (c_rev c)); ("prev", ser_option_cid (c_prev c)); ("sig", IBytes (c_sig c))].

Definition de_signed (v : Ipld) : option SignedCommit :=
  did ← de_field "did" v ≫= de_string;
  version ← de_field "version" v ≫= de_u64;
  data ← de_field "data" v ≫= de_cid;
  rev ← de_field "rev" v ≫= de_string;
  prev ← de_option_cid (de_field "prev" v);
  sig ← de_field "sig" v ≫= de_bytes;
  Some (mkSigned did version data rev prev sig).

Definition decode_signed (b : bytes) : result Error SignedCommit :=
  v ← decode b; ok_or (Cbor "commit") (de_signed v).

Record Repository := mkRepository {
  commit : SignedCommit;
  root : Cid;
  repo_records : RecordSet;
  blocks : list (Cid * bytes)
}.

(** [records.iter().map(|(p, r)| (p.into(), r.cid)).collect()] *)
Definition mapping_of (rs : RecordSet) : list (string * Cid) :=
  bt_collect ((λ '(p, r), (p, rec_cid r)) <$> rs_iter rs).

Definition insert_records (rs : RecordSet) (blocks : list (Cid * bytes)) : list (Cid * bytes) :=
  foldl (λ blocks '(_, record), bt_insert blocks (rec_cid record) (rec_bytes record)) blocks (rs_iter rs).

Definition build (did rev : string) (records : RecordSet) (signer : RepoSigner) : result Error Repository :=
  syntax.metadata did rev;;
  '(data, blocks) ← RepoMst.build (mapping_of records) [];
  let blocks := insert_records records blocks in
  let unsigned := mkUnsigned did 3 data rev None in
  u ← encode (ser_unsigned unsigned);
  let commit := mkSigned did 3 data rev None (sign signer u) in
  b ← encode (ser_signed commit);
  let root := cid_for b in
  Ok (mkRepository commit root records (bt_insert blocks root b)).

Definition mst_root (self : Repository) : Cid := c_data (commit self).
Definition revision (self : Repository) : string := c_rev (commit self).
Definition did (self : Repository) : string := c_did (commit self).
Definition repo_block (self : Repository) (cid : Cid) : option bytes := bt_get (blocks self) cid.
Definition block_count (self : Repository) : Z := len (blocks self).
Definition to_car (self : Repository) : result Error bytes := export (root self) (blocks self).

(** [for (cid, bytes) in ..: if self.block(&cid) != Some(bytes) return Err] *)
Definition all_stored (self : Repository) (expected : list (Cid * bytes)) : bool :=
  forallb (λ '(cid, b), bool_decide (repo_block self cid = Some b)) expected.

Definition verify (self : Repository) (public_key : bytes) : result Error () :=
  reject_if (negb (forallb (λ '(cid, b), bool_decide (cid_for b = cid)) (blocks self)))
    (Verification "block hash mismatch");;
  commit_bytes ← ok_or (Verification "missing commit") (repo_block self (root self));
  commit ← decode_signed commit_bytes;
  syntax.metadata (c_did commit) (c_rev commit);;
  (** the re-encoding is evaluated only when the first two tests pass *)
  (if negb (c_version commit =? 3) || bool_decide (is_Some (c_prev commit))
   then Err (Verification "invalid commit schema or encoding")
   else
     b ← encode (ser_signed commit);
     reject_if (negb (bool_decide (b = commit_bytes)))
       (Verification "invalid commit schema or encoding"));;
  key ← ok_or Repo.Signature (vk_from_sec1_bytes public_key);
  sig ← ok_or Repo.Signature (sig_from_slice (c_sig commit));
  reject_if (bool_decide (is_Some (sig_normalize_s sig))) Repo.Signature;;
  u ← encode (ser_unsigned (unsigned commit));
  reject_if (negb (vk_verify key u sig)) Repo.Signature;;
  '(data, expected) ← RepoMst.build (mapping_of (repo_records self)) [];
  reject_if (negb (bool_decide (data = c_data commit))) (Verification "MST root mismatch");;
  reject_if (negb (all_stored self expected)) (Verification "missing or incorrect MST block");;
  reject_if (negb (all_stored self ((λ '(_, r), (rec_cid r, rec_bytes r)) <$> rs_iter (repo_records self))))
    (Verification "missing record block");;
  Ok ().
End repository.

(** ** Properties *)

Section theorems.
Context {SHA : Sha256} {CID : CidLib} {HDC : DagCbor} {ECD : Ecdsa} {B64 : Base64Std}.

Definition record_blocks (rs : RecordSet) : list (Cid * bytes) :=
  (λ '(_, r), (rec_cid r, rec_bytes r)) <$> rs_iter rs.

(** What [build] writes, in order: tree, records, commit. *)
Definition repo_written (rs : RecordSet) (root : Cid) (commit_bytes : bytes) : list (Cid * bytes) :=
  tree_blocks (mapping_of rs) ++ record_blocks rs ++ [(root, commit_bytes)].

Lemma insert_records_write rs blocks : insert_records rs blocks = write_all blocks (record_blocks rs).
Proof.
  unfold insert_records, write_all, record_blocks. generalize (rs_iter rs) as l. intros l. revert blocks.
  induction l as [|[p r] l IH]; intros blocks; simpl; [done|]. by rewrite IH.
Qed.

Lemma de_ser_signed c : is_u64 (c_version c) → de_signed (ser_signed c) = Some c.
Proof.
  intros Hv. unfold de_signed. destruct c as [d v dt r pr sg]. cbn [c_version] in Hv.
  set (s := ser_signed _).
  replace (de_field "did" s) with (Some (IString d)) by reflexivity.
  replace (de_field "version" s) with (Some (IInteger v)) by reflexivity.
  replace (de_field "data" s) with (Some (ILink dt)) by reflexivity.
  replace (de_field "rev" s) with (Some (IString r)) by reflexivity.
  replace (de_field "prev" s) with (Some (ser_option_cid pr)) by reflexivity.
  replace (de_field "sig" s) with (Some (IBytes sg)) by reflexivity.
  rewrite de_ser_option_cid. cbn [mbind option_bind de_string de_u64 de_cid de_bytes].
  by rewrite bool_decide_true by done.
Qed.

(** What [build] returns, as one equation per part. *)
Lemma build_inv d r rs signer repo :
  build d r rs signer = Ok repo →
  ∃ data w u b,
    syntax.metadata d r = Ok () ∧
    ref_build (mapping_of rs) = Ok (data, w) ∧
    encode (ser_unsigned (mkUnsigned d 3 data r None)) = Ok u ∧
    encode (ser_signed (commit repo)) = Ok b ∧
    commit repo = mkSigned d 3 data r None (sign signer u) ∧
    root repo = cid_for b ∧
    repo_records repo = rs ∧
    blocks repo = write_all [] (repo_written rs (root repo) b).
Proof.
  unfold build, repo_written, tree_blocks. intros ([] & Hm & H)%bind_ok.
  apply bind_ok in H as ([data bl] & Hb & H). rewrite build_writes in Hb.
  apply bind_ok in Hb as ([data' w] & Hr & [= <- <-]).
  apply bind_ok in H as (u & Hu & (b & Hc & [= <-])%bind_ok).
  exists data', w, u, b. rewrite Hr. cbn [commit root repo_records blocks]. split_and!; try done.
  rewrite insert_records_write, !write_all_app. done.
Qed.

Context {HCid : CidLaws} {HLaws : DagCborLaws} {HEcdsa : EcdsaLaws}.

Lemma verify_signature signer u vk :
  vk_from_sec1_bytes (public_key_sec1 signer) = Some vk →
  ∃ sig, sig_from_slice (sign signer u) = Some sig ∧ sig_normalize_s sig = None ∧ vk_verify vk u sig = true.
Proof.
  intros Hvk. unfold sign. pose proof (vk_verify_sign _ _ u Hvk) as Hs.
  destruct (sig_normalize_s (sk_sign signer u)) as [s'|] eqn:Hn; simpl; rewrite sig_from_to_bytes.
  - exists s'. split_and!; [done|by eapply sig_normalize_idem|by eapply vk_verify_low_s].
  - by exists (sk_sign signer u).
Qed.

Lemma record_blocks_hashed rs : rs_wf rs → Forall (λ cb, cid_for cb.2 = cb.1) (record_blocks rs).
Proof.
  intros Hwf. unfold record_blocks, rs_iter. apply Forall_fmap. eapply Forall_impl; [exact (wf_stored _ Hwf)|].
  intros [p r] [v Hv]. simpl in *. unfold encoded_record in Hv. inv_result.
  match goal with x : Ipld * Z |- _ => destruct x end. by inv_result.
Qed.

Lemma repo_written_hashed rs b data w : rs_wf rs → ref_build (mapping_of rs) = Ok (data, w) →
  Forall (λ cb, cid_for cb.2 = cb.1) (repo_written rs (cid_for b) b).
Proof.
  intros Hwf Hr. unfold repo_written, tree_blocks. rewrite Hr. rewrite !Forall_app. split_and!.
  - by eapply ref_subtree_hashes.
  - by apply record_blocks_hashed.
  - by constructor.
Qed.

Lemma all_stored_spec repo l :
  all_stored repo l = true ↔ Forall (λ cb, repo_block repo cb.1 = Some cb.2) l.
Proof.
  unfold all_stored. rewrite forallb_forall, Forall_forall. setoid_rewrite list_elem_of_In.
  split; intros Hl [c b] Hin; specialize (Hl _ Hin); simpl in *;
    [by eapply bool_decide_eq_true_1|by apply bool_decide_eq_true_2].
Qed.

Lemma repo_block_written rs repo b :
  blocks repo = write_all [] (repo_written rs (root repo) b) →
  no_collision (repo_written rs (root repo) b) →
  ∀ cb, cb ∈ repo_written rs (root repo) b → repo_block repo cb.1 = Some cb.2.
Proof.
  intros Hb Hn [c x] Hin. unfold repo_block. rewrite Hb. apply write_all_get; [constructor|done|done].
Qed.

Lemma write_all_elem m w cb : cb ∈ write_all m w → cb ∈ m ∨ cb ∈ w.
Proof.
  revert m. induction w as [|[c b] w IH]; intros m Hin; simpl in *; [by left|].
  apply IH in Hin as [[->|?]%bt_insert_elem|?]; rewrite ?elem_of_cons; auto.
Qed.

Lemma built_verifies d r rs signer repo b :
  rs_wf rs →
  build d r rs signer = Ok repo →
  encode (ser_signed (commit repo)) = Ok b →
  no_collision (repo_written rs (root repo) b) →
  verify repo (public_key_sec1 signer) = Ok ().
Proof.
  intros Hwf Hbuild Henc Hn.
  destruct (build_inv _ _ _ _ _ Hbuild) as (data & w & u & b' & Hm & Hr & Hu & Hb & Hc & Hroot & Hrec & Hbl).
  rewrite Hb in Henc. injection Henc as ->. rewrite Hc in Hb.
  pose proof (repo_block_written _ _ _ Hbl Hn) as Hget.
  unfold verify.
  rewrite (proj2 (forallb_forall _ _)). 2: { intros [c x] Hin%list_elem_of_In. rewrite Hbl, Hroot in Hin.
    apply write_all_elem in Hin as [Hin|Hin]; [by apply not_elem_of_nil in Hin|].
    pose proof (repo_written_hashed _ b _ _ Hwf Hr) as Hh. rewrite Forall_forall in Hh.
    apply bool_decide_true. exact (Hh _ Hin). }
  cbn [negb reject_if mbind result_bind].
  assert (Hcb : repo_block repo (root repo) = Some b).
  { apply (Hget (root repo, b)). unfold repo_written. rewrite !elem_of_app, list_elem_of_singleton. auto. }
  rewrite Hcb.
  cbn [ok_or mbind result_bind]. unfold decode_signed, decode.
  unfold encode in Hb. rewrite (cbor_roundtrip _ _ (proj1 (map_err_ok _ _ _) Hb)). cbn [map_err mbind result_bind].
  rewrite de_ser_signed by (vm_compute; done). cbn [ok_or mbind result_bind].
  cbn [c_did c_rev c_version c_prev c_sig c_data]. rewrite Hm. cbn [mbind result_bind].
  rewrite Z.eqb_refl, bool_decide_false by by intros []. cbn [negb orb].
  rewrite (Hb : encode _ = _). cbn [mbind result_bind].
  rewrite bool_decide_true by done. cbn [negb reject_if mbind result_bind].
  destruct (vk_of_sk signer) as [vk Hvk]. unfold public_key_sec1. rewrite Hvk. cbn [ok_or mbind result_bind].
  destruct (verify_signature signer u vk Hvk) as (sig & Hs & Hnorm & Hver).
  rewrite Hs. cbn [ok_or mbind result_bind]. rewrite Hnorm, bool_decide_false by by intros [].
  cbn [reject_if mbind result_bind]. unfold unsigned. cbn [c_did c_rev c_version c_prev c_data].
  rewrite Hu. cbn [mbind result_bind]. rewrite Hver. cbn [negb reject_if mbind result_bind].
  rewrite Hrec, build_writes, Hr. cbn [mbind result_bind].
  rewrite bool_decide_true by done. cbn [negb reject_if mbind result_bind].
  rewrite !(proj2 (all_stored_spec _ _)); [done|..].
  - apply Forall_forall. intros cb Hin%write_all_elem. apply Hget. unfold repo_written, tree_blocks.
    rewrite Hr, !elem_of_app. destruct Hin as [Hin|Hin]; [by apply not_elem_of_nil in Hin|auto].
  - apply Forall_forall. intros cb Hin. apply Hget. unfold repo_written.
    rewrite !elem_of_app. auto.
Qed.

(** C16: a snapshot built from a well-formed record set verifies under the
    signer's public key, whatever its contents, provided its own blocks do not
    collide.  The laws are those of ECDSA and of the DAG-CBOR round trip. *)
Theorem build_verifies d r rs signer repo b :
  rs_wf rs →
  build d r rs signer = Ok repo →
  encode (ser_signed (commit repo)) = Ok b →
  no_collision (repo_written rs (root repo) b) →
  verify repo (public_key_sec1 signer) = Ok ().
Proof. apply built_verifies. Qed.

Lemma mapping_of_records rs : rs_wf rs → mapping_of rs = (λ kr, (kr.1, rec_cid kr.2)) <$> records rs.
Proof.
  intros Hwf. unfold mapping_of, rs_iter. rewrite bt_collect_id.
  - apply list_fmap_ext. by intros ? [] ?.
  - replace ((λ '(p, r), (p, rec_cid r)) <$> records rs) with ((λ kr, (kr.1, rec_cid kr.2)) <$> records rs)
      by (apply list_fmap_ext; by intros ? [] ?).
    apply (bt_map_sorted (λ kr, rec_cid kr.2)), Hwf.
Qed.

(** The key bytes and record CIDs a reader of the tree should find. *)
Definition expected_tree (rs : RecordSet) : list (bytes * Cid) :=
  (λ kr, (as_bytes kr.1, rec_cid kr.2)) <$> records rs.

Definition tree_fuel (rs : RecordSet) : nat := S (top_layer (entries_of (mapping_of rs))).

Lemma walk_stored store rs data w : rs_wf rs →
  ref_build (mapping_of rs) = Ok (data, w) → stores store w →
  walk (tree_fuel rs) store data = Some (expected_tree rs).
Proof.
  intros Hwf Hr Hs. unfold tree_fuel. etransitivity; [exact (walk_ref _ _ _ _ _ Hr Hs)|].
  unfold pairs_of, entries_of, expected_tree. rewrite mapping_of_records by done.
  by rewrite <-!list_fmap_compose.
Qed.

(** C18: what a successful [verify] establishes: every stored block is
    addressed by its hash; the root block decodes to a version 3 commit with
    valid metadata, signed by the given key in low-S form over its unsigned
    part; its tree, read from the stored blocks alone, holds exactly the paths
    and CIDs of the record set; and every record's bytes are stored. *)
Theorem verify_sound repo pk :
  verify repo pk = Ok () →
  rs_wf (repo_records repo) →
  no_collision (tree_blocks (mapping_of (repo_records repo))) →
  Forall (λ cb, cid_for cb.2 = cb.1) (blocks repo) ∧
  ∃ b c vk sig u,
    repo_block repo (root repo) = Some b ∧ decode_signed b = Ok c ∧
    syntax.metadata (c_did c) (c_rev c) = Ok () ∧ c_version c = 3 ∧ c_prev c = None ∧
    vk_from_sec1_bytes pk = Some vk ∧ sig_from_slice (c_sig c) = Some sig ∧ sig_normalize_s sig = None ∧
    encode (ser_unsigned (unsigned c)) = Ok u ∧ vk_verify vk u sig = true ∧
    walk (tree_fuel (repo_records repo)) (repo_block repo) (c_data c)
      = Some (expected_tree (repo_records repo)) ∧
    Forall (λ kr, repo_block repo (rec_cid kr.2) = Some (rec_bytes kr.2)) (records (repo_records repo)).
Proof.
  unfold verify. intros H Hwf Hn.
  apply bind_ok in H as ([] & Hh%reject_if_ok & H). apply negb_false_iff in Hh.
  apply bind_ok in H as (b & Hb%ok_or_ok & H). apply bind_ok in H as (c & Hc & H).
  apply bind_ok in H as ([] & Hm & H). apply bind_ok in H as ([] & Hv & H).
  apply bind_ok in H as (vk & Hvk%ok_or_ok & H). apply bind_ok in H as (sig & Hsig%ok_or_ok & H).
  apply bind_ok in H as ([] & Hlow%reject_if_ok & H). apply bind_ok in H as (u & Hu & H).
  apply bind_ok in H as ([] & Hver%reject_if_ok & H). apply bind_ok in H as ([data w'] & Hbuild & H).
  apply bind_ok in H as ([] & Hd%reject_if_ok & H). apply bind_ok in H as ([] & Hexp%reject_if_ok & H).
  apply bind_ok in H as ([] & Hrecs%reject_if_ok & _). boolify. subst data.
  rewrite all_stored_spec in Hexp, Hrecs. unfold tree_blocks in Hn.
  rewrite build_writes in Hbuild. apply bind_ok in Hbuild as ([data w] & Hr & [= -> <-]). rewrite Hr in Hn.
  split.
  { apply Forall_forall. intros [c' x] Hin%list_elem_of_In. rewrite forallb_forall in Hh.
    specialize (Hh _ Hin). by apply bool_decide_eq_true in Hh. }
  destruct (negb (c_version c =? 3) || bool_decide (is_Some (c_prev c))) eqn:Hcheck; [done|]. boolify.
  exists b, c, vk, sig, u. split_and!; try done.
  - by apply eq_None_not_Some.
  - by apply eq_None_not_Some.
  - apply (walk_stored _ _ _ _ Hwf Hr). apply Forall_forall. intros [c' x] Hin.
    rewrite Forall_forall in Hexp. apply Hexp. apply bt_get_elem; [apply write_all_sorted; constructor|].
    by apply write_all_get; [constructor|..].
  - unfold rs_iter in Hrecs. rewrite Forall_fmap in Hrecs. eapply Forall_impl; [exact Hrecs|]. by intros [].
Qed.

(** First block of a CAR file with the given address. *)
Definition car_lookup (bs : list (Cid * bytes)) (c : Cid) : option bytes :=
  snd <$> head (filter (λ cb, cb.1 = c) bs).

Lemma head_filter_sorted (bl : list (Cid * bytes)) c x : bt_sorted bl → bt_get bl c = Some x →
  filter (λ cb, cb.1 = c) bl = [(c, x)].
Proof.
  intros Hs Hg%bt_get_elem; [|done]. induction bl as [|[c' x'] bl IH]; [by apply not_elem_of_nil in Hg|].
  pose proof (bt_keys_nodup _ Hs) as Hnd. apply bt_sorted_cons in Hs as [Hs _].
  apply NoDup_cons in Hnd as [Hni Hnd]. apply elem_of_cons in Hg as [[= -> ->]|Hg].
  - rewrite filter_cons_True by done. f_equal. apply elem_of_nil_inv. intros y [Hy Hin]%list_elem_of_filter.
    apply Hni, list_elem_of_fmap. exists y. done.
  - rewrite filter_cons_False; [by apply IH|]. simpl. intros ->. apply Hni, list_elem_of_fmap. by exists (c, x).
Qed.

Lemma car_lookup_blocks (bl : list (Cid * bytes)) r rb c x : bt_sorted bl → bt_get bl r = Some rb →
  bt_get bl c = Some x → car_lookup (car_blocks r rb bl) c = Some x.
Proof.
  intros Hs Hr Hc. unfold car_lookup, car_blocks. destruct (decide (r = c)) as [<-|Hne].
  - rewrite filter_cons_True by done. simpl. congruence.
  - rewrite filter_cons_False by done. rewrite list_filter_filter.
    rewrite (list_filter_iff _ (λ cb, cb.1 = c)); [by rewrite (head_filter_sorted _ _ _ Hs Hc)|].
    intros [c' x']. simpl. split; [by intros []|]. intros ->. split; [done|]. congruence.
Qed.

Lemma export_reads d r rs signer repo b out :
  rs_wf rs →
  build d r rs signer = Ok repo →
  encode (ser_signed (commit repo)) = Ok b →
  no_collision (repo_written rs (root repo) b) →
  to_car repo = Ok out → len out ≤ U64_MAX →
  ∃ bs, read_car out = Some ([root repo], 1, bs) ∧ head bs = Some (root repo, b) ∧
    decode_signed b = Ok (commit repo) ∧
    walk (tree_fuel rs) (car_lookup bs) (mst_root repo) = Some (expected_tree rs) ∧
    Forall (λ kr, car_lookup bs (rec_cid kr.2) = Some (rec_bytes kr.2)) (records rs).
Proof.
  intros Hwf Hbuild Henc Hn Hcar Hlen.
  destruct (build_inv _ _ _ _ _ Hbuild) as (data & w & u & b' & _ & Hr & _ & Hb & Hc & Hroot & _ & Hbl).
  rewrite Hb in Henc. injection Henc as ->.
  pose proof (repo_block_written _ _ _ Hbl Hn) as Hget.
  assert (Hsorted : bt_sorted (blocks repo)) by (rewrite Hbl; apply write_all_sorted; constructor).
  assert (Hcb : bt_get (blocks repo) (root repo) = Some b).
  { apply (Hget (root repo, b)). unfold repo_written. rewrite !elem_of_app, list_elem_of_singleton. auto. }
  destruct (car_reads_back _ _ _ Hcar Hlen) as (rb & Hrb & Hread).
  rewrite Hcb in Hrb. injection Hrb as <-.
  assert (Hlook : ∀ cb, cb ∈ repo_written rs (root repo) b →
    car_lookup (car_blocks (root repo) b (blocks repo)) cb.1 = Some cb.2).
  { intros [c x] Hin. apply car_lookup_blocks; [done|done|]. exact (Hget _ Hin). }
  eexists. split_and!; [exact Hread|done| |..].
  - unfold decode_signed, decode. unfold encode in Hb. apply map_err_ok, cbor_roundtrip in Hb. rewrite Hb.
    simpl. rewrite de_ser_signed; [done|]. rewrite Hc. by vm_compute.
  - unfold mst_root. rewrite Hc. apply (walk_stored _ _ _ _ Hwf Hr). apply Forall_forall. intros cb Hin.
    apply Hlook. unfold repo_written, tree_blocks. rewrite Hr, elem_of_app. auto.
  - apply Forall_forall. intros [p x] Hin. apply (Hlook (rec_cid x, rec_bytes x)).
    unfold repo_written, record_blocks. rewrite !elem_of_app. right. left. apply list_elem_of_fmap.
    by exists (p, x).
Qed.

(** C17: the CAR export of a built snapshot is self-contained: reading it back
    gives the root, and from the blocks of the file alone the commit decodes
    to the one that was signed, the tree holds exactly the published paths and
    CIDs, and every record's bytes are found under its CID. *)
Theorem export_complete d r rs signer repo b out :
  rs_wf rs →
  build d r rs signer = Ok repo →
  encode (ser_signed (commit repo)) = Ok b →
  no_collision (repo_written rs (root repo) b) →
  to_car repo = Ok out → len out ≤ U64_MAX →
  ∃ bs, read_car out = Some ([root repo], 1, bs) ∧ head bs = Some (root repo, b) ∧
    decode_signed b = Ok (commit repo) ∧
    walk (tree_fuel rs) (car_lookup bs) (mst_root repo) = Some (expected_tree rs) ∧
    Forall (λ kr, car_lookup bs (rec_cid kr.2) = Some (rec_bytes kr.2)) (records rs).
Proof. apply export_reads. Qed.
End theorems.

(** ** A concrete snapshot *)

Definition demo_post (text : string) : Json :=
  JObject [("$type", JString "app.bsky.feed.post"); ("text", JString text)].

Definition demo_records : RecordSet :=
  let rs := (put "app.bsky.feed.post/p1" (demo_post "first") new).1 in
  let rs := (put "app.bsky.feed.post/g1" (demo_post "second") rs).1 in
  let rs := (put "app.bsky.feed.post/i1" (demo_post "third") rs).1 in
  (delete "app.bsky.feed.post/i1" rs).1.

Definition demo_key : @RepoSigner toy_ecdsa := repeat x01 32.
Definition demo_did : string := "did:plc:abcdefghijklmnopqrstuvwx".
Definition demo_rev : string := "3jzfcijpj2z2a".

Lemma demo_records_wf : rs_wf demo_records.
Proof. apply delete_wf, put_wf, put_wf, put_wf, new_wf. Qed.

Definition demo_repo : option (Repository * bytes) :=
  repo ← result_ok (build demo_did demo_rev demo_records demo_key);
  b ← result_ok (encode (ser_signed (commit repo)));
  Some (repo, b).

(** The snapshot is fully built, without collisions, and exports. *)
Definition demo_ok : bool :=
  match demo_repo with
  | Some (repo, b) =>
      collision_free (repo_written demo_records (root repo) b)
      && match to_car repo with Ok out => len out <=? U64_MAX | Err _ => false end
  | None => false
  end.

Lemma demo_builds :
  ∃ repo b out, build demo_did demo_rev demo_records demo_key = Ok repo ∧
    encode (ser_signed (commit repo)) = Ok b ∧
    no_collision (repo_written demo_records (root repo) b) ∧
    to_car repo = Ok out ∧ len out ≤ U64_MAX.
Proof.
  assert (Hd : demo_ok = true) by (vm_compute; done). unfold demo_ok, demo_repo in Hd.
  destruct (build demo_did demo_rev demo_records demo_key) as [repo|]; [|done]. cbn [result_ok mbind option_bind] in Hd.
  destruct (encode (ser_signed (commit repo))) as [b|] eqn:Hb; [|done]. cbn [result_ok mbind option_bind] in Hd.
  apply andb_true_iff in Hd as [Hc%no_collision_check Hd].
  destruct (to_car repo) as [out|] eqn:Ho; [|done]. apply Z.leb_le in Hd. by exists repo, b, out.
Qed.

Lemma build_verifies_witness :
  ∃ repo, build demo_did demo_rev demo_records demo_key = Ok repo ∧
    verify repo (public_key_sec1 demo_key) = Ok ().
Proof.
  destruct demo_builds as (repo & b & out & Hr & Hb & Hn & _). exists repo.
  exact (conj Hr (build_verifies _ _ _ _ _ _ demo_records_wf Hr Hb Hn)).
Defined.

Lemma export_complete_witness :
  ∃ repo out bs, build demo_did demo_rev demo_records demo_key = Ok repo ∧ to_car repo = Ok out ∧
    read_car out = Some ([root repo], 1, bs) ∧
    walk (tree_fuel demo_records) (car_lookup bs) (mst_root repo) = Some (expected_tree demo_records).
Proof.
  destruct demo_builds as (repo & b & out & Hr & Hb & Hn & Ho & Hl).
  destruct (export_complete _ _ _ _ _ _ _ demo_records_wf Hr Hb Hn Ho Hl) as (bs & H1 & _ & _ & H2 & _).
  exists repo, out, bs. exact (conj Hr (conj Ho (conj H1 H2))).
Defined.

Lemma demo_verifies : ∃ repo, build demo_did demo_rev demo_records demo_key = Ok repo ∧
  verify repo (public_key_sec1 demo_key) = Ok () ∧ repo_records repo = demo_records ∧
  no_collision (tree_blocks (mapping_of demo_records)).
Proof.
  assert (Hv : match build demo_did demo_rev demo_records demo_key with
    | Ok repo => is_ok (verify repo (public_key_sec1 demo_key)) | Err _ => false end = true) by (vm_compute; done).
  destruct (build demo_did demo_rev demo_records demo_key) as [repo|] eqn:Hr; [|done].
  destruct (verify repo _) as [[]|] eqn:Hver; [|done].
  exists repo. split_and!; [reflexivity|exact Hver| |apply no_collision_check; vm_compute; done].
  destruct (build_inv _ _ _ _ _ Hr) as (? & ? & ? & ? & _ & _ & _ & _ & _ & _ & Hrec & _). exact Hrec.
Qed.

Lemma verify_sound_witness :
  ∃ repo c, build demo_did demo_rev demo_records demo_key = Ok repo ∧
    walk (tree_fuel demo_records) (repo_block repo) (c_data c) = Some (expected_tree demo_records).
Proof.
  destruct demo_verifies as (repo & Hr & Hv & Hrec & Hn).
  pose proof (verify_sound repo (public_key_sec1 demo_key) Hv) as H. rewrite Hrec in H.
  destruct (H demo_records_wf Hn) as (_ & b & c & vk & sig & u & _ & _ & _ & _ & _ & _ & _ & _ & _ & _ & Hw & _).
  exists repo, c. exact (conj Hr Hw).
Defined.
