(* ===== verification/CredIdentity.v ===== *)
(** * Account identity ([crates/psky-credentials/src/lib.rs], first part)

    The identity configuration, the syntax checks on names and authorities,
    and the repository revision derived from the creation time. *)

From S2P Require Import Prelude RustStd BTreeMap Externs Fixtures RepoSyntax.

Module Cred.

Inductive Error :=
| InvalidInput
| InvalidCredentials
| InvalidToken
| ExpiredToken
| NotBound
| Disabled
| BindingConflict
| Limit
| Persistence.

End Cred.

#[export] Instance cred_error_eq_dec : EqDecision Cred.Error.
Proof. solve_decision. Defined.

Record Identity := mkIdentity {
  handle : string;
  id_did : string;
  service_url : string;
  service_did : string
}.

#[export] Instance identity_eq_dec : EqDecision Identity.
Proof. solve_decision. Defined.

(** [!label.is_empty() && label.len() <= 63 && ...]; the same test as a DNS
    label of the repository syntax. *)
Definition host_label (label : string) : bool :=
  negb (str_is_empty label) && (str_len label <=? 63)
  && negb (starts_with "-" label) && negb (ends_with "-" label)
  && all_bytes (λ b, is_ascii_lowercase b || is_ascii_digit b || Ascii.eqb b "-") label.

(** [tld.as_bytes()[0]] panics on an empty string; the labels were all checked
    to be non-empty before. *)
Definition tld_ok (tld : string) : bool :=
  from_option is_ascii_alphabetic false (first_byte tld)
  && negb (bool_decide (tld ∈ ["arpa"; "invalid"; "local"; "onion"])).

Definition valid_hostname (host : string) : bool :=
  (str_len host <=? 253)
  && contains_char "." host
  && forallb host_label (split_on "." host)
  && from_option tld_ok false (rsplit_next "." host).

Definition valid_name (name : string) : bool :=
  negb (str_is_empty name) && (str_len name <=? 64) && bool_decide (trim name = name)
  && all_bytes (in_range 0x20 0x7e) name.

Definition valid_authority (authority : string) : bool :=
  negb (str_is_empty authority) && (str_len authority <=? 128)
  && all_bytes (λ b, is_ascii_alphanumeric b || one_of ":_-" b) authority.

Definition TID_ALPHABET : string := "234567abcdefghijklmnopqrstuvwxyz".

(** [ALPHABET[(value & 31) as usize]] *)
Definition tid_char (value : Z) : ascii :=
  default "2"%char (chars_of TID_ALPHABET !! Z.to_nat (Z.land value 31)).

(** The loop writes the thirteen places from the last to the first. *)
Fixpoint tid_loop (places : nat) (value : Z) (result : list ascii) : list ascii :=
  match places with
  | O => result
  | S places => tid_loop places (Z.shiftr value 5) (tid_char value :: result)
  end.

Definition revision (seconds : Z) : string :=
  of_chars (tid_loop 13 (saturating_mul (saturating_mul seconds 1000000) 1024) []).

Section validate.
Context {URL : UrlLib}.
Import Cred.

Definition validate_local (url : Url) (self : Identity) : result Error () :=
  let local_did :=
    "did:web:localhost" +:+ default "" ((λ port, "%3A" +:+ to_string port) <$> url_port url) in
  if bool_decide (id_did self = local_did) && bool_decide (service_did self = local_did)
     && ends_with_str ".test" (handle self) && negb (bool_decide (url_port url = Some 0))
  then Ok () else Err InvalidInput.

Definition validate (self : Identity) : result Error () :=
  url ← ok_or InvalidInput (url_parse (service_url self));
  reject_if
    (negb (bool_decide (url_username url = "")) || bool_decide (is_Some (url_password url))
     || bool_decide (is_Some (url_query url)) || bool_decide (is_Some (url_fragment url))
     || negb (bool_decide (url_path url = "/")) || bool_decide (url_host_str url = None)
     || negb (valid_hostname (handle self)))
    InvalidInput;;
  if bool_decide (url_scheme url = "http") && bool_decide (url_host_str url = Some "localhost")
  then validate_local url self
  else
    did_host ← ok_or InvalidInput (strip_prefix "did:web:" (id_did self));
    service_host ← ok_or InvalidInput (strip_prefix "did:web:" (service_did self));
    reject_if
      (negb (valid_hostname did_host) || negb (bool_decide (handle self = did_host))
       || negb (valid_hostname service_host) || ends_with_str ".test" (handle self)
       || ends_with_str ".test" service_host)
      InvalidInput;;
    reject_if
      (negb (bool_decide (url_scheme url = "https")) || bool_decide (is_Some (url_port url))
       || negb (bool_decide (url_host_str url = Some service_host)))
      InvalidInput;;
    Ok ().
End validate.

(** ** Identities and repositories agree on DIDs *)

Lemma host_label_is_label s : host_label s = syntax.label_valid s.
Proof. done. Qed.

Lemma last_elem {A} (l : list A) x : last l = Some x → x ∈ l.
Proof. intros [k ->]%last_Some. rewrite elem_of_app, list_elem_of_singleton. auto. Qed.

Lemma host_web_domain host : valid_hostname host = true → syntax.web_domain host = true.
Proof.
  unfold valid_hostname, syntax.web_domain. intros H. boolify.
  rewrite (proj2 (Z.leb_le _ _)) by done.
  match goal with H : contains_char _ _ = true |- _ => rewrite H end.
  match goal with H : forallb host_label _ = true |- _ => rename H into Hl end.
  change syntax.label_valid with host_label. rewrite Hl. simpl.
  destruct (rsplit_next "." host) as [tld|] eqn:Ht; simpl in *; [|done].
  unfold tld_ok in *. boolify. rewrite forallb_forall in Hl.
  specialize (Hl tld). rewrite <-list_elem_of_In in Hl.
  specialize (Hl (last_elem _ _ Ht)). unfold host_label in Hl. boolify.
  destruct tld as [|c tld]; [done|]. unfold any_byte. simpl in *. apply orb_true_iff. left.
  unfold all_bytes in *. simpl in *. boolify.
  unfold is_ascii_alphabetic, is_ascii_lowercase, is_ascii_uppercase, is_ascii_digit, in_range in *.
  destruct (Ascii.eqb_spec c "-") as [->|]; [done|].
  rewrite orb_false_r in *.
  repeat match goal with H : _ || _ = true |- _ => apply orb_true_iff in H as [?|?] end; boolify;
    rewrite ?andb_true_iff, ?Z.leb_le; lia.
Qed.

Section theorems.
Context {URL : UrlLib} {HURL : UrlLaws}.
Import Cred.

(** The two shapes of an accepted configuration. *)
Definition public_identity (i : Identity) (url : Url) : Prop :=
  ∃ service_host,
    id_did i = "did:web:" +:+ handle i ∧ service_did i = "did:web:" +:+ service_host ∧
    valid_hostname (handle i) = true ∧ valid_hostname service_host = true ∧
    ends_with_str ".test" (handle i) = false ∧
    url_scheme url = "https" ∧ url_port url = None ∧ url_host_str url = Some service_host.

Definition local_identity (i : Identity) (url : Url) : Prop :=
  valid_hostname (handle i) = true ∧ ends_with_str ".test" (handle i) = true ∧
  url_scheme url = "http" ∧ url_host_str url = Some "localhost" ∧
  service_did i = id_did i ∧
  id_did i = match url_port url with
             | Some p => "did:web:localhost%3A" +:+ to_string p
             | None => "did:web:localhost"
             end ∧ url_port url ≠ Some 0.

Lemma validate_shape i : validate i = Ok () →
  ∃ url, url_parse (service_url i) = Some url ∧ url_username url = "" ∧ url_password url = None ∧
    url_query url = None ∧ url_fragment url = None ∧ url_path url = "/" ∧
    (public_identity i url ∨ local_identity i url).
Proof.
  unfold validate. intros (url & Hu%ok_or_ok & ([] & Hc%reject_if_ok & H)%bind_ok)%bind_ok. boolify.
  exists url. rewrite <-!eq_None_not_Some in *. split_and!; try done.
  destruct (bool_decide (url_scheme url = "http") && bool_decide (url_host_str url = Some "localhost")) eqn:E.
  - right. boolify. unfold validate_local in H.
    destruct (_ && _ && _ && _) eqn:Hd in H; [|done]. boolify. unfold local_identity. split_and!; try congruence.
    match goal with H : id_did i = _ |- _ => rewrite H end. by destruct (url_port url).
  - left. apply bind_ok in H as (dh & Hd%ok_or_ok & (sh & Hs%ok_or_ok & H)%bind_ok).
    apply bind_ok in H as ([] & Hr1%reject_if_ok & ([] & Hr2%reject_if_ok & _)%bind_ok). boolify.
    apply strip_prefix_Some in Hd, Hs. rewrite <-eq_None_not_Some in *. exists sh. split_and!; try done.
    congruence.
Qed.

(** An identity that validates has a DID the repository layer accepts, so
    binding an account cannot fail on its own configuration. *)
Theorem validated_did_builds i : validate i = Ok () → syntax.valid_did (id_did i) = true.
Proof.
  intros (url & _ & _ & _ & _ & _ & _ & [(sh & Hd & _ & Hh & _)|(_ & _ & _ & _ & _ & Hd & Hp)])%validate_shape;
    rewrite Hd; unfold syntax.valid_did.
  - change (strip_prefix "did:plc:" ("did:web:" +:+ handle i)) with (@None string). rewrite strip_prefix_app.
    cbn beta iota. rewrite host_web_domain by done. apply orb_true_r.
  - destruct (url_port url) as [p|] eqn:Hport; [|by vm_compute].
    change (strip_prefix "did:plc:" ("did:web:localhost%3A" +:+ to_string p)) with (@None string).
    change ("did:web:localhost%3A" +:+ to_string p) with ("did:web:" +:+ ("localhost%3A" +:+ to_string p)).
    rewrite strip_prefix_app. cbn beta iota. unfold syntax.local_domain. rewrite strip_prefix_app.
    apply url_port_range in Hport. unfold parse_u16. rewrite from_str_radix_to_string by done.
    rewrite (bool_decide_true (to_string p = to_string p)) by done.
    rewrite (proj2 (Z.ltb_lt 0 p)) by (assert (p ≠ 0) by congruence; lia).
    cbn [andb]. by rewrite orb_true_r.
Qed.
End theorems.

Definition demo_identity : Identity :=
  mkIdentity "alice.example.com" "did:web:alice.example.com" "https://pds.example.com" "did:web:pds.example.com".
Definition demo_local_identity : Identity :=
  mkIdentity "alice.test" "did:web:localhost%3A8787" "http://localhost:8787" "did:web:localhost%3A8787".

Example demo_public_valid : validate demo_identity = Ok ().
Proof. vm_compute. done. Qed.
Example demo_local_valid : validate demo_local_identity = Ok ().
Proof. vm_compute. done. Qed.
Example demo_mixed_invalid :
  validate (mkIdentity "alice.example.com" "did:web:bob.example.com" "https://pds.example.com" "did:web:pds.example.com")
  = Err Cred.InvalidInput.
Proof. vm_compute. done. Qed.

Lemma validated_did_builds_witness :
  validate demo_local_identity = Ok () ∧ syntax.valid_did "did:web:localhost%3A8787" = true.
Proof.
  split; [vm_compute; done|]. apply (validated_did_builds demo_local_identity). vm_compute. done.
Defined.

(** ** Revisions *)

(** The places of a value, most significant first. *)
Definition tid_places (n : nat) (v : Z) : list ascii := tid_loop n v [].

Lemma tid_loop_app n v l : tid_loop n v l = tid_places n v ++ l.
Proof.
  unfold tid_places. revert v l. induction n as [|n IH]; intros v l; simpl; [done|].
  rewrite IH, (IH _ [_]). by rewrite <-app_assoc.
Qed.

Lemma tid_places_S n v : tid_places (S n) v = tid_places n (v / 32) ++ [tid_char v].
Proof. unfold tid_places at 1. simpl. rewrite tid_loop_app. by rewrite Z.shiftr_div_pow2. Qed.

Lemma tid_places_length n v : length (tid_places n v) = n.
Proof. revert v. induction n as [|n IH]; intros v; [done|]. rewrite tid_places_S, length_app, IH. simpl. lia. Qed.

Lemma land_31 v : Z.land v 31 = v mod 32.
Proof. change 31 with (Z.ones 5). by rewrite Z.land_ones. Qed.

Lemma tid_char_alphabet v : one_of TID_ALPHABET (tid_char v) = true.
Proof.
  unfold tid_char, one_of. rewrite land_31. pose proof (Z.mod_pos_bound v 32 ltac:(lia)).
  apply bool_decide_true. destruct (chars_of TID_ALPHABET !! Z.to_nat (v mod 32)) as [c|] eqn:Hc; simpl.
  - by apply list_elem_of_lookup_2 in Hc.
  - apply lookup_ge_None in Hc. change (length (chars_of TID_ALPHABET)) with 32%nat in Hc. lia.
Qed.

Lemma tid_char_order v w : (ascii_Z (tid_char v) <? ascii_Z (tid_char w)) = (v mod 32 <? w mod 32).
Proof.
  unfold tid_char. rewrite !land_31.
  pose proof (Z.mod_pos_bound v 32 ltac:(lia)) as Hv. pose proof (Z.mod_pos_bound w 32 ltac:(lia)) as Hw.
  generalize dependent (v mod 32). generalize dependent (w mod 32). clear v w. intros w Hw v Hv.
  set (p := λ v w, eqb (ascii_Z (default "2"%char (chars_of TID_ALPHABET !! Z.to_nat v)) <?
    ascii_Z (default "2"%char (chars_of TID_ALPHABET !! Z.to_nat w))) (v <? w)).
  assert (p v w = true) as Hp; [|by apply eqb_prop in Hp].
  pose proof (small_nats_check 32 (λ v, forallb (p v) (small_nats 32)) v eq_refl Hv) as Hp.
  by apply (small_nats_check 32 (p v)).
Qed.

Lemma chars_ltb_app a b x y : length a = length b →
  chars_ltb (a ++ [x]) (b ++ [y]) = chars_ltb a b || (negb (chars_ltb b a) && (ascii_Z x <? ascii_Z y)).
Proof.
  revert b. induction a as [|c a IH]; intros [|d b] Hl; try done; simpl in *.
  - destruct (ascii_Z x <? ascii_Z y); simpl; [done|]. by rewrite andb_false_r.
  - rewrite IH by lia. destruct (Z.ltb_spec (ascii_Z c) (ascii_Z d)); simpl; [done|].
    destruct (Z.eqb_spec (ascii_Z c) (ascii_Z d)) as [->|]; simpl.
    + by rewrite Z.ltb_irrefl, Z.eqb_refl.
    + by rewrite (proj2 (Z.ltb_lt (ascii_Z d) (ascii_Z c))) by lia.
Qed.

Lemma tid_places_order n v w : 0 ≤ v < 32 ^ Z.of_nat n → 0 ≤ w < 32 ^ Z.of_nat n →
  chars_ltb (tid_places n v) (tid_places n w) = (v <? w).
Proof.
  revert v w. induction n as [|n IH]; intros v w Hv Hw.
  { simpl in *. by assert (v = 0) as -> by lia; assert (w = 0) as -> by lia. }
  rewrite !tid_places_S, chars_ltb_app by by rewrite !tid_places_length.
  rewrite Nat2Z.inj_succ, Z.pow_succ_r in Hv, Hw by lia.
  assert (∀ x, 0 ≤ x < 32 * 32 ^ Z.of_nat n → 0 ≤ x / 32 < 32 ^ Z.of_nat n) as Hdiv.
  { intros x Hx. split; [apply Z.div_pos; lia|apply Z.div_lt_upper_bound; lia]. }
  rewrite !IH by auto. rewrite tid_char_order.
  pose proof (Z.div_mod v 32 ltac:(lia)). pose proof (Z.div_mod w 32 ltac:(lia)).
  pose proof (Z.mod_pos_bound v 32 ltac:(lia)). pose proof (Z.mod_pos_bound w 32 ltac:(lia)).
  destruct (Z.ltb_spec (v / 32) (w / 32)), (Z.ltb_spec (w / 32) (v / 32)),
    (Z.ltb_spec (v mod 32) (w mod 32)), (Z.ltb_spec v w); simpl; try done; lia.
Qed.

Lemma revision_value s : 0 ≤ s → 0 ≤ saturating_mul (saturating_mul s 1000000) 1024 ≤ U64_MAX.
Proof. unfold saturating_mul, U64_MAX. lia. Qed.

Lemma tid_places_all n v p : (∀ v, p (tid_char v) = true) → forallb p (tid_places n v) = true.
Proof.
  intros Hp. revert v. induction n as [|n IH]; intros v; [done|].
  rewrite tid_places_S, forallb_app, IH. simpl. by rewrite Hp.
Qed.

Lemma tid_places_head n v : 0 ≤ v → head (tid_places (S n) v) = Some (tid_char (v / 32 ^ Z.of_nat n)).
Proof.
  revert v. induction n as [|n IH]; intros v Hv; [by rewrite tid_places_S, Z.div_1_r|].
  rewrite tid_places_S. specialize (IH (v / 32) ltac:(apply Z.div_pos; lia)).
  destruct (tid_places (S n) (v / 32)) as [|c l]; [done|]. cbn [app head] in *. rewrite IH.
  rewrite Z.div_div, Nat2Z.inj_succ, Z.pow_succ_r by lia. done.
Qed.

Lemma tid_char_head k : 0 ≤ k < 16 → one_of "234567abcdefghij" (tid_char k) = true.
Proof. intros Hk. by apply (small_nats_check 16 (λ k, one_of "234567abcdefghij" (tid_char k))). Qed.

(** The revision derived from any [u64] clock reading is a TID the
    repository layer accepts, and revisions are ordered as their times are, up
    to the saturation point (the year 2540 or so). *)
Theorem revision_valid_and_ordered a b : is_u64 a → is_u64 b →
  syntax.valid_rev (revision a) = true ∧
  (b ≤ U64_MAX / 1024000000 → str_ltb (revision a) (revision b) = (a <? b)).
Proof.
  intros Ha Hb. unfold is_u64 in *. split.
  - pose proof (revision_value a ltac:(lia)) as Hv. unfold revision.
    set (v := saturating_mul _ 1024) in *. clearbody v. change (tid_loop 13 v []) with (tid_places 13 v).
    unfold syntax.valid_rev, str_len, first_byte, all_bytes.
    rewrite <-chars_of_length, chars_of_of, tid_places_length, tid_places_head by lia.
    rewrite (tid_places_all _ _ (one_of "234567abcdefghijklmnopqrstuvwxyz")) by apply tid_char_alphabet.
    simpl from_option. rewrite tid_char_head; [done|].
    change (32 ^ Z.of_nat 12) with 1152921504606846976. unfold U64_MAX in Hv.
    split; [apply Z.div_pos; lia|apply Z.div_lt_upper_bound; lia].
  - intros Hsat. pose proof (revision_value a ltac:(lia)). pose proof (revision_value b ltac:(lia)).
    rewrite str_ltb_chars. unfold revision. rewrite !chars_of_of.
    rewrite !tid_loop_app, !app_nil_r. assert (U64_MAX < 32 ^ Z.of_nat 13) by (vm_compute; done).
    rewrite tid_places_order by lia.
    unfold saturating_mul. pose proof (Z.mul_div_le U64_MAX 1024000000 ltac:(lia)). unfold U64_MAX in *.
    destruct (Z.ltb_spec a b), (Z.ltb_spec (Z.min (Z.min (a * 1000000) 18446744073709551615 * 1024) 18446744073709551615)
      (Z.min (Z.min (b * 1000000) 18446744073709551615 * 1024) 18446744073709551615)); try done; lia.
Qed.

Lemma revision_witness :
  syntax.valid_rev (revision 1757900000) = true ∧ str_ltb (revision 1757900000) (revision 1757900001) = true.
Proof.
  destruct (revision_valid_and_ordered 1757900000 1757900001) as [Hv Ho]; [vm_compute; split; congruence..|].
  split; [exact Hv|]. rewrite Ho; [done|]. vm_compute. congruence.
Defined.
