(* ===== verification/CredTokens.v ===== *)
(** * Accounts and session tokens ([crates/psky-credentials/src/lib.rs])

    The account document, and the HS256 access and refresh tokens: their
    claims, how they are signed and every check of their verification. *)

From S2P Require Import Prelude RustStd BTreeMap Externs Fixtures CredIdentity.
Import Cred.

Definition MAX_PASSWORDS : Z := 16.
Definition MAX_SESSIONS : Z := 64.
Definition ACCESS_SECONDS : Z := 30 * 60.
Definition REFRESH_SECONDS : Z := 7 * 24 * 60 * 60.

(** ** Account documents *)

Record Account := mkAccount {
  fid : Z;
  authority : string;
  identity : Identity;
  enabled : bool;
  created_at : Z;
  public_key_multibase : string;
  repo_revision : string;
  repo_cid : string
}.

(** A struct written with [serde_json::to_string] keeps its declaration order;
    a [Value] built with [json!] is a sorted map. *)
Definition ser_identity (i : Identity) : Json :=
  JObject [("handle", JString (handle i)); ("did", JString (id_did i));
           ("service_url", JString (service_url i)); ("service_did", JString (service_did i))].

Definition ser_account (a : Account) : Json :=
  JObject [("fid", JNumber (PosInt (fid a))); ("authority", JString (authority a));
           ("identity", ser_identity (identity a)); ("enabled", JBool (enabled a));
           ("created_at", JNumber (PosInt (created_at a)));
           ("public_key_multibase", JString (public_key_multibase a));
           ("repo_revision", JString (repo_revision a)); ("repo_cid", JString (repo_cid a))].

Definition string_field (k : string) (v : Json) : option string := json_get k v ≫= as_str.
Definition u64_field (k : string) (v : Json) : option Z := json_get k v ≫= as_u64.
(** [#[serde(deny_unknown_fields)]] *)
Definition only_fields (ks : list string) (v : Json) : bool :=
  match v with JObject fs => forallb (λ kv, bool_decide (kv.1 ∈ ks)) fs | _ => false end.

Definition de_identity (v : Json) : option Identity :=
  if only_fields ["handle"; "did"; "service_url"; "service_did"] v then
    handle ← string_field "handle" v; did ← string_field "did" v;
    service_url ← string_field "service_url" v; service_did ← string_field "service_did" v;
    Some (mkIdentity handle did service_url service_did)
  else None.

Definition de_account (v : Json) : option Account :=
  fid ← u64_field "fid" v; authority ← string_field "authority" v;
  identity ← json_get "identity" v ≫= de_identity; enabled ← json_get "enabled" v ≫= as_bool;
  created_at ← u64_field "created_at" v; key ← string_field "public_key_multibase" v;
  revision ← string_field "repo_revision" v; cid ← string_field "repo_cid" v;
  Some (mkAccount fid authority identity enabled created_at key revision cid).

(** ** Responses *)

Record SessionInfo := mkSessionInfo {
  si_handle : string;
  si_did : string;
  si_did_doc : Json;
  si_email_confirmed : bool;
  si_email_auth_factor : bool;
  si_active : bool
}.

Record Session := mkSession { access_jwt : string; refresh_jwt : string; session_of : SessionInfo }.

Definition did_document (account : Account) : Json :=
  let did := id_did (identity account) in
  json_object
    [("@context", JArray [JString "https://www.w3.org/ns/did/v1"; JString "https://w3id.org/security/multikey/v1"]);
     ("id", JString did);
     ("alsoKnownAs", JArray [JString ("at://" +:+ handle (identity account))]);
     ("verificationMethod", JArray [json_object
        [("id", JString (did +:+ "#atproto")); ("type", JString "Multikey"); ("controller", JString did);
         ("publicKeyMultibase", JString (public_key_multibase account))]]);
     ("service", JArray [json_object
        [("id", JString (did +:+ "#atproto_pds")); ("type", JString "AtprotoPersonalDataServer");
         ("serviceEndpoint", JString (service_url (identity account)))]])].

Definition session_info (account : Account) : SessionInfo :=
  mkSessionInfo (handle (identity account)) (id_did (identity account)) (did_document account)
    false false (enabled account).

(** ** Tokens *)

Inductive TokenKind := Access | Refresh.

Definition typ (self : TokenKind) : string :=
  match self with Access => "at+jwt" | Refresh => "refresh+jwt" end.
Definition scope (self : TokenKind) : string :=
  match self with Access => "com.atproto.appPass" | Refresh => "com.atproto.refresh" end.
Definition lifetime (self : TokenKind) : Z :=
  match self with Access => ACCESS_SECONDS | Refresh => REFRESH_SECONDS end.

Record Claims := mkClaims {
  sub : string; aud : string; cl_scope : string; iat : Z; exp : Z; jti : string; sid : string
}.

Record TokenHeader := mkHeader { alg : string; h_typ : string }.

Definition json_claims (c : Claims) : Json :=
  json_object [("sub", JString (sub c)); ("aud", JString (aud c)); ("scope", JString (cl_scope c));
               ("iat", JNumber (PosInt (iat c))); ("exp", JNumber (PosInt (exp c)));
               ("jti", JString (jti c)); ("sid", JString (sid c))].
Definition json_header (h : TokenHeader) : Json :=
  json_object [("alg", JString (alg h)); ("typ", JString (h_typ h))].

Definition de_claims (v : Json) : option Claims :=
  if only_fields ["sub"; "aud"; "scope"; "iat"; "exp"; "jti"; "sid"] v then
    sub ← string_field "sub" v; aud ← string_field "aud" v; scope ← string_field "scope" v;
    iat ← u64_field "iat" v; exp ← u64_field "exp" v; jti ← string_field "jti" v; sid ← string_field "sid" v;
    Some (mkClaims sub aud scope iat exp jti sid)
  else None.
Definition de_header (v : Json) : option TokenHeader :=
  if only_fields ["alg"; "typ"] v then
    alg ← string_field "alg" v; typ ← string_field "typ" v; Some (mkHeader alg typ)
  else None.

Section tokens.
Context {JSON : JsonText} {B64 : Base64Url} {HMAC : HmacSha256} {HEX : HexLib}.

Definition encode_account (account : Account) : string := json_to_string (ser_account account).

Definition encode_part (v : Json) : string := b64_url_encode (as_bytes (json_to_string v)).

Definition sign_token (key : bytes) (claims : Claims) (kind : TokenKind) : string :=
  let header := mkHeader "HS256" (typ kind) in
  let input := encode_part (json_header header) +:+ "." +:+ encode_part (json_claims claims) in
  input +:+ "." +:+ b64_url_encode (hmac_sha256 key (as_bytes input)).

(** [random_id] over the bytes [draw] of the random generator. *)
Definition random_id (draw : bytes) : string := hex_encode draw.

Definition create_session (key : bytes) (account : Account) (sid refresh_jti : string) (now refresh_exp : Z)
    (draw : bytes) : Session :=
  let claims kind jti exp :=
    mkClaims (id_did (identity account)) (service_did (identity account)) (scope kind) now exp jti sid in
  let access := claims Access (random_id draw) (Z.min (now + ACCESS_SECONDS) refresh_exp) in
  let refresh := claims Refresh refresh_jti refresh_exp in
  mkSession (sign_token key access Access) (sign_token key refresh Refresh) (session_info account).

(** [serde_json::from_slice(&URL_SAFE_NO_PAD.decode(part)?)?] *)
Definition decode_part {A} (de : Json → option A) (part : string) : option A :=
  b ← b64_url_decode part; v ← json_from_str (from_bytes b); de v.

Definition hex_id (s : string) : bool := (str_len s =? 64) && all_bytes is_ascii_hexdigit s.

Definition claims_valid (account : Account) (kind : TokenKind) (now : Z) (c : Claims) : bool :=
  bool_decide (sub c = id_did (identity account))
  && bool_decide (aud c = service_did (identity account))
  && bool_decide (cl_scope c = scope kind)
  && (iat c <=? now) && (iat c <? exp c) && (exp c - iat c <=? lifetime kind)
  && hex_id (sid c) && hex_id (jti c).

Definition verify_token (key : bytes) (token : string) (account : Account) (kind : TokenKind) (now : Z) :
    result Error Claims :=
  reject_if (4096 <? str_len token) InvalidToken;;
  match split_on "." token with
  | [header; body; signature] =>
      signature ← ok_or InvalidToken (b64_url_decode signature);
      reject_if
        (negb (bool_decide (signature = hmac_sha256 key (as_bytes (header +:+ "." +:+ body))))) InvalidToken;;
      header ← ok_or InvalidToken (decode_part de_header header);
      reject_if (negb (bool_decide (alg header = "HS256")) || negb (bool_decide (h_typ header = typ kind)))
        InvalidToken;;
      claims ← ok_or InvalidToken (decode_part de_claims body);
      reject_if (negb (claims_valid account kind now claims)) InvalidToken;;
      reject_if (exp claims <=? now) ExpiredToken;;
      Ok claims
  | _ => Err InvalidToken
  end.
End tokens.

(** ** Round trips *)

Lemma de_ser_identity i : de_identity (ser_identity i) = Some i.
Proof. by destruct i. Qed.

Lemma as_u64_PosInt n : is_u64 n → as_u64 (JNumber (PosInt n)) = Some n.
Proof. intros Hn. simpl. by rewrite bool_decide_true. Qed.

Lemma de_ser_account a : is_u64 (fid a) → is_u64 (created_at a) → de_account (ser_account a) = Some a.
Proof.
  intros Hf Hc. unfold de_account. set (v := ser_account a).
  replace (u64_field "fid" v) with (as_u64 (JNumber (PosInt (fid a)))) by reflexivity.
  replace (u64_field "created_at" v) with (as_u64 (JNumber (PosInt (created_at a)))) by reflexivity.
  rewrite !as_u64_PosInt by done. destruct a as [f au [h d su sd] e c p r rc]. reflexivity.
Qed.

Lemma de_json_claims c : is_u64 (iat c) → is_u64 (exp c) → de_claims (json_claims c) = Some c.
Proof.
  intros Hi He. unfold de_claims. set (v := json_claims c).
  replace (u64_field "iat" v) with (as_u64 (JNumber (PosInt (iat c)))) by reflexivity.
  replace (u64_field "exp" v) with (as_u64 (JNumber (PosInt (exp c)))) by reflexivity.
  rewrite !as_u64_PosInt by done. destruct c. reflexivity.
Qed.

Lemma de_json_header h : de_header (json_header h) = Some h.
Proof. destruct h. reflexivity. Qed.

Lemma plain_account a : is_u64 (fid a) → is_u64 (created_at a) → json_plain (ser_account a) = true.
Proof.
  intros Hf Hc. destruct a as [f au [h d su sd] e c p r rc]. cbn in Hf, Hc.
  cbn -[is_u64 bool_decide]. rewrite !andb_true_iff. split_and!; first [apply bool_decide_true; assumption | vm_compute; reflexivity].
Qed.

Lemma plain_claims c : is_u64 (iat c) → is_u64 (exp c) → json_plain (json_claims c) = true.
Proof.
  intros Hi He. destruct c as [s a sc i e j sd]. cbn in Hi, He. 
  replace (json_claims _) with (JObject [("aud", JString a); ("exp", JNumber (PosInt e)); ("iat", JNumber (PosInt i));
    ("jti", JString j); ("scope", JString sc); ("sid", JString sd); ("sub", JString s)]) by reflexivity.
  cbn -[is_u64 bool_decide]. rewrite !andb_true_iff. split_and!; first [apply bool_decide_true; assumption | vm_compute; reflexivity].
Qed.

Lemma contains_char_elem c s : contains_char c s = false ↔ c ∉ chars_of s.
Proof.
  unfold contains_char, any_byte. induction (chars_of s) as [|d l IH]; simpl.
  { split; [intros _; apply not_elem_of_nil|done]. }
  rewrite orb_false_iff, IH, not_elem_of_cons, Ascii.eqb_neq. done.
Qed.

Lemma split_on_app c a r : c ∉ chars_of a → split_on c (a +:+ String c r) = a :: split_on c r.
Proof.
  induction a as [|d a IH]; intros Ha; simpl in *.
  - by rewrite Ascii.eqb_refl.
  - apply not_elem_of_cons in Ha as [Hd Ha]. rewrite (proj2 (Ascii.eqb_neq _ _)) by done. by rewrite IH.
Qed.

Lemma split_on_none c a : c ∉ chars_of a → split_on c a = [a].
Proof.
  induction a as [|d a IH]; intros Ha; simpl in *; [done|].
  apply not_elem_of_cons in Ha as [Hd Ha]. rewrite (proj2 (Ascii.eqb_neq _ _)) by done. by rewrite IH.
Qed.

Lemma str_app_assoc (a b c : string) : (a +:+ b) +:+ c = a +:+ (b +:+ c).
Proof. apply chars_of_inj. by rewrite !chars_of_app, app_assoc. Qed.

Section verify.
Context {JSON : JsonText} {B64 : Base64Url} {HMAC : HmacSha256} {HEX : HexLib}.

(** What a verified token is. *)
Record token_ok (key : bytes) (token : string) (account : Account) (kind : TokenKind) (now : Z) (c : Claims) : Prop := {
  tok_short : str_len token ≤ 4096;
  tok_parts : ∃ header body signature,
    split_on "." token = [header; body; signature] ∧
    b64_url_decode signature = Some (hmac_sha256 key (as_bytes (header +:+ "." +:+ body))) ∧
    decode_part de_header header = Some (mkHeader "HS256" (typ kind)) ∧
    decode_part de_claims body = Some c;
  tok_claims : claims_valid account kind now c = true;
  tok_live : now < exp c
}.

Lemma verify_token_ok key token account kind now c :
  verify_token key token account kind now = Ok c ↔ token_ok key token account kind now c.
Proof.
  unfold verify_token. split.
  - intros ([] & Hl%reject_if_ok & H)%bind_ok. boolify.
    destruct (split_on "." token) as [|h [|b [|s [|]]]] eqn:Hs; try done.
    apply bind_ok in H as (sg & Hsg%ok_or_ok & ([] & Hm%reject_if_ok & H)%bind_ok).
    apply bind_ok in H as ([ha ht] & Hh%ok_or_ok & ([] & Ht%reject_if_ok & H)%bind_ok).
    apply bind_ok in H as (cl & Hc%ok_or_ok & ([] & Hv%reject_if_ok & H)%bind_ok).
    apply bind_ok in H as ([] & He%reject_if_ok & [= <-]). simpl in *. boolify. subst.
    split; [lia| |done|done]. exists h, b, s. split_and!; done.
  - intros [Hl (h & b & s & Hs & Hsg & Hh & Hc) Hv He]. rewrite Hs.
    rewrite (proj2 (Z.ltb_ge _ _)) by lia. simpl. rewrite Hsg. simpl. rewrite bool_decide_true by done. simpl.
    rewrite Hh. simpl. rewrite !bool_decide_true by done. simpl. rewrite Hc. simpl. rewrite Hv. simpl.
    by rewrite (proj2 (Z.leb_gt _ _)) by lia.
Qed.

Lemma claims_valid_inv account kind now c : claims_valid account kind now c = true →
  sub c = id_did (identity account) ∧ aud c = service_did (identity account) ∧ cl_scope c = scope kind ∧
  iat c ≤ now ∧ iat c < exp c ∧ exp c - iat c ≤ lifetime kind ∧ hex_id (sid c) = true ∧ hex_id (jti c) = true.
Proof. unfold claims_valid. intros H. boolify. split_lia. Qed.

Lemma typ_inj k k' : typ k = typ k' → k = k'.
Proof. by destruct k, k'. Qed.

Lemma verify_kind_confusion key key' token account account' kind kind' now now' c :
  verify_token key token account kind now = Ok c → kind ≠ kind' →
  verify_token key' token account' kind' now' = Err InvalidToken.
Proof.
  intros [Hl (h & b & s & Hs & Hsg & Hh & Hc) Hv He]%verify_token_ok Hk. unfold verify_token.
  rewrite (proj2 (Z.ltb_ge _ _)) by lia. rewrite Hs, Hsg. simpl.
  destruct (bool_decide _); simpl; [|done]. rewrite Hh. simpl.
  rewrite bool_decide_false; [done|]. intros ?%typ_inj. congruence.
Qed.

Context {HB64 : Base64UrlLaws} {HJSON : JsonTextLaws}.

Lemma decode_encode_part {A} (de : Json → option A) v : json_plain v = true →
  decode_part de (encode_part v) = de v.
Proof.
  intros Hv. unfold decode_part, encode_part. rewrite b64_url_decode_encode. simpl.
  rewrite from_bytes_as, json_parse_print by done. done.
Qed.

Lemma sign_token_ok key account kind now c :
  is_u64 (iat c) → is_u64 (exp c) → claims_valid account kind now c = true → now < exp c →
  str_len (sign_token key c kind) ≤ 4096 →
  verify_token key (sign_token key c kind) account kind now = Ok c.
Proof.
  intros Hi He Hv Hn Hl. apply verify_token_ok. split; [done| |done|done].
  unfold sign_token. rewrite str_app_assoc.
  set (h := encode_part _). set (b := encode_part _). set (s := b64_url_encode _).
  assert (Hdot : ∀ x, ("."%char : ascii) ∉ chars_of (b64_url_encode x)).
  { intros x. apply contains_char_elem, b64_url_no_dot. }
  change (h +:+ ("." +:+ b) +:+ "." +:+ s) with (h +:+ String "." (b +:+ String "." s)).
  exists h, b, s. split_and!.
  - rewrite !split_on_app, split_on_none by apply Hdot. done.
  - apply b64_url_decode_encode.
  - subst h. rewrite decode_encode_part by by destruct kind. apply de_json_header.
  - subst b. rewrite decode_encode_part by by apply plain_claims. by apply de_json_claims.
Qed.

(** C36: a token accepted under one kind carries this server's MAC over its
    own header and body, names this account and server, is within the lifetime
    of its kind at [now], and is never accepted under the other kind: an access
    token cannot refresh, a refresh token cannot open a session. *)
Theorem verify_token_sound key token account kind now c :
  verify_token key token account kind now = Ok c →
  (∃ header body signature, split_on "." token = [header; body; signature] ∧
     b64_url_decode signature = Some (hmac_sha256 key (as_bytes (header +:+ "." +:+ body))) ∧
     decode_part de_claims body = Some c) ∧
  sub c = id_did (identity account) ∧ aud c = service_did (identity account) ∧ cl_scope c = scope kind ∧
  iat c ≤ now < exp c ∧ exp c - iat c ≤ lifetime kind ∧
  (∀ kind' account' now', kind' ≠ kind → verify_token key token account' kind' now' = Err InvalidToken).
Proof.
  intros Hv. pose proof Hv as Hok. apply verify_token_ok in Hok as [_ (h & b & s & Hs & Hsg & _ & Hc) Hcl Hlive].
  apply claims_valid_inv in Hcl as (? & ? & ? & ? & ? & ? & _). split_and!; try done; [by exists h, b, s|].
  intros kind' account' now' Hk. by eapply verify_kind_confusion.
Qed.
End verify.

Definition demo_account : Account :=
  mkAccount 7 "fid:7" demo_identity true 1757900000 "zkey" "3jzfcijpj2z2a" "cid".
Definition demo_id (b : byte) : string := hex_encode (repeat b 32).
Definition demo_claims : Claims :=
  mkClaims "did:web:alice.example.com" "did:web:pds.example.com" "com.atproto.appPass"
    1757900000 1757901800 (demo_id x01) (demo_id x02).
Definition demo_jwt_key : bytes := repeat x07 32.

Lemma verify_token_sound_witness :
  let token := sign_token demo_jwt_key demo_claims Access in
  verify_token demo_jwt_key token demo_account Access 1757900100 = Ok demo_claims ∧
  verify_token demo_jwt_key token demo_account Refresh 1757900100 = Err InvalidToken.
Proof.
  assert (Hv : verify_token demo_jwt_key (sign_token demo_jwt_key demo_claims Access) demo_account Access 1757900100
    = Ok demo_claims) by (vm_compute; done).
  split; [exact Hv|]. destruct (verify_token_sound _ _ _ _ _ _ Hv) as (_ & _ & _ & _ & _ & _ & Hk).
  by apply Hk.
Defined.
