(* ===== verification/CredStore.v ===== *)
(** * The credential store ([Store] of [crates/psky-credentials/src/lib.rs])

    The SQLite tables are a record; a transaction is a function from tables to
    new tables and a result, and an error rolls back.  Clock readings and
    random draws are arguments of the operations that take them. *)

From S2P Require Import Prelude RustStd BTreeMap Externs Fixtures RepoSyntax RepoRecords RepoRecordSet RepoMst RepoCar Repository CredIdentity CredTokens.
Import Cred.

Record PasswordRow := mkPassword { salt : bytes; verifier : bytes; p_created_at : Z }.
Record SessionRow := mkSessionRow { password_name : string; refresh_jti : string; refresh_exp : Z }.

(** The database file: [user_version], [secrets], [account], [passwords],
    [sessions] and [evidence]. *)
Record Db := mkDb {
  user_version : Z;
  secret : option bytes;
  account_row : option (string * bytes);
  passwords : gmap string PasswordRow;
  sessions : gmap string SessionRow;
  evidence_row : option string
}.

Definition empty_db : Db := mkDb 0 None None ∅ ∅ None.

Record Store := mkStore { db : Db; jwt_key : bytes }.

Record PasswordInfo := mkPasswordInfo { info_name : string; info_created_at : Z }.
Record IssuedPassword := mkIssued { info : PasswordInfo; password : string }.

(** rusqlite binds a [u64] as a signed 64-bit integer or fails. *)
Definition sql_u64 (n : Z) : result Error Z := if n <=? I64_MAX then Ok n else Err Persistence.

(** [transaction_with_behavior(Immediate)] .. [commit]: all or nothing. *)
Definition transaction {A} (self : Store) (body : Db → result Error (Db * A)) : Store * result Error A :=
  match body (db self) with
  | Ok (d, a) => (mkStore d (jwt_key self), Ok a)
  | Err e => (self, Err e)
  end.

(** ** Statements *)

Definition set_account_row (d : Db) (row : option (string * bytes)) : Db :=
  mkDb (user_version d) (secret d) row (passwords d) (sessions d) (evidence_row d).
Definition set_evidence_row (d : Db) (row : option string) : Db :=
  mkDb (user_version d) (secret d) (account_row d) (passwords d) (sessions d) row.
Definition set_sessions (d : Db) (s : gmap string SessionRow) : Db :=
  mkDb (user_version d) (secret d) (account_row d) (passwords d) s (evidence_row d).
Definition set_passwords (d : Db) (p : gmap string PasswordRow) : Db :=
  mkDb (user_version d) (secret d) (account_row d) p (sessions d) (evidence_row d).

(** [UPDATE account SET document=?1 WHERE id=1] *)
Definition update_account (d : Db) (document : string) : Db :=
  set_account_row d ((λ row, (document, row.2)) <$> account_row d).

(** Deleting passwords cascades to their sessions. *)
Definition delete_passwords (d : Db) (gone : string → Prop) `{!∀ n, Decision (gone n)} : Db :=
  set_sessions (set_passwords d (filter (λ kv, ¬ gone kv.1) (passwords d)))
    (filter (λ kv, ¬ (gone (password_name kv.2) ∧ is_Some (passwords d !! password_name kv.2))) (sessions d)).

(** [INSERT INTO sessions]: the primary key and the foreign key constrain it. *)
Definition insert_session (d : Db) (id : string) (row : SessionRow) : result Error Db :=
  if bool_decide (is_Some (sessions d !! id)) || bool_decide (passwords d !! password_name row = None)
  then Err Persistence else Ok (set_sessions d (<[id := row]> (sessions d))).

Definition count {A} (m : gmap string A) : Z := Z.of_nat (size m).

(** Rows in some order; the queries read at most sixteen. *)
Definition password_rows (d : Db) : list (string * PasswordRow) := take 16 (map_to_list (passwords d)).

(** ** File checks *)

Inductive FsEntry :=
| FsDirectory (mode : Z)
| FsFile (mode nlink : Z)
| FsSymlink
| FsOther.

(** [prepare_directory]: the entry that exists, or a new directory. *)
Definition prepare_directory (entry : option FsEntry) : result Error FsEntry :=
  let entry := default (FsDirectory 0x1c0) entry in
  match entry with
  | FsDirectory mode => reject_if (negb (Z.land mode 0x3f =? 0)) Persistence;; Ok entry
  | _ => Err Persistence
  end.

Definition prepare_database (entry : option FsEntry) : result Error FsEntry :=
  let entry := default (FsFile 0x180 1) entry in
  match entry with
  | FsFile mode nlink =>
      reject_if (negb (Z.land mode 0x3f =? 0) || negb (nlink =? 1)) Persistence;; Ok entry
  | _ => Err Persistence
  end.

Section store.
Context {SHA : Sha256} {CID : CidLib} {HDC : DagCbor} {ECD : Ecdsa} {URL : UrlLib}
  {JSON : JsonText} {B64 : Base64Url} {HMAC : HmacSha256} {HEX : HexLib} {B58 : Base58}.

Definition password_hash (salt : bytes) (password : string) : bytes :=
  sha256 (as_bytes "PurpleSky generated app password v1" ++ [x00] ++ salt ++ as_bytes password).

Definition load_account (d : Db) : result Error (option Account) :=
  match account_row d with
  | None => Ok None
  | Some (document, _) =>
      reject_if (8192 <? str_len document) Persistence;;
      Some <$> ok_or Persistence (json_from_str document ≫= de_account)
  end.

Definition enabled_account (d : Db) : result Error Account :=
  account ← load_account d;
  account ← ok_or NotBound account;
  reject_if (negb (enabled account)) Disabled;;
  Ok account.

Definition token_account_error (error : Error) : Error :=
  match error with Persistence => error | _ => InvalidToken end.

(** The row loop: malformed rows are an error, the last match wins. *)
Fixpoint match_rows (rows : list (string * PasswordRow)) (password : string) (matched : option string) :
    result Error (option string) :=
  match rows with
  | [] => Ok matched
  | (name, row) :: rows =>
      reject_if (negb (len (salt row) =? 32) || negb (len (verifier row) =? 32)) Persistence;;
      match_rows rows password
        (if bool_decide (password_hash (salt row) password = verifier row) then Some name else matched)
  end.

Definition malformed_login (identifier password : string) : bool :=
  (512 <? str_len identifier) || negb (str_len password =? 48) || negb (starts_with_str "psky-" password).

Definition verify_password (d : Db) (identifier password : string) : result Error (Account * string) :=
  reject_if (malformed_login identifier password) InvalidCredentials;;
  account ← map_err (λ e, match e with Persistence => e | _ => InvalidCredentials end) (enabled_account d);
  matched ← match_rows (password_rows d) password None;
  reject_if
    (negb (bool_decide (identifier = handle (identity account)))
     && negb (bool_decide (identifier = id_did (identity account)))) InvalidCredentials;;
  name ← ok_or InvalidCredentials matched;
  Ok (account, name).

Definition validate_session (d : Db) (claims : Claims) (refresh : bool) (now : Z) : result Error () :=
  row ← ok_or InvalidToken (sessions d !! sid claims);
  reject_if
    ((refresh_exp row <=? now)
     || (refresh && (negb (bool_decide (refresh_jti row = jti claims)) || negb (refresh_exp row =? exp claims))))
    InvalidToken.

(** ** Operations *)

Definition account (self : Store) : result Error (option Account) := load_account (db self).

Definition set_evidence (document : string) (self : Store) : Store * result Error () :=
  if str_is_empty document || (32 * 1024 <? str_len document) then (self, Err InvalidInput) else
  transaction self (λ d,
    enabled_account d;;
    Ok (set_evidence_row d (Some document), ())).

Definition evidence (self : Store) : result Error (option string) :=
  reject_if (from_option (λ value, 32 * 1024 <? str_len value) false (evidence_row (db self))) Persistence;;
  Ok (evidence_row (db self)).

Definition bind_verified (now : Z) (draw : bytes) (fid_ : Z) (authority_ : string) (identity_ : Identity)
    (self : Store) : Store * result Error Account :=
  transaction self (λ d,
    validate identity_;;
    reject_if ((fid_ =? 0) || (I64_MAX <? fid_) || negb (valid_authority authority_)) InvalidInput;;
    existing ← load_account d;
    match existing with
    | Some account =>
        reject_if
          (negb (fid account =? fid_) || negb (bool_decide (identity account = identity_))
           || (enabled account && negb (bool_decide (authority account = authority_))))
          BindingConflict;;
        let account :=
          mkAccount (fid account) authority_ (identity account) true (created_at account)
            (public_key_multibase account) (repo_revision account) (repo_cid account) in
        Ok (update_account d (encode_account account), account)
    | None =>
        signer ← map_err (λ _, Persistence) (signer_from_bytes draw);
        let revision := revision now in
        repo ← map_err (λ _, InvalidInput) (Repository.build (id_did identity_) revision RepoRecordSet.new signer);
        let multicodec := [xe7; x01] ++ public_key_sec1 signer in
        let account :=
          mkAccount fid_ authority_ identity_ true now ("z" +:+ bs58_encode multicodec) revision
            (cid_to_string (root repo)) in
        Ok (set_account_row d (Some (encode_account account, draw)), account)
    end).

Definition invalidate_authority (self : Store) : Store * result Error () :=
  transaction self (λ d,
    account ← load_account d;
    account ← ok_or NotBound account;
    let account :=
      mkAccount (fid account) (authority account) (identity account) false (created_at account)
        (public_key_multibase account) (repo_revision account) (repo_cid account) in
    let d := update_account d (encode_account account) in
    let d := delete_passwords d (λ _, True) in
    Ok (set_evidence_row d None, ())).

Definition issue_password (now : Z) (draw salt_draw : bytes) (name : string) (self : Store) :
    Store * result Error IssuedPassword :=
  transaction self (λ d,
    reject_if (negb (valid_name name)) InvalidInput;;
    enabled_account d;;
    reject_if (MAX_PASSWORDS <=? count (passwords d)) Limit;;
    reject_if (bool_decide (is_Some (passwords d !! name))) InvalidInput;;
    let password := "psky-" +:+ b64_url_encode draw in
    created ← sql_u64 now;
    let row := mkPassword salt_draw (password_hash salt_draw password) created in
    Ok (set_passwords d (<[name := row]> (passwords d)), mkIssued (mkPasswordInfo name now) password)).

(** [ORDER BY created_at, name] *)
Definition info_le (a b : PasswordInfo) : Prop :=
  info_created_at a < info_created_at b ∨
  (info_created_at a = info_created_at b ∧ str_ltb (info_name b) (info_name a) = false).
#[export] Instance info_le_dec a b : Decision (info_le a b).
Proof. unfold info_le. apply _. Defined.

Definition list_passwords (self : Store) : list PasswordInfo :=
  take 16 (merge_sort info_le
    ((λ kv, mkPasswordInfo kv.1 (p_created_at kv.2)) <$> map_to_list (passwords (db self)))).

Definition revoke_password (name : string) (self : Store) : Store * result Error () :=
  transaction self (λ d,
    reject_if (negb (valid_name name)) InvalidInput;;
    Ok (delete_passwords d (λ n, n = name), ())).

Definition validate_password (identifier password : string) (self : Store) : result Error () :=
  (λ _, ()) <$> verify_password (db self) identifier password.

(** Draws: session id, refresh id and the access token's id. *)
Definition authenticate (now : Z) (sid_draw jti_draw access_draw : bytes) (identifier password : string)
    (self : Store) : Store * result Error Session :=
  transaction self (λ d,
    reject_if (malformed_login identifier password) InvalidCredentials;;
    '(account, name) ← verify_password d identifier password;
    now_sql ← sql_u64 now;
    let d := set_sessions d (filter (λ kv, ¬ refresh_exp kv.2 ≤ now_sql) (sessions d)) in
    reject_if (MAX_SESSIONS <=? count (sessions d)) Limit;;
    let sid := random_id sid_draw in
    let jti := random_id jti_draw in
    let expires := now + REFRESH_SECONDS in
    let session := create_session (jwt_key self) account sid jti now expires access_draw in
    expires ← sql_u64 expires;
    d ← insert_session d sid (mkSessionRow name jti expires);
    Ok (d, session)).

(** The clock is read twice. *)
Definition get_session (now now' : Z) (access : string) (self : Store) : result Error SessionInfo :=
  account ← map_err token_account_error (enabled_account (db self));
  claims ← verify_token (jwt_key self) access account Access now;
  validate_session (db self) claims false now';;
  Ok (session_info account).

Definition validate_refresh (now : Z) (refresh : string) (self : Store) : result Error SessionInfo :=
  account ← map_err token_account_error (enabled_account (db self));
  claims ← verify_token (jwt_key self) refresh account Refresh now;
  validate_session (db self) claims true now;;
  Ok (session_info account).

Definition refresh_session (now : Z) (jti_draw access_draw : bytes) (refresh : string) (self : Store) :
    Store * result Error Session :=
  transaction self (λ d,
    account ← map_err token_account_error (enabled_account d);
    claims ← verify_token (jwt_key self) refresh account Refresh now;
    validate_session d claims true now;;
    let jti' := random_id jti_draw in
    let session := create_session (jwt_key self) account (sid claims) jti' now (exp claims) access_draw in
    (* UPDATE sessions SET refresh_jti=?1 WHERE id=?2 AND refresh_jti=?3 *)
    match sessions d !! sid claims with
    | Some row =>
        reject_if (negb (bool_decide (refresh_jti row = jti claims))) InvalidToken;;
        Ok (set_sessions d (<[sid claims := mkSessionRow (password_name row) jti' (refresh_exp row)]> (sessions d)),
            session)
    | None => Err InvalidToken
    end).

Definition delete_session (now : Z) (refresh : string) (self : Store) : Store * result Error () :=
  transaction self (λ d,
    account ← map_err token_account_error (enabled_account d);
    claims ← verify_token (jwt_key self) refresh account Refresh now;
    validate_session d claims true now;;
    Ok (set_sessions d (base.delete (sid claims) (sessions d)), ())).

Definition repository (self : Store) : result Error Repository :=
  account ← account self;
  account ← ok_or NotBound account;
  b ← ok_or Persistence (snd <$> account_row (db self));
  reject_if (negb (len b =? 32)) Persistence;;
  signer ← map_err (λ _, Persistence) (signer_from_bytes b);
  map_err (λ _, Persistence)
    (Repository.build (id_did (identity account)) (repo_revision account) RepoRecordSet.new signer).

Definition empty_repository (self : Store) : result Error bytes :=
  repo ← repository self; map_err (λ _, Persistence) (to_car repo).

Definition did_document_of (self : Store) : result Error Json :=
  account ← account self; ok_or NotBound (did_document <$> account).

(** The schema transaction of [open] commits before the account is checked. *)
Definition open_schema (d : Db) (draw : bytes) : result Error (Db * bytes) :=
  reject_if (1 <? user_version d) Persistence;;
  match secret d with
  | Some key =>
      reject_if (negb (len key =? 32)) Persistence;;
      Ok (mkDb 1 (Some key) (account_row d) (passwords d) (sessions d) (evidence_row d), key)
  | None => Ok (mkDb 1 (Some draw) (account_row d) (passwords d) (sessions d) (evidence_row d), draw)
  end.

Definition open_check (self : Store) : result Error () :=
  account ← account self;
  match account with
  | None => Ok ()
  | Some account =>
      map_err (λ _, Persistence) (validate (identity account));;
      reject_if ((fid account =? 0) || negb (valid_authority (authority account))) Persistence;;
      repo ← repository self;
      reject_if (negb (bool_decide (cid_to_string (root repo) = repo_cid account))) Persistence
  end.

(** [Store::open] on the directory entry, the file entry and its contents: the
    database it leaves behind, and the store or the error. *)
Definition open (directory file : option FsEntry) (d : Db) (draw : bytes) : Db * result Error Store :=
  match prepare_directory directory;; prepare_database file;; open_schema d draw with
  | Err e => (d, Err e)
  | Ok (d', key) =>
      let store := mkStore d' key in
      (d', open_check store;; Ok store)
  end.
End store.
