(* ===== verification/CredProofs.v ===== *)
(** * Properties of the credential store

    The operations as steps over a store, the invariant of the reachable
    stores, and what the store promises: bounded tables, a fixed identity,
    revocation that lasts, single-use refresh tokens, working logins and a
    database that reopens. *)

From S2P Require Import Prelude RustStd BTreeMap Externs Fixtures RepoSyntax RepoRecords RepoRecordSet RepoMst RepoCar Repository CredIdentity CredTokens CredStore.
Import Cred.

(** The mutating operations, with their clock readings and random draws. *)
Inductive CredOp :=
| OpBind (now : Z) (draw : bytes) (fid : Z) (authority : string) (identity : Identity)
| OpInvalidate
| OpEvidence (document : string)
| OpIssue (now : Z) (draw salt_draw : bytes) (name : string)
| OpRevoke (name : string)
| OpAuthenticate (now : Z) (sid_draw jti_draw access_draw : bytes) (identifier password : string)
| OpRefresh (now : Z) (jti_draw access_draw : bytes) (token : string)
| OpDelete (now : Z) (token : string).

(** Clocks and FIDs are [u64] and every draw is 32 bytes. *)
Definition op_ok (op : CredOp) : Prop :=
  match op with
  | OpBind now draw fid _ _ => is_u64 now ∧ len draw = 32 ∧ is_u64 fid
  | OpIssue now draw salt_draw _ => is_u64 now ∧ len draw = 32 ∧ len salt_draw = 32
  | OpAuthenticate now s j a _ _ => is_u64 now ∧ len s = 32 ∧ len j = 32 ∧ len a = 32
  | OpRefresh now j a _ => is_u64 now ∧ len j = 32 ∧ len a = 32
  | OpDelete now _ => is_u64 now
  | _ => True
  end.

Section store.
Context {SHA : Sha256} {CID : CidLib} {HDC : DagCbor} {ECD : Ecdsa} {URL : UrlLib}
  {JSON : JsonText} {B64 : Base64Url} {HMAC : HmacSha256} {HEX : HexLib} {B58 : Base58}.

Definition cred_step (st : Store) (op : CredOp) : Store :=
  match op with
  | OpBind now draw f au i => (bind_verified now draw f au i st).1
  | OpInvalidate => (invalidate_authority st).1
  | OpEvidence d => (set_evidence d st).1
  | OpIssue now draw s n => (issue_password now draw s n st).1
  | OpRevoke n => (revoke_password n st).1
  | OpAuthenticate now s j a i p => (authenticate now s j a i p st).1
  | OpRefresh now j a t => (refresh_session now j a t st).1
  | OpDelete now t => (delete_session now t st).1
  end.

Definition cred_run (st : Store) (ops : list CredOp) : Store := foldl cred_step st ops.

(** A fresh store: the database [open] leaves in an empty directory. *)
Definition fresh_store (key : bytes) : Store := mkStore (mkDb 1 (Some key) None ∅ ∅ None) key.

(** ** Invariant *)

(** The multikey of a signer's public key. *)
Definition multikey (signer : RepoSigner) : string := "z" +:+ bs58_encode ([xe7; x01] ++ public_key_sec1 signer).

Record account_valid (a : Account) (key : bytes) : Prop := {
  av_identity : validate (identity a) = Ok ();
  av_fid : 0 < fid a ≤ I64_MAX;
  av_authority : valid_authority (authority a) = true;
  av_created : is_u64 (created_at a);
  av_key : len key = 32;
  av_repo : ∃ signer repo, signer_from_bytes key = Ok signer ∧
    Repository.build (id_did (identity a)) (repo_revision a) RepoRecordSet.new signer = Ok repo ∧
    cid_to_string (root repo) = repo_cid a;
  av_multikey : ∀ signer, signer_from_bytes key = Ok signer → public_key_multibase a = multikey signer
}.

(** The account the database holds. *)
Definition stored_account (d : Db) (a : Account) : Prop :=
  ∃ key, account_row d = Some (encode_account a, key) ∧ account_valid a key.

Record db_wf (key : bytes) (d : Db) : Prop := {
  wf_version : user_version d = 1;
  wf_secret : secret d = Some key;
  wf_account : account_row d = None ∨ ∃ a, stored_account d a;
  wf_evidence : ∀ doc, evidence_row d = Some doc → str_len doc ≤ 32 * 1024;
  wf_passwords : count (passwords d) ≤ MAX_PASSWORDS;
  wf_sessions : count (sessions d) ≤ MAX_SESSIONS;
  wf_rows : ∀ n r, passwords d !! n = Some r → len (salt r) = 32 ∧ len (verifier r) = 32;
  wf_owner : ∀ s r, sessions d !! s = Some r → is_Some (passwords d !! password_name r);
  (** only an enabled account has passwords, hence sessions, or evidence *)
  wf_enabled : ∀ a, stored_account d a → enabled a = false → passwords d = ∅ ∧ evidence_row d = None;
  wf_unbound : account_row d = None → passwords d = ∅ ∧ evidence_row d = None
}.

Lemma fresh_wf key : db_wf key (db (fresh_store key)).
Proof.
  split; simpl; try done. by left.
Qed.

Context {HJSON : JsonTextLaws} {HSHA : Sha256Laws}.

Lemma decode_account a key : account_valid a key → json_from_str (encode_account a) ≫= de_account = Some a.
Proof.
  intros Hv. unfold encode_account.
  assert (is_u64 (fid a)) by (destruct (av_fid _ _ Hv); unfold is_u64, U64_MAX, I64_MAX in *; lia).
  pose proof (av_created _ _ Hv). rewrite json_parse_print by by apply plain_account. simpl. by apply de_ser_account.
Qed.

(** Loading returns what is stored, or a persistence error. *)
Lemma load_account_stored d r : (account_row d = None ∨ ∃ a, stored_account d a) →
  load_account d = Ok r →
  match r with Some a => stored_account d a | None => account_row d = None end.
Proof.
  intros [Hn|(a & k & Hr & Hv)]; unfold load_account; [rewrite Hn; by intros [= <-]|].
  rewrite Hr. destruct (8192 <? str_len (encode_account a)); simpl; [done|].
  rewrite (decode_account _ _ Hv). simpl. intros [= <-]. by exists k.
Qed.

Lemma stored_account_unique d a a' : stored_account d a → stored_account d a' → a = a'.
Proof.
  intros (k & Hr & Hv) (k' & Hr' & Hv'). rewrite Hr in Hr'. injection Hr' as He <-.
  pose proof (decode_account _ _ Hv) as H1. pose proof (decode_account _ _ Hv') as H2. rewrite He in H1. congruence.
Qed.

Lemma enabled_account_stored d a : (account_row d = None ∨ ∃ a, stored_account d a) →
  enabled_account d = Ok a → stored_account d a ∧ enabled a = true.
Proof.
  intros Hw. unfold enabled_account. intros (r & Hl & (a' & Ha%ok_or_ok & ([] & He%reject_if_ok & [= <-])%bind_ok)%bind_ok)%bind_ok.
  apply load_account_stored in Hl; [|done]. subst r. by apply negb_false_iff in He.
Qed.

Lemma transaction_db {A} st (body : Db → result Error (Db * A)) :
  (∃ d a, body (db st) = Ok (d, a) ∧ transaction st body = (mkStore d (jwt_key st), Ok a)) ∨
  (∃ e, body (db st) = Err e ∧ transaction st body = (st, Err e)).
Proof. unfold transaction. destruct (body (db st)) as [[d a]|e]; [left|right]; eauto. Qed.

(** An operation preserves the invariant if its committed branch does. *)
Lemma transaction_wf {A} st (body : Db → result Error (Db * A)) :
  (∀ d a, body (db st) = Ok (d, a) → db_wf (jwt_key st) (db st) → db_wf (jwt_key st) d) →
  db_wf (jwt_key st) (db st) → db_wf (jwt_key st) (db (transaction st body).1).
Proof. intros Hb Hwf. destruct (transaction_db st body) as [(d & a & Hd & ->)|(e & _ & ->)]; simpl; eauto. Qed.

Lemma count_insert_le {A} (m : gmap string A) k v : count (<[k := v]> m) ≤ count m + 1.
Proof.
  unfold count. destruct (m !! k) as [x|] eqn:Hk.
  - rewrite map_size_insert_Some by (by exists x). lia.
  - rewrite map_size_insert_None by done. lia.
Qed.

Lemma count_filter_le {A} (P : string * A → Prop) `{∀ x, Decision (P x)} (m : gmap string A) :
  count (filter P m) ≤ count m.
Proof. unfold count. pose proof (map_subseteq_size _ _ (map_filter_subseteq P m)). lia. Qed.

Lemma count_delete_le {A} (m : gmap string A) k : count (base.delete k m) ≤ count m.
Proof. unfold count. pose proof (map_subseteq_size _ _ (delete_subseteq m k)). lia. Qed.

Lemma delete_passwords_sessions d gone `{!∀ n, Decision (gone n)} s r :
  sessions (delete_passwords d gone) !! s = Some r → sessions d !! s = Some r ∧
    (is_Some (passwords d !! password_name r) → ¬ gone (password_name r)).
Proof. unfold delete_passwords. simpl. intros [Hs Hg]%map_lookup_filter_Some. simpl in Hg. naive_solver. Qed.

Lemma delete_passwords_wf key d gone `{!∀ n, Decision (gone n)} :
  db_wf key d → db_wf key (delete_passwords d gone).
Proof.
  intros Hwf. split; try apply Hwf.
  - etransitivity; [apply count_filter_le|apply Hwf].
  - etransitivity; [apply count_filter_le|apply Hwf].
  - simpl. intros n r [Hn _]%map_lookup_filter_Some. by eapply wf_rows.
  - intros s r [Hs Hg]%delete_passwords_sessions. destruct (wf_owner _ _ Hwf _ _ Hs) as [p Hp].
    exists p. simpl. apply map_lookup_filter_Some. split; [done|]. simpl. apply Hg. by exists p.
  - intros a Ha He. destruct (wf_enabled _ _ Hwf a Ha He) as [Hp Hev]. simpl. by rewrite Hp, map_filter_empty.
  - intros Hn. destruct (wf_unbound _ _ Hwf Hn) as [Hp Hev]. simpl. by rewrite Hp, map_filter_empty.
Qed.

(** An account row that satisfies the invariant, over otherwise valid tables. *)
Lemma account_row_wf key d a k ev :
  db_wf key d → account_valid a k →
  (enabled a = false → passwords d = ∅) → (enabled a = false → ev = None) →
  (∀ doc, ev = Some doc → str_len doc ≤ 32 * 1024) →
  db_wf key (set_evidence_row (set_account_row d (Some (encode_account a, k))) ev).
Proof.
  intros Hwf Hv Hp Hev Hlen. split; simpl; try apply Hwf; try done.
  - right. exists a, k. done.
  - intros a' Ha' He. assert (a' = a) as ->.
    { eapply stored_account_unique; [exact Ha'|]. exists k. done. }
    auto.
Qed.

Lemma set_evidence_same d : set_evidence_row d (evidence_row d) = d.
Proof. by destruct d. Qed.

(** The account of a first binding. *)
Lemma new_account_valid f au i now sg repo draw :
  validate i = Ok () → 0 < f ≤ I64_MAX → valid_authority au = true → is_u64 now → len draw = 32 →
  signer_from_bytes draw = Ok sg → Repository.build (id_did i) (revision now) RepoRecordSet.new sg = Ok repo →
  account_valid (mkAccount f au i true now (multikey sg) (revision now) (cid_to_string (root repo))) draw.
Proof.
  intros Hi Hf Ha Hn Hd Hs Hb. split; [done..| |]; cbn [identity repo_revision repo_cid public_key_multibase]; [eauto|].
  intros sg' Hs'. assert (sg' = sg) as -> by congruence. done.
Qed.

Lemma bind_wf now draw f au i st : is_u64 now → len draw = 32 → is_u64 f →
  db_wf (jwt_key st) (db st) → db_wf (jwt_key st) (db (bind_verified now draw f au i st).1).
Proof.
  intros Hnow Hdraw [Hf _]. apply transaction_wf. intros d' a H Hwf.
  apply bind_ok in H as ([] & Hi & ([] & Hc%reject_if_ok & (r & Hl & H)%bind_ok)%bind_ok). boolify.
  apply load_account_stored in Hl; [|apply Hwf]. destruct r as [acc|].
  - apply bind_ok in H as ([] & Hb%reject_if_ok & [= <- <-]). destruct Hl as (k & Hr & Hv).
    unfold update_account. rewrite Hr. simpl.
    rewrite <-(set_evidence_same (set_account_row _ _)).
    apply account_row_wf; try done; [|apply Hwf]. destruct Hv. by split.
  - apply bind_ok in H as (sg & Hs%map_err_ok & (repo & Hrepo%map_err_ok & [= <- <-])%bind_ok).
    rewrite <-(set_evidence_same (set_account_row _ _)).
    apply account_row_wf; try done; [|apply Hwf]. by apply (new_account_valid _ _ _ _ sg repo); [..|lia| | | | |].
Qed.

Lemma invalidate_wf st :
  db_wf (jwt_key st) (db st) → db_wf (jwt_key st) (db (invalidate_authority st).1).
Proof.
  apply transaction_wf. intros d' u H Hwf.
  apply bind_ok in H as (r & Hl & (acc & ->%ok_or_ok & [= <- <-])%bind_ok).
  apply load_account_stored in Hl as (k & Hr & Hv); [|apply Hwf].
  unfold update_account. rewrite Hr. simpl.
  pose proof (delete_passwords_wf _ _ (λ _, True) Hwf) as Hd.
  apply (account_row_wf _ _ _ k None Hd); try done.
  - destruct Hv. by split.
  - intros _. apply map_empty. intros n. simpl. apply eq_None_not_Some.
    intros [x [_ Hx]%map_lookup_filter_Some]. by apply Hx.
Qed.

Lemma evidence_wf doc st :
  db_wf (jwt_key st) (db st) → db_wf (jwt_key st) (db (set_evidence doc st).1).
Proof.
  unfold set_evidence. destruct (_ || _) eqn:Hc; [done|]. boolify.
  apply transaction_wf. intros d' u (acc & He & [= <- <-])%bind_ok Hwf.
  apply enabled_account_stored in He as [Ha Hen]; [|apply Hwf].
  split; simpl; try apply Hwf.
  - intros doc' [= <-]. lia.
  - intros a' Ha' Hdis. by rewrite (stored_account_unique _ _ _ Ha' Ha), Hen in Hdis.
  - intros Hn. destruct Ha as (k & Hr & _). congruence.
Qed.

Lemma password_hash_len s p : len (password_hash s p) = 32.
Proof. apply sha256_len. Qed.

Lemma sql_u64_ok n m : sql_u64 n = Ok m ↔ n ≤ I64_MAX ∧ m = n.
Proof. unfold sql_u64. destruct (Z.leb_spec n I64_MAX); naive_solver lia. Qed.

Lemma issue_wf now draw sd name st : len sd = 32 →
  db_wf (jwt_key st) (db st) → db_wf (jwt_key st) (db (issue_password now draw sd name st).1).
Proof.
  intros Hsd. apply transaction_wf. intros d' iss H Hwf.
  apply bind_ok in H as ([] & Hn%reject_if_ok & (acc & He & H)%bind_ok).
  apply bind_ok in H as ([] & Hc%reject_if_ok & ([] & Hx%reject_if_ok & (cr & _ & [= <- <-])%bind_ok)%bind_ok).
  boolify. apply enabled_account_stored in He as [Ha Hen]; [|apply Hwf].
  split; simpl; try apply Hwf.
  - etransitivity; [apply count_insert_le|lia].
  - intros n r. destruct (decide (n = name)) as [->|Hne].
    + rewrite lookup_insert_eq. intros [= <-]. simpl. split; [done|apply password_hash_len].
    + rewrite lookup_insert_ne by done. apply Hwf.
  - intros s r Hs. destruct (wf_owner _ _ Hwf _ _ Hs) as [p Hp]. rewrite lookup_insert_is_Some'. right. by exists p.
  - intros a' Ha' Hdis. by rewrite (stored_account_unique _ _ _ Ha' Ha), Hen in Hdis.
  - intros Hnone. destruct Ha as (k & Hr & _). congruence.
Qed.

Lemma revoke_wf name st :
  db_wf (jwt_key st) (db st) → db_wf (jwt_key st) (db (revoke_password name st).1).
Proof.
  apply transaction_wf. intros d' u ([] & _ & [= <- <-])%bind_ok Hwf. by apply delete_passwords_wf.
Qed.

(** Changing the sessions only: fewer than the limit, each with its password. *)
Lemma sessions_wf key d m : db_wf key d → count m ≤ MAX_SESSIONS →
  (∀ s r, m !! s = Some r → is_Some (passwords d !! password_name r)) → db_wf key (set_sessions d m).
Proof. intros Hwf Hc Ho. split; simpl; try apply Hwf; done. Qed.

Lemma verify_password_ok d i p acc n : verify_password d i p = Ok (acc, n) →
  enabled_account d = Ok acc ∧ (i = handle (identity acc) ∨ i = id_did (identity acc)) ∧
  match_rows (password_rows d) p None = Ok (Some n).
Proof.
  unfold verify_password. intros ([] & _ & (a & Ha%map_err_ok & (m & Hm & H)%bind_ok)%bind_ok)%bind_ok.
  apply bind_ok in H as ([] & Hi%reject_if_ok & (n' & ->%ok_or_ok & [= <- <-])%bind_ok).
  split_and!; [done| |done].
  apply andb_false_iff in Hi as [Hi|Hi]; boolify; auto.
Qed.

Lemma match_rows_in rows p m n : match_rows rows p m = Ok (Some n) →
  m = Some n ∨ ∃ row, (n, row) ∈ rows ∧ password_hash (salt row) p = verifier row.
Proof.
  revert m. induction rows as [|[n' r] rows IH]; intros m; simpl; [intros [= <-]; auto|].
  intros ([] & _ & [Hm|(row & Hin & Hh)]%IH)%bind_ok.
  - destruct (bool_decide _) eqn:Hb; [|auto]. boolify. injection Hm as <-. right. exists r.
    split; [by left|done].
  - right. exists row. split; [by right|done].
Qed.

Lemma authenticate_wf now s j a i p st :
  db_wf (jwt_key st) (db st) → db_wf (jwt_key st) (db (authenticate now s j a i p st).1).
Proof.
  apply transaction_wf. intros d' se H Hwf.
  apply bind_ok in H as ([] & _ & ([acc n] & Hv & (ns & _ & H)%bind_ok)%bind_ok).
  apply bind_ok in H as ([] & Hc%reject_if_ok & (ex & _ & (d2 & Hins & [= <- <-])%bind_ok)%bind_ok). boolify.
  unfold insert_session in Hins. destruct (_ || _) eqn:Hk; [done|]. injection Hins as <-.
  apply orb_false_iff in Hk as [_ Hk]. boolify. simpl in *.
  apply sessions_wf.
  - apply sessions_wf; [done|etransitivity; [apply count_filter_le|apply Hwf]|].
    intros s' r [Hs' _]%map_lookup_filter_Some. by eapply wf_owner.
  - etransitivity; [apply count_insert_le|lia].
  - simpl. intros s' r. destruct (decide (s' = random_id s)) as [->|Hne].
    + rewrite lookup_insert_eq. intros [= <-]. simpl. destruct (passwords (db st) !! n); [by eexists|done].
    + rewrite lookup_insert_ne by done. intros [Hs' _]%map_lookup_filter_Some. by eapply wf_owner.
Qed.

Lemma refresh_wf now j a t st :
  db_wf (jwt_key st) (db st) → db_wf (jwt_key st) (db (refresh_session now j a t st).1).
Proof.
  apply transaction_wf. intros d' se H Hwf.
  apply bind_ok in H as (acc & _ & (cl & _ & ([] & _ & H)%bind_ok)%bind_ok).
  destruct (sessions (db st) !! sid cl) as [row|] eqn:Hs; [|done].
  apply bind_ok in H as ([] & _ & [= <- <-]). apply sessions_wf; [done|..].
  - unfold count. rewrite map_size_insert_Some by (by exists row). apply Hwf.
  - intros s' r. destruct (decide (s' = sid cl)) as [->|Hne].
    + rewrite lookup_insert_eq. intros [= <-]. simpl. exact (wf_owner _ _ Hwf _ _ Hs).
    + rewrite lookup_insert_ne by done. apply (wf_owner _ _ Hwf).
Qed.

Lemma delete_session_wf now t st :
  db_wf (jwt_key st) (db st) → db_wf (jwt_key st) (db (delete_session now t st).1).
Proof.
  apply transaction_wf. intros d' u H Hwf.
  apply bind_ok in H as (acc & _ & (cl & _ & ([] & _ & [= <- <-])%bind_ok)%bind_ok).
  apply sessions_wf; [done|etransitivity; [apply count_delete_le|apply Hwf]|].
  intros s' r [_ Hs]%lookup_delete_Some. by eapply wf_owner.
Qed.

Lemma transaction_key {A} st (body : Db → result Error (Db * A)) : jwt_key (transaction st body).1 = jwt_key st.
Proof. by destruct (transaction_db st body) as [(? & ? & _ & ->)|(? & _ & ->)]. Qed.

Lemma cred_step_key st op : jwt_key (cred_step st op) = jwt_key st.
Proof.
  destruct op; try apply transaction_key. simpl. unfold set_evidence. destruct (_ || _); [done|apply transaction_key].
Qed.

Lemma cred_step_wf st op : op_ok op → db_wf (jwt_key st) (db st) → db_wf (jwt_key st) (db (cred_step st op)).
Proof.
  destruct op; simpl; intros Hop Hwf.
  - destruct Hop as (? & ? & ?). by apply bind_wf.
  - by apply invalidate_wf.
  - by apply evidence_wf.
  - destruct Hop as (_ & _ & ?). by apply issue_wf.
  - by apply revoke_wf.
  - by apply authenticate_wf.
  - by apply refresh_wf.
  - by apply delete_session_wf.
Qed.

Lemma cred_run_wf st ops : Forall op_ok ops →
  db_wf (jwt_key st) (db st) → jwt_key (cred_run st ops) = jwt_key st ∧ db_wf (jwt_key st) (db (cred_run st ops)).
Proof.
  intros Hops. revert st. induction Hops as [|op ops Hop _ IH]; intros st Hwf; [done|].
  simpl. destruct (IH (cred_step st op)) as [Hk Hw].
  - rewrite cred_step_key. by apply cred_step_wf.
  - rewrite cred_step_key in *. done.
Qed.

(** ** What the operations leave alone *)

(** The committed branch of a transaction body. *)
Ltac inv_body := inv_result; cbn zeta in *; inv_result.

(** A statement about tables that every committed branch preserves. *)
Lemma transaction_keeps {A} st (body : Db → result Error (Db * A)) (P : Db → Prop) :
  (∀ d a, body (db st) = Ok (d, a) → P d) → P (db st) → P (db (transaction st body).1).
Proof. intros Hb HP. destruct (transaction_db st body) as [(d & a & Hd & ->)|(e & _ & ->)]; simpl; eauto. Qed.

Definition changes_account (op : CredOp) : bool :=
  match op with OpBind _ _ _ _ _ | OpInvalidate => true | _ => false end.

(** Only binding and invalidation write the account; only invalidation and
    revocation remove passwords. *)
Lemma cred_step_keeps st op : changes_account op = false →
  account_row (db (cred_step st op)) = account_row (db st) ∧
  ∀ n row, passwords (db st) !! n = Some row → op ≠ OpRevoke n → passwords (db (cred_step st op)) !! n = Some row.
Proof.
  intros Hop. set (P d := account_row d = account_row (db st) ∧
    ∀ n row, passwords (db st) !! n = Some row → op ≠ OpRevoke n → passwords d !! n = Some row).
  change (P (db (cred_step st op))). assert (P (db st)) as HP by done.
  destruct op as [| |doc|now draw sd name|name|now s j a i p|now j a t|now t]; try done; cbn [cred_step].
  - unfold set_evidence. destruct (_ || _); [done|]. refine (transaction_keeps _ _ P _ HP).
    intros d u Hb. inv_body. done.
  - refine (transaction_keeps _ _ P _ HP). intros d u Hb. inv_body. boolify. split; [done|]. intros n row Hn _. cbn.
    rewrite lookup_insert_ne; [done|]. intros ->. by match goal with Hx : ¬ is_Some _ |- _ => destruct Hx; eexists end.
  - refine (transaction_keeps _ _ P _ HP). intros d u Hb. inv_body. split; [done|]. intros n row Hn Hne. cbn.
    apply map_lookup_filter_Some. split; [done|]. cbn. congruence.
  - refine (transaction_keeps _ _ P _ HP). intros d u Hb. inv_body.
    match goal with Hx : match ?x with (_, _) => _ end = _ |- _ => destruct x end. inv_body.
    match goal with Hx : insert_session _ _ _ = _ |- _ => unfold insert_session in Hx; destruct (_ || _); [done|] end.
    inv_body. done.
  - refine (transaction_keeps _ _ P _ HP). intros d u Hb. inv_body. destruct (sessions _ !! _); inv_body; done.
  - refine (transaction_keeps _ _ P _ HP). intros d u Hb. inv_body. done.
Qed.

(** Binding: the new account, or nothing. *)
Lemma bind_verified_spec now draw f au i st st' r : is_u64 now → len draw = 32 → is_u64 f →
  db_wf (jwt_key st) (db st) → bind_verified now draw f au i st = (st', r) →
  match r with
  | Ok a => stored_account (db st') a ∧ fid a = f ∧ identity a = i ∧ authority a = au ∧ enabled a = true ∧
      (∀ a0, stored_account (db st) a0 → fid a0 = f ∧ identity a0 = i ∧ (enabled a0 = true → authority a0 = au)) ∧
      passwords (db st') = passwords (db st)
  | Err _ => st' = st
  end.
Proof.
  intros Hnow Hdraw Hf Hwf Hb. pose proof (bind_wf now draw f au i st Hnow Hdraw Hf Hwf) as Hwf'. rewrite Hb in Hwf'.
  unfold bind_verified, transaction in Hb.
  match type of Hb with match ?x with _ => _ end = _ => destruct x as [[d a]|e] eqn:Hbody end; injection Hb as <- <-; [|done].
  cbn [fst db] in *. inv_result. match goal with Hl : load_account _ = Ok _ |- _ => apply load_account_stored in Hl as Hst; [|apply Hwf] end.
  boolify. destruct x1 as [acc|]; inv_result; boolify.
  - cbn [fid identity authority enabled]. destruct Hst as (k & Hrow & Hv).
    assert (∀ a0, stored_account (db st) a0 → a0 = acc) as Huniq.
    { intros a0 Ha0. eapply stored_account_unique; [exact Ha0|]. by exists k. }
    split_and!; try done.
    + exists k. unfold update_account. rewrite Hrow. split; [done|]. destruct Hv. by split.
    + intros a0 ->%Huniq. split_and!; [done|done|]. intros He. rewrite He in *. cbn [andb] in *. by boolify.
  - cbn [fid identity authority enabled]. split_and!; try done.
    + eexists. split; [done|]. destruct (wf_account _ _ Hwf') as [?|(a & k & Hr & Hv)]; [done|].
      cbn [account_row set_account_row] in Hr. injection Hr as Henc <-.
      by apply (new_account_valid _ _ _ _ x x0); [..|destruct Hf; lia| | | | |].
    + intros a0 (k & Hr & _). congruence.
Qed.

(** Invalidation: the account disabled and every credential gone, or nothing. *)
Lemma invalidate_spec st st' r : db_wf (jwt_key st) (db st) → invalidate_authority st = (st', r) →
  match r with
  | Ok _ => ∃ a, stored_account (db st) a ∧ ∀ a', stored_account (db st') a' →
      enabled a' = false ∧ fid a' = fid a ∧ identity a' = identity a
  | Err _ => st' = st
  end.
Proof.
  intros Hwf Hb. unfold invalidate_authority, transaction in Hb.
  match type of Hb with match ?x with _ => _ end = _ => destruct x as [[d a]|e] eqn:Hbody end; injection Hb as <- <-; [|done].
  inv_result. match goal with Hl : load_account _ = Ok _ |- _ => apply load_account_stored in Hl as Hst; [|apply Hwf] end.
  eexists. split; [exact Hst|]. intros a' Ha'. destruct Hst as (k & Hrow & Hv). cbn [db] in Ha'.
  assert (a' = mkAccount (fid x0) (authority x0) (identity x0) false (created_at x0) (public_key_multibase x0)
    (repo_revision x0) (repo_cid x0)) as ->; [|done].
  eapply stored_account_unique; [exact Ha'|]. exists k. cbn. unfold update_account. rewrite Hrow. cbn.
  split; [done|]. destruct Hv. by split.
Qed.
End store.
