(* ===== verification/CredTheorems.v ===== *)
(** * What the credential store promises

    Theorems over arbitrary sequences of operations on a store; the lemmas on
    single operations are in [CredProofs.v]. *)

From S2P Require Import Prelude RustStd BTreeMap Externs Fixtures RepoSyntax RepoRecords RepoRecordSet RepoMst RepoCar Repository CredIdentity CredTokens CredStore CredProofs.
Import Cred.

Section theorems.
Context {SHA : Sha256} {CID : CidLib} {HDC : DagCbor} {ECD : Ecdsa} {URL : UrlLib}
  {JSON : JsonText} {B64 : Base64Url} {HMAC : HmacSha256} {HEX : HexLib} {B58 : Base58}.

(** ** How one operation changes one session *)

Definition session_change (op : CredOp) (s : string) (old new : option SessionRow) : Prop :=
  new = None ∨ new = old ∨
  (∃ now sd jd ad i p n e, op = OpAuthenticate now sd jd ad i p ∧ s = random_id sd ∧
     new = Some (mkSessionRow n (random_id jd) e)) ∨
  (∃ now jd ad t row, op = OpRefresh now jd ad t ∧ old = Some row ∧
     new = Some (mkSessionRow (password_name row) (random_id jd) (refresh_exp row))).

Lemma transaction_change {A} st op s (body : Db → result Error (Db * A)) :
  (∀ d a, body (db st) = Ok (d, a) → session_change op s (sessions (db st) !! s) (sessions d !! s)) →
  session_change op s (sessions (db st) !! s) (sessions (db (transaction st body).1) !! s).
Proof.
  intros Hb. destruct (transaction_db st body) as [(d & a & Hd & ->)|(e & _ & ->)]; simpl; [by eapply Hb|].
  right. by left.
Qed.

Lemma filter_change (P : string * SessionRow → Prop) `{∀ x, Decision (P x)} (m : gmap string SessionRow) s op :
  session_change op s (m !! s) (filter P m !! s).
Proof.
  destruct (filter P m !! s) as [r|] eqn:Hf; [|by left]. apply map_lookup_filter_Some in Hf as [-> _].
  right. by left.
Qed.

Lemma step_sessions st op s :
  session_change op s (sessions (db st) !! s) (sessions (db (cred_step st op)) !! s).
Proof.
  destruct op as [now draw f au i| |doc|now draw sd n|n|now sd jd ad i p|now jd ad t|now t]; simpl.
  - apply transaction_change. intros d a ([] & _ & ([] & _ & (r & _ & H)%bind_ok)%bind_ok)%bind_ok.
    right. left. destruct r as [acc|].
    + by apply bind_ok in H as ([] & _ & [= <- <-]).
    + by apply bind_ok in H as (sg & _ & (repo & _ & [= <- <-])%bind_ok).
  - apply transaction_change. intros d u (r & _ & (acc & _ & [= <- <-])%bind_ok)%bind_ok. apply filter_change.
  - unfold set_evidence. destruct (_ || _); [right; by left|].
    apply transaction_change. intros d u (acc & _ & [= <- <-])%bind_ok. right. by left.
  - apply transaction_change. intros d iss H. right. left.
    apply bind_ok in H as ([] & _ & (acc & _ & ([] & _ & ([] & _ & (c & _ & [= <- <-])%bind_ok)%bind_ok)%bind_ok)%bind_ok).
    done.
  - apply transaction_change. intros d u ([] & _ & [= <- <-])%bind_ok. apply filter_change.
  - apply transaction_change. intros d se H.
    apply bind_ok in H as ([] & _ & ([acc n] & _ & (ns & _ & ([] & _ & H)%bind_ok)%bind_ok)%bind_ok).
    apply bind_ok in H as (ex & _ & (d2 & Hins & [= <- <-])%bind_ok).
    unfold insert_session in Hins. destruct (_ || _); [done|]. injection Hins as <-. simpl.
    destruct (decide (s = random_id sd)) as [->|Hne].
    + rewrite lookup_insert_eq. right. right. left. by eexists _, _, _, _, _, _, _, _.
    + rewrite lookup_insert_ne by done. apply filter_change.
  - apply transaction_change. intros d se (acc & _ & (cl & _ & ([] & _ & H)%bind_ok)%bind_ok)%bind_ok.
    destruct (sessions (db st) !! sid cl) as [row|] eqn:Hs; [|done].
    apply bind_ok in H as ([] & _ & [= <- <-]). simpl. destruct (decide (s = sid cl)) as [->|Hne].
    + rewrite Hs, lookup_insert_eq. right. right. right. by eexists _, _, _, _, _.
    + rewrite lookup_insert_ne by done. right. by left.
  - apply transaction_change. intros d u (acc & _ & (cl & _ & ([] & _ & [= <- <-])%bind_ok)%bind_ok)%bind_ok.
    simpl. destruct (decide (s = sid cl)) as [->|Hne]; [left; apply lookup_delete_eq|].
    right. left. by rewrite lookup_delete_ne.
Qed.

(** The identifiers an operation draws. *)
Definition draws_sid (op : CredOp) : option string :=
  match op with OpAuthenticate _ sd _ _ _ _ => Some (random_id sd) | _ => None end.
Definition draws_jti (op : CredOp) : option string :=
  match op with
  | OpAuthenticate _ _ jd _ _ _ | OpRefresh _ jd _ _ => Some (random_id jd)
  | _ => None
  end.

(** A property of one session that every operation keeps holds after a run. *)
Lemma run_session (P : option SessionRow → Prop) (ok : CredOp → Prop) s ops st :
  (∀ op old new, ok op → P old → session_change op s old new → P new) →
  Forall ok ops → P (sessions (db st) !! s) → P (sessions (db (cred_run st ops)) !! s).
Proof.
  intros Hstep Hops. revert st. induction Hops as [|op ops Hop _ IH]; intros st HP; [done|].
  simpl. apply IH. eapply Hstep; [exact Hop|exact HP|apply step_sessions].
Qed.

Lemma dead_stays_dead s ops st :
  Forall (λ op, draws_sid op ≠ Some s) ops → sessions (db st) !! s = None →
  sessions (db (cred_run st ops)) !! s = None.
Proof.
  apply (run_session (λ r, r = None)). intros op old new Hop -> [->|[->|[H|H]]]; try done.
  - destruct H as (? & ? & ? & ? & ? & ? & ? & ? & -> & -> & _). done.
  - by destruct H as (? & ? & ? & ? & ? & _ & ? & _).
Qed.

Lemma spent_stays_spent s x ops st :
  Forall (λ op, draws_jti op ≠ Some x) ops →
  (∀ row, sessions (db st) !! s = Some row → refresh_jti row ≠ x) →
  ∀ row, sessions (db (cred_run st ops)) !! s = Some row → refresh_jti row ≠ x.
Proof.
  intros Hops. apply (run_session (λ r, ∀ row, r = Some row → refresh_jti row ≠ x)
    (λ op, draws_jti op ≠ Some x)); [|done].
  intros op old new Hop Hold [->|[->|[H|H]]] row; [done|apply Hold|..].
  - destruct H as (? & ? & ? & ? & ? & ? & ? & ? & -> & _ & ->). intros [= <-]. simpl in *. congruence.
  - destruct H as (? & ? & ? & ? & ? & -> & _ & ->). intros [= <-]. simpl in *. congruence.
Qed.

(** A token whose session is gone, or whose id was spent, is refused. *)
Lemma dead_session_refused st c refresh now :
  sessions (db st) !! sid c = None → validate_session (db st) c refresh now = Err InvalidToken.
Proof. intros Hs. unfold validate_session. by rewrite Hs. Qed.

Lemma spent_refresh_refused st c now :
  (∀ row, sessions (db st) !! sid c = Some row → refresh_jti row ≠ jti c) →
  validate_session (db st) c true now = Err InvalidToken.
Proof.
  intros Hs. unfold validate_session. destruct (sessions (db st) !! sid c) as [row|]; [|done]. simpl.
  rewrite (bool_decide_false _ (Hs row eq_refl)). simpl. by rewrite orb_true_r.
Qed.

(** Every operation that takes a refresh token, and the read-only check. *)
Definition refresh_refused (st : Store) (now : Z) (token : string) : Prop :=
  (∃ e, validate_refresh now token st = Err e) ∧
  (∀ j a, ∃ e, refresh_session now j a token st = (st, Err e)) ∧
  (∃ e, delete_session now token st = (st, Err e)).

Lemma refresh_refused_if st now token :
  (∀ acc c, verify_token (jwt_key st) token acc Refresh now = Ok c →
     ∃ e, validate_session (db st) c true now = Err e) →
  refresh_refused st now token.
Proof.
  intros Hv. unfold refresh_refused, validate_refresh, refresh_session, delete_session, transaction.
  destruct (map_err token_account_error (enabled_account (db st))) as [acc|e]; simpl; [|split_and!; eauto].
  destruct (verify_token (jwt_key st) token acc Refresh now) as [c|e] eqn:Ht; simpl; [|split_and!; eauto].
  destruct (Hv _ _ Ht) as [e He]. rewrite He. simpl. split_and!; eauto.
Qed.

(** The claims of a token do not depend on the account or the clock. *)
Lemma verify_token_claims key token acc acc' kind kind' now now' c c' :
  verify_token key token acc kind now = Ok c → verify_token key token acc' kind' now' = Ok c' → c = c'.
Proof.
  intros [_ (h & b & s & Hs & _ & _ & Hc) _ _]%verify_token_ok [_ (h' & b' & s' & Hs' & _ & _ & Hc') _ _]%verify_token_ok.
  rewrite Hs in Hs'. injection Hs' as <- <- <-. rewrite Hc in Hc'. by injection Hc'.
Qed.

Lemma cred_run_key st ops : jwt_key (cred_run st ops) = jwt_key st.
Proof. revert st. induction ops as [|op ops IH]; intros st; simpl; [done|]. by rewrite IH, cred_step_key. Qed.

(** C13: a refresh token works once.  After it was rotated, it is refused by
    every operation that takes one, whatever happens in between and at any
    time, as long as its random id is not drawn again. *)
Theorem refresh_single_use st now jd ad token st' se c acc ops now' :
  refresh_session now jd ad token st = (st', Ok se) →
  verify_token (jwt_key st) token acc Refresh now = Ok c →
  random_id jd ≠ jti c →
  Forall (λ op, draws_jti op ≠ Some (jti c)) ops →
  refresh_refused (cred_run st' ops) now' token.
Proof.
  unfold refresh_session, transaction. intros H Hc Hj Hops.
  destruct (map_err token_account_error (enabled_account (db st))) as [acc'|] eqn:Ha; [|done].
  cbn [mbind result_bind] in H.
  destruct (verify_token (jwt_key st) token acc' Refresh now) as [c'|] eqn:Ht; [|done].
  pose proof (verify_token_claims _ _ _ _ _ _ _ _ _ _ Ht Hc) as ->. cbn [mbind result_bind] in H.
  destruct (validate_session (db st) c true now) as [[]|]; [|done]. cbn [mbind result_bind] in H.
  destruct (sessions (db st) !! sid c) as [row|] eqn:Hs; [|done].
  destruct (reject_if _ _) as [[]|]; [|done]. injection H as <- <-.
  apply refresh_refused_if. intros acc2 c2 Ht2. rewrite cred_run_key in Ht2. simpl in Ht2.
  pose proof (verify_token_claims _ _ _ _ _ _ _ _ _ _ Ht2 Hc) as ->. eexists.
  apply spent_refresh_refused, spent_stays_spent; [done|]. simpl. intros row'.
  rewrite lookup_insert_eq. by intros [= <-].
Qed.

(** The three ways to end a session. *)
Definition ends_session (op : CredOp) (st : Store) (s : string) : Prop :=
  match op with
  | OpRevoke n => valid_name n = true ∧ ∃ row, sessions (db st) !! s = Some row ∧ password_name row = n
  | OpInvalidate => (invalidate_authority st).2 = Ok ()
  | OpDelete now t => (delete_session now t st).2 = Ok () ∧
      ∃ acc c, verify_token (jwt_key st) t acc Refresh now = Ok c ∧ sid c = s
  | _ => False
  end.

Lemma ended_is_dead key op st s : db_wf key (db st) → ends_session op st s →
  sessions (db (cred_step st op)) !! s = None.
Proof.
  intros Hwf. destruct op as [| | | |n| | |now t]; simpl; try done.
  - unfold invalidate_authority, transaction. destruct (load_account (db st)) as [r|]; [|done].
    cbn [mbind result_bind]. destruct (ok_or NotBound r) as [acc|]; [|done]. intros _.
    cbn [fst db set_evidence_row delete_passwords set_sessions sessions set_passwords passwords].
    apply map_lookup_filter_None. right. intros row Hs. simpl. intros Hk. apply Hk. split; [done|].
    simpl in *. by eapply wf_owner.
  - intros (Hn & row & Hs & <-). unfold revoke_password, transaction. rewrite Hn.
    cbn [negb reject_if mbind result_bind fst db delete_passwords set_sessions sessions].
    apply map_lookup_filter_None. right. intros row' Hs'. rewrite Hs in Hs'. injection Hs' as <-.
    simpl. intros Hk. apply Hk. split; [done|]. by eapply wf_owner.
  - intros [Hok (acc & c & Hc & <-)]. revert Hok. unfold delete_session, transaction.
    destruct (map_err token_account_error (enabled_account (db st))) as [acc'|]; [|done].
    cbn [mbind result_bind]. destruct (verify_token (jwt_key st) t acc' Refresh now) as [c'|] eqn:Ht; [|done].
    pose proof (verify_token_claims _ _ _ _ _ _ _ _ _ _ Ht Hc) as ->. cbn [mbind result_bind].
    destruct (validate_session _ _ _ _) as [[]|]; [|done]. intros _. apply lookup_delete_eq.
Qed.

(** C14: revocation lasts.  Once its password is revoked, the authority is
    invalidated, or the session is deleted with its refresh token, no access
    or refresh token of that session is ever accepted again, as long as its
    random id is not drawn again. *)
Theorem ended_session_refused key st op s ops now token acc c kind :
  db_wf key (db st) →
  ends_session op st s →
  Forall (λ op, draws_sid op ≠ Some s) ops →
  verify_token (jwt_key st) token acc kind now = Ok c → sid c = s →
  let st' := cred_run (cred_step st op) ops in
  ∀ now' now'', (∃ e, get_session now' now'' token st' = Err e) ∧ refresh_refused st' now' token.
Proof.
  intros Hwf Hend Hops Hc <- st' now' now''.
  assert (Hdead : sessions (db st') !! sid c = None) by (eapply dead_stays_dead, ended_is_dead; done).
  assert (Hkey : jwt_key st' = jwt_key st) by (unfold st'; by rewrite cred_run_key, cred_step_key).
  split.
  - unfold get_session. destruct (map_err token_account_error (enabled_account (db st'))) as [acc'|]; simpl; [|eauto].
    rewrite Hkey. destruct (verify_token (jwt_key st) token acc' Access now') as [c'|] eqn:Ht; simpl; [|eauto].
    pose proof (verify_token_claims _ _ _ _ _ _ _ _ _ _ Ht Hc) as ->. rewrite dead_session_refused by done. simpl. eauto.
  - apply refresh_refused_if. intros acc' c' Ht. rewrite Hkey in Ht.
    pose proof (verify_token_claims _ _ _ _ _ _ _ _ _ _ Ht Hc) as ->. eexists. by apply dead_session_refused.
Qed.

(** Refreshing never extends a session: whatever is done, a session that
    is still there has the deadline and the password it was created with. *)
Theorem session_deadline_fixed st s row row' ops :
  Forall (λ op, draws_sid op ≠ Some s) ops →
  sessions (db st) !! s = Some row →
  sessions (db (cred_run st ops)) !! s = Some row' →
  refresh_exp row' = refresh_exp row ∧ password_name row' = password_name row.
Proof.
  intros Hops Hs. revert row'. apply (run_session
    (λ r, ∀ row', r = Some row' → refresh_exp row' = refresh_exp row ∧ password_name row' = password_name row)
    (λ op, draws_sid op ≠ Some s)); [|done|].
  - intros op old new Hop Hold [->|[->|[H|H]]] row'; [done|apply Hold|..].
    + destruct H as (? & ? & ? & ? & ? & ? & ? & ? & -> & -> & _). done.
    + destruct H as (? & ? & ? & ? & r0 & _ & -> & ->). intros [= <-]. simpl. by apply Hold.
  - intros row'. rewrite Hs. by intros [= <-].
Qed.

(** ** The invariant and the binding *)

Context {HJSON : JsonTextLaws} {HSHA : Sha256Laws}.

(** C35: however it is used, a store keeps at most sixteen passwords and
    sixty-four sessions, every session belongs to a stored password, and an
    account that is disabled or not bound has no passwords, no sessions and no
    evidence. *)
Theorem store_invariant key ops :
  Forall op_ok ops →
  let d := db (cred_run (fresh_store key) ops) in
  count (passwords d) ≤ MAX_PASSWORDS ∧ count (sessions d) ≤ MAX_SESSIONS ∧
  (∀ s row, sessions d !! s = Some row → is_Some (passwords d !! password_name row)) ∧
  (∀ n row, passwords d !! n = Some row → len (salt row) = 32 ∧ len (verifier row) = 32) ∧
  ((∀ a, ¬ (stored_account d a ∧ enabled a = true)) →
     passwords d = ∅ ∧ sessions d = ∅ ∧ evidence_row d = None).
Proof.
  intros Hops d. destruct (cred_run_wf (fresh_store key) ops Hops (fresh_wf key)) as [_ Hwf]. fold d in Hwf.
  split_and!; [apply Hwf|apply Hwf|apply Hwf|apply Hwf|]. intros Hdis.
  assert (Hp : passwords d = ∅ ∧ evidence_row d = None).
  { destruct (wf_account _ _ Hwf) as [Hn|[a Ha]]; [by eapply wf_unbound|].
    apply (wf_enabled _ _ Hwf a Ha). destruct (enabled a) eqn:He; [|done]. exfalso. by apply (Hdis a). }
  destruct Hp as [Hp He]. split_and!; [done| |done]. apply map_empty. intros s.
  destruct (sessions d !! s) as [row|] eqn:Hs; [|done].
  destruct (wf_owner _ _ Hwf _ _ Hs) as [p Hpn]. by rewrite Hp in Hpn.
Qed.

(** Everything of an account but its authority and whether it is enabled. *)
Definition same_binding (a a' : Account) : Prop :=
  fid a = fid a' ∧ identity a = identity a' ∧ created_at a = created_at a' ∧
  public_key_multibase a = public_key_multibase a' ∧ repo_revision a = repo_revision a' ∧ repo_cid a = repo_cid a'.

Definition bound (d : Db) (a : Account) (k : bytes) : Prop :=
  account_row d = Some (encode_account a, k) ∧ account_valid a k.

Lemma transaction_row {A} st (body : Db → result Error (Db * A)) (P : option (string * bytes) → Prop) :
  P (account_row (db st)) → (∀ d a, body (db st) = Ok (d, a) → P (account_row d)) →
  P (account_row (db (transaction st body).1)).
Proof. intros HP Hb. destruct (transaction_db st body) as [(d & a & Hd & ->)|(e & _ & ->)]; simpl; eauto. Qed.

Lemma bound_load d a k r : bound d a k → load_account d = Ok r → r = Some a.
Proof.
  intros [Hr Hv] Hl. apply load_account_stored in Hl; [|right; exists a, k; done].
  destruct r as [a'|]; [|congruence]. f_equal. eapply stored_account_unique; [exact Hl|]. by exists k.
Qed.

Lemma step_bound st op a k : op_ok op → bound (db st) a k →
  ∃ a', bound (db (cred_step st op)) a' k ∧ same_binding a a'.
Proof.
  intros Hop Hb. pose proof Hb as [Hrow Hv].
  assert (Hsame : ∃ a', (account_row (db st) = Some (encode_account a', k) ∧ account_valid a' k) ∧ same_binding a a').
  { exists a. done. }
  set (P := λ row, ∃ a', (row = Some (encode_account a', k) ∧ account_valid a' k) ∧ same_binding a a').
  change (P (account_row (db (cred_step st op)))).
  destruct op as [now draw f au i| |doc|now draw sd n|n|now sd jd ad i p|now jd ad t|now t]; simpl;
    try (apply (transaction_row _ _ P Hsame)).
  - intros d acc ([] & Hi & ([] & Hc%reject_if_ok & (r & Hl & H)%bind_ok)%bind_ok)%bind_ok. boolify.
    rewrite (bound_load _ _ _ _ Hb Hl) in H. apply bind_ok in H as ([] & _ & [= <- <-]).
    unfold update_account. rewrite Hrow. simpl. eexists. split; [split; [done|]|done]. destruct Hv. by split.
  - intros d u (r & Hl & (acc & Hr%ok_or_ok & [= <- <-])%bind_ok)%bind_ok.
    rewrite (bound_load _ _ _ _ Hb Hl) in Hr. injection Hr as <-.
    unfold update_account. rewrite Hrow. simpl. eexists. split; [split; [done|]|done]. destruct Hv. by split.
  - unfold set_evidence. destruct (_ || _); [exact Hsame|]. apply (transaction_row _ _ P Hsame).
    intros d u (acc & _ & [= <- <-])%bind_ok. exact Hsame.
  - intros d iss H.
    apply bind_ok in H as ([] & _ & (acc & _ & ([] & _ & ([] & _ & (c & _ & [= <- <-])%bind_ok)%bind_ok)%bind_ok)%bind_ok).
    exact Hsame.
  - intros d u ([] & _ & [= <- <-])%bind_ok. exact Hsame.
  - intros d se H.
    apply bind_ok in H as ([] & _ & ([acc n] & _ & (ns & _ & ([] & _ & H)%bind_ok)%bind_ok)%bind_ok).
    apply bind_ok in H as (ex & _ & (d2 & Hins & [= <- <-])%bind_ok).
    unfold insert_session in Hins. destruct (_ || _); [done|]. injection Hins as <-. exact Hsame.
  - intros d se (acc & _ & (cl & _ & ([] & _ & H)%bind_ok)%bind_ok)%bind_ok.
    destruct (sessions (db st) !! sid cl) as [row|]; [|done].
    apply bind_ok in H as ([] & _ & [= <- <-]). exact Hsame.
  - intros d u (acc & _ & (cl & _ & ([] & _ & [= <- <-])%bind_ok)%bind_ok)%bind_ok. exact Hsame.
Qed.

Lemma run_bound st ops a k : Forall op_ok ops → bound (db st) a k →
  ∃ a', bound (db (cred_run st ops)) a' k ∧ same_binding a a'.
Proof.
  intros Hops. revert st a. induction Hops as [|op ops Hop _ IH]; intros st a Hb; [by exists a|].
  destruct (step_bound st op a k Hop Hb) as (a1 & Hb1 & Hs1).
  destruct (IH _ _ Hb1) as (a2 & Hb2 & Hs2). exists a2. split; [done|].
  unfold same_binding in *. naive_solver congruence.
Qed.

(** C34: a bound account is bound for the store's lifetime: no sequence of
    operations changes its FID, identity, creation time, key or repository,
    nor the stored signing key; only its authority and whether it is enabled. *)
Theorem binding_fixed st a k ops :
  Forall op_ok ops → account_row (db st) = Some (encode_account a, k) → account_valid a k →
  ∃ a', account_row (db (cred_run st ops)) = Some (encode_account a', k) ∧ account_valid a' k ∧
    fid a' = fid a ∧ identity a' = identity a ∧ created_at a' = created_at a ∧
    public_key_multibase a' = public_key_multibase a ∧ repo_revision a' = repo_revision a ∧
    repo_cid a' = repo_cid a.
Proof.
  intros Hops Hr Hv. destruct (run_bound st ops a k Hops (conj Hr Hv)) as (a' & [Hr' Hv'] & Hs).
  exists a'. unfold same_binding in Hs. split_and!; naive_solver.
Qed.

(** A well-formed database reopens if its account document can be read. *)
Lemma wf_reopens key st mode file_mode draw : db_wf key (db st) → jwt_key st = key → len key = 32 →
  Z.land mode 0x3f = 0 → Z.land file_mode 0x3f = 0 →
  (∀ doc k, account_row (db st) = Some (doc, k) → str_len doc ≤ 8192) →
  CredStore.open (Some (FsDirectory mode)) (Some (FsFile file_mode 1)) (db st) draw = (db st, Ok st).
Proof.
  intros Hwf Hkey Hlen Hm Hfm Hdoc.
  unfold CredStore.open, prepare_directory, prepare_database. cbn [from_option id]. rewrite Hm, Hfm.
  cbn [Z.eqb negb orb reject_if mbind result_bind Pos.eqb]. unfold open_schema.
  rewrite (wf_version _ _ Hwf), (wf_secret _ _ Hwf). simpl. rewrite Hlen. simpl.
  assert (Hd : mkDb 1 (Some key) (account_row (db st)) (passwords (db st)) (sessions (db st)) (evidence_row (db st)) = db st).
  { pose proof (wf_version _ _ Hwf). pose proof (wf_secret _ _ Hwf). destruct (db st); simpl in *. by subst. }
  rewrite Hd. assert (Hst : mkStore (db st) key = st) by (destruct st; simpl in *; by subst). rewrite Hst.
  f_equal. enough (open_check st = Ok ()) as -> by done.
  unfold open_check, account, repository, account.
  destruct (wf_account _ _ Hwf) as [Hn|(a & k & Hr & Hv)]; unfold load_account; [by rewrite Hn|].
  rewrite Hr. specialize (Hdoc _ _ Hr). rewrite (proj2 (Z.ltb_ge _ _)) by lia.
  cbn [reject_if mbind result_bind]. rewrite (decode_account _ _ Hv). cbn [ok_or fmap result_fmap mbind result_bind].
  rewrite (av_identity _ _ Hv). cbn [map_err mbind result_bind].
  rewrite (av_authority _ _ Hv). pose proof (av_fid _ _ Hv). rewrite (proj2 (Z.eqb_neq _ _)) by lia.
  cbn [negb orb reject_if mbind result_bind].
  destruct (av_repo _ _ Hv) as (sg & repo & Hs & Hb & Hc). pose proof (av_key _ _ Hv) as Hk.
  cbn [option_fmap option_map snd fmap ok_or mbind result_bind]. rewrite Hk, Z.eqb_refl.
  cbn [negb reject_if mbind result_bind]. rewrite Hs. cbn [map_err mbind result_bind].
  rewrite Hb. cbn [map_err mbind result_bind]. by rewrite bool_decide_true.
Qed.

(** A database produced by any operations reopens, under the same key and
    with the same tables, if its account document is within the limit that
    [load_account] enforces. *)
Theorem store_reopens key ops mode file_mode draw :
  Forall op_ok ops → len key = 32 →
  Z.land mode 0x3f = 0 → Z.land file_mode 0x3f = 0 →
  let st := cred_run (fresh_store key) ops in
  (∀ doc k, account_row (db st) = Some (doc, k) → str_len doc ≤ 8192) →
  CredStore.open (Some (FsDirectory mode)) (Some (FsFile file_mode 1)) (db st) draw = (db st, Ok st).
Proof.
  intros Hops Hlen Hm Hfm st Hdoc. destruct (cred_run_wf (fresh_store key) ops Hops (fresh_wf key)) as [Hkey Hwf].
  by apply (wf_reopens key).
Qed.

(** ** Logging in *)

Context {HB64 : Base64UrlLaws} {HHEX : HexLaws}.

Lemma match_rows_some rows p m :
  Forall (λ nr, len (salt nr.2) = 32 ∧ len (verifier nr.2) = 32) rows →
  (is_Some m ∨ ∃ n row, (n, row) ∈ rows ∧ password_hash (salt row) p = verifier row) →
  ∃ n, match_rows rows p m = Ok (Some n).
Proof.
  intros Hr. revert m. induction Hr as [|[n' r] rows [Hs Hv] _ IH]; intros m Hm; cbn [snd match_rows] in *.
  - destruct Hm as [[n ->]|(n & row & Hin & _)]; [by exists n|by apply not_elem_of_nil in Hin].
  - rewrite Hs, Hv. cbn [Z.eqb Pos.eqb negb orb reject_if mbind result_bind]. apply IH.
    destruct (bool_decide _) eqn:Hb; [left; by eexists|]. boolify.
    destruct Hm as [Hm|(n & row & [[= -> ->]|Hin]%elem_of_cons & Hh)]; [by left|done|right; eauto].
Qed.

Lemma password_rows_all d : count (passwords d) ≤ MAX_PASSWORDS → password_rows d = map_to_list (passwords d).
Proof.
  intros Hc. unfold password_rows. apply take_ge. rewrite length_map_to_list.
  unfold count, MAX_PASSWORDS in Hc. lia.
Qed.

Lemma hex_id_random draw : len draw = 32 → hex_id (random_id draw) = true.
Proof.
  intros Hd. unfold hex_id, random_id. rewrite hex_encode_len, Hd. simpl.
  eapply all_bytes_impl; [|apply hex_encode_digits]. intros c. unfold is_ascii_hexdigit.
  intros ->. done.
Qed.

(** The tokens of a session just created verify until its deadlines. *)
Lemma create_session_tokens key acc s jt now rexp ad :
  is_u64 now → is_u64 rexp → now + ACCESS_SECONDS ≤ U64_MAX → now < rexp ≤ now + REFRESH_SECONDS →
  hex_id s = true → hex_id jt = true → len ad = 32 →
  let se := create_session key acc s jt now rexp ad in
  (∀ now', now ≤ now' < Z.min (now + ACCESS_SECONDS) rexp → str_len (access_jwt se) ≤ 4096 →
     ∃ c, verify_token key (access_jwt se) acc Access now' = Ok c ∧ sid c = s) ∧
  (∀ now', now ≤ now' < rexp → str_len (refresh_jwt se) ≤ 4096 →
     ∃ c, verify_token key (refresh_jwt se) acc Refresh now' = Ok c ∧ sid c = s ∧ jti c = jt ∧ exp c = rexp).
Proof.
  intros [Hn _] [Hr0 Hr] Hover Hrange Hs Hj Had se.
  assert (Hz : 0 < ACCESS_SECONDS ∧ ACCESS_SECONDS ≤ REFRESH_SECONDS) by (unfold ACCESS_SECONDS, REFRESH_SECONDS; lia).
  split; intros now' Hnow' Hlen; eexists; (split; [apply sign_token_ok|]); try exact Hlen; try done;
    unfold claims_valid, is_u64, lifetime, U64_MAX in *; cbn [iat exp sub aud cl_scope sid jti]; try lia.
  - rewrite !bool_decide_true, hex_id_random, Hs by done. rewrite !andb_true_iff, !Z.leb_le, Z.ltb_lt. split_and!; try done; lia.
  - rewrite !bool_decide_true, Hs, Hj by done. rewrite !andb_true_iff, !Z.leb_le, Z.ltb_lt. split_and!; try done; lia.
Qed.

(** What issuing a password leaves behind. *)
Lemma issue_spec now draw sd name st st1 iss : issue_password now draw sd name st = (st1, Ok iss) →
  ∃ row, password iss = "psky-" +:+ b64_url_encode draw ∧ password_hash (salt row) (password iss) = verifier row ∧
    passwords (db st1) !! name = Some row ∧ jwt_key st1 = jwt_key st ∧ account_row (db st1) = account_row (db st) ∧
    sessions (db st1) = sessions (db st).
Proof.
  unfold issue_password, transaction. intros Hissue.
  match type of Hissue with context [match ?x with _ => _ end] => destruct x as [[d1 i1]|] eqn:Hbody end; [|done].
  injection Hissue as <- <-. apply bind_ok in Hbody as ([] & _ & (acc & _ & H)%bind_ok).
  apply bind_ok in H as ([] & _ & ([] & _ & (cr & _ & [= <- <-])%bind_ok)%bind_ok).
  eexists. split_and!; try done; [|by apply lookup_insert_eq]. done.
Qed.

Lemma issued_well_formed identifier draw : len draw = 32 → str_len identifier ≤ 512 →
  malformed_login identifier ("psky-" +:+ b64_url_encode draw) = false.
Proof.
  intros Hd Hlen. unfold malformed_login. rewrite str_len_app, b64_url_len, Hd, (proj2 (Z.ltb_ge _ _)) by lia.
  unfold starts_with_str. by rewrite strip_prefix_app, bool_decide_true by by eexists.
Qed.

(** A stored password is accepted under the account's handle and DID. *)
Lemma stored_password_verifies key d name row identifier pw acc : db_wf key d →
  passwords d !! name = Some row → password_hash (salt row) pw = verifier row → enabled_account d = Ok acc →
  malformed_login identifier pw = false →
  (identifier = handle (identity acc) ∨ identifier = id_did (identity acc)) →
  ∃ n, verify_password d identifier pw = Ok (acc, n) ∧ is_Some (passwords d !! n).
Proof.
  intros Hwf Hrow Hhash Hacc Hmal Hid.
  destruct (match_rows_some (password_rows d) pw None) as [n Hmatch].
  { rewrite password_rows_all by apply Hwf. apply Forall_forall. intros [n r] Hin%elem_of_map_to_list.
    by apply (wf_rows _ _ Hwf n r). }
  { right. exists name, row. split; [|done]. rewrite password_rows_all by apply Hwf. by apply elem_of_map_to_list. }
  exists n. split.
  - unfold verify_password. rewrite Hmal, Hacc. cbn [reject_if mbind result_bind map_err]. rewrite Hmatch.
    cbn [mbind result_bind]. replace (negb _ && negb _) with false; [done|]. symmetry. apply andb_false_iff.
    destruct Hid; [left|right]; by rewrite bool_decide_true.
  - destruct (match_rows_in _ _ _ _ Hmatch) as [?|(r & Hin & _)]; [done|].
    rewrite password_rows_all in Hin by apply Hwf. apply elem_of_map_to_list in Hin. by exists r.
Qed.

(** A verified password opens a session. *)
Lemma verified_opens st now s j ad identifier pw acc n :
  malformed_login identifier pw = false → verify_password (db st) identifier pw = Ok (acc, n) → is_Some (passwords (db st) !! n) →
  0 ≤ now → now + REFRESH_SECONDS ≤ I64_MAX → count (sessions (db st)) < MAX_SESSIONS →
  sessions (db st) !! random_id s = None →
  let deadline := now + REFRESH_SECONDS in
  ∃ st2, authenticate now s j ad identifier pw st =
      (st2, Ok (create_session (jwt_key st) acc (random_id s) (random_id j) now deadline ad)) ∧
    jwt_key st2 = jwt_key st ∧ account_row (db st2) = account_row (db st) ∧
    sessions (db st2) !! random_id s = Some (mkSessionRow n (random_id j) deadline).
Proof.
  intros Hmal Hver [row Hn] Hnow Hnow' Hroom Hfresh deadline.
  assert (HR : REFRESH_SECONDS = 604800) by done. subst deadline.
  set (m := filter (λ kv : string * SessionRow, ¬ refresh_exp kv.2 ≤ now) (sessions (db st))).
  assert (Hm : m !! random_id s = None) by (apply map_lookup_filter_None; by left).
  pose proof (count_filter_le (λ kv : string * SessionRow, ¬ refresh_exp kv.2 ≤ now) (sessions (db st))) as Hcnt.
  fold m in Hcnt. eexists. split.
  - unfold authenticate, transaction. rewrite Hmal, Hver. cbn [reject_if mbind result_bind].
    rewrite (proj2 (sql_u64_ok now now)) by lia. cbn [mbind result_bind]. fold m.
    cbn [sessions set_sessions]. rewrite (proj2 (Z.leb_gt _ _)) by lia. cbn [reject_if mbind result_bind].
    rewrite (proj2 (sql_u64_ok _ (now + REFRESH_SECONDS))) by lia. cbn [mbind result_bind].
    unfold insert_session. cbn [sessions set_sessions passwords password_name]. rewrite Hm, Hn.
    rewrite (bool_decide_false (is_Some None)) by by intros [].
    rewrite (bool_decide_false (Some row = None)) by done. reflexivity.
  - cbn. split_and!; [done|done|]. apply lookup_insert_eq.
Qed.

(** The tokens of a stored session are accepted until its deadlines. *)
Lemma session_tokens_accepted st acc s j n now ad :
  enabled_account (db st) = Ok acc → len s = 32 → len j = 32 → len ad = 32 → 0 ≤ now → now + REFRESH_SECONDS ≤ I64_MAX →
  sessions (db st) !! random_id s = Some (mkSessionRow n (random_id j) (now + REFRESH_SECONDS)) →
  let se := create_session (jwt_key st) acc (random_id s) (random_id j) now (now + REFRESH_SECONDS) ad in
  (∀ now', now ≤ now' < now + ACCESS_SECONDS → str_len (access_jwt se) ≤ 4096 →
     get_session now' now' (access_jwt se) st = Ok (session_info acc)) ∧
  (∀ now', now ≤ now' < now + REFRESH_SECONDS → str_len (refresh_jwt se) ≤ 4096 →
     validate_refresh now' (refresh_jwt se) st = Ok (session_info acc)).
Proof.
  intros Hacc Hs Hj Had Hnow Hnow' Hrow se.
  assert (HR : REFRESH_SECONDS = 604800 ∧ ACCESS_SECONDS = 1800) by done. destruct HR as [HR HA].
  pose proof (create_session_tokens (jwt_key st) acc (random_id s) (random_id j) now (now + REFRESH_SECONDS) ad) as Ht.
  unfold is_u64, I64_MAX, U64_MAX in *. fold se in Ht.
  destruct Ht as [Hta Htr]; try lia; try (by apply hex_id_random).
  split; intros now' Hwhen Hlen; unfold get_session, validate_refresh; rewrite Hacc; cbn [map_err mbind result_bind].
  - destruct (Hta now' ltac:(lia) Hlen) as (c & -> & Hc). cbn [mbind result_bind].
    unfold validate_session. rewrite Hc, Hrow.
    cbn [ok_or mbind result_bind refresh_exp andb]. rewrite orb_false_r, (proj2 (Z.leb_gt _ _)) by lia. done.
  - destruct (Htr now' ltac:(lia) Hlen) as (c & -> & Hc & Hjt & Hex). cbn [mbind result_bind].
    unfold validate_session. rewrite Hc, Hrow.
    cbn [ok_or mbind result_bind refresh_exp refresh_jti andb]. rewrite Hjt, Hex, bool_decide_true, Z.eqb_refl by done.
    rewrite (proj2 (Z.leb_gt _ _)) by lia. done.
Qed.

(** C15: a password just issued logs in under the handle or the DID, and the
    session it opens works: the access token until its half hour is over, the
    refresh token for seven days.  Room for a session, a session id not in use
    and tokens within the verifier's length limit are what it takes. *)
Theorem issued_password_logs_in key now draw sd name st st1 iss now1 s j ad identifier acc :
  db_wf key (db st) → jwt_key st = key →
  len draw = 32 → len sd = 32 → len s = 32 → len j = 32 → len ad = 32 →
  issue_password now draw sd name st = (st1, Ok iss) →
  enabled_account (db st) = Ok acc →
  (identifier = handle (identity acc) ∨ identifier = id_did (identity acc)) → str_len identifier ≤ 512 →
  0 ≤ now1 → now1 + REFRESH_SECONDS ≤ I64_MAX →
  count (sessions (db st)) < MAX_SESSIONS → sessions (db st) !! random_id s = None →
  ∃ se st2, authenticate now1 s j ad identifier (password iss) st1 = (st2, Ok se) ∧
    (∀ now', now1 ≤ now' < now1 + ACCESS_SECONDS → str_len (access_jwt se) ≤ 4096 →
       get_session now' now' (access_jwt se) st2 = Ok (session_info acc)) ∧
    (∀ now', now1 ≤ now' < now1 + REFRESH_SECONDS → str_len (refresh_jwt se) ≤ 4096 →
       validate_refresh now' (refresh_jwt se) st2 = Ok (session_info acc)).
Proof.
  intros Hwf Hkey Hd Hsd Hs Hj Had Hissue Hacc Hid Hidlen Hnow1 Hnow1' Hroom Hfresh.
  pose proof (issue_wf now draw sd name st Hsd) as Hwf1. rewrite Hkey, Hissue in Hwf1. specialize (Hwf1 Hwf).
  apply issue_spec in Hissue as (row & Hpw & Hhash & Hrow & Hk1 & Ha1 & Hs1). rewrite <-Hs1 in Hroom, Hfresh.
  assert (Hsame : ∀ d, account_row d = account_row (db st) → enabled_account d = Ok acc)
    by (intros d Heq; unfold enabled_account, load_account in *; by rewrite Heq).
  pose proof (issued_well_formed identifier draw Hd Hidlen) as Hmal. rewrite <-Hpw in Hmal.
  destruct (stored_password_verifies _ _ _ _ identifier _ acc Hwf1 Hrow Hhash (Hsame _ Ha1) Hmal Hid) as (n & Hver & Hn).
  destruct (verified_opens st1 now1 s j ad identifier (password iss) acc n Hmal Hver Hn Hnow1 Hnow1' Hroom Hfresh)
    as (st2 & Hauth & Hk2 & Ha2 & Hs2).
  rewrite <-Hk2 in Hauth. eexists _, st2. split; [exact Hauth|].
  apply (session_tokens_accepted st2 acc s j n now1 ad); try done. apply Hsame. by rewrite Ha2.
Qed.
End theorems.

(** ** A concrete store *)

Definition demo_password : string := "psky-" +:+ b64_url_encode (repeat x02 32).
Definition demo_setup : list CredOp :=
  [OpBind 1757900000 (repeat x01 32) 7 "fid:7" demo_identity;
   OpIssue 1757900001 (repeat x02 32) (repeat x03 32) "phone"].
Definition demo_store : Store := cred_run (fresh_store demo_jwt_key) demo_setup.
Definition demo_auth : Store * result Error Session :=
  authenticate 1757900002 (repeat x04 32) (repeat x05 32) (repeat x06 32) "alice.example.com" demo_password demo_store.
Definition demo_session : Session :=
  default (mkSession "" "" (session_info demo_account)) (result_ok demo_auth.2).
Definition demo_logged_in : Store := demo_auth.1.

Lemma demo_setup_ok : Forall op_ok demo_setup.
Proof. repeat constructor; vm_compute; congruence. Qed.

Lemma demo_store_wf : db_wf demo_jwt_key (db demo_store).
Proof. apply (cred_run_wf (fresh_store demo_jwt_key) demo_setup demo_setup_ok (fresh_wf demo_jwt_key)). Qed.

Definition demo_token_ok : bool :=
  match enabled_account (db demo_store) with
  | Ok acc =>
      match verify_token demo_jwt_key (refresh_jwt demo_session) acc Refresh 1757900010 with
      | Ok c => bool_decide (sid c = random_id (repeat x04 32)) && bool_decide (jti c = random_id (repeat x05 32))
                && is_ok (refresh_session 1757900010 (repeat x08 32) (repeat x09 32) (refresh_jwt demo_session) demo_logged_in).2
                && bool_decide (password_name <$> sessions (db demo_logged_in) !! sid c = Some "phone")
      | Err _ => false
      end
  | Err _ => false
  end.

Lemma demo_token : ∃ acc c, verify_token demo_jwt_key (refresh_jwt demo_session) acc Refresh 1757900010 = Ok c ∧
  sid c = random_id (repeat x04 32) ∧ jti c = random_id (repeat x05 32) ∧
  is_ok (refresh_session 1757900010 (repeat x08 32) (repeat x09 32) (refresh_jwt demo_session) demo_logged_in).2 = true ∧
  password_name <$> sessions (db demo_logged_in) !! sid c = Some "phone".
Proof.
  assert (Hd : demo_token_ok = true) by (vm_compute; reflexivity). unfold demo_token_ok in Hd.
  destruct (enabled_account (db demo_store)) as [acc|]; [|discriminate Hd]. exists acc.
  destruct (verify_token demo_jwt_key (refresh_jwt demo_session) acc Refresh 1757900010) as [c|]; [|discriminate Hd].
  exists c. apply andb_true_iff in Hd as [[[Hs Hj]%andb_true_iff Hr]%andb_true_iff Hp].
  apply bool_decide_eq_true in Hs, Hj, Hp. exact (conj eq_refl (conj Hs (conj Hj (conj Hr Hp)))).
Qed.

Lemma demo_logged_in_key : jwt_key demo_logged_in = demo_jwt_key.
Proof. unfold demo_logged_in, demo_auth, authenticate. rewrite transaction_key. unfold demo_store. by rewrite cred_run_key. Qed.

Lemma refresh_single_use_witness :
  ∃ st', refresh_refused (cred_run st' [OpIssue 1757900020 (repeat x0a 32) (repeat x0b 32) "tablet"]) 1757900030
    (refresh_jwt demo_session).
Proof.
  destruct demo_token as (acc & c & Hv & _ & Hj & Hr & _).
  destruct (refresh_session 1757900010 (repeat x08 32) (repeat x09 32) (refresh_jwt demo_session) demo_logged_in)
    as [st' [se|e]] eqn:He; [|discriminate Hr].
  exists st'. rewrite <-demo_logged_in_key in Hv.
  refine (refresh_single_use demo_logged_in 1757900010 (repeat x08 32) _ _ st' se c acc _ _ He Hv _ _).
  - rewrite Hj. vm_compute. discriminate.
  - repeat constructor. discriminate.
Defined.

Lemma ended_session_refused_witness :
  refresh_refused (cred_run (cred_step demo_logged_in (OpRevoke "phone")) []) 1757900030 (refresh_jwt demo_session).
Proof.
  destruct demo_token as (acc & c & Hv & Hs & _ & _ & Hp).
  assert (Hwf : db_wf (jwt_key demo_store) (db demo_logged_in)).
  { apply authenticate_wf. unfold demo_store at 1. rewrite cred_run_key. exact demo_store_wf. }
  rewrite <-demo_logged_in_key in Hv.
  refine (proj2 (ended_session_refused (jwt_key demo_store) demo_logged_in (OpRevoke "phone") (sid c) [] 1757900010
    (refresh_jwt demo_session) acc c Refresh Hwf _ _ Hv eq_refl 1757900030 1757900030)).
  - split; [vm_compute; reflexivity|].
    destruct (sessions (db demo_logged_in) !! sid c) as [row|]; [|discriminate Hp].
    exists row. split; [reflexivity|]. injection Hp as Hp. exact Hp.
  - constructor.
Defined.

Lemma session_deadline_fixed_witness :
  ∃ row, sessions (db demo_logged_in) !! random_id (repeat x04 32) = Some row ∧
    refresh_exp row = refresh_exp row ∧ password_name row = password_name row.
Proof.
  destruct demo_token as (acc & c & _ & Hs & _ & _ & Hp). rewrite Hs in Hp.
  destruct (sessions (db demo_logged_in) !! random_id (repeat x04 32)) as [row|] eqn:Hr; [|discriminate Hp].
  exists row. split; [reflexivity|].
  exact (session_deadline_fixed demo_logged_in (random_id (repeat x04 32)) row row [] (List.Forall_nil _) Hr Hr).
Defined.

Lemma store_invariant_witness :
  count (passwords (db demo_store)) ≤ MAX_PASSWORDS ∧ count (sessions (db demo_store)) ≤ MAX_SESSIONS.
Proof.
  destruct (store_invariant demo_jwt_key demo_setup demo_setup_ok) as (Hp & Hs & _). exact (conj Hp Hs).
Defined.

Lemma demo_stored : ∃ a k, account_row (db demo_store) = Some (encode_account a, k) ∧ account_valid a k ∧
  enabled_account (db demo_store) = Ok a.
Proof.
  destruct (enabled_account (db demo_store)) as [a|] eqn:He; [|vm_compute in He; discriminate He].
  destruct (enabled_account_stored _ _ (wf_account _ _ demo_store_wf) He) as [(k & Hr & Hv) _].
  exists a, k. exact (conj Hr (conj Hv eq_refl)).
Qed.

Lemma binding_fixed_witness : ∃ a a' k,
  account_row (db (cred_run demo_store [OpInvalidate; OpBind 1757999999 (repeat x0c 32) 7 "fid:7b" demo_identity]))
    = Some (encode_account a', k) ∧ fid a' = fid a.
Proof.
  destruct demo_stored as (a & k & Hr & Hv & _).
  destruct (binding_fixed demo_store a k [OpInvalidate; OpBind 1757999999 (repeat x0c 32) 7 "fid:7b" demo_identity])
    as (a' & Hr' & _ & Hf & _); [repeat constructor; vm_compute; congruence|exact Hr|exact Hv|].
  exists a, a', k. exact (conj Hr' Hf).
Defined.

Lemma store_reopens_witness :
  CredStore.open (Some (FsDirectory 0x1c0)) (Some (FsFile 0x180 1)) (db demo_store) (repeat x0d 32)
  = (db demo_store, Ok demo_store).
Proof.
  apply (store_reopens demo_jwt_key demo_setup 0x1c0 0x180 (repeat x0d 32)).
  - exact demo_setup_ok.
  - vm_compute. reflexivity.
  - vm_compute. reflexivity.
  - vm_compute. reflexivity.
  - intros doc k Hr.
    assert (Hb : from_option (λ row, str_len row.1 <=? 8192) true (account_row (db demo_store)) = true)
      by (vm_compute; reflexivity).
    unfold demo_store in Hb. rewrite Hr in Hb. apply Z.leb_le. exact Hb.
Defined.

Definition demo_issue : Store * result Error IssuedPassword :=
  issue_password 1757900003 (repeat x0e 32) (repeat x0f 32) "laptop" demo_store.

Lemma issued_password_logs_in_witness : ∃ st1 iss acc se st2,
  demo_issue = (st1, Ok iss) ∧
  authenticate 1757900004 (repeat x10 32) (repeat x11 32) (repeat x12 32) (handle (identity acc)) (password iss) st1
    = (st2, Ok se).
Proof.
  destruct demo_stored as (acc & k & _ & Hv & He).
  destruct demo_issue as [st1 [iss|e]] eqn:Hi; [|vm_compute in Hi; discriminate Hi].
  destruct (issued_password_logs_in demo_jwt_key 1757900003 (repeat x0e 32) (repeat x0f 32) "laptop" demo_store st1 iss
    1757900004 (repeat x10 32) (repeat x11 32) (repeat x12 32) (handle (identity acc)) acc) as (se & st2 & Ha & _).
  - exact demo_store_wf.
  - unfold demo_store. apply cred_run_key.
  - reflexivity.
  - reflexivity.
  - reflexivity.
  - reflexivity.
  - reflexivity.
  - exact Hi.
  - exact He.
  - left. reflexivity.
  - destruct (validate_shape _ (av_identity _ _ Hv)) as (url & _ & _ & _ & _ & _ & _ & Hs).
    assert (Hh : valid_hostname (handle (identity acc)) = true) by (destruct Hs as [(? & _ & _ & Hh & _)|[Hh _]]; exact Hh).
    unfold valid_hostname in Hh. apply andb_true_iff in Hh as [[[Hh _]%andb_true_iff _]%andb_true_iff _].
    apply Z.leb_le in Hh. lia.
  - lia.
  - vm_compute. discriminate.
  - vm_compute. reflexivity.
  - vm_compute. reflexivity.
  - exists st1, iss, acc, se, st2. exact (conj eq_refl Ha).
Defined.
