(* ===== verification/Settings.v ===== *)
(** * Node configuration ([crates/psky/src/settings.rs])

    The operator's settings and their validation, the saved document, and the
    revisioned store over a directory whose system calls may fail. *)

From S2P Require Import Prelude RustStd IpAddr BTreeMap Externs Fixtures CredIdentity Http Hypersnap.

Definition SCHEMA_VERSION : Z := 1.
Definition MAX_SETTINGS_BYTES : Z := 32768.
Definition MAX_TEST_FID : Z := 9007199254740991.

Inductive SettingsError :=
| Invalid (message : string)
| Conflict
| Persistence (message : string).

#[export] Instance SettingsError_eq_dec : EqDecision SettingsError.
Proof. solve_decision. Defined.

(** [Display for SettingsError] *)
Definition settings_error_to_string (e : SettingsError) : string :=
  match e with
  | Invalid message | Persistence message => message
  | Conflict => "configuration revision conflict; reload settings"
  end.

Record AccountSettings := mkAccountSettings {
  as_enabled : bool;
  as_service_url : string;
  as_allowed_fid : option Z;
  as_optimism_rpc_url : string
}.

#[export] Instance AccountSettings_eq_dec : EqDecision AccountSettings.
Proof. solve_decision. Defined.

Definition account_settings_default : AccountSettings :=
  mkAccountSettings false "" None "https://mainnet.optimism.io".

Record Settings := mkSettings {
  s_account : AccountSettings;
  s_node_name : string;
  s_endpoints : list string;
  s_network : Network;
  s_test_fid : option Z;
  s_request_timeout_ms : Z;
  s_max_response_bytes : Z;
  s_max_block_delay_seconds : Z;
  s_serve_fixture : bool;
  s_admin_bind : SocketAddr;
  s_public_bind : SocketAddr
}.

#[export] Instance Settings_eq_dec : EqDecision Settings.
Proof. solve_decision. Defined.

Definition localhost (port : Z) : SocketAddr := mkSocketAddr (V4 [127; 0; 0; 1]) port 0.

Definition settings_default : Settings :=
  mkSettings account_settings_default "PurpleSky" [] Mainnet None 5000 DEFAULT_MAX_RESPONSE_BYTES
    DEFAULT_MAX_BLOCK_DELAY_SECS false (localhost 8788) (localhost 8787).

Record ConfigDocument := mkConfigDocument {
  schema_version : Z;
  revision : Z;
  settings : Settings
}.

#[export] Instance ConfigDocument_eq_dec : EqDecision ConfigDocument.
Proof. solve_decision. Defined.

(** ** Validation *)

Definition fid_in_range (fid : Z) : bool := (1 <=? fid) && (fid <=? MAX_TEST_FID).
Definition fid_out_of_range (fid : option Z) : bool := from_option (λ f, negb (fid_in_range f)) false fid.

Section validate.
Context `{UrlLib}.

(** [AccountSettings::origin] *)
Definition origin (value : string) : result SettingsError Url :=
  let invalid := Invalid "account URLs must be HTTPS origins without credentials, paths or queries; HTTP loopback is allowed for development" in
  _ ← reject_if (2048 <? str_len value) invalid;
  url ← ok_or invalid (url_parse value);
  let loopback := from_option loopback_host false (url_host_str url) in
  _ ← reject_if
    (negb (bool_decide (url_scheme url = "https") || (bool_decide (url_scheme url = "http") && loopback))
     || negb (str_is_empty (url_username url))
     || bool_decide (is_Some (url_password url))
     || bool_decide (is_Some (url_query url))
     || bool_decide (is_Some (url_fragment url))
     || negb (bool_decide (url_path url = "/"))
     || bool_decide (url_host_str url = None)) invalid;
  Ok url.

(** [AccountSettings::identity] *)
Definition account_identity (self : AccountSettings) : result SettingsError Identity :=
  url ← origin (as_service_url self);
  host ← ok_or (Invalid "missing account hostname") (url_host_str url);
  let authority :=
    match url_port url with Some port => host +:+ "%3A" +:+ to_string port | None => host end in
  Ok (mkIdentity
        (if bool_decide (host = "localhost") then "psky.test" else host)
        ("did:web:" +:+ authority)
        (url_origin url)
        ("did:web:" +:+ authority)).

(** [AccountSettings::validate] *)
Definition account_validate (self : AccountSettings) : result SettingsError () :=
  _ ← reject_if
    (fid_out_of_range (as_allowed_fid self) || (as_enabled self && bool_decide (as_allowed_fid self = None)))
    (Invalid "account login requires a permitted FID");
  if str_is_empty (as_service_url self) && negb (as_enabled self) then
    _ ← origin (as_optimism_rpc_url self); Ok ()
  else
    service ← origin (as_service_url self);
    _ ← reject_if (from_option (contains_char ":") true (url_host_str service))
          (Invalid "account service requires a DNS hostname or IPv4 loopback");
    _ ← origin (as_optimism_rpc_url self);
    identity ← account_identity self;
    map_err (λ _, Invalid "use a canonical HTTPS hostname, or http://localhost:port for development")
      (CredIdentity.validate identity).

(** [Settings::build_preflight] *)
Definition build_preflight (self : Settings) : result SettingsError PreflightConfig :=
  map_err (λ _, Invalid "invalid Hypersnap endpoints or read limits")
    (config ← config_new (s_endpoints self) (s_network self) (s_test_fid self);
     config ← with_limits config (from_millis (s_request_timeout_ms self)) (s_max_response_bytes self);
     with_max_block_delay_secs config (s_max_block_delay_seconds self)).

Definition node_name_bad (name : string) : bool :=
  trims_to_empty name || (64 <? len (code_points name)) || existsb is_control (code_points name).

(** [Settings::validate] *)
Definition settings_validate (self : Settings) : result SettingsError () :=
  _ ← account_validate (s_account self);
  _ ← reject_if (node_name_bad (s_node_name self))
        (Invalid "node name must contain 1 through 64 printable characters");
  _ ← reject_if (negb (ip_is_loopback (sa_ip (s_admin_bind self))))
        (Invalid "admin listener must bind loopback");
  _ ← reject_if (bool_decide (s_admin_bind self = s_public_bind self) && negb (sa_port (s_admin_bind self) =? 0))
        (Invalid "listener addresses must differ");
  _ ← reject_if (ip_is_multicast (sa_ip (s_public_bind self)))
        (Invalid "public listener must not bind a multicast address");
  _ ← reject_if (fid_out_of_range (s_test_fid self)) (Invalid "test FID must be 1 through 9007199254740991");
  _ ← reject_if (negb ((10 <=? s_request_timeout_ms self) && (s_request_timeout_ms self <=? 30000)))
        (Invalid "request timeout must be 10 through 30000 milliseconds");
  _ ← reject_if (negb ((1 <=? s_max_response_bytes self) && (s_max_response_bytes self <=? MAX_RESPONSE_BYTES)))
        (Invalid "response limit must be 1 through 1048576 bytes");
  _ ← reject_if (negb ((1 <=? s_max_block_delay_seconds self) && (s_max_block_delay_seconds self <=? MAX_BLOCK_DELAY_SECS)))
        (Invalid "block delay threshold must be 1 through 86400 seconds");
  _ ← reject_if (existsb (λ endpoint, 2048 <? str_len endpoint) (s_endpoints self))
        (Invalid "endpoint URL exceeds length limit");
  if bool_decide (s_endpoints self = []) then Ok ()
  else _ ← build_preflight self; Ok ().

(** [Settings::preflight] *)
Definition preflight (self : Settings) : result SettingsError (option PreflightConfig) :=
  _ ← settings_validate self;
  if bool_decide (s_endpoints self = []) then Ok None else Some <$> build_preflight self.
End validate.

(** ** The saved document *)

Definition ser_opt_u64 (n : option Z) : Json := from_option (λ n, JNumber (PosInt n)) JNull n.

Definition ser_account_settings (a : AccountSettings) : Json :=
  JObject [("enabled", JBool (as_enabled a)); ("service_url", JString (as_service_url a));
    ("allowed_fid", ser_opt_u64 (as_allowed_fid a)); ("optimism_rpc_url", JString (as_optimism_rpc_url a))].

Definition ser_settings (s : Settings) : Json :=
  JObject [("account", ser_account_settings (s_account s)); ("node_name", JString (s_node_name s));
    ("endpoints", JArray (JString <$> s_endpoints s)); ("network", JString (network_to_string (s_network s)));
    ("test_fid", ser_opt_u64 (s_test_fid s)); ("request_timeout_ms", JNumber (PosInt (s_request_timeout_ms s)));
    ("max_response_bytes", JNumber (PosInt (s_max_response_bytes s)));
    ("max_block_delay_seconds", JNumber (PosInt (s_max_block_delay_seconds s)));
    ("serve_fixture", JBool (s_serve_fixture s));
    ("admin_bind", JString (socket_addr_to_string (s_admin_bind s)));
    ("public_bind", JString (socket_addr_to_string (s_public_bind s)))].

Definition ser_document (d : ConfigDocument) : Json :=
  JObject [("schema_version", JNumber (PosInt (schema_version d))); ("revision", JNumber (PosInt (revision d)));
    ("settings", ser_settings (settings d))].

(** A field holding an [Option<u64>]: absent and null are [None]. *)
Definition de_opt_u64 (v : option Json) : option (option Z) :=
  match v with None | Some JNull => Some None | Some v => Some <$> as_u64 v end.

(** A [SocketAddr] is a string; a unit variant a string or [{"variant": null}]. *)
Definition de_socket_addr (v : Json) : option SocketAddr := as_str v ≫= parse_socket_addr.
Definition de_network (v : Json) : option Network :=
  match v with
  | JString s => result_ok (network_from_str s)
  | JObject [(s, JNull)] => result_ok (network_from_str s)
  | _ => None
  end.
Definition de_strings (v : Json) : option (list string) := as_array v ≫= mapM as_str.

Definition de_account_settings (v : Json) : option AccountSettings :=
  fs ← strict_struct ["enabled"; "service_url"; "allowed_fid"; "optimism_rpc_url"] v;
  match fs with
  | [enabled; service_url; allowed_fid; rpc_url] =>
      enabled ← enabled ≫= as_bool; service_url ← service_url ≫= as_str;
      allowed_fid ← de_opt_u64 allowed_fid; rpc_url ← rpc_url ≫= as_str;
      Some (mkAccountSettings enabled service_url allowed_fid rpc_url)
  | _ => None
  end.

Definition SETTINGS_FIELDS : list string :=
  ["account"; "node_name"; "endpoints"; "network"; "test_fid"; "request_timeout_ms"; "max_response_bytes";
   "max_block_delay_seconds"; "serve_fixture"; "admin_bind"; "public_bind"].

(** [#[serde(default)]] fills in a missing [account]. *)
Definition de_settings (v : Json) : option Settings :=
  fs ← strict_struct SETTINGS_FIELDS v;
  match fs with
  | [account; name; endpoints; network; fid; timeout; bytes; delay; fixture; admin; public] =>
      account ← from_option de_account_settings (Some account_settings_default) account;
      name ← name ≫= as_str; endpoints ← endpoints ≫= de_strings; network ← network ≫= de_network;
      fid ← de_opt_u64 fid; timeout ← timeout ≫= as_u64; bytes ← bytes ≫= as_u64; delay ← delay ≫= as_u64;
      fixture ← fixture ≫= as_bool; admin ← admin ≫= de_socket_addr; public ← public ≫= de_socket_addr;
      Some (mkSettings account name endpoints network fid timeout bytes delay fixture admin public)
  | _ => None
  end.

Definition de_document (v : Json) : option ConfigDocument :=
  fs ← strict_struct ["schema_version"; "revision"; "settings"] v;
  match fs with
  | [version; revision; settings] =>
      version ← version ≫= as_u64; version ← (if U32_MAX <? version then None else Some version);
      revision ← revision ≫= as_u64; settings ← settings ≫= de_settings;
      Some (mkConfigDocument version revision settings)
  | _ => None
  end.
