(* ===== verification/ConfigStore.v ===== *)
(** * The configuration store ([ConfigStore] of [crates/psky/src/settings.rs])

    [settings.json] lives in a directory of inodes.  Every system call may
    fail, a write may stop half way, the file may be replaced between its
    inspection and its opening, and the removal of the temporary file is best
    effort; which of this happens in an operation is its [Faults]. *)

From S2P Require Import Prelude RustStd IpAddr BTreeMap Externs Fixtures CredIdentity Http Hypersnap Settings.

Inductive NodeKind := KFile | KSymlink | KDirectory | KOther.
#[export] Instance NodeKind_eq_dec : EqDecision NodeKind.
Proof. solve_decision. Defined.

Record Inode := mkInode { ino : Z; ino_kind : NodeKind; ino_mode : Z; ino_content : bytes }.

(** The data directory: missing, something else, or its entries. *)
Inductive DirState := DirMissing | DirOther | DirEntries.

Record Disk := mkDisk { disk_dir : DirState; disk_files : gmap string Inode; next_ino : Z }.

Record Faults := mkFaults {
  f_dir_stat : bool;    (* symlink_metadata on the directory *)
  f_mkdir : bool;       (* create_dir_all *)
  f_dir_stat2 : bool;   (* the second symlink_metadata *)
  f_stat : bool;        (* symlink_metadata on settings.json *)
  f_open : bool;        (* File::open *)
  f_swap : option Inode; (* the file found by open, if it was replaced *)
  f_fstat : bool;       (* metadata of the open file *)
  f_read : bool;        (* read_to_end *)
  f_temporary : string; (* the random part of the temporary name *)
  f_create : bool;      (* OpenOptions::open *)
  f_write : option nat; (* bytes written before write_all fails *)
  f_sync : bool;        (* sync_all *)
  f_publish : bool;     (* hard_link or rename *)
  f_remove : bool;      (* remove_file of the temporary file *)
  f_dirsync : bool      (* sync of the directory *)
}.

Definition no_faults (temporary : string) : Faults :=
  mkFaults false false false false false None false false temporary false None false false false false.

Definition SETTINGS_FILE : string := "settings.json".
Definition temporary_name (f : Faults) : string := ".settings-" +:+ f_temporary f +:+ ".tmp".

Definition set_files (d : Disk) (files : gmap string Inode) : Disk := mkDisk (disk_dir d) files (next_ino d).

Section config_store.
Context `{UrlLib} `{JsonDocument}.

(** The checks on the bytes of a saved document. *)
Definition check_document (bytes : bytes) : result SettingsError ConfigDocument :=
  document ← ok_or (Persistence "saved configuration is malformed") (json_raw_from_slice bytes ≫= de_document);
  _ ← reject_if (negb (schema_version document =? SCHEMA_VERSION))
        (Persistence "saved configuration schema is unsupported");
  _ ← reject_if (revision document =? 0) (Persistence "saved configuration revision must be positive");
  _ ← map_err (λ _, Persistence "saved configuration contains invalid settings") (settings_validate (settings document));
  Ok document.

Definition read_document (f : Faults) (d : Disk) : result SettingsError (option ConfigDocument) :=
  if f_stat f then Err (Persistence "cannot inspect saved configuration") else
  match disk_files d !! SETTINGS_FILE with
  | None => Ok None
  | Some metadata =>
      _ ← reject_if (negb (bool_decide (ino_kind metadata = KFile)))
            (Persistence "saved configuration must be a regular file, not a symlink");
      _ ← reject_if (negb (Z.land (ino_mode metadata) 0x3f =? 0))
            (Persistence "saved configuration permissions must exclude group and other access");
      _ ← reject_if (MAX_SETTINGS_BYTES <? len (ino_content metadata))
            (Persistence "saved configuration exceeds size limit");
      let file := default metadata (f_swap f) in
      _ ← reject_if (f_open f) (Persistence "cannot read saved configuration");
      _ ← reject_if (f_fstat f) (Persistence "cannot inspect opened configuration");
      _ ← reject_if (negb (bool_decide (ino_kind file = KFile))) (Persistence "saved configuration changed while opening");
      _ ← reject_if (negb (ino metadata =? ino file)) (Persistence "saved configuration changed while opening");
      let bytes := take (Z.to_nat (MAX_SETTINGS_BYTES + 1)) (ino_content file) in
      _ ← reject_if (f_read f) (Persistence "cannot read saved configuration");
      _ ← reject_if (MAX_SETTINGS_BYTES <? len bytes) (Persistence "saved configuration exceeds size limit");
      Some <$> check_document bytes
  end.

(** [Drop for TemporaryFile] *)
Definition drop_temporary (f : Faults) (d : Disk) : Disk :=
  if f_remove f then d else set_files d (base.delete (temporary_name f) (disk_files d)).

Definition put_file (d : Disk) (name : string) (node : Inode) : Disk := set_files d (<[name := node]> (disk_files d)).

Definition publish (f : Faults) (document : ConfigDocument) (initial : bool) (d : Disk) :
    Disk * result SettingsError () :=
  let bytes := json_to_vec_pretty (ser_document document) in
  if MAX_SETTINGS_BYTES <? len bytes then (d, Err (Invalid "configuration exceeds size limit")) else
  let temporary := temporary_name f in
  if f_create f || bool_decide (is_Some (disk_files d !! temporary))
  then (d, Err (Persistence "cannot create temporary configuration")) else
  let node content := mkInode (next_ino d) KFile 0x180 content in
  let d := mkDisk (disk_dir d) (disk_files d) (next_ino d + 1) in
  match f_write f with
  | Some n =>
      (drop_temporary f (put_file d temporary (node (take n bytes))), Err (Persistence "cannot synchronize configuration"))
  | None =>
      let d := put_file d temporary (node bytes) in
      if f_sync f then (drop_temporary f d, Err (Persistence "cannot synchronize configuration")) else
      if initial then
        if bool_decide (is_Some (disk_files d !! SETTINGS_FILE)) then (drop_temporary f d, Err Conflict)
        else if f_publish f then (drop_temporary f d, Err (Persistence "cannot publish initial configuration"))
        else (drop_temporary f (put_file d SETTINGS_FILE (node bytes)), Ok ())
      else if f_publish f then (drop_temporary f d, Err (Persistence "cannot replace configuration"))
      else
        let d := set_files d (<[SETTINGS_FILE := node bytes]> (base.delete temporary (disk_files d))) in
        (drop_temporary f d, Ok ())
  end.

Definition sync_directory (f : Faults) : result SettingsError () :=
  reject_if (f_dirsync f)
    (Persistence "configuration published but directory synchronization failed; reread settings before retrying").

(** The checks on the directory that [open] makes before it reads the file. *)
Definition prepare_dir (f : Faults) (initial_settings : Settings) (d : Disk) : Disk * result SettingsError () :=
  let inspected :=
    if f_dir_stat f then Err (Persistence "cannot inspect configuration directory") else
    match disk_dir d with
    | DirOther => Err (Persistence "configuration directory must be a regular directory")
    | DirMissing => settings_validate initial_settings
    | DirEntries => Ok ()
    end in
  match inspected with
  | Err e => (d, Err e)
  | Ok _ =>
      if f_mkdir f then (d, Err (Persistence "cannot create configuration directory")) else
      let d := match disk_dir d with DirMissing => mkDisk DirEntries ∅ (next_ino d) | _ => d end in
      (d, reject_if (f_dir_stat2 f) (Persistence "cannot inspect configuration directory"))
  end.

(** [ConfigStore::open]: the disk, and the document of the store. *)
Definition open (f : Faults) (initial_settings : Settings) (d : Disk) : Disk * result SettingsError ConfigDocument :=
  match prepare_dir f initial_settings d with
  | (d, Err e) => (d, Err e)
  | (d, Ok _) =>
      match read_document f d with
      | Err e => (d, Err e)
      | Ok (Some document) => (d, Ok document)
      | Ok None =>
          match settings_validate initial_settings with
          | Err e => (d, Err e)
          | Ok _ =>
              let document := mkConfigDocument SCHEMA_VERSION 1 initial_settings in
              match publish f document true d with
              | (d, Err e) => (d, Err e)
              | (d, Ok _) => (d, _ ← sync_directory f; Ok document)
              end
          end
      end
  end.

(** Everything [replace] checks before it writes, and the document it writes. *)
Definition prepare_replace (f : Faults) (expected_revision : Z) (new_settings : Settings) (store : ConfigDocument) (d : Disk) :
    result SettingsError ConfigDocument :=
  _ ← reject_if (negb (expected_revision =? revision store)) Conflict;
  _ ← settings_validate new_settings;
  saved ← read_document f d;
  _ ← reject_if (negb (bool_decide (saved = Some store))) Conflict;
  next ← ok_or (Persistence "configuration revision is exhausted") (checked_add (revision store) 1);
  Ok (mkConfigDocument SCHEMA_VERSION next new_settings).

(** [ConfigStore::replace]: the disk, the store's document, and the result. *)
Definition replace (f : Faults) (expected_revision : Z) (new_settings : Settings) (store : ConfigDocument) (d : Disk) :
    Disk * ConfigDocument * result SettingsError ConfigDocument :=
  match prepare_replace f expected_revision new_settings store d with
  | Err e => (d, store, Err e)
  | Ok document =>
      match publish f document false d with
      | (d, Err e) => (d, store, Err e)
      | (d, Ok _) => (d, document, _ ← sync_directory f; Ok document)
      end
  end.
End config_store.
