(* ===== verification/SettingsTheorems.v ===== *)
(** * Theorems of the configuration and its store

    Validated settings can be used, a saved document reads back, and whatever
    system calls fail, the saved file is always one complete document: the one
    the store holds. *)

From S2P Require Import Prelude RustStd IpAddr IpAddrText BTreeMap Externs Fixtures CredIdentity Http Hypersnap Settings ConfigStore.

Section settings.
Context `{UrlLib}.

(** ** Validated settings *)

(** An HTTPS root, or an HTTP root on this machine, without credentials. *)
Definition endpoint_safe (u : Url) : Prop :=
  (url_scheme u = "https" ∨
   url_scheme u = "http" ∧ (url_host u = Some (HostDomain "localhost") ∨
     ∃ ip, url_host u = Some (HostIp ip) ∧ ip_is_loopback ip = true)) ∧
  is_Some (url_host u) ∧ url_path u = "/" ∧ url_username u = "" ∧ url_password u = None ∧
  url_query u = None ∧ url_fragment u = None.

Lemma validate_endpoint_ok input u : validate_endpoint input = Ok u → url_parse input = Some u ∧ endpoint_safe u.
Proof.
  unfold validate_endpoint, str_is_empty. intros Hv. inv_result. boolify.
  repeat match goal with Hx : ¬ is_Some _ |- _ => apply eq_None_not_Some in Hx end.
  match type of Hv with (if _ then Ok ?e else _) = _ =>
    assert (u = e) as -> by (repeat case_match; by simplify_eq) end.
  split; [done|]. unfold endpoint_safe.
  destruct (url_host _) as [[name|ip]|] eqn:Hhost; inv_result; split_and!; try done.
  - destruct (bool_decide (url_scheme _ = "https")) eqn:Hs; boolify; [by left|]. right.
    destruct (_ && _) eqn:Hh; [|done]. boolify. subst. auto.
  - destruct (bool_decide (url_scheme _ = "https")) eqn:Hs; boolify; [by left|]. right.
    destruct (_ && _) eqn:Hh; [|done]. boolify. eauto.
Qed.

Lemma validate_endpoints_ok urls inputs r : validate_endpoints urls inputs = Ok r →
  Forall endpoint_safe urls → NoDup urls → Forall endpoint_safe r ∧ NoDup r ∧ len r = len urls + len inputs.
Proof.
  revert urls. induction inputs as [|input inputs IH]; intros urls Hv Hs Hn; cbn [validate_endpoints] in Hv; inv_result.
  - split_and!; [done|done|autorewrite with psky; lia].
  - boolify. match goal with He : validate_endpoint _ = Ok _ |- _ => apply validate_endpoint_ok in He as [_ He] end.
    apply IH in Hv as (? & ? & Hl).
    + split_and!; [done|done|autorewrite with psky in *; lia].
    + apply Forall_app. split; [done|by constructor].
    + apply NoDup_app. split_and!; [done| |apply NoDup_singleton].
      intros y Hy. rewrite list_elem_of_singleton. by intros ->.
Qed.

(** What a preflight configuration guarantees of its limits and endpoints. *)
Definition config_safe (c : PreflightConfig) : Prop :=
  1 ≤ len (endpoints c) ≤ MAX_ENDPOINTS ∧ NoDup (endpoints c) ∧ Forall endpoint_safe (endpoints c) ∧
  from_millis 10 ≤ timeout c ≤ from_secs 30 ∧ 1 ≤ max_response_bytes c ≤ Hypersnap.MAX_RESPONSE_BYTES ∧
  1 ≤ max_block_delay_secs c ≤ MAX_BLOCK_DELAY_SECS.

Lemma build_preflight_ok s c : build_preflight s = Ok c → 0 ≤ s_max_response_bytes s → config_safe c.
Proof.
  unfold build_preflight. intros Hb Hpos. apply map_err_ok in Hb.
  unfold config_new, with_limits, with_max_block_delay_secs in Hb. inv_result. boolify.
  match goal with He : validate_endpoints _ _ = Ok _ |- _ => apply validate_endpoints_ok in He as (? & ? & Hl); [|constructor..] end.
  unfold config_safe. cbn [endpoints timeout max_response_bytes max_block_delay_secs] in *.
  rewrite len_nil in Hl. pose proof (len_nonneg (s_endpoints s)).
  assert (len (s_endpoints s) ≠ 0). { destruct (s_endpoints s); [done|]. autorewrite with psky. pose proof (len_nonneg l). lia. }
  split_and!; try done; lia.
Qed.

Lemma account_validate_ok a u : account_validate a = Ok u →
  (∀ f, as_allowed_fid a = Some f → 1 ≤ f ≤ MAX_TEST_FID) ∧
  (as_enabled a = true → is_Some (as_allowed_fid a) ∧
     ∃ i, account_identity a = Ok i ∧ CredIdentity.validate i = Ok ()).
Proof.
  unfold account_validate. intros Hv. inv_result. boolify.
  assert (∀ f, as_allowed_fid a = Some f → 1 ≤ f ≤ MAX_TEST_FID) as Hfid.
  { intros f Hf. match goal with Hx : fid_out_of_range _ = false |- _ => rewrite Hf in Hx; cbn [fid_out_of_range from_option] in Hx end.
    unfold fid_out_of_range in *. cbn [from_option] in *. unfold fid_in_range in *. boolify. lia. }
  split; [done|]. intros He. rewrite He in *. cbn [andb negb] in *. boolify. rewrite andb_false_r in Hv.
  split; [by apply not_eq_None_Some|]. inv_result. eauto.
Qed.

(** C33: validated settings can be put to use: the preflight configuration
    builds, with one to eight distinct safe endpoints and limits in range; an
    enabled account has a permitted FID and a valid identity; the management
    listener is a loopback address, distinct from the public one. *)
Theorem validated_settings_usable s :
  settings_validate s = Ok () →
  (∃ o, preflight s = Ok o ∧ ∀ c, o = Some c → config_safe c) ∧
  (as_enabled (s_account s) = true → ∃ f i, as_allowed_fid (s_account s) = Some f ∧ 1 ≤ f ≤ MAX_TEST_FID ∧
     account_identity (s_account s) = Ok i ∧ CredIdentity.validate i = Ok ()) ∧
  ip_is_loopback (sa_ip (s_admin_bind s)) = true ∧
  (s_admin_bind s = s_public_bind s → sa_port (s_admin_bind s) = 0) ∧
  1 ≤ len (code_points (s_node_name s)) ≤ 64.
Proof.
  intros Hv. assert (Hpre : ∃ o, preflight s = Ok o ∧ ∀ c, o = Some c → config_safe c).
  { unfold preflight. rewrite Hv. cbn [mbind result_bind]. unfold settings_validate in Hv. inv_result. boolify.
    destruct (bool_decide (s_endpoints s = [])) eqn:He; [exists None; by split|].
    apply bind_ok in Hv as (c & Hc & _). rewrite Hc. exists (Some c). split; [done|]. intros c' [= <-].
    eapply build_preflight_ok; [done|lia]. }
  split; [done|]. unfold settings_validate in Hv. apply bind_ok in Hv as (u & Ha & Hv).
  apply account_validate_ok in Ha as [Hfid Hen]. inv_result. unfold node_name_bad in *. boolify. split_and!.
  - intros He. destruct (Hen He) as [[f Hf] (i & Hi & Hiv)]. exists f, i. auto.
  - done.
  - intros Heq. match goal with Hx : _ && _ = false |- _ => apply andb_false_iff in Hx as [Hx|Hx] end; by boolify.
  - unfold trims_to_empty in *. destruct (code_points (s_node_name s)) as [|x l]; [done|].
    autorewrite with psky. pose proof (len_nonneg l). lia.
  - lia.
Qed.
End settings.

(** ** Documents *)

Section documents.
Context `{UrlLib} `{JsonDocumentLaws}.

(** The addresses are of their Rust types: octets, segments and ports in range. *)
Definition addresses_wf (s : Settings) : Prop := socket_addr_wf (s_admin_bind s) ∧ socket_addr_wf (s_public_bind s).

Lemma ser_opt_plain n : (∀ k, n = Some k → is_u64 k) → json_plain (ser_opt_u64 n) = true.
Proof. destruct n as [k|]; [|done]. intros Hk. apply bool_decide_true. by apply Hk. Qed.

Lemma de_ser_opt n : (∀ k, n = Some k → is_u64 k) → de_opt_u64 (Some (ser_opt_u64 n)) = Some n.
Proof.
  destruct n as [k|]; [|done]. intros Hk. cbn. by rewrite bool_decide_true by by apply Hk.
Qed.

Lemma as_u64_posint n : is_u64 n → as_u64 (JNumber (PosInt n)) = Some n.
Proof. intros Hn. cbn. by rewrite bool_decide_true. Qed.

Lemma de_ser_strings l : de_strings (JArray (JString <$> l)) = Some l.
Proof.
  unfold de_strings. cbn [as_array mbind option_bind]. induction l as [|s l IH]; [done|].
  cbn [fmap list_fmap mapM as_str mbind option_bind]. by rewrite IH.
Qed.

Lemma de_ser_network n : de_network (JString (network_to_string n)) = Some n.
Proof. by destruct n. Qed.

(** Numbers of settings within the width of their fields. *)
Definition settings_u64 (s : Settings) : Prop :=
  (∀ k, as_allowed_fid (s_account s) = Some k → is_u64 k) ∧ (∀ k, s_test_fid s = Some k → is_u64 k) ∧
  is_u64 (s_request_timeout_ms s) ∧ is_u64 (s_max_response_bytes s) ∧ is_u64 (s_max_block_delay_seconds s).

Lemma de_ser_account_settings a : (∀ k, as_allowed_fid a = Some k → is_u64 k) → de_account_settings (ser_account_settings a) = Some a.
Proof.
  intros Hk. unfold de_account_settings, ser_account_settings.
  change (strict_struct _ _) with (Some [Some (JBool (as_enabled a)); Some (JString (as_service_url a));
    Some (ser_opt_u64 (as_allowed_fid a)); Some (JString (as_optimism_rpc_url a))]).
  cbn [mbind option_bind as_bool as_str]. rewrite de_ser_opt by done. by destruct a.
Qed.

Lemma de_ser_settings s : settings_u64 s → addresses_wf s → de_settings (ser_settings s) = Some s.
Proof.
  intros (Ha & Ht & Hto & Hb & Hd) [Had Hpu]. unfold de_settings, ser_settings.
  match goal with |- (strict_struct _ (JObject ?fs) ≫= _) = _ =>
    change (strict_struct _ _) with (Some ((λ kv : string * Json, Some kv.2) <$> fs)) end.
  cbn [mbind option_bind fmap list_fmap snd as_str as_bool from_option].
  rewrite de_ser_account_settings by done. cbn [mbind option_bind]. rewrite de_ser_strings, de_ser_network.
  cbn [mbind option_bind]. rewrite de_ser_opt by done. rewrite !as_u64_posint by done. cbn [mbind option_bind].
  unfold de_socket_addr. cbn [as_str mbind option_bind]. rewrite !socket_addr_reads_back by done. by destruct s.
Qed.

Lemma de_ser_document d : settings_u64 (settings d) → addresses_wf (settings d) →
  0 ≤ schema_version d ≤ U32_MAX → is_u64 (revision d) → de_document (ser_document d) = Some d.
Proof.
  intros Hs Ha Hv Hr. unfold de_document, ser_document.
  match goal with |- (strict_struct _ (JObject ?fs) ≫= _) = _ =>
    change (strict_struct _ _) with (Some ((λ kv : string * Json, Some kv.2) <$> fs)) end.
  assert (is_u64 (schema_version d)) by (split; [lia|etrans; [apply Hv|done]]).
  cbn [mbind option_bind fmap list_fmap snd]. rewrite !as_u64_posint by done.
  cbn [mbind option_bind]. rewrite (proj2 (Z.ltb_ge _ _)) by lia. cbn [mbind option_bind].
  rewrite de_ser_settings by done. by destruct d.
Qed.

Lemma forallb_plain_strings l : forallb json_plain (JString <$> l) = true.
Proof. by induction l. Qed.

Lemma ser_document_plain d : settings_u64 (settings d) → is_u64 (schema_version d) → is_u64 (revision d) →
  json_plain (ser_document d) = true.
Proof.
  intros (Ha & Ht & Hto & Hb & Hd) Hv Hr.
  unfold ser_document, ser_settings, ser_account_settings. cbn [json_plain forallb snd fmap list_fmap fst].
  rewrite forallb_plain_strings, !ser_opt_plain by done. rewrite !(bool_decide_true (is_u64 _)) by done.
  vm_compute. reflexivity.
Qed.

Lemma validated_u64 s : settings_validate s = Ok () → settings_u64 s.
Proof.
  unfold settings_validate. intros Hv. apply bind_ok in Hv as (u & Ha & Hv).
  apply account_validate_ok in Ha as [Hfid _]. inv_result. boolify.
  assert (∀ n, 0 ≤ n → n ≤ 9007199254740991 → is_u64 n) as Hsmall.
  { intros n Hlo Hhi. split; [done|]. etrans; [exact Hhi|done]. }
  unfold settings_u64. split_and!.
  - intros k Hk. specialize (Hfid k Hk). unfold MAX_TEST_FID in Hfid. apply Hsmall; lia.
  - intros k Hk. match goal with Hx : fid_out_of_range (s_test_fid s) = false |- _ =>
      rewrite Hk in Hx; unfold fid_out_of_range in Hx; cbn [from_option] in Hx; unfold fid_in_range, MAX_TEST_FID in Hx end.
    boolify. apply Hsmall; lia.
  - apply Hsmall; lia.
  - unfold Hypersnap.MAX_RESPONSE_BYTES in *. apply Hsmall; lia.
  - unfold MAX_BLOCK_DELAY_SECS in *. apply Hsmall; lia.
Qed.

Lemma revision_range v d : v ≫= de_document = Some d → is_u64 (revision d).
Proof.
  destruct v as [v|]; [|done]. cbn [mbind option_bind]. unfold de_document. intros Hd.
  destruct (strict_struct _ _) as [[|a [|b [|c [|]]]]|]; try done. cbn [mbind option_bind] in Hd.
  destruct (a ≫= as_u64) as [va|]; [|done]. cbn [mbind option_bind] in Hd.
  destruct (if U32_MAX <? va then None else Some va) as [va'|]; [|done]. cbn [mbind option_bind] in Hd.
  destruct b as [[| |[n|n|]| | |]|]; cbn in Hd; try done. destruct (bool_decide (is_u64 n)) eqn:Hn; [|done].
  cbn in Hd. destruct (c ≫= de_settings); [|done]. injection Hd as <-. by boolify.
Qed.

(** Addresses that were parsed are well formed. *)
Lemma de_settings_addresses v s : de_settings v = Some s → addresses_wf s.
Proof.
  unfold de_settings. intros Hd. destruct (strict_struct _ _) as [fs|]; [|done]. cbn [mbind option_bind] in Hd.
  do 11 (destruct fs as [|? fs]; [done|]). destruct fs; [|done].
  repeat match type of Hd with (?x ≫= _) = _ => let Hx := fresh "Hx" in destruct x eqn:Hx; [|done]; cbn [mbind option_bind] in Hd end.
  injection Hd as <-.
  assert (∀ o a, o ≫= de_socket_addr = Some a → socket_addr_wf a) as Hwf.
  { intros v' addr Hv'. destruct v' as [[]|]; try done. by apply parse_socket_addr_wf in Hv'. }
  split; cbn [s_admin_bind s_public_bind]; by eapply Hwf.
Qed.

(** A published document passes the checks of a reader and is what it reads. *)
Lemma published_reads rev s : settings_validate s = Ok () → addresses_wf s → 1 ≤ rev ≤ U64_MAX →
  check_document (json_to_vec_pretty (ser_document (mkConfigDocument SCHEMA_VERSION rev s)))
    = Ok (mkConfigDocument SCHEMA_VERSION rev s).
Proof.
  intros Hv Ha Hr. pose proof (validated_u64 s Hv) as Hu. unfold check_document.
  assert (is_u64 rev) by (unfold is_u64; lia).
  rewrite json_raw_parse_pretty by (apply ser_document_plain; [done|by split|done]).
  cbn [mbind option_bind]. rewrite de_ser_document by (cbn [settings schema_version revision]; first [done|by split]).
  cbn [ok_or mbind result_bind schema_version revision settings]. rewrite Hv.
  rewrite Z.eqb_refl, (proj2 (Z.eqb_neq _ _)) by lia. done.
Qed.
End documents.

(** ** The store *)

Section store.
Context `{UrlLib} `{JsonDocumentLaws}.

Lemma temporary_is_not_settings f : temporary_name f ≠ SETTINGS_FILE.
Proof. by unfold temporary_name, SETTINGS_FILE. Qed.

(** What publishing does to the directory, for every fault. *)
Definition untouched (f : Faults) (d d' : Disk) : Prop :=
  disk_dir d' = disk_dir d ∧ ∀ name, name ≠ temporary_name f → disk_files d' !! name = disk_files d !! name.
Definition published (f : Faults) (document : ConfigDocument) (d d' : Disk) : Prop :=
  disk_dir d' = disk_dir d ∧
  (∀ name, name ≠ temporary_name f → name ≠ SETTINGS_FILE → disk_files d' !! name = disk_files d !! name) ∧
  ∃ node, disk_files d' !! SETTINGS_FILE = Some node ∧ ino_kind node = KFile ∧ Z.land (ino_mode node) 0x3f = 0 ∧
    ino_content node = json_to_vec_pretty (ser_document document) ∧ len (ino_content node) ≤ MAX_SETTINGS_BYTES.

Lemma untouched_drop f d d' : untouched f d d' → untouched f d (drop_temporary f d').
Proof.
  intros [Hd Hf]. unfold drop_temporary. destruct (f_remove f); [done|]. split; [done|].
  intros name Hn. cbn [disk_files set_files]. rewrite lookup_delete_ne by done. by apply Hf.
Qed.

Lemma untouched_put f d content : untouched f d
  (put_file (mkDisk (disk_dir d) (disk_files d) (next_ino d + 1)) (temporary_name f) content).
Proof. split; [done|]. intros name Hn. cbn. by rewrite lookup_insert_ne. Qed.

Lemma published_drop f document d d' : published f document d d' → published f document d (drop_temporary f d').
Proof.
  intros (Hd & Hf & node & Hnode & Hrest). unfold drop_temporary. destruct (f_remove f); [by split_and!; eauto|].
  split_and!; [done| |].
  - intros name Hn Hs. cbn [disk_files set_files]. rewrite lookup_delete_ne by done. by apply Hf.
  - exists node. split; [|done]. cbn [disk_files set_files].
    by rewrite lookup_delete_ne by apply temporary_is_not_settings.
Qed.

Lemma publish_cases f document initial d d' r : publish f document initial d = (d', r) →
  (untouched f d d' ∧ ∃ e, r = Err e) ∨
  (published f document d d' ∧ r = Ok () ∧ (initial = true → disk_files d !! SETTINGS_FILE = None)).
Proof.
  unfold publish. intros Hp. pose proof (temporary_is_not_settings f) as Hne.
  destruct (Z.ltb_spec MAX_SETTINGS_BYTES (len (json_to_vec_pretty (ser_document document)))) as [|Hlen];
    [injection Hp as <- <-; left; split; [done|by eexists]|].
  destruct (_ || _); [injection Hp as <- <-; left; split; [done|by eexists]|].
  set (fresh := mkInode (next_ino d) KFile 384) in *.
  destruct (f_write f) as [n|].
  { injection Hp as <- <-. left. split; [apply untouched_drop, untouched_put|by eexists]. }
  destruct (f_sync f); [injection Hp as <- <-; left; split; [apply untouched_drop, untouched_put|by eexists]|].
  destruct initial.
  - destruct (bool_decide _) eqn:Hex; [injection Hp as <- <-; left; split; [apply untouched_drop, untouched_put|by eexists]|].
    destruct (f_publish f); injection Hp as <- <-; [left; split; [apply untouched_drop, untouched_put|by eexists]|].
    right. boolify. cbn [disk_files put_file set_files] in Hex. rewrite lookup_insert_ne in Hex by done.
    apply eq_None_not_Some in Hex. split_and!; [|done|done]. apply published_drop. split_and!; [done| |].
    + intros name Hn Hs. cbn. by rewrite !lookup_insert_ne.
    + eexists. split; [cbn; by rewrite lookup_insert_eq|done].
  - destruct (f_publish f); injection Hp as <- <-; [left; split; [apply untouched_drop, untouched_put|by eexists]|].
    right. split_and!; [|done|done]. apply published_drop. split_and!; [done| |].
    + intros name Hn Hs. cbn. by rewrite lookup_insert_ne, lookup_delete_ne, lookup_insert_ne.
    + eexists. split; [cbn; by rewrite lookup_insert_eq|done].
Qed.

(** The directory holds the document of a store. *)
Definition holds (d : Disk) (store : ConfigDocument) : Prop :=
  disk_dir d = DirEntries ∧
  ∃ node, disk_files d !! SETTINGS_FILE = Some node ∧ ino_kind node = KFile ∧ Z.land (ino_mode node) 0x3f = 0 ∧
    len (ino_content node) ≤ MAX_SETTINGS_BYTES ∧ check_document (ino_content node) = Ok store.

Lemma holds_reads f d store : holds d store → f_stat f = false → f_open f = false → f_swap f = None →
  f_fstat f = false → f_read f = false → read_document f d = Ok (Some store).
Proof.
  intros (_ & node & Hn & Hk & Hm & Hl & Hc) Hst Hop Hsw Hfs Hre. unfold read_document.
  rewrite Hst, Hn, Hm, Hop, Hsw, Hfs, Hre. cbn [default from_option id].
  assert (MAX_SETTINGS_BYTES <? len (ino_content node) = false) as Hsmall by by apply Z.ltb_ge.
  assert (take (Z.to_nat (MAX_SETTINGS_BYTES + 1)) (ino_content node) = ino_content node) as ->.
  { apply take_ge. unfold len, MAX_SETTINGS_BYTES in *. lia. }
  rewrite Hsmall, (bool_decide_true _ Hk), Z.eqb_refl.
  cbn [negb Z.eqb reject_if mbind result_bind]. by rewrite Hc.
Qed.

Lemma untouched_holds f d d' store : untouched f d d' → holds d store → holds d' store.
Proof.
  intros [Hd Hf] (Hdir & node & Hn & Hrest). split; [by rewrite Hd|]. exists node.
  split; [|done]. rewrite Hf; [done|]. intros Heq. by apply (temporary_is_not_settings f).
Qed.

Lemma published_holds f rev s d d' : published f (mkConfigDocument SCHEMA_VERSION rev s) d d' → disk_dir d = DirEntries →
  settings_validate s = Ok () → addresses_wf s → 1 ≤ rev ≤ U64_MAX →
  holds d' (mkConfigDocument SCHEMA_VERSION rev s).
Proof.
  intros (Hd & _ & node & Hn & Hk & Hm & Hc & Hl) Hdir Hv Ha Hr. split; [by rewrite Hd|].
  exists node. split_and!; try done. rewrite Hc. by apply published_reads.
Qed.

Lemma replace_atomic_cases f expected s store d d' store' r :
  holds d store → addresses_wf s →
  replace f expected s store d = (d', store', r) →
  (store' = store ∧ holds d' store ∧ disk_files d' !! SETTINGS_FILE = disk_files d !! SETTINGS_FILE ∧ ∃ e, r = Err e) ∨
  (expected = revision store ∧ settings_validate s = Ok () ∧ read_document f d = Ok (Some store) ∧
   store' = mkConfigDocument SCHEMA_VERSION (revision store + 1) s ∧ holds d' store' ∧
   (r = Ok store' ∨ f_dirsync f = true ∧ ∃ message, r = Err (Persistence message))).
Proof.
  intros Hh Ha Hr. unfold replace in Hr. destruct (prepare_replace f expected s store d) as [document|e] eqn:Hprep.
  2: { injection Hr as <- <- <-. left. eauto. }
  unfold prepare_replace in Hprep. inv_result. boolify. match goal with Hc : checked_add _ _ = Some _ |- _ => apply checked_add_Some in Hc as [Hmax ->] end. subst.
  destruct (publish f _ false d) as [d1 [u|e]] eqn:Hpub; injection Hr as <- <- <-; apply publish_cases in Hpub.
  - destruct Hpub as [[_ [e He]]|(Hp & _ & _)]; [done|]. right.
    assert (1 ≤ revision store + 1 ≤ U64_MAX).
    { split; [|done]. destruct Hh as (_ & node & _ & _ & _ & _ & Hc). unfold check_document in Hc. inv_result.
      boolify. match goal with Hd : _ ≫= de_document = Some _ |- _ => revert Hd end.
      intros Hd. apply revision_range in Hd. unfold is_u64 in Hd. lia. }
    split_and!; try done; [by eapply published_holds; [exact Hp|apply Hh|..]|].
    unfold sync_directory. destruct (f_dirsync f); [right|left; done]. split; [done|by eexists].
  - destruct Hpub as [[Hu _]|(_ & ? & _)]; [|done]. left. split_and!; [done|by eapply untouched_holds| |by eexists].
    apply Hu. intros Heq. by apply (temporary_is_not_settings f).
Qed.

(** C27: replacing the settings is atomic and guarded by the revision, whatever
    system calls fail.  Either nothing changed, neither the saved file nor the
    store, and an error says so; or the caller knew the current revision, the
    saved document was the store's, and both are now the next revision with
    the new settings, the only error left being that the directory could not
    be synchronized. *)
Theorem replace_atomic f expected s store d d' store' r :
  holds d store → addresses_wf s →
  replace f expected s store d = (d', store', r) →
  (store' = store ∧ holds d' store ∧ disk_files d' !! SETTINGS_FILE = disk_files d !! SETTINGS_FILE ∧ ∃ e, r = Err e) ∨
  (expected = revision store ∧ settings_validate s = Ok () ∧ read_document f d = Ok (Some store) ∧
   store' = mkConfigDocument SCHEMA_VERSION (revision store + 1) s ∧ holds d' store' ∧
   (r = Ok store' ∨ f_dirsync f = true ∧ ∃ message, r = Err (Persistence message))).
Proof. apply replace_atomic_cases. Qed.

(** ** Restarts *)

Lemma read_document_holds f d store : read_document f d = Ok (Some store) → f_swap f = None →
  disk_dir d = DirEntries → holds d store.
Proof.
  unfold read_document. intros Hr Hsw Hdir. rewrite Hsw in Hr. destruct (f_stat f); [done|].
  destruct (disk_files d !! SETTINGS_FILE) as [node|] eqn:Hn; [|done]. cbn [default from_option id] in Hr.
  destruct (check_document _) as [doc|] eqn:Hc; cbn [fmap result_fmap] in Hr; inv_result. boolify.
  split; [done|]. exists node. split_and!; try done.
  rewrite take_ge in Hc; [done|]. unfold len, MAX_SETTINGS_BYTES in *. lia.
Qed.

Lemma prepare_dir_ok f s d d' u : prepare_dir f s d = (d', Ok u) →
  disk_dir d' = DirEntries ∧ (disk_dir d = DirEntries → d' = d).
Proof.
  unfold prepare_dir. destruct (f_dir_stat f); [done|].
  destruct (disk_dir d) eqn:Hd; [destruct (settings_validate s); [|done]|done|];
    (destruct (f_mkdir f); [done|]; intros [= <- _]; by cbn).
Qed.

Lemma open_holds f s d d' store : open f s d = (d', Ok store) → f_swap f = None → addresses_wf s →
  holds d' store.
Proof.
  unfold open. intros Ho Hsw Ha. destruct (prepare_dir f s d) as [d1 [u|e]] eqn:Hp; [|done].
  apply prepare_dir_ok in Hp as [Hdir _]. destruct (read_document f d1) as [[saved|]|e] eqn:Hr; [| |done].
  - injection Ho as <- <-. by eapply read_document_holds.
  - destruct (settings_validate s) as [[]|] eqn:Hv; [|done].
    destruct (publish _ _ _ _) as [d2 [u'|]] eqn:Hpub; [|done].
    apply publish_cases in Hpub as [[_ [? ?]]|(Hpub & _ & _)]; [done|].
    destruct (sync_directory f); cbn [mbind result_bind] in Ho; [|done]. injection Ho as <- <-.
    by eapply published_holds.
Qed.

Lemma holds_reopens t s d store : holds d store → open (no_faults t) s d = (d, Ok store).
Proof.
  intros Hh. unfold open, prepare_dir. pose proof Hh as [Hdir _]. cbn [no_faults f_dir_stat f_mkdir f_dir_stat2].
  rewrite Hdir. cbn [reject_if]. by rewrite (holds_reads (no_faults t) d store).
Qed.

(** A request to replace the settings, and what goes wrong during it. *)
Record Replacement := mkReplacement { rp_faults : Faults; rp_expected : Z; rp_settings : Settings }.
Definition replace_step (st : Disk * ConfigDocument) (op : Replacement) : Disk * ConfigDocument :=
  (replace (rp_faults op) (rp_expected op) (rp_settings op) st.2 st.1).1.

Lemma replace_step_holds d store op : holds d store → addresses_wf (rp_settings op) →
  holds (replace_step (d, store) op).1 (replace_step (d, store) op).2 ∧
  revision store ≤ revision (replace_step (d, store) op).2.
Proof.
  intros Hh Ha. unfold replace_step. cbn [fst snd].
  destruct (replace _ _ _ _ _) as [[d' store'] r] eqn:Hr. cbn [fst snd].
  apply replace_atomic_cases in Hr as [(-> & ? & _)|(_ & _ & _ & -> & ? & _)]; [|..|done|done]; split; try done; cbn; lia.
Qed.

(** A configuration survives restarts.  After a store was opened and any
    requests to replace its settings were made, some of them stale or invalid
    and with any system calls failing, opening the directory again gives
    exactly the document the store holds; it is valid, and its revision never
    went back. *)
Theorem store_survives_restart f s0 d d0 store ops t s1 :
  open f s0 d = (d0, Ok store) → f_swap f = None → addresses_wf s0 →
  Forall (λ op, addresses_wf (rp_settings op)) ops →
  let '(d1, store1) := foldl replace_step (d0, store) ops in
  open (no_faults t) s1 d1 = (d1, Ok store1) ∧ revision store ≤ revision store1 ∧
  settings_validate (settings store1) = Ok ().
Proof.
  intros Ho Hsw Ha Hops. pose proof (open_holds _ _ _ _ _ Ho Hsw Ha) as Hh. clear Ho.
  assert (∃ d1 store1, foldl replace_step (d0, store) ops = (d1, store1) ∧ holds d1 store1 ∧ revision store ≤ revision store1)
    as (d1 & store1 & -> & Hh1 & Hrev).
  { revert d0 store Hh. induction Hops as [|op ops Hop _ IH]; intros d0 store Hh; [exists d0, store; split_and!; [done|done|lia]|].
    cbn [foldl]. destruct (replace_step_holds d0 store op Hh Hop) as [Hh' Hr].
    destruct (replace_step (d0, store) op) as [d' store']. destruct (IH d' store' Hh') as (d1 & store1 & Heq & ? & ?).
    exists d1, store1. split_and!; [done|done|cbn in Hr; lia]. }
  split_and!; [by apply holds_reopens|done|].
  destruct Hh1 as (_ & node & _ & _ & _ & _ & Hc). unfold check_document in Hc. inv_result.
  by match goal with Hv : settings_validate _ = Ok ?u |- _ => destruct u end.
Qed.
End store.

(** ** Concrete configurations *)

Definition demo_settings : Settings :=
  mkSettings (mkAccountSettings true "https://psky.example.org" (Some 42) "https://mainnet.optimism.io")
    "Our node" ["https://snap.example.org"; "http://127.0.0.1:3381"] Mainnet (Some 3) 5000 65536 60 false
    (localhost 8788) (mkSocketAddr (V4 [0; 0; 0; 0]) 8787 0).

Lemma demo_settings_valid : settings_validate demo_settings = Ok ().
Proof. vm_compute. reflexivity. Qed.

Lemma validated_settings_usable_witness :
  (∃ o, preflight demo_settings = Ok o ∧ ∀ c, o = Some c → config_safe c) ∧
  (true = true → ∃ f i, as_allowed_fid (s_account demo_settings) = Some f ∧ 1 ≤ f ≤ MAX_TEST_FID ∧
     account_identity (s_account demo_settings) = Ok i ∧ CredIdentity.validate i = Ok ()) ∧
  ip_is_loopback (sa_ip (s_admin_bind demo_settings)) = true ∧
  (s_admin_bind demo_settings = s_public_bind demo_settings → sa_port (s_admin_bind demo_settings) = 0) ∧
  1 ≤ len (code_points (s_node_name demo_settings)) ≤ 64.
Proof. exact (validated_settings_usable demo_settings demo_settings_valid). Defined.

Lemma addresses_demo : addresses_wf demo_settings ∧ addresses_wf settings_default.
Proof.
  assert (Forall (λ n, 0 ≤ n < 256) [127; 0; 0; 1] ∧ Forall (λ n, 0 ≤ n < 256) [0; 0; 0; 0]) as [? ?] by (split; repeat (constructor; try lia)).
  by split_and!.
Qed.

(** An empty data directory, and the store opened on it. *)
Definition demo_disk : Disk := mkDisk DirMissing ∅ 1.
Definition demo_store : ConfigDocument := mkConfigDocument SCHEMA_VERSION 1 settings_default.
Definition demo_opened : Disk := (open (no_faults "a1") settings_default demo_disk).1.

Lemma demo_open : open (no_faults "a1") settings_default demo_disk = (demo_opened, Ok demo_store).
Proof. vm_compute. reflexivity. Qed.

Lemma demo_holds : holds demo_opened demo_store.
Proof. apply (open_holds _ _ _ _ _ demo_open eq_refl). apply addresses_demo. Qed.

(** A replacement whose directory cannot be synchronized. *)
Definition dirsync_fault : Faults :=
  mkFaults false false false false false None false false "b2" false None false false true true.
Definition demo_replaced := replace dirsync_fault 1 demo_settings demo_store demo_opened.

Lemma replace_atomic_witness :
  let '(d', store', r) := demo_replaced in
  (store' = demo_store ∧ holds d' demo_store ∧
     disk_files d' !! SETTINGS_FILE = disk_files demo_opened !! SETTINGS_FILE ∧ ∃ e, r = Err e) ∨
  (1 = revision demo_store ∧ settings_validate demo_settings = Ok () ∧
   read_document dirsync_fault demo_opened = Ok (Some demo_store) ∧
   store' = mkConfigDocument SCHEMA_VERSION (revision demo_store + 1) demo_settings ∧ holds d' store' ∧
   (r = Ok store' ∨ f_dirsync dirsync_fault = true ∧ ∃ message, r = Err (Persistence message))).
Proof.
  destruct demo_replaced as [[d' store'] r] eqn:Hr.
  exact (replace_atomic dirsync_fault 1 demo_settings demo_store demo_opened d' store' r demo_holds (proj1 addresses_demo) Hr).
Defined.

(** Three requests: a stale one, one whose write stops half way, one that succeeds. *)
Definition short_write : Faults :=
  mkFaults false false false false false None false false "c3" false (Some 5%nat) false false true false.
Definition demo_requests : list Replacement :=
  [mkReplacement (no_faults "d4") 7 demo_settings; mkReplacement short_write 1 demo_settings;
   mkReplacement dirsync_fault 1 demo_settings].

Lemma demo_requests_wf : Forall (λ op, addresses_wf (rp_settings op)) demo_requests.
Proof. repeat (apply Forall_cons_2; [apply addresses_demo|]). by apply Forall_nil_2. Qed.

Lemma store_survives_restart_witness :
  let '(d1, store1) := foldl replace_step (demo_opened, demo_store) demo_requests in
  open (no_faults "e5") settings_default d1 = (d1, Ok store1) ∧ revision demo_store ≤ revision store1 ∧
  settings_validate (settings store1) = Ok ().
Proof.
  exact (store_survives_restart (no_faults "a1") settings_default demo_disk demo_opened demo_store demo_requests "e5"
    settings_default demo_open eq_refl (proj2 addresses_demo) demo_requests_wf).
Defined.

(** The last request is the one that takes effect. *)
Example demo_requests_effect :
  (foldl replace_step (demo_opened, demo_store) demo_requests).2 = mkConfigDocument SCHEMA_VERSION 2 demo_settings.
Proof. vm_compute. reflexivity. Qed.
