(* ===== verification/Storage.v ===== *)
(** * File storage that can lose power

    The directory of the configuration store one system call at a time.  A file
    is an inode whose content reaches the disk when it is synchronized; a
    change of the directory reaches it, at the latest, when the directory is.
    A crash keeps any of the changes made since then, in their order, and
    leaves anything at all in a file that was not synchronized. *)

From S2P Require Import Prelude RustStd IpAddr BTreeMap Externs Fixtures CredIdentity Http Hypersnap Settings ConfigStore.

(** ** Directory changes *)

Inductive Change :=
| Bind (name : string) (i : Z)
| Unbind (name : string)
| Rebind (old new : string) (i : Z).

Abbreviation Entries := (gmap string Z).

Definition apply_change (m : Entries) (c : Change) : Entries :=
  match c with
  | Bind name i => <[name := i]> m
  | Unbind name => base.delete name m
  | Rebind old new i => <[new := i]> (base.delete old m)
  end.

(** What a change makes of one name, if it concerns it. *)
Definition effect_on (name : string) (c : Change) : option (option Z) :=
  match c with
  | Bind n i => if decide (n = name) then Some (Some i) else None
  | Unbind n => if decide (n = name) then Some None else None
  | Rebind old new i => if decide (new = name) then Some (Some i) else if decide (old = name) then Some None else None
  end.

Lemma apply_change_lookup m c name : apply_change m c !! name = default (m !! name) (effect_on name c).
Proof. destruct c; simpl; repeat case_decide; subst; by simplify_map_eq. Qed.

Lemma apply_changes_lookup m cs name :
  foldl apply_change m cs !! name = default (m !! name) (last (omap (effect_on name) cs)).
Proof.
  induction cs as [|c cs IH] using rev_ind; [done|]. rewrite foldl_snoc, apply_change_lookup, IH, omap_app.
  simpl. destruct (effect_on name c); [by rewrite last_snoc|by rewrite app_nil_r].
Qed.

(** ** The storage *)

Record Storage := mkStorage {
  sg_dir : DirState;           (* the data directory *)
  sg_dir_durable : bool;       (* whether its parent has it on disk *)
  sg_inodes : gmap Z Inode;    (* with the content processes read *)
  sg_clean : gset Z;           (* inodes whose content is on disk *)
  sg_stable : Entries;         (* the entries on disk *)
  sg_pending : list Change;    (* changes processes see that may not be *)
  sg_next : Z
}.

Definition entries (st : Storage) : Entries := foldl apply_change (sg_stable st) (sg_pending st).

(** The disk as a process sees it, and as [ConfigStore] describes it. *)
Definition view (st : Storage) : Disk :=
  mkDisk (sg_dir st) (omap (λ i, sg_inodes st !! i) (entries st)) (sg_next st).

Definition set_pending_changes (cs : list Change) (st : Storage) : Storage :=
  mkStorage (sg_dir st) (sg_dir_durable st) (sg_inodes st) (sg_clean st) (sg_stable st) cs (sg_next st).
Definition set_inodes (inodes : gmap Z Inode) (clean : gset Z) (st : Storage) : Storage :=
  mkStorage (sg_dir st) (sg_dir_durable st) inodes clean (sg_stable st) (sg_pending st) (sg_next st).

(** ** System calls *)

(** The calls that succeed; a failed call changes nothing. *)
Inductive Call :=
| CMkdir                              (* create_dir_all *)
| CCreate (name : string)             (* open with create_new and mode 0600 *)
| CWrite (name : string) (data : bytes)
| CFsync (name : string)
| CLink (old new : string)
| CRename (old new : string)
| CUnlink (name : string)
| CSyncDir.

Definition append (data : bytes) (node : Inode) : Inode :=
  mkInode (ino node) (ino_kind node) (ino_mode node) (ino_content node ++ data).

(** A change of the directory that needs the inode behind a name. *)
Definition change_at (name : string) (change : Z → Change) (st : Storage) : Storage :=
  match entries st !! name with
  | Some i => set_pending_changes (sg_pending st ++ [change i]) st
  | None => st
  end.

Definition perform (st : Storage) (c : Call) : Storage :=
  match c with
  | CMkdir =>
      match sg_dir st with
      | DirMissing => mkStorage DirEntries false (sg_inodes st) (sg_clean st) ∅ [] (sg_next st)
      | _ => st
      end
  | CCreate name =>
      mkStorage (sg_dir st) (sg_dir_durable st) (<[sg_next st := mkInode (sg_next st) KFile 0x180 []]> (sg_inodes st))
        (sg_clean st) (sg_stable st) (sg_pending st ++ [Bind name (sg_next st)]) (sg_next st + 1)
  | CWrite name data =>
      match entries st !! name with
      | Some i => set_inodes (alter (append data) i (sg_inodes st)) (sg_clean st ∖ {[i]}) st
      | None => st
      end
  | CFsync name =>
      match entries st !! name with Some i => set_inodes (sg_inodes st) (sg_clean st ∪ {[i]}) st | None => st end
  | CLink old new => change_at old (Bind new) st
  | CRename old new => change_at old (Rebind old new) st
  | CUnlink name => change_at name (λ _, Unbind name) st
  | CSyncDir =>
      mkStorage (sg_dir st) (sg_dir_durable st) (sg_inodes st) (sg_clean st) (entries st) [] (sg_next st)
  end.

Abbreviation perform_all := (foldl perform).

(** A process killed after [k] calls, or during a write, after [n] bytes of it. *)
Definition interrupted (k n : nat) (cs : list Call) : list Call :=
  take k cs ++ match cs !! k with Some (CWrite name data) => [CWrite name (take n data)] | _ => [] end.

(** ** Crashes *)

(** What is found after the power returns. *)
Inductive crash (st : Storage) : Storage → Prop :=
| crash_kept kept inodes :
    sublist kept (sg_pending st) →
    dom inodes = dom (sg_inodes st) →
    (∀ i, i ∈ sg_clean st → inodes !! i = sg_inodes st !! i) →
    crash st (mkStorage (sg_dir st) true inodes (dom inodes) (foldl apply_change (sg_stable st) kept) [] (sg_next st))
| crash_lost :
    sg_dir_durable st = false →
    crash st (mkStorage DirMissing true ∅ ∅ ∅ [] (sg_next st)).

(** Inode numbers are taken from the table, and the table's from below the next. *)
Record storage_wf (st : Storage) : Prop := {
  wf_fresh : ∀ i, i ∈ dom (sg_inodes st) → i < sg_next st;
  wf_clean : sg_clean st ⊆ dom (sg_inodes st);
  wf_stable : ∀ name i, sg_stable st !! name = Some i → i ∈ dom (sg_inodes st);
  wf_pending : ∀ name i c, c ∈ sg_pending st → effect_on name c = Some (Some i) → i ∈ dom (sg_inodes st)
}.

(** What a name may refer to after a crash: its entry on disk, or what one of
    the changes since made of it. *)
Definition targets (name : string) (st : Storage) : list (option Z) :=
  sg_stable st !! name :: omap (effect_on name) (sg_pending st).

Lemma entries_target name st : last (targets name st) = Some (entries st !! name).
Proof. unfold targets, entries. rewrite apply_changes_lookup, last_cons. by destruct (last _). Qed.

Lemma crash_target name st st' : crash st st' → sg_dir_durable st = true → entries st' !! name ∈ targets name st.
Proof.
  intros [kept inodes Hk _ _|] Hd; [|congruence]. unfold entries. cbn [sg_stable sg_pending foldl].
  rewrite apply_changes_lookup. unfold targets. destruct (last (omap (effect_on name) kept)) as [t|] eqn:Hl; [|by left].
  right. apply last_Some_elem_of in Hl. apply list_elem_of_omap in Hl as (c & Hc & Ht). apply list_elem_of_omap. exists c.
  split; [|done]. by eapply sublist_subseteq.
Qed.

Lemma pending_targets name st i : Some i ∈ targets name st → storage_wf st → i ∈ dom (sg_inodes st).
Proof.
  unfold targets. intros Ht Hwf. apply elem_of_cons in Ht as [Ht|Ht]; [by eapply wf_stable|].
  apply list_elem_of_omap in Ht as (c & Hc & He). by eapply wf_pending.
Qed.

Lemma entries_dom st name i : storage_wf st → entries st !! name = Some i → i ∈ dom (sg_inodes st).
Proof.
  intros Hwf He. eapply pending_targets; [|done]. apply last_Some_elem_of. by rewrite entries_target, He.
Qed.

(** ** Well-formedness is kept *)

Lemma change_at_cases name change st :
  change_at name change st = st ∨
  ∃ i, entries st !! name = Some i ∧ change_at name change st = set_pending_changes (sg_pending st ++ [change i]) st.
Proof. unfold change_at. destruct (entries st !! name); eauto. Qed.

Lemma pending_wf st c : storage_wf st →
  (∀ name i, effect_on name c = Some (Some i) → i ∈ dom (sg_inodes st)) →
  storage_wf (set_pending_changes (sg_pending st ++ [c]) st).
Proof.
  intros [Hf Hc Hs Hp] He. split; [done..|]. cbn. intros name i c' [Hc'|Hc'%list_elem_of_singleton]%elem_of_app; [by eapply Hp|].
  subst. by apply He.
Qed.

Lemma change_at_wf name change st : storage_wf st →
  (∀ i n j, effect_on n (change i) = Some (Some j) → j = i) → storage_wf (change_at name change st).
Proof.
  intros Hwf He. destruct (change_at_cases name change st) as [->|(i & Hi & ->)]; [done|].
  apply pending_wf; [done|]. intros n j Hj. rewrite (He _ _ _ Hj). by eapply entries_dom.
Qed.

Lemma inodes_wf st inodes clean : storage_wf st → dom inodes = dom (sg_inodes st) → clean ⊆ dom inodes →
  storage_wf (set_inodes inodes clean st).
Proof. intros [Hf Hc Hs Hp] Hd Hcl. split; cbn; rewrite ?Hd; [done| |done..]. by rewrite <-Hd. Qed.

Lemma perform_wf st c : storage_wf st → storage_wf (perform st c).
Proof.
  intros Hwf. pose proof Hwf as [Hf Hc Hs Hp]. destruct c as [|name|name data|name|old new|old new|name|]; cbn [perform].
  - destruct (sg_dir st); [|done..]. split; cbn; [done|done| |]; intros name i; [by rewrite lookup_empty|]. by intros c ?%not_elem_of_nil.
  - split; cbn; rewrite ?dom_insert_L.
    + intros i [Hi%elem_of_singleton|Hi%Hf]%elem_of_union; lia.
    + set_solver.
    + intros n i Hi. apply Hs in Hi. set_solver.
    + intros n i c [Hi|Hi%list_elem_of_singleton]%elem_of_app He; [apply (Hp _ _ _ Hi) in He; set_solver|].
      subst. cbn in He. case_decide; simplify_eq. set_solver.
  - destruct (entries st !! name) as [i|]; [|done]. apply inodes_wf; [done|by rewrite dom_alter_L|]. rewrite dom_alter_L. set_solver.
  - destruct (entries st !! name) as [i|] eqn:Hi; [|done]. apply inodes_wf; [done|done|].
    apply entries_dom in Hi; [|done]. set_solver.
  - apply change_at_wf; [done|]. intros i n j He. cbn in He. by case_decide; simplify_eq.
  - apply change_at_wf; [done|]. intros i n j He. cbn in He. by repeat case_decide; simplify_eq.
  - apply change_at_wf; [done|]. intros i n j He. cbn in He. by case_decide; simplify_eq.
  - split; cbn; [done|done| |by intros n i c ?%not_elem_of_nil]. intros n i Hi. by eapply entries_dom.
Qed.

Lemma crash_wf st st' : storage_wf st → crash st st' → storage_wf st'.
Proof.
  intros [Hf Hc Hs Hp] [kept inodes Hk Hd Hcl|_].
  - split; cbn; [by rewrite Hd|done| |by intros n i c ?%not_elem_of_nil]. intros n i Hi. rewrite Hd.
    rewrite apply_changes_lookup in Hi. destruct (last (omap (effect_on n) kept)) as [t|] eqn:Hl; cbn in Hi; [|by eapply Hs].
    subst t. apply last_Some_elem_of in Hl. apply list_elem_of_omap in Hl as (c & Hc' & He). eapply Hp; [|done].
    by eapply sublist_subseteq.
  - split; cbn; [set_solver|done| |]; intros n i; [by rewrite lookup_empty|]. by intros c ?%not_elem_of_nil.
Qed.
#[export] Hint Resolve perform_wf crash_wf : psky.

(** ** What the calls do to the view *)

Lemma view_file st name : disk_files (view st) !! name = entries st !! name ≫= λ i, sg_inodes st !! i.
Proof. cbn. by rewrite lookup_omap. Qed.

Lemma entries_snoc st c :
  entries (set_pending_changes (sg_pending st ++ [c]) st) = apply_change (entries st) c.
Proof. unfold entries. cbn. by rewrite foldl_snoc. Qed.

(** A new file with its content, however much of it. *)
Lemma view_created st name data : storage_wf st →
  view (perform_all st [CCreate name; CWrite name data]) =
  put_file (mkDisk (disk_dir (view st)) (disk_files (view st)) (next_ino (view st) + 1)) name
    (mkInode (next_ino (view st)) KFile 0x180 data).
Proof.
  intros Hwf. cbn [foldl]. set (st1 := perform st (CCreate name)).
  assert (entries st1 = <[name := sg_next st]> (entries st)) as He1 by (unfold entries; cbn; by rewrite foldl_snoc).
  cbn [perform]. rewrite He1, lookup_insert_eq. unfold view, put_file, set_files. cbn [disk_dir disk_files next_ino sg_dir sg_next set_inodes].
  f_equal. unfold entries at 1. cbn [set_inodes sg_stable sg_pending]. fold (entries st1). rewrite He1.
  apply map_eq. intros n. rewrite lookup_omap. destruct (decide (n = name)) as [->|Hn].
  - rewrite !lookup_insert_eq. cbn. by rewrite lookup_alter_eq, lookup_insert_eq.
  - rewrite !lookup_insert_ne, lookup_omap by done. destruct (entries st !! n) as [i|] eqn:Hi; [|done]. cbn.
    assert (i ≠ sg_next st). { apply entries_dom in Hi; [|done]. apply (wf_fresh _ Hwf) in Hi. lia. }
    by rewrite lookup_alter_ne, lookup_insert_ne by done.
Qed.

Lemma view_fsync st name : view (perform st (CFsync name)) = view st.
Proof. cbn. by destruct (entries st !! name). Qed.

Lemma view_syncdir st : view (perform st CSyncDir) = view st.
Proof. done. Qed.

Lemma view_named st name node : disk_files (view st) !! name = Some node →
  ∃ i, entries st !! name = Some i ∧ sg_inodes st !! i = Some node.
Proof. rewrite view_file. destruct (entries st !! name); naive_solver. Qed.

Lemma view_change st c : view (set_pending_changes (sg_pending st ++ [c]) st) =
  set_files (view st) (omap (λ i, sg_inodes st !! i) (apply_change (entries st) c)).
Proof. unfold view, set_files. rewrite entries_snoc. done. Qed.

Lemma view_link st old new node : disk_files (view st) !! old = Some node →
  view (perform st (CLink old new)) = put_file (view st) new node.
Proof.
  intros (i & Hi & Hn)%view_named. cbn [perform]. unfold change_at. rewrite Hi, view_change. unfold put_file. f_equal.
  cbn [apply_change view disk_files]. apply map_eq. intros n. destruct (decide (n = new)) as [->|Hne].
  - by rewrite lookup_omap, !lookup_insert_eq.
  - by rewrite lookup_insert_ne, !lookup_omap, lookup_insert_ne by done.
Qed.

Lemma view_rename st old new node : disk_files (view st) !! old = Some node →
  view (perform st (CRename old new)) = set_files (view st) (<[new := node]> (base.delete old (disk_files (view st)))).
Proof.
  intros (i & Hi & Hn)%view_named. cbn [perform]. unfold change_at. rewrite Hi, view_change. f_equal.
  cbn [apply_change view disk_files]. apply map_eq. intros n. destruct (decide (n = new)) as [->|Hne]; [by rewrite lookup_omap, !lookup_insert_eq|].
  rewrite lookup_insert_ne, lookup_omap, lookup_insert_ne by done. destruct (decide (n = old)) as [->|Ho]; [by rewrite !lookup_delete_eq|].
  by rewrite !lookup_delete_ne, lookup_omap by done.
Qed.

Lemma view_unlink st name :
  view (perform st (CUnlink name)) = set_files (view st) (base.delete name (disk_files (view st))).
Proof.
  cbn [perform]. unfold change_at. destruct (entries st !! name) as [i|] eqn:Hi; [rewrite view_change|unfold set_files, view; f_equal];
    cbn [apply_change view disk_files].
  - unfold set_files. f_equal. apply map_eq. intros n. destruct (decide (n = name)) as [->|Hne].
    + by rewrite lookup_omap, !lookup_delete_eq.
    + by rewrite lookup_omap, !lookup_delete_ne, lookup_omap by done.
  - symmetry. apply delete_id. by rewrite lookup_omap, Hi.
Qed.

(** ** What the calls do to the targets of a name *)

Lemma targets_other st name c : effect_on name c = None → targets name (set_pending_changes (sg_pending st ++ [c]) st) = targets name st.
Proof. intros He. unfold targets. cbn. rewrite omap_app. cbn. by rewrite He, app_nil_r. Qed.

Lemma targets_snoc st name c t : effect_on name c = Some t →
  targets name (set_pending_changes (sg_pending st ++ [c]) st) = targets name st ++ [t].
Proof. intros He. unfold targets. cbn. rewrite omap_app. cbn. by rewrite He. Qed.
