(* ===== verification/ConfigCrash.v ===== *)
(** * Crashes of the configuration store ([ConfigStore] of [crates/psky/src/settings.rs])

    The operations of [ConfigStore] as the system calls they make, on storage
    that can lose power, and what is found in the directory after a process
    was killed or the power failed between or during any two of these calls. *)

From S2P Require Import Prelude RustStd IpAddr BTreeMap Externs Fixtures CredIdentity Http Hypersnap Settings ConfigStore SettingsTheorems Storage.

Section calls.
Context `{UrlLib} `{JsonDocument}.

(** [Drop for TemporaryFile] *)
Definition drop_calls (f : Faults) : list Call := if f_remove f then [] else [CUnlink (temporary_name f)].

(** [publish]: the calls that succeed, on the disk [d]. *)
Definition publish_calls (f : Faults) (document : ConfigDocument) (initial : bool) (d : Disk) : list Call :=
  let bytes := json_to_vec_pretty (ser_document document) in
  let temporary := temporary_name f in
  if MAX_SETTINGS_BYTES <? len bytes then [] else
  if f_create f || bool_decide (is_Some (disk_files d !! temporary)) then [] else
  match f_write f with
  | Some n => [CCreate temporary; CWrite temporary (take n bytes)] ++ drop_calls f
  | None =>
      [CCreate temporary; CWrite temporary bytes] ++
      (if f_sync f then drop_calls f else
       CFsync temporary ::
       (if initial then
          if bool_decide (is_Some (disk_files d !! SETTINGS_FILE)) || f_publish f then [] else [CLink temporary SETTINGS_FILE]
        else if f_publish f then [] else [CRename temporary SETTINGS_FILE])
       ++ drop_calls f)
  end.

(** [sync_directory] after a document was published. *)
Definition sync_calls (f : Faults) (published : result SettingsError ()) : list Call :=
  match published with Ok _ => if f_dirsync f then [] else [CSyncDir] | Err _ => [] end.

(** [publish] and the synchronization that follows it. *)
Definition save_calls (f : Faults) (document : ConfigDocument) (initial : bool) (d : Disk) : list Call :=
  publish_calls f document initial d ++ sync_calls f (publish f document initial d).2.

(** [ConfigStore::replace] *)
Definition replace_calls (f : Faults) (expected_revision : Z) (new_settings : Settings) (store : ConfigDocument) (d : Disk) :
    list Call :=
  match prepare_replace f expected_revision new_settings store d with
  | Ok document => save_calls f document false d
  | Err _ => []
  end.

(** [create_dir_all] of [ConfigStore::open] *)
Definition dir_calls (f : Faults) (initial_settings : Settings) (d : Disk) : list Call :=
  match disk_dir d with
  | DirMissing => if negb (f_dir_stat f) && is_ok (settings_validate initial_settings) && negb (f_mkdir f) then [CMkdir] else []
  | _ => []
  end.

(** [ConfigStore::open] past the checks on the directory *)
Definition init_calls (f : Faults) (initial_settings : Settings) (d : Disk) : list Call :=
  match read_document f d, settings_validate initial_settings with
  | Ok None, Ok _ => save_calls f (mkConfigDocument SCHEMA_VERSION 1 initial_settings) true d
  | _, _ => []
  end.

(** [ConfigStore::open] *)
Definition open_calls (f : Faults) (initial_settings : Settings) (d : Disk) : list Call :=
  dir_calls f initial_settings d ++
  match prepare_dir f initial_settings d with (d, Ok _) => init_calls f initial_settings d | _ => [] end.

(** ** The operations are their calls *)

Lemma view_drop f st : view (perform_all st (drop_calls f)) = drop_temporary f (view st).
Proof. unfold drop_calls, drop_temporary. destruct (f_remove f); [done|]. apply view_unlink. Qed.

Lemma publish_view f document initial st : storage_wf st →
  view (perform_all st (publish_calls f document initial (view st))) = (publish f document initial (view st)).1.
Proof.
  intros Hwf. unfold publish_calls, publish. set (data := json_to_vec_pretty _).
  destruct (_ <? _); [done|]. destruct (_ || _); [done|].
  destruct (f_write f) as [n|]; rewrite foldl_app; [by rewrite view_drop, view_created|].
  set (st1 := perform_all st [CCreate _; CWrite _ _]).
  set (node := mkInode _ _ _ data). pose proof (temporary_is_not_settings f) as Hne.
  assert (view st1 = put_file (mkDisk (disk_dir (view st)) (disk_files (view st)) (next_ino (view st) + 1)) (temporary_name f) node) as Hv
    by by apply view_created.
  assert (disk_files (view st1) !! temporary_name f = Some node) as Hn by by rewrite Hv; cbn; rewrite lookup_insert_eq.
  cbv zeta. rewrite <-Hv. destruct (f_sync f); [by rewrite view_drop|]. cbn [foldl]. rewrite foldl_app, view_drop.
  assert (disk_files (view st1) !! SETTINGS_FILE = disk_files (view st) !! SETTINGS_FILE) as ->
    by by rewrite Hv; cbn; rewrite lookup_insert_ne.
  assert (disk_files (view (perform st1 (CFsync (temporary_name f)))) !! temporary_name f = Some node) as Hn' by by rewrite view_fsync.
  destruct initial; [destruct (bool_decide _); cbn [orb foldl fst]; [by rewrite view_fsync|]|]; (destruct (f_publish f); cbn [orb foldl fst]; [by rewrite view_fsync|]).
  - by rewrite (view_link _ _ _ _ Hn'), view_fsync.
  - by rewrite (view_rename _ _ _ _ Hn'), view_fsync.
Qed.

Lemma view_sync f published st : view (perform_all st (sync_calls f published)) = view st.
Proof. unfold sync_calls. destruct published; [|done]. by destruct (f_dirsync f). Qed.

Lemma save_view f document initial st : storage_wf st →
  view (perform_all st (save_calls f document initial (view st))) = (publish f document initial (view st)).1.
Proof. intros Hwf. unfold save_calls. by rewrite foldl_app, view_sync, publish_view. Qed.

Lemma replace_view f expected s store st : storage_wf st →
  view (perform_all st (replace_calls f expected s store (view st))) = (replace f expected s store (view st)).1.1.
Proof.
  intros Hwf. unfold replace_calls, replace. destruct (prepare_replace _ _ _ _ _); [|done].
  rewrite save_view by done. by destruct (publish _ _ _ _) as [d [u|e]].
Qed.

Lemma dir_view f s st : view (perform_all st (dir_calls f s (view st))) = (prepare_dir f s (view st)).1.
Proof.
  unfold dir_calls, prepare_dir. cbn [view disk_dir]. destruct (sg_dir st) eqn:Hd; [|by destruct (f_dir_stat f)|].
  - destruct (f_dir_stat f); [done|]. destruct (settings_validate s); [|done]. cbn [negb is_ok andb].
    destruct (f_mkdir f); [done|]. cbn [negb foldl perform]. rewrite Hd. unfold view, entries. cbn. by rewrite omap_empty.
  - destruct (f_dir_stat f); [done|]. destruct (f_mkdir f); [done|]. done.
Qed.

Lemma init_view f s st : storage_wf st →
  view (perform_all st (init_calls f s (view st))) =
  match read_document f (view st), settings_validate s with
  | Ok None, Ok _ => (publish f (mkConfigDocument SCHEMA_VERSION 1 s) true (view st)).1
  | _, _ => view st
  end.
Proof.
  intros Hwf. unfold init_calls. destruct (read_document _ _) as [[?|]|]; [done| |done].
  destruct (settings_validate s); [|done]. by apply save_view.
Qed.

Lemma perform_all_wf st cs : storage_wf st → storage_wf (perform_all st cs).
Proof. revert st. induction cs as [|c cs IH]; intros st Hwf; [done|]. apply IH. by apply perform_wf. Qed.

Lemma open_view f s st : storage_wf st →
  view (perform_all st (open_calls f s (view st))) = (open f s (view st)).1.
Proof.
  intros Hwf. unfold open_calls, open. rewrite foldl_app. pose proof (dir_view f s st) as Hd.
  destruct (prepare_dir f s (view st)) as [d [u|e]]; cbn [fst] in Hd; [|done]. rewrite <-Hd.
  rewrite init_view by by apply perform_all_wf. set (st1 := perform_all st _).
  destruct (read_document f (view st1)) as [[?|]|]; [done| |done]. destruct (settings_validate s); [|done].
  by destruct (publish _ _ _ _) as [d' [?|?]].
Qed.
End calls.

(** ** Histories with crashes *)

(** What a process asks of the store. *)
Inductive Op :=
| OpOpen (f : Faults) (initial_settings : Settings)
| OpReplace (f : Faults) (expected_revision : Z) (new_settings : Settings).

(** The storage; the running store, if a process has one open; the document
    last acknowledged as saved; and every document an operation set out to
    publish. *)
Record Run := mkRun {
  rn_storage : Storage;
  rn_store : option ConfigDocument;
  rn_saved : option ConfigDocument;
  rn_requested : list ConfigDocument
}.

Section histories.
Context `{UrlLib} `{JsonDocument}.

Definition op_calls (op : Op) (run : Run) : list Call :=
  match op, rn_store run with
  | OpOpen f s, None => open_calls f s (view (rn_storage run))
  | OpReplace f expected s, Some store => replace_calls f expected s store (view (rn_storage run))
  | _, _ => []
  end.

(** The document an operation publishes when nothing stops it. *)
Definition op_requests (op : Op) (run : Run) : list ConfigDocument :=
  match op, rn_store run with
  | OpOpen _ s, None => [mkConfigDocument SCHEMA_VERSION 1 s]
  | OpReplace _ _ s, Some store => [mkConfigDocument SCHEMA_VERSION (revision store + 1) s]
  | _, _ => []
  end.

(** The document last acknowledged, after an operation that acknowledged [o]. *)
Definition acknowledged (o saved : option ConfigDocument) : option ConfigDocument :=
  match o with Some document => Some document | None => saved end.

(** An operation that ran to its end.  A replacement acknowledges its document,
    an opening the one it created. *)
Definition complete (op : Op) (run : Run) : Run :=
  let st := rn_storage run in
  let st' := perform_all st (op_calls op run) in
  let requested := op_requests op run ++ rn_requested run in
  match op, rn_store run with
  | OpOpen f s, None =>
      let r := result_ok (open f s (view st)).2 in
      let created := bool_decide (disk_files (view st) !! SETTINGS_FILE = None) in
      mkRun st' r (if created then acknowledged r (rn_saved run) else rn_saved run) requested
  | OpReplace f expected s, Some store =>
      let '(_, store', r) := replace f expected s store (view st) in
      mkRun st' (Some store') (acknowledged (result_ok r) (rn_saved run)) requested
  | _, _ => run
  end.

(** The storage of an operation whose process was killed on its way. *)
Definition killed (op : Op) (k n : nat) (run : Run) : Storage :=
  perform_all (rn_storage run) (interrupted k n (op_calls op run)).

Definition op_ok (op : Op) : Prop :=
  match op with OpOpen f s | OpReplace f _ s => f_swap f = None ∧ addresses_wf s end.

Inductive config_step (run : Run) : Run → Prop :=
| step_complete op : op_ok op → config_step run (complete op run)
| step_killed op k n : op_ok op →
    config_step run (mkRun (killed op k n run) None (rn_saved run) (op_requests op run ++ rn_requested run))
| step_power op k n st : op_ok op → crash (killed op k n run) st →
    config_step run (mkRun st None (rn_saved run) (op_requests op run ++ rn_requested run)).

(** ** Recorded histories *)

(** A possible entry of [settings.json] and the document a reader finds there. *)
Definition stored (st : Storage) (target : option Z) (document : option ConfigDocument) : Prop :=
  match target, document with
  | Some i, Some document =>
      i ∈ sg_clean st ∧
      ∃ node, sg_inodes st !! i = Some node ∧ ino_kind node = KFile ∧ Z.land (ino_mode node) 0x3f = 0 ∧
        len (ino_content node) ≤ MAX_SETTINGS_BYTES ∧ check_document (ino_content node) = Ok document
  | None, None => True
  | _, _ => False
  end.

Definition older (a b : ConfigDocument) : Prop := revision a < revision b.

(** The documents a crash may leave behind: [first] is on disk, the [later] ones
    were published since. *)
Record versions (saved : option ConfigDocument) (requested : list ConfigDocument)
    (first : option ConfigDocument) (later : list ConfigDocument) : Prop := {
  vs_sorted : StronglySorted older (option_list first ++ later);
  vs_requested : Forall (λ d, d ∈ requested) (option_list first ++ later);
  vs_saved : ∀ a, saved = Some a → ∃ d, first = Some d ∧ (d = a ∨ older a d)
}.

Record recorded (saved : option ConfigDocument) (requested : list ConfigDocument) (st : Storage) : Prop := {
  rc_wf : storage_wf st;
  rc_dir : sg_dir st = DirEntries;
  rc_durable : sg_dir_durable st = true;
  rc_versions : ∃ first later,
    Forall2 (stored st) (targets SETTINGS_FILE st) (first :: (Some <$> later)) ∧ versions saved requested first later
}.

Lemma stored_mono st st' t d :
  (∀ i, i ∈ sg_clean st → i ∈ sg_clean st' ∧ sg_inodes st' !! i = sg_inodes st !! i) → stored st t d → stored st' t d.
Proof.
  intros Hm. destruct t as [i|], d as [d|]; cbn; try done. intros [Hc (node & Hn & Hrest)].
  destruct (Hm i Hc) as [Hc' Heq]. split; [done|]. exists node. by rewrite Heq.
Qed.

(** A call that leaves the entry and every file on disk alone. *)
Lemma recorded_quiet saved requested st st' : recorded saved requested st → storage_wf st' →
  sg_dir st' = sg_dir st → sg_dir_durable st' = sg_dir_durable st → targets SETTINGS_FILE st' = targets SETTINGS_FILE st →
  (∀ i, i ∈ sg_clean st → i ∈ sg_clean st' ∧ sg_inodes st' !! i = sg_inodes st !! i) → recorded saved requested st'.
Proof.
  intros [Hwf Hd Hdd (first & later & Hf & Hv)] Hwf' Hd' Hdd' Ht Hm. split; [done|congruence|congruence|].
  exists first, later. split; [|done]. rewrite Ht. eapply Forall2_impl; [exact Hf|]. intros t d. by apply stored_mono.
Qed.

(** The calls the store makes, where it may make them: only a file on disk
    becomes the settings, with a document newer than the last one. *)
Definition safe (requested : list ConfigDocument) (st : Storage) (c : Call) : Prop :=
  match c with
  | CMkdir | CFsync _ | CSyncDir => True
  | CCreate name | CUnlink name => name ≠ SETTINGS_FILE
  | CWrite name _ => ∀ i, entries st !! name = Some i → i ∉ sg_clean st
  | CLink old new | CRename old new =>
      old ≠ SETTINGS_FILE ∧ new = SETTINGS_FILE ∧
      ∃ document, stored st (entries st !! old) (Some document) ∧ document ∈ requested ∧
        ∀ node last, disk_files (view st) !! SETTINGS_FILE = Some node →
          check_document (ino_content node) = Ok last → older last document
  end.

(** The newest document is the one processes read. *)
Lemma recorded_last saved requested st first later :
  recorded saved requested st → Forall2 (stored st) (targets SETTINGS_FILE st) (first :: (Some <$> later)) →
  ∃ o, last (first :: (Some <$> later)) = Some o ∧ stored st (entries st !! SETTINGS_FILE) o.
Proof.
  intros _ Hf. pose proof (entries_target SETTINGS_FILE st) as Hl. rewrite last_lookup in Hl.
  destruct (Forall2_lookup_l _ _ _ _ _ Hf Hl) as (o & Ho & Hs). exists o. split; [|done].
  rewrite last_lookup, <-(Forall2_length _ _ _ Hf). done.
Qed.

Lemma stored_view st i d node : stored st (Some i) (Some d) → entries st !! SETTINGS_FILE = Some i →
  disk_files (view st) !! SETTINGS_FILE = Some node → check_document (ino_content node) = Ok d.
Proof. intros (_ & node' & Hn & _ & _ & _ & Hc) He Hv. rewrite view_file, He in Hv. cbn in Hv. congruence. Qed.
End histories.

Lemma elem_of_option_list {A} (x : A) o : x ∈ option_list o ↔ o = Some x.
Proof. destruct o; cbn; [rewrite list_elem_of_singleton; naive_solver|]. split; [by intros ?%not_elem_of_nil|done]. Qed.

(** A crash, or a synchronization, settles on one of the versions. *)
Lemma versions_pick saved requested first later o :
  versions saved requested first later → o ∈ first :: (Some <$> later) → versions saved requested o [].
Proof.
  intros [Hs Hr Ha] Ho.
  assert (∀ d, o = Some d → d ∈ option_list first ++ later) as Hin.
  { intros d ->. apply elem_of_app. apply elem_of_cons in Ho as [Ho|Ho]; [left; by apply elem_of_option_list|right].
    apply list_elem_of_fmap in Ho as (d' & [= ->] & Hd). done. }
  split; rewrite ?app_nil_r.
  - destruct o; cbn; repeat constructor.
  - destruct o as [d|]; [|done]. apply Forall_singleton. by eapply Forall_forall in Hr; [|by apply Hin].
  - intros a He. destruct (Ha a He) as (d & Hf & Hd). subst first. apply elem_of_cons in Ho as [->|Ho]; [eauto|].
    apply list_elem_of_fmap in Ho as (d' & -> & Hd'). exists d'. split; [done|right].
    apply StronglySorted_app in Hs as (Hall & _). specialize (Hall d d' ltac:(by apply elem_of_option_list) Hd').
    destruct Hd as [->|Hd]; [done|]. unfold older in *. lia.
Qed.

Lemma versions_older saved requested first later o document :
  versions saved requested first later → last (first :: (Some <$> later)) = Some o →
  (∀ l, o = Some l → older l document) → ∀ d, d ∈ option_list first ++ later → older d document.
Proof.
  intros [Hs _ _] Hl Ho d Hd. destruct later as [|x later _] using rev_ind.
  - cbn in Hl. injection Hl as <-. rewrite app_nil_r in Hd. apply Ho. by apply elem_of_option_list.
  - rewrite fmap_app, app_comm_cons in Hl. cbn [fmap list_fmap] in Hl. rewrite last_snoc in Hl. injection Hl as <-.
    rewrite app_assoc in Hs, Hd. apply StronglySorted_app in Hs as (Hall & _).
    apply elem_of_app in Hd as [Hd|Hd%list_elem_of_singleton]; [|subst d; by apply Ho].
    specialize (Hall d x Hd ltac:(by apply list_elem_of_singleton)). specialize (Ho x eq_refl). unfold older in *. lia.
Qed.

Lemma versions_snoc saved requested first later o document :
  versions saved requested first later → last (first :: (Some <$> later)) = Some o →
  (∀ l, o = Some l → older l document) → document ∈ requested →
  versions saved requested first (later ++ [document]).
Proof.
  intros Hv Hl Ho Hd. pose proof (versions_older _ _ _ _ _ _ Hv Hl Ho) as Hall. destruct Hv as [Hs Hr Ha]. split.
  - rewrite app_assoc. apply StronglySorted_app_2; [|done|repeat constructor].
    intros x y Hx Hy%list_elem_of_singleton. subst y. by apply Hall.
  - rewrite app_assoc, Forall_app. split; [done|]. by apply Forall_singleton.
  - done.
Qed.

Section safety.
Context `{UrlLib} `{JsonDocument}.

(** Publishing a file that is on disk. *)
Lemma recorded_publish saved requested st c i document :
  recorded saved requested st → effect_on SETTINGS_FILE c = Some (Some i) →
  storage_wf (set_pending_changes (sg_pending st ++ [c]) st) → stored st (Some i) (Some document) → document ∈ requested →
  (∀ node last, disk_files (view st) !! SETTINGS_FILE = Some node → check_document (ino_content node) = Ok last → older last document) →
  recorded saved requested (set_pending_changes (sg_pending st ++ [c]) st).
Proof.
  intros Hrec He Hwf' Hst Hreq Hnew. pose proof Hrec as [Hwf Hd Hdd (first & later & Hf & Hv)].
  destruct (recorded_last _ _ _ _ _ Hrec Hf) as (o & Ho & Hso). split; [done..|].
  exists first, (later ++ [document]). split.
  - rewrite (targets_snoc _ _ _ _ He), fmap_app, app_comm_cons. apply Forall2_app; [exact Hf|]. constructor; [exact Hst|constructor].
  - eapply versions_snoc; [done|exact Ho| |done]. intros l ->. destruct (entries st !! SETTINGS_FILE) as [j|] eqn:Hj; [|done].
    pose proof Hso as (_ & node & Hn & _ & _ & _ & Hc). eapply Hnew; [|exact Hc]. by rewrite view_file, Hj.
Qed.

Lemma safe_recorded saved requested st c :
  recorded saved requested st → safe requested st c → recorded saved requested (perform st c).
Proof.
  intros Hrec Hsafe. pose proof Hrec as [Hwf Hd Hdd (first & later & Hf & Hv)].
  pose proof (perform_wf st c Hwf) as Hwf'. destruct c as [|name|name data|name|old new|old new|name|]; cbn [perform safe] in *.
  - by rewrite Hd.
  - apply (recorded_quiet _ _ st); [done..| |].
    + unfold targets. cbn. rewrite omap_app. cbn. rewrite decide_False by done. by rewrite app_nil_r.
    + intros i Hi. split; [done|]. cbn. apply lookup_insert_ne. intros <-. apply (wf_clean _ Hwf) in Hi.
      apply (wf_fresh _ Hwf) in Hi. lia.
  - destruct (entries st !! name) as [i|]; [|done]. apply (recorded_quiet _ _ st); [done..|].
    intros j Hj. specialize (Hsafe i eq_refl). assert (i ≠ j) by (intros ->; done). cbn.
    split; [set_solver|]. by apply lookup_alter_ne.
  - destruct (entries st !! name) as [i|]; [|done]. apply (recorded_quiet _ _ st); [done..|]. cbn. intros j Hj. split; [set_solver|done].
  - destruct Hsafe as (Ho & -> & document & Hst & Hreq & Hnew). unfold change_at in *.
    destruct (entries st !! old) as [i|]; [|done]. by eapply recorded_publish.
  - destruct Hsafe as (Ho & -> & document & Hst & Hreq & Hnew). unfold change_at in *.
    destruct (entries st !! old) as [i|]; [|done]. by eapply recorded_publish.
  - unfold change_at in *. destruct (entries st !! name) as [i|]; [|done]. apply (recorded_quiet _ _ st); [done..| |done].
    apply targets_other. cbn. by rewrite decide_False.
  - destruct (recorded_last _ _ _ _ _ Hrec Hf) as (o & Ho & Hso). split; [done..|].
    exists o, []. split; [constructor; [exact Hso|constructor]|]. eapply versions_pick; [exact Hv|by apply last_Some_elem_of].
Qed.

Lemma crash_recorded saved requested st st' : recorded saved requested st → crash st st' → recorded saved requested st'.
Proof.
  intros [Hwf Hd Hdd (first & later & Hf & Hv)] Hc. pose proof (crash_target SETTINGS_FILE _ _ Hc Hdd) as Ht.
  pose proof (crash_wf _ _ Hwf Hc) as Hwf'.
  apply list_elem_of_lookup in Ht as [k Hk]. destruct (Forall2_lookup_l _ _ _ _ _ Hf Hk) as (o & Ho & Hst).
  destruct Hc as [kept inodes Hkept Hdom Hcl|]; [|congruence]. split; [done..|]. exists o, []. split.
  - constructor; [|done]. eapply stored_mono; [|exact Hst]. cbn. intros i Hi. split; [|by apply Hcl].
    rewrite Hdom. by apply (wf_clean _ Hwf).
  - eapply versions_pick; [exact Hv|]. by eapply list_elem_of_lookup_2.
Qed.

(** A list of calls, each safe where it is made. *)
Fixpoint safe_all (requested : list ConfigDocument) (st : Storage) (cs : list Call) : Prop :=
  match cs with [] => True | c :: cs => safe requested st c ∧ safe_all requested (perform st c) cs end.

Lemma safe_all_recorded saved requested st cs :
  recorded saved requested st → safe_all requested st cs → recorded saved requested (perform_all st cs).
Proof.
  revert st. induction cs as [|c cs IH]; intros st Hr; [done|]. intros [Hc Hcs]. apply IH; [|done]. by apply safe_recorded.
Qed.

Lemma safe_all_app requested st cs cs' :
  safe_all requested st (cs ++ cs') ↔ safe_all requested st cs ∧ safe_all requested (perform_all st cs) cs'.
Proof. revert st. induction cs as [|c cs IH]; intros st; cbn; [naive_solver|]. rewrite IH. naive_solver. Qed.

Lemma safe_interrupted requested st k n cs : safe_all requested st cs → safe_all requested st (interrupted k n cs).
Proof.
  revert st k. induction cs as [|c cs IH]; intros st [|k] Hs; [done..| |].
  - unfold interrupted. cbn. destruct c; try done. by destruct Hs.
  - destruct Hs as [Hc Hcs]. split; [done|]. by apply IH.
Qed.
End safety.

(** ** The operations are safe at every call *)

Section operations.
Context `{UrlLib} `{JsonDocumentLaws}.

Lemma drop_safe requested f st : safe_all requested st (drop_calls f).
Proof. unfold drop_calls. destruct (f_remove f); [done|]. split; [apply temporary_is_not_settings|done]. Qed.

Lemma created_safe requested st name data : storage_wf st → name ≠ SETTINGS_FILE →
  safe_all requested st [CCreate name; CWrite name data].
Proof.
  intros Hwf Hne. split; [done|split; [|done]]. intros i. unfold entries. cbn. rewrite foldl_snoc. cbn. rewrite lookup_insert_eq.
  intros [= <-] Hc. apply (wf_clean _ Hwf), (wf_fresh _ Hwf) in Hc. lia.
Qed.

(** A temporary file that was written and synchronized. *)
Lemma synced_stored st name data document : storage_wf st → len data ≤ MAX_SETTINGS_BYTES → check_document data = Ok document →
  let st' := perform_all st [CCreate name; CWrite name data; CFsync name] in
  stored st' (entries st' !! name) (Some document).
Proof.
  intros Hwf Hl Hc. cbn zeta. change [CCreate name; CWrite name data; CFsync name] with ([CCreate name; CWrite name data] ++ [CFsync name]).
  rewrite foldl_app. set (st1 := perform_all st _).
  assert (disk_files (view st1) !! name = Some (mkInode (next_ino (view st)) KFile 0x180 data)) as (i & Hi & Hn)%view_named
    by (subst st1; rewrite view_created by done; cbn; by rewrite lookup_insert_eq).
  cbn [foldl perform]. rewrite Hi. change (entries (set_inodes _ _ st1)) with (entries st1). rewrite Hi. cbn. split; [set_solver|].
  eexists. split; [exact Hn|]. done.
Qed.

Lemma publish_safe requested st f rev s initial :
  storage_wf st → settings_validate s = Ok () → addresses_wf s → 1 ≤ rev ≤ U64_MAX →
  mkConfigDocument SCHEMA_VERSION rev s ∈ requested →
  (∀ node last, disk_files (view st) !! SETTINGS_FILE = Some node → check_document (ino_content node) = Ok last → revision last < rev) →
  safe_all requested st (publish_calls f (mkConfigDocument SCHEMA_VERSION rev s) initial (view st)).
Proof.
  intros Hwf Hv Ha Hr Hreq Hnew. pose proof (published_reads rev s Hv Ha Hr) as Hread.
  pose proof (temporary_is_not_settings f) as Hne. unfold publish_calls. set (data := json_to_vec_pretty _) in *.
  destruct (Z.ltb_spec MAX_SETTINGS_BYTES (len data)) as [|Hl]; [done|]. destruct (_ || _); [done|].
  destruct (f_write f); apply safe_all_app; (split; [by apply created_safe|]); [apply drop_safe|].
  destruct (f_sync f); [apply drop_safe|].
  pose proof (synced_stored st (temporary_name f) data _ Hwf Hl Hread) as Hst. cbn zeta in Hst.
  change (_ :: (?x ++ drop_calls f)) with ([CFsync (temporary_name f)] ++ (x ++ drop_calls f)).
  apply safe_all_app. split; [done|]. apply safe_all_app. split; [|apply drop_safe].
  rewrite <-foldl_app. cbn [app]. set (st2 := perform_all st _) in *.
  assert (disk_files (view st2) !! SETTINGS_FILE = disk_files (view st) !! SETTINGS_FILE) as Heq.
  { subst st2. change [CCreate ?n; CWrite ?n ?b; CFsync ?n] with ([CCreate n; CWrite n b] ++ [CFsync n]).
    rewrite foldl_app. cbn [foldl]. rewrite view_fsync. change (perform (perform st ?a) ?b) with (perform_all st [a; b]).
    rewrite view_created by done. cbn. by rewrite lookup_insert_ne. }
  assert (∀ c, c = CLink (temporary_name f) SETTINGS_FILE ∨ c = CRename (temporary_name f) SETTINGS_FILE → safe requested st2 c) as Hsafe.
  { intros c Hc. assert (∃ document, stored st2 (entries st2 !! temporary_name f) (Some document) ∧ document ∈ requested ∧
      ∀ node last, disk_files (view st2) !! SETTINGS_FILE = Some node →
          check_document (ino_content node) = Ok last → older last document).
    { exists (mkConfigDocument SCHEMA_VERSION rev s). split_and!; [done|done|]. rewrite Heq. exact Hnew. }
    by destruct Hc; subst c. }
  destruct initial; [destruct (_ || _)|destruct (f_publish f)]; [done| |done|]; (split; [by auto|done]).
Qed.

Lemma sync_safe requested st f published : safe_all requested st (sync_calls f published).
Proof. unfold sync_calls. destruct published; [|done]. by destruct (f_dirsync f). Qed.

Lemma save_safe requested st f rev s initial :
  storage_wf st → settings_validate s = Ok () → addresses_wf s → 1 ≤ rev ≤ U64_MAX →
  mkConfigDocument SCHEMA_VERSION rev s ∈ requested →
  (∀ node last, disk_files (view st) !! SETTINGS_FILE = Some node → check_document (ino_content node) = Ok last → revision last < rev) →
  safe_all requested st (save_calls f (mkConfigDocument SCHEMA_VERSION rev s) initial (view st)).
Proof. intros. unfold save_calls. apply safe_all_app. split; [by apply publish_safe|apply sync_safe]. Qed.

(** What [replace] writes, and what it read before. *)
Lemma prepare_replace_ok f expected s store d document : prepare_replace f expected s store d = Ok document →
  settings_validate s = Ok () ∧ read_document f d = Ok (Some store) ∧ revision store + 1 ≤ U64_MAX ∧
  document = mkConfigDocument SCHEMA_VERSION (revision store + 1) s.
Proof.
  unfold prepare_replace. intros Hp. inv_result. boolify.
  match goal with Hc : checked_add _ _ = Some _ |- _ => apply checked_add_Some in Hc as [? ->] end. by subst.
Qed.

Lemma document_revision content document : check_document content = Ok document → 1 ≤ revision document ≤ U64_MAX.
Proof.
  unfold check_document. intros Hc. inv_result. boolify.
  match goal with Hd : _ ≫= de_document = Some _ |- _ => apply revision_range in Hd; unfold is_u64 in Hd; lia end.
Qed.

Lemma replace_safe requested st f expected s store :
  storage_wf st → sg_dir st = DirEntries → f_swap f = None → addresses_wf s →
  mkConfigDocument SCHEMA_VERSION (revision store + 1) s ∈ requested →
  safe_all requested st (replace_calls f expected s store (view st)).
Proof.
  intros Hwf Hdir Hsw Ha Hreq. unfold replace_calls. destruct (prepare_replace _ _ _ _ _) as [document|] eqn:Hp; [|done].
  apply prepare_replace_ok in Hp as (Hv & Hread & Hmax & ->). apply read_document_holds in Hread as (_ & node & Hn & _ & _ & _ & Hc); [|done..].
  pose proof (document_revision _ _ Hc). apply save_safe; [done|done|done|lia|done|].
  intros node' last Hn' Hc'. rewrite Hn in Hn'. injection Hn' as <-. rewrite Hc in Hc'. injection Hc' as <-. lia.
Qed.

Lemma read_none f d : read_document f d = Ok None → disk_files d !! SETTINGS_FILE = None.
Proof.
  unfold read_document. destruct (f_stat f); [done|]. destruct (disk_files d !! SETTINGS_FILE); [|done]. intros Hr. exfalso.
  destruct (check_document _); cbn [fmap result_fmap] in Hr; inv_result.
Qed.

Lemma init_safe requested st f s : storage_wf st → addresses_wf s → mkConfigDocument SCHEMA_VERSION 1 s ∈ requested →
  safe_all requested st (init_calls f s (view st)).
Proof.
  intros Hwf Ha Hreq. unfold init_calls. destruct (read_document _ _) as [[?|]|] eqn:Hread; [done| |done].
  destruct (settings_validate s) as [[]|] eqn:Hv; [|done]. apply read_none in Hread.
  apply save_safe; [done..| |done|]; [unfold U64_MAX; lia|]. intros node last Hn. congruence.
Qed.

Lemma open_calls_entries f s st : sg_dir st = DirEntries →
  open_calls f s (view st) =
  match prepare_dir f s (view st) with (_, Ok _) => init_calls f s (view st) | _ => [] end.
Proof.
  intros Hd. unfold open_calls, dir_calls. cbn [view disk_dir]. rewrite Hd. cbn [app].
  destruct (prepare_dir f s (view st)) as [d [u|e]] eqn:Hp; [|done].
  apply prepare_dir_ok in Hp as [_ Heq]. by rewrite Heq.
Qed.

Lemma open_safe requested st f s : storage_wf st → sg_dir st = DirEntries → addresses_wf s →
  mkConfigDocument SCHEMA_VERSION 1 s ∈ requested → safe_all requested st (open_calls f s (view st)).
Proof.
  intros Hwf Hd Ha Hreq. rewrite open_calls_entries by done. destruct (prepare_dir _ _ _) as [d [u|e]]; [|done].
  by apply init_safe.
Qed.
End operations.

(** ** Every history is recorded *)

Section invariant.
Context `{UrlLib} `{JsonDocumentLaws}.

Record alive (run : Run) : Prop := {
  al_recorded : recorded (rn_saved run) (rn_requested run) (rn_storage run);
  al_store : ∀ s, rn_store run = Some s → holds (view (rn_storage run)) s
}.

Lemma recorded_requested saved requested requested' st :
  recorded saved requested st → recorded saved (requested' ++ requested) st.
Proof.
  intros [Hwf Hd Hdd (first & later & Hf & [Hs Hr Ha])]. split; [done..|]. exists first, later. split; [done|].
  split; [done| |done]. eapply Forall_impl; [exact Hr|]. intros d Hd'. by apply elem_of_app; right.
Qed.

(** Once the directory is synchronized, what it holds is saved. *)
Lemma recorded_saved saved requested st document : recorded saved requested st → sg_pending st = [] →
  holds (view st) document → recorded (Some document) requested st.
Proof.
  intros [Hwf Hd Hdd (first & later & Hf & Hv)] Hp (_ & node & Hn & _ & _ & _ & Hc).
  assert (targets SETTINGS_FILE st = [entries st !! SETTINGS_FILE]) as Ht by (unfold targets, entries; by rewrite Hp).
  rewrite Ht in Hf. apply Forall2_cons in Hf as [Hst Hf]. apply Forall2_nil_inv_l, fmap_nil_inv in Hf. subst later.
  apply view_named in Hn as (i & Hi & Hn). rewrite Hi in Hst. destruct first as [d|]; [|done].
  pose proof Hst as (_ & node' & Hn' & _ & _ & _ & Hc'). rewrite Hn in Hn'. injection Hn' as <-. rewrite Hc in Hc'. injection Hc' as <-.
  split; [done..|]. exists (Some document), []. split; [rewrite Ht, Hi; constructor; [exact Hst|constructor]|].
  destruct Hv as [Hs Hr _]. split; [done|done|]. intros a [= <-]. eauto.
Qed.

Lemma save_done f document initial st u u' : (publish f document initial (view st)).2 = Ok u → sync_directory f = Ok u' →
  sg_pending (perform_all st (save_calls f document initial (view st))) = [].
Proof.
  intros Hp Hs. unfold save_calls. rewrite foldl_app, Hp. unfold sync_directory in Hs. apply reject_if_ok in Hs.
  cbn [sync_calls]. by rewrite Hs.
Qed.

Lemma replace_done f expected s store st : (replace f expected s store (view st)).2 = Ok (replace f expected s store (view st)).1.2 ∨
  ∃ e, (replace f expected s store (view st)).2 = Err e.
Proof.
  unfold replace. destruct (prepare_replace _ _ _ _ _); [|eauto]. destruct (publish _ _ _ _) as [d [?|?]]; [|eauto].
  destruct (sync_directory f); cbn; eauto.
Qed.

Lemma replace_synced f expected s store st document : (replace f expected s store (view st)).2 = Ok document →
  sg_pending (perform_all st (replace_calls f expected s store (view st))) = [].
Proof.
  unfold replace, replace_calls. destruct (prepare_replace _ _ _ _ _); [|done].
  destruct (publish f _ false (view st)) as [d [u|e]] eqn:Hp; [|done]. destruct (sync_directory f) as [u'|e] eqn:Hs; [|done]. intros _.
  eapply save_done; [by rewrite Hp|exact Hs].
Qed.

Lemma open_synced f s st document : sg_dir st = DirEntries → disk_files (view st) !! SETTINGS_FILE = None →
  (open f s (view st)).2 = Ok document → sg_pending (perform_all st (open_calls f s (view st))) = [].
Proof.
  intros Hd Hn. rewrite open_calls_entries by done. unfold open. destruct (prepare_dir f s (view st)) as [d [u|e]] eqn:Hp; [|done].
  apply prepare_dir_ok in Hp as [_ Heq]. rewrite (Heq Hd). unfold init_calls.
  assert (read_document f (view st) = Ok None ∨ ∃ e, read_document f (view st) = Err e) as [Hr|[e Hr]]
    by (unfold read_document; rewrite Hn; destruct (f_stat f); eauto); rewrite Hr; [|done].
  destruct (settings_validate s); [|done]. destruct (publish f _ true (view st)) as [d' [u'|e]] eqn:Hpub; [|done].
  destruct (sync_directory f) as [u''|e] eqn:Hs; [|done]. intros _. eapply save_done; [by rewrite Hpub|exact Hs].
Qed.

Lemma op_safe op run : alive run → op_ok op →
  safe_all (op_requests op run ++ rn_requested run) (rn_storage run) (op_calls op run).
Proof.
  intros [[Hwf Hd _ _] _] Hok. destruct op as [f s|f expected s], run as [st [store|] saved requested]; try done; destruct Hok as [Hsw Ha].
  - by apply open_safe; [..|left].
  - by apply replace_safe; [..|left].
Qed.

Lemma op_recorded op run : alive run → op_ok op →
  recorded (rn_saved run) (op_requests op run ++ rn_requested run) (perform_all (rn_storage run) (op_calls op run)).
Proof. intros Ha Hok. apply safe_all_recorded; [apply recorded_requested, Ha|by apply op_safe]. Qed.

Lemma killed_recorded op k n run : alive run → op_ok op →
  recorded (rn_saved run) (op_requests op run ++ rn_requested run) (killed op k n run).
Proof. intros Ha Hok. apply safe_all_recorded; [apply recorded_requested, Ha|by apply safe_interrupted, op_safe]. Qed.

Lemma complete_alive op run : alive run → op_ok op → alive (complete op run).
Proof.
  intros Ha Hok. pose proof (op_recorded op run Ha Hok) as Hrec. destruct Ha as [Hold Hst]. pose proof (rc_wf _ _ _ Hold) as Hwf.
  pose proof (rc_dir _ _ _ Hold) as Hdir.
  destruct op as [f s|f expected s], run as [st [store|] saved requested]; try done; destruct Hok as [Hsw Ha];
    cbn [rn_saved rn_requested rn_storage rn_store op_calls op_requests] in *; unfold complete; cbn [rn_saved rn_requested rn_storage rn_store op_calls op_requests].
  - pose proof (open_view f s st Hwf) as Hview. destruct (open f s (view st)) as [d [document|e]] eqn:Ho; cbn [fst snd result_ok] in *.
    + subst d. assert (holds (view (perform_all st (open_calls f s (view st)))) document) as Hh by by eapply open_holds.
      split; cbn [rn_saved rn_requested rn_storage rn_store]; [|by intros ? [= <-]]. case_bool_decide as Hn; [|done].
      eapply recorded_saved; [exact Hrec| |done]. eapply open_synced; [done|done|by rewrite Ho].
    + split; [|done]. by case_bool_decide.
  - pose proof (replace_view f expected s store st Hwf) as Hview. pose proof (replace_done f expected s store st) as Hdone.
    pose proof (replace_synced f expected s store st) as Hsync.
    destruct (replace f expected s store (view st)) as [[d store'] r] eqn:Hr; cbn [fst snd] in *. subst d.
    assert (holds (view (perform_all st (replace_calls f expected s store (view st)))) store') as Hh
      by (apply replace_atomic_cases in Hr as [(-> & ? & _)|(_ & _ & _ & _ & ? & _)]; [done..|by apply Hst|done]).
    split; cbn [rn_saved rn_requested rn_storage rn_store]; [|by intros ? [= <-]]. destruct Hdone as [->|[e ->]]; [|done].
    eapply recorded_saved; [exact Hrec| |done]. by eapply Hsync.
Qed.

Lemma step_alive run run' : config_step run run' → alive run → alive run'.
Proof.
  intros [op Hok|op k n Hok|op k n st Hok Hc] Ha; [by apply complete_alive|split; [exact (killed_recorded op k n run Ha Hok)|done]|].
  split; [|done]. exact (crash_recorded _ _ _ _ (killed_recorded op k n run Ha Hok) Hc).
Qed.

(** What a history starts from: a directory without settings, all of it on disk. *)
Record blank (st : Storage) : Prop := {
  bl_wf : storage_wf st;
  bl_dir : sg_dir st = DirEntries;
  bl_durable : sg_dir_durable st = true;
  bl_pending : sg_pending st = [];
  bl_settings : sg_stable st !! SETTINGS_FILE = None
}.
Definition first_run (st : Storage) : Run := mkRun st None None [].

Lemma blank_alive st : blank st → alive (first_run st).
Proof.
  intros [Hwf Hd Hdd Hp Hs]. split; [|done]. split; [done..|]. exists None, []. split; [|split; [constructor|constructor|done]].
  cbn [rn_storage first_run]. unfold targets. rewrite Hp, Hs. repeat constructor.
Qed.

Lemma run_alive st run : blank st → rtc config_step (first_run st) run → alive run.
Proof.
  intros Hb Hr. apply blank_alive in Hb. revert Hb. induction Hr as [|x y z Hs _ IH]; [done|]. intros Ha. apply IH. by eapply step_alive.
Qed.

(** What a reader of a recorded directory finds after a crash. *)
Lemma recorded_reads saved requested st t : recorded saved requested st → sg_pending st = [] →
  ∃ o, read_document (no_faults t) (view st) = Ok o ∧ (∀ document, o = Some document → document ∈ requested ∧ holds (view st) document) ∧
    (∀ a, saved = Some a → ∃ document, o = Some document ∧ (document = a ∨ older a document)).
Proof.
  intros [Hwf Hd Hdd (first & later & Hf & [Hs Hr Ha])] Hp.
  assert (targets SETTINGS_FILE st = [entries st !! SETTINGS_FILE]) as Ht by (unfold targets, entries; by rewrite Hp).
  rewrite Ht in Hf. apply Forall2_cons in Hf as [Hst _]. exists first. destruct first as [document|].
  - destruct (entries st !! SETTINGS_FILE) as [i|] eqn:Hi; [|done]. pose proof Hst as (_ & node & Hn & Hk & Hm & Hl & Hc).
    assert (holds (view st) document) as Hh.
    { split; [done|]. exists node. split; [by rewrite view_file, Hi|done]. }
    split_and!; [by apply holds_reads| |done]. intros ? [= <-]. split; [|done]. by apply Forall_cons in Hr as [? _].
  - destruct (entries st !! SETTINGS_FILE) eqn:Hi; [done|]. split_and!; [|done|done].
    unfold read_document. cbn [no_faults f_stat]. by rewrite view_file, Hi.
Qed.


End invariant.

(** ** A concrete history *)

Section demo.

(** A node creates its settings; while it replaces them the power fails after
    the rename, before the directory is synchronized. *)
Definition crash_blank : Storage := mkStorage DirEntries true ∅ ∅ ∅ [] 1.
Definition crash_opened : Run := complete (OpOpen (no_faults "a1") settings_default) (first_run crash_blank).
Definition crash_replacing : Op := OpReplace (no_faults "b2") 1 demo_settings.
Definition crash_renamed : Run :=
  mkRun (killed crash_replacing 4 0 crash_opened) None (rn_saved crash_opened)
    (op_requests crash_replacing crash_opened ++ rn_requested crash_opened).

Definition after_crash (st : Storage) (kept : list Change) : Storage :=
  mkStorage (sg_dir st) true (sg_inodes st) (dom (sg_inodes st)) (foldl apply_change (sg_stable st) kept) [] (sg_next st).

Lemma crash_blank_ok : blank crash_blank.
Proof. split; [|done..]. split; cbn; [set_solver|done| |]; intros name i; [by rewrite lookup_empty|by intros c ?%not_elem_of_nil]. Qed.

Lemma crash_renamed_run : rtc config_step (first_run crash_blank) crash_renamed.
Proof.
  eapply rtc_l; [apply (step_complete _ (OpOpen (no_faults "a1") settings_default)); split; [done|apply addresses_demo]|].
  apply rtc_once. apply (step_killed crash_opened crash_replacing 4 0). split; [done|apply addresses_demo].
Qed.

(** What the power failure may leave: the rename, or not. *)
Example crash_keeps_either :
  read_document (no_faults "c3") (view (after_crash (rn_storage crash_renamed) [])) = Ok (Some demo_store) ∧
  read_document (no_faults "c3") (view (after_crash (rn_storage crash_renamed) (sg_pending (rn_storage crash_renamed))))
    = Ok (Some (mkConfigDocument SCHEMA_VERSION 2 demo_settings)).
Proof. split; vm_compute; reflexivity. Qed.



(** The same crash without the synchronization of the temporary file could
    leave anything: an unsynchronized file is not on disk. *)
Example unsynced_not_clean :
  let st := perform_all crash_blank [CCreate "x"; CWrite "x" [x41]] in entries st !! "x" = Some 1 ∧ 1 ∉ sg_clean st.
Proof. split; [reflexivity|]. vm_compute. set_solver. Qed.

(** A data directory that [open] created is not on disk in its parent: settings
    it acknowledged can be lost together with the directory. *)
Definition crash_missing : Storage := mkStorage DirMissing true ∅ ∅ ∅ [] 1.
Example new_directory_can_be_lost :
  let run := complete (OpOpen (no_faults "a1") settings_default) (first_run crash_missing) in
  rn_saved run = Some demo_store ∧
  ∃ st', crash (rn_storage run) st' ∧ read_document (no_faults "c3") (view st') = Ok None.
Proof.
  split; [vm_compute; reflexivity|]. eexists. split; [apply crash_lost; vm_compute; reflexivity|]. vm_compute. reflexivity.
Qed.
End demo.
