(* ===== verification/AccountNode.v ===== *)
(** * The account service: state and helpers ([crates/psky/src/account.rs])

    [Core], the failures of its requests, the rate limit, the evidence it
    stores, and the effects its operations thread: the core itself, the
    exchanges with relay and RPC provider, the clock, the random generator and
    the deadline that drops an operation at one of its network calls. *)

From S2P Require Import Prelude RustStd IpAddr BTreeMap Externs Fixtures RepoSyntax RepoRecords RepoRecordSet RepoMst RepoCar Repository CredIdentity CredTokens CredStore Http FarcasterMessage FarcasterClient FarcasterVerify Settings.

Definition CHALLENGE_TTL : Z := 300.
Definition GRANT_TTL : Z := 600.
Definition AUTHORITY_CACHE : Z := 30.
Definition MAX_PENDING : Z := 8.

(** ** Failures *)

Record Failure := mkFailure { fail_status : Z; fail_code : string; fail_message : string }.

Definition failure_busy : Failure :=
  mkFailure 429 "RateLimitExceeded" "Account service is busy; retry in a few seconds".
Definition failure_internal : Failure :=
  mkFailure 500 "AccountStoreError" "Account state could not be safely accessed".
Definition failure_disabled : Failure :=
  mkFailure 503 "AccountLoginDisabled" "Configure and enable Farcaster login in the local management console".
Definition failure_unverified : Failure :=
  mkFailure 401 "InvalidToken" "Farcaster sign-in is missing or expired; sign in again".

(** [#[error(...)]] of [AuthError] *)
Definition auth_error_to_string (e : AuthError) : string :=
  match e with
  | InvalidConfig => "invalid Farcaster authentication configuration"
  | InvalidChallenge => "Farcaster sign-in challenge expired or invalid"
  | InvalidRelayResponse => "Farcaster relay returned an invalid response"
  | ChannelExpired => "Farcaster sign-in channel expired or was already consumed"
  | Unavailable => "Farcaster authentication service is unavailable; retry shortly"
  | InvalidMessage => "Farcaster sign-in message does not match this challenge"
  | InvalidSignature => "Farcaster sign-in signature is invalid"
  | UnsupportedWallet => "this Farcaster wallet signature type is not supported"
  | InvalidChainEvidence => "Optimism identity verification returned invalid chain evidence"
  | Unauthorized => "signing address is not authorized for this Farcaster identity"
  end.

Definition failure_auth (error : AuthError) : Failure :=
  let unavailable :=
    match error with Unavailable | InvalidChainEvidence | InvalidRelayResponse => true | _ => false end in
  mkFailure (if unavailable then 503 else 401) "FarcasterAuthFailed" (auth_error_to_string error).

(** [#[error(...)]] of the credential store's errors *)
Definition cred_error_to_string (e : Cred.Error) : string :=
  match e with
  | Cred.InvalidInput => "invalid credential configuration"
  | Cred.InvalidCredentials => "Invalid identifier or password"
  | Cred.InvalidToken => "Token is invalid"
  | Cred.ExpiredToken => "Token has expired"
  | Cred.NotBound => "no verified account is configured"
  | Cred.Disabled => "account authority must be verified again"
  | Cred.BindingConflict => "account binding conflicts with the existing identity"
  | Cred.Limit => "credential limit reached"
  | Cred.Persistence => "private credential storage is unavailable"
  end.

(** [From<CredentialError> for Failure] *)
Definition failure_credential (error : Cred.Error) : Failure :=
  let coded status code := mkFailure status code (cred_error_to_string error) in
  match error with
  | Cred.InvalidCredentials => coded 401 "AuthenticationRequired"
  | Cred.InvalidToken => coded 401 "InvalidToken"
  | Cred.ExpiredToken => coded 401 "ExpiredToken"
  | Cred.Disabled => coded 403 "AccountTakedown"
  | Cred.NotBound => coded 401 "AccountNotFound"
  | Cred.Persistence => failure_internal
  | Cred.Limit => coded 429 "LimitExceeded"
  | Cred.BindingConflict => coded 409 "BindingConflict"
  | Cred.InvalidInput => coded 400 "InvalidRequest"
  end.

(** ** Rate limits *)

(** [limit]: the times it keeps, and whether this call is admitted. *)
Definition limit (times : list Z) (now window capacity : Z) : list Z * result Failure () :=
  let times := filter (λ time, saturating_sub now time < window) times in
  if capacity <=? len times then (times, Err failure_busy) else (times ++ [now], Ok ()).

(** ** Stored evidence *)

Record Evidence := mkEvidence { ev_identity : VerifiedIdentity; ev_proof : SignedProof }.

Definition wallet_kind_name (k : WalletKind) : string := match k with Eoa => "eoa" | Erc1271 => "erc1271" end.
Definition proof_kind_name (k : ProofKind) : string := match k with Custody => "custody" | AuthAddress => "auth_address" end.

Definition ser_proof (p : SignedProof) : Json :=
  JObject [("message", JString (proof_message p)); ("signature", JString (proof_signature p))].
Definition ser_verified (i : VerifiedIdentity) : Json :=
  JObject [("fid", JNumber (PosInt (vi_fid i))); ("address", JString (vi_address i));
    ("custody_address", JString (vi_custody_address i));
    ("wallet_kind", JString (wallet_kind_name (vi_wallet_kind i)));
    ("proof_kind", JString (proof_kind_name (vi_proof_kind i)));
    ("checked_block", JNumber (PosInt (vi_checked_block i))); ("block_hash", JString (vi_block_hash i));
    ("checked_at", JNumber (PosInt (vi_checked_at i)))].
Definition ser_evidence (e : Evidence) : Json :=
  JObject [("identity", ser_verified (ev_identity e)); ("proof", ser_proof (ev_proof e))].

(** A unit variant is its name, or an object with the name and null. *)
Definition de_variant {A} (names : list (string * A)) (v : Json) : option A :=
  match v with
  | JString s | JObject [(s, JNull)] => snd <$> (list_find (λ n, n.1 = s) names ≫= λ x, Some x.2)
  | _ => None
  end.
Definition de_proof (v : Json) : option SignedProof :=
  fs ← lenient_struct ["message"; "signature"] v;
  match fs with
  | [m; s] => m ← m ≫= as_str; s ← s ≫= as_str; Some (mkSignedProof m s)
  | _ => None
  end.
Definition de_verified (v : Json) : option VerifiedIdentity :=
  fs ← lenient_struct
    ["fid"; "address"; "custody_address"; "wallet_kind"; "proof_kind"; "checked_block"; "block_hash"; "checked_at"] v;
  match fs with
  | [fid; address; custody; wallet; proof; block; hash; at_] =>
      fid ← fid ≫= as_u64; address ← address ≫= as_str; custody ← custody ≫= as_str;
      wallet ← wallet ≫= de_variant [("eoa", Eoa); ("erc1271", Erc1271)];
      proof ← proof ≫= de_variant [("custody", Custody); ("auth_address", AuthAddress)];
      block ← block ≫= as_u64; hash ← hash ≫= as_str; at_ ← at_ ≫= as_u64;
      Some (mkVerifiedIdentity fid address custody wallet proof block hash at_)
  | _ => None
  end.
Definition de_evidence (v : Json) : option Evidence :=
  fs ← lenient_struct ["identity"; "proof"] v;
  match fs with
  | [i; p] => i ← i ≫= de_verified; p ← p ≫= de_proof; Some (mkEvidence i p)
  | _ => None
  end.

(** ** The service's state *)

Record Pending := mkPending {
  poll_hash : string;
  pn_challenge : Challenge;
  pn_channel : string;
  pn_proof : option SignedProof;
  last_poll : Z;
  completion : option Json
}.

Record Core := mkCore {
  co_settings : AccountSettings;
  co_store : Store;
  pending : gmap string Pending;
  grants : gmap string Z;
  start_times : list Z;
  password_times : list Z;
  checked_at : option Z;
  events : list Json;
  next_event : Z
}.

Definition set_store (s : Store) (c : Core) : Core :=
  mkCore (co_settings c) s (pending c) (grants c) (start_times c) (password_times c) (checked_at c) (events c) (next_event c).
Definition set_pending (p : gmap string Pending) (c : Core) : Core :=
  mkCore (co_settings c) (co_store c) p (grants c) (start_times c) (password_times c) (checked_at c) (events c) (next_event c).
Definition set_grants (g : gmap string Z) (c : Core) : Core :=
  mkCore (co_settings c) (co_store c) (pending c) g (start_times c) (password_times c) (checked_at c) (events c) (next_event c).
Definition set_times (starts passwords : list Z) (c : Core) : Core :=
  mkCore (co_settings c) (co_store c) (pending c) (grants c) starts passwords (checked_at c) (events c) (next_event c).
Definition set_checked_at (t : option Z) (c : Core) : Core :=
  mkCore (co_settings c) (co_store c) (pending c) (grants c) (start_times c) (password_times c) t (events c) (next_event c).
Definition set_events (e : list Json) (n : Z) (c : Core) : Core :=
  mkCore (co_settings c) (co_store c) (pending c) (grants c) (start_times c) (password_times c) (checked_at c) e n.

Section node.
Context {SHA : Sha256} {HEX : HexLib} {URL : UrlLib} {JSON : JsonText} {RAW : JsonDocument}.

Definition hash (value : string) : string := hex_encode (sha256 (as_bytes value)).

Definition fingerprint (identity : VerifiedIdentity) : string :=
  hash (to_string (vi_fid identity) +:+ ":" +:+ vi_address identity +:+ ":" +:+ vi_custody_address identity).

(** [serde_json::to_string(&evidence)], [serde_json::from_str::<Evidence>] *)
Definition encode_evidence (e : Evidence) : string := json_to_string (ser_evidence e).
Definition decode_evidence (raw : string) : option Evidence := json_raw_from_slice (as_bytes raw) ≫= de_evidence.

(** [Core::client] *)
Definition client (self : Core) : result Failure AuthClient :=
  _ ← reject_if (negb (as_enabled (co_settings self))) failure_disabled;
  origin ← ok_or failure_disabled (url_parse (as_service_url (co_settings self)));
  map_err failure_auth (FarcasterClient.new
    (mkAuthConfig (url_authority origin) (url_origin origin +:+ "/account")
      "https://relay.farcaster.xyz" (as_optimism_rpc_url (co_settings self)))).

(** [Store::account]; [down]: the database fails. *)
Definition read_account (down : bool) (self : Core) : result Cred.Error (option Account) :=
  if down then Err Cred.Persistence else CredStore.account (co_store self).

(** [Core::status] *)
Definition core_status (down : bool) (self : Core) : Json :=
  let account := mjoin (result_ok (read_account down self)) in
  json_object
    [("enabled", JBool (as_enabled (co_settings self))); ("service_url", JString (as_service_url (co_settings self)));
     ("handle", from_option (λ i, JString (handle i)) JNull (result_ok (account_identity (co_settings self))));
     ("bound", JBool (bool_decide (is_Some account)));
     ("fid", from_option (λ a, JNumber (PosInt (fid a))) JNull account);
     ("account_enabled", JBool (from_option enabled false account));
     ("storage_ready", JBool false); ("signer_ready", JBool false);
     ("authority_checked_at", ser_opt_u64 (checked_at self))].

(** ** Configuration *)

(** [ConfigurationGuard::check] *)
Definition check (down : bool) (self : Core) (settings : AccountSettings) : result string () :=
  _ ← map_err (λ _, "Invalid account configuration") (account_validate settings);
  account ← map_err (λ _, "Cannot read account binding") (read_account down self);
  match account with
  | None => Ok ()
  | Some account =>
      let conflict := "The bound FID and service identity cannot be changed on this node" in
      _ ← reject_if (negb (bool_decide (as_allowed_fid settings = Some (fid account)))) conflict;
      identity_ ← map_err (λ _, "A bound account needs its original service URL") (account_identity settings);
      reject_if (negb (bool_decide (identity_ = identity account))) conflict
  end.

(** [ConfigurationGuard::apply] *)
Definition apply (settings : AccountSettings) (self : Core) : Core :=
  if bool_decide (co_settings self = settings) then self else
  mkCore settings (co_store self) ∅ ∅ (start_times self) (password_times self) None (events self) (next_event self).

Definition new_core (settings : AccountSettings) (store : Store) : Core :=
  mkCore settings store ∅ ∅ [] [] None [] 1.

End node.

(** ** Effects *)

(** Why an operation ends early: [?] on a failure, or the future is dropped. *)
Inductive Stop := Failed (f : Failure) | Dropped.

(** What may go wrong outside the program: [cut n], the deadline fires during
    the n-th network call, after so many exchanges; [broken n], the database
    fails at the n-th call on the credential store. *)
Record Trouble := mkTrouble { cut : nat → option nat; broken : nat → bool }.
Definition no_trouble : Trouble := mkTrouble (λ _, None) (λ _, false).

Section effects.
Context {SHA : Sha256} {HEX : HexLib} {URL : UrlLib}.

Record World := mkWorld {
  w_core : Core;
  w_trace : list Exchange;
  w_ticks : nat;
  w_draws : nat;
  w_calls : nat;
  w_queries : nat
}.

Definition Acct (A : Type) := World → result Stop A * World.

#[export] Instance acct_ret : MRet Acct := λ A a w, (Ok a, w).
#[export] Instance acct_bind : MBind Acct := λ A B f m w,
  match m w with (Ok a, w) => f a w | (Err e, w) => (Err e, w) end.

(** [clock n], [random n]: the n-th reading and the n-th draw. *)
Context (clock : nat → Z) (random : nat → bytes) (trouble : Trouble).

Definition set_core (c : Core) (w : World) : World :=
  mkWorld c (w_trace w) (w_ticks w) (w_draws w) (w_calls w) (w_queries w).

Definition get : Acct Core := λ w, (Ok (w_core w), w).
Definition modify (f : Core → Core) : Acct () := λ w, (Ok (), set_core (f (w_core w)) w).
Definition fail {A} (f : Failure) : Acct A := λ w, (Err (Failed f), w).
Definition lift_failure {A} (r : result Failure A) : Acct A := λ w, (map_err Failed r, w).

(** [journal::now()] *)
Definition read_clock : Acct Z := λ w,
  (Ok (clock (w_ticks w)), mkWorld (w_core w) (w_trace w) (S (w_ticks w)) (w_draws w) (w_calls w) (w_queries w)).
(** 32 bytes of [OsRng] *)
Definition draw_bytes : Acct bytes := λ w,
  (Ok (random (w_draws w)), mkWorld (w_core w) (w_trace w) (w_ticks w) (S (w_draws w)) (w_calls w) (w_queries w)).
Definition random_token : Acct string := bytes ← draw_bytes; mret (hex_encode bytes).

(** [.await] of a network operation under [timeout]. *)
Definition network {A} (m : Net AuthError A) : Acct (result AuthError A) := λ w,
  let '(r, tr) := m (w_trace w) in
  match cut trouble (w_calls w) with
  | None => (Ok r, mkWorld (w_core w) tr (w_ticks w) (w_draws w) (S (w_calls w)) (w_queries w))
  | Some n =>
      (Err Dropped, mkWorld (w_core w) (take (length (w_trace w) + n) tr) (w_ticks w) (w_draws w) (S (w_calls w)) (w_queries w))
  end.

(** A call on the credential store followed by [?].  An error of the database
    is [Persistence], and the transaction it ends is rolled back. *)
Definition queried (w : World) : World :=
  mkWorld (w_core w) (w_trace w) (w_ticks w) (w_draws w) (w_calls w) (S (w_queries w)).
Definition store_call {A} (f : Store → Store * result Cred.Error A) : Acct A := λ w,
  let '(s, r) :=
    if broken trouble (w_queries w) then (co_store (w_core w), Err Cred.Persistence) else f (co_store (w_core w)) in
  (map_err (λ e, Failed (failure_credential e)) r, set_core (set_store s (w_core w)) (queried w)).
Definition store_read {A} (f : Store → result Cred.Error A) : Acct A := λ w,
  let r := if broken trouble (w_queries w) then Err Cred.Persistence else f (co_store (w_core w)) in
  (map_err (λ e, Failed (failure_credential e)) r, queried w).

End effects.
