(* ===== verification/AccountExec.v ===== *)
(** * The account service: operations ([crates/psky/src/account.rs])

    [Core::authority] and [Core::execute] with all their actions, the wrapper
    that gives every request exclusive access, a deadline and a journal entry,
    and the checks in front of the routes. *)

From S2P Require Import Prelude RustStd IpAddr BTreeMap Externs Fixtures RepoSyntax RepoRecords RepoRecordSet RepoMst RepoCar Repository CredIdentity CredTokens CredStore Http FarcasterMessage FarcasterClient FarcasterVerify Settings AccountNode.

Inductive Action :=
| Start
| Poll (id token : string)
| Passwords (token : string)
| Issue (token name : string)
| Revoke (token name : string)
| Login (identifier password : string)
| GetSession (token : string)
| RefreshSession (token : string)
| Logout (token : string)
| Describe
| Did
| Preferences (token : string).

(** [Action::label] *)
Definition label (self : Action) : string :=
  match self with
  | Start => "farcaster_login_start"
  | Poll _ _ => "farcaster_login_poll"
  | Passwords _ => "password_list"
  | Issue _ _ => "password_issue"
  | Revoke _ _ => "password_revoke"
  | Login _ _ => "session_login"
  | GetSession _ => "session_check"
  | RefreshSession _ => "session_refresh"
  | Logout _ => "session_logout"
  | Describe => "server_description"
  | Did => "identity_read"
  | Preferences _ => "preferences_read"
  end.

(** ** Responses *)

Definition ser_password_info (i : PasswordInfo) : Json :=
  json_object [("name", JString (info_name i)); ("created_at", JNumber (PosInt (info_created_at i)))].
(** The issued password with [handle] and [service_url] added to its value. *)
Definition ser_issued (i : IssuedPassword) (a : Account) : Json :=
  json_object [("name", JString (info_name (info i))); ("created_at", JNumber (PosInt (info_created_at (info i))));
    ("password", JString (password i)); ("handle", JString (handle (identity a)));
    ("service_url", JString (service_url (identity a)))].
Definition session_info_fields (i : SessionInfo) : list (string * Json) :=
  [("handle", JString (si_handle i)); ("did", JString (si_did i)); ("didDoc", si_did_doc i);
   ("emailConfirmed", JBool (si_email_confirmed i)); ("emailAuthFactor", JBool (si_email_auth_factor i));
   ("active", JBool (si_active i))].
Definition ser_session (s : Session) : Json :=
  json_object ([("accessJwt", JString (access_jwt s)); ("refreshJwt", JString (refresh_jwt s))]
    ++ session_info_fields (session_of s)).

(** An update of one pending sign-in, through [get_mut]. *)
Definition update_pending (id : string) (f : Pending → Pending) (c : Core) : Core :=
  set_pending (alter f id (pending c)) c.
Definition polled (now : Z) (p : Pending) : Pending :=
  mkPending (poll_hash p) (pn_challenge p) (pn_channel p) (pn_proof p) now (completion p).
Definition proved (proof : SignedProof) (p : Pending) : Pending :=
  mkPending (poll_hash p) (pn_challenge p) (pn_channel p) (Some proof) (last_poll p) (completion p).
Definition completed (response : Json) (p : Pending) : Pending :=
  mkPending (poll_hash p) (pn_challenge p) "" None (last_poll p) (Some response).

Section exec.
Context {SHA : Sha256} {CID : CidLib} {HDC : DagCbor} {ECD : Ecdsa} {URL : UrlLib}
  {JSON : JsonText} {B64 : Base64Url} {HMAC : HmacSha256} {HEX : HexLib} {B58 : Base58}
  {RAW : JsonDocument} {TIME : TimeLib} {SIWE : SiweLib} {KEC : Keccak256} {QR : QrCodeLib} {B64S : Base64StdEncode}.
Context (peer : Peer) (clock : nat → Z) (random : nat → bytes) (trouble : Trouble).

Abbreviation read_clock := (read_clock clock).
Abbreviation draw_bytes := (draw_bytes random).
Abbreviation random_token := (random_token random).
Abbreviation network := (network trouble).
Abbreviation store_read := (store_read trouble).
Abbreviation store_call := (store_call trouble).

(** [Core::authority] *)
Definition authority_cached (self : Core) (now : Z) : bool :=
  from_option (λ time, (time <=? now) && (now - time <? AUTHORITY_CACHE)) false (checked_at self).

Definition ensure_authority : Acct () :=
  self ← get;
  _ ← lift_failure (reject_if (negb (as_enabled (co_settings self))) failure_disabled);
  now ← read_clock;
  if authority_cached self now then mret () else
  account ← store_read (λ s, account ← CredStore.account s; ok_or Cred.NotBound account);
  _ ← lift_failure (map_err failure_credential (reject_if (negb (enabled account)) Cred.Disabled));
  raw ← store_read CredStore.evidence;
  raw ← lift_failure (ok_or failure_unverified raw);
  evidence ← lift_failure (ok_or failure_unverified (decode_evidence raw));
  _ ← lift_failure (reject_if
        (negb (vi_fid (ev_identity evidence) =? fid account)
         || negb (bool_decide (fingerprint (ev_identity evidence) = authority account))) failure_unverified);
  c ← lift_failure (client self);
  rechecked ← network (recheck_identity peer c (ev_identity evidence) (ev_proof evidence) now);
  match rechecked with
  | Ok identity =>
      _ ← store_call (set_evidence (encode_evidence (mkEvidence identity (ev_proof evidence))));
      modify (set_checked_at (Some now))
  | Err error =>
      _ ← modify (set_checked_at None);
      _ ← (if bool_decide (error = Unauthorized ∨ error = InvalidSignature) then
             _ ← store_call invalidate_authority; modify (set_grants ∅)
           else mret ());
      fail (failure_auth error)
  end.

(** [Core::grant] *)
Definition grant (token : string) : Acct () :=
  now ← read_clock; self ← get;
  lift_failure (reject_if (negb (from_option (λ expires, now <? expires) false (grants self !! hash token)))
    (mkFailure 401 "InvalidToken" "Sign in with Farcaster again")).

(** The first two statements of [Core::execute] past the switch. *)
Definition retain_live (now : Z) (self : Core) : Core :=
  set_grants (filter (λ kv, now < kv.2) (grants self))
    (set_pending (filter (λ kv, now < ch_expires_at (pn_challenge kv.2)) (pending self)) self).

Definition limit_starts (now : Z) : Acct () := λ w,
  let '(times, r) := limit (start_times (w_core w)) now 60 5 in
  (map_err Failed r, set_core (set_times times (password_times (w_core w)) (w_core w)) w).
Definition limit_passwords (now : Z) : Acct () := λ w,
  let '(times, r) := limit (password_times (w_core w)) now 60 20 in
  (map_err Failed r, set_core (set_times (start_times (w_core w)) times (w_core w)) w).

(** ** Sign-in *)

Definition do_start (now : Z) : Acct Json :=
  _ ← limit_starts now;
  self ← get;
  _ ← lift_failure (reject_if (MAX_PENDING <=? Z.of_nat (size (pending self))) failure_busy);
  nonce ← random_token;
  let challenge := mkChallenge nonce now (now + CHALLENGE_TTL) in
  c ← lift_failure (client self);
  channel ← network (start peer c challenge);
  channel ← lift_failure (map_err failure_auth channel);
  id ← random_token;
  poll_token ← random_token;
  svg ← lift_failure (ok_or failure_internal (qr_svg (as_bytes (auth_url channel))));
  let qr := "data:image/svg+xml;base64," +:+ b64_std_encode (as_bytes svg) in
  let response := json_object
    [("request_id", JString id); ("poll_token", JString poll_token); ("auth_url", JString (auth_url channel));
     ("qr_data_url", JString qr); ("expires_at", JNumber (PosInt (ch_expires_at challenge)))] in
  _ ← modify (λ c, set_pending
        (<[id := mkPending (hash poll_token) challenge (channel_token channel) None 0 None]> (pending c)) c);
  mret response.

(** The proof of a sign-in: retained from an earlier poll, or from the relay. *)
Definition poll_proof (c : AuthClient) (id : string) (p : Pending) : Acct (option SignedProof) :=
  match pn_proof p with
  | Some proof => mret (Some proof)
  | None =>
      answer ← network (status peer c (pn_channel p));
      answer ← lift_failure (map_err failure_auth answer);
      match answer with
      | StatusPending => mret None
      | StatusCompleted proof => _ ← modify (update_pending id (proved proof)); mret (Some proof)
      end
  end.

(** Evidence older than what is stored, or of another block of its height. *)
Definition evidence_regressed (previous verified : VerifiedIdentity) : bool :=
  (vi_checked_block verified <? vi_checked_block previous)
  || ((vi_checked_block verified =? vi_checked_block previous)
      && negb (bool_decide (vi_block_hash verified = vi_block_hash previous))).

Definition check_previous (verified : VerifiedIdentity) : Acct () :=
  raw ← store_read CredStore.evidence;
  match raw with
  | None => mret ()
  | Some raw =>
      previous ← lift_failure (ok_or failure_unverified (decode_evidence raw));
      lift_failure (reject_if (evidence_regressed (ev_identity previous) verified) (failure_auth InvalidChainEvidence))
  end.

(** A changed authority ends every credential of the previous one. *)
Definition replace_authority (authority_ : string) : Acct () :=
  account ← store_read CredStore.account;
  match account with
  | Some account =>
      if bool_decide (authority account = authority_) then mret () else
      _ ← store_call invalidate_authority; modify (set_grants ∅)
  | None => mret ()
  end.

(** Past the check of the FID: bind the account and complete the sign-in. *)
Definition admit_poll (now : Z) (id : string) (proof : SignedProof) (verified : VerifiedIdentity)
    (settings : AccountSettings) : Acct Json :=
  _ ← check_previous verified;
  let authority_ := fingerprint verified in
  _ ← replace_authority authority_;
  identity_ ← lift_failure (map_err (λ _, failure_disabled) (account_identity settings));
  bind_time ← read_clock; draw ← draw_bytes;
  account ← store_call (bind_verified bind_time draw (vi_fid verified) authority_ identity_);
  _ ← store_call (set_evidence (encode_evidence (mkEvidence verified proof)));
  checked ← read_clock;
  _ ← modify (set_checked_at (Some checked));
  account_token ← random_token;
  _ ← modify (λ c, set_grants (<[hash account_token := now + GRANT_TTL]> (grants c)) c);
  let response := json_object
    [("status", JString "complete"); ("account_token", JString account_token);
     ("fid", JNumber (PosInt (fid account))); ("handle", JString (handle (identity account)));
     ("service_url", JString (service_url (identity account))); ("expires_at", JNumber (PosInt (now + GRANT_TTL)))] in
  _ ← modify (update_pending id (completed response));
  mret response.

(** From the verified identity on. *)
Definition complete_poll (now : Z) (id : string) (proof : SignedProof) (p : Pending) (verified : VerifiedIdentity) :
    Acct Json :=
  t ← read_clock;
  let remove := modify (λ c, set_pending (base.delete id (pending c)) c) in
  if ch_expires_at (pn_challenge p) <=? t then _ ← remove; fail failure_unverified else
  self ← get;
  if negb (bool_decide (as_allowed_fid (co_settings self) = Some (vi_fid verified))) then
    _ ← remove; fail (mkFailure 403 "AccountNotAllowed" "This FID is not permitted on this node")
  else admit_poll now id proof verified (co_settings self).

Definition do_poll (now : Z) (id token : string) : Acct Json :=
  self ← get;
  c ← lift_failure (client self);
  p ← lift_failure (ok_or failure_unverified (pending self !! id));
  _ ← lift_failure (reject_if (negb (bool_decide (hash token = poll_hash p))) failure_unverified);
  match completion p with
  | Some response => mret response
  | None =>
      _ ← lift_failure (reject_if (saturating_sub now (last_poll p) <? 2) failure_busy);
      _ ← modify (update_pending id (polled now));
      proof ← poll_proof c id p;
      match proof with
      | None => mret (json_object [("status", JString "pending")])
      | Some proof =>
          t ← read_clock;
          verified ← network (verify peer c proof (pn_challenge p) t);
          verified ← lift_failure (map_err failure_auth verified);
          complete_poll now id proof p verified
      end
  end.

(** ** Passwords and sessions *)

Definition do_passwords (token : string) : Acct Json :=
  _ ← grant token; _ ← ensure_authority; _ ← grant token;
  passwords ← store_read (λ s, Ok (list_passwords s));
  mret (json_object [("passwords", JArray (ser_password_info <$> passwords))]).

Definition do_issue (token name : string) : Acct Json :=
  _ ← grant token; _ ← ensure_authority; _ ← grant token;
  t ← read_clock; draw ← draw_bytes; salt_draw ← draw_bytes;
  issued ← store_call (issue_password t draw salt_draw name);
  account ← store_read (λ s, account ← CredStore.account s; ok_or Cred.NotBound account);
  mret (ser_issued issued account).

Definition do_login (now : Z) (identifier password : string) : Acct Json :=
  _ ← limit_passwords now;
  _ ← store_read (validate_password identifier password);
  _ ← ensure_authority;
  t ← read_clock; d1 ← draw_bytes; d2 ← draw_bytes; d3 ← draw_bytes;
  session ← store_call (authenticate t d1 d2 d3 identifier password);
  mret (ser_session session).

Definition check_session (token : string) : Acct SessionInfo :=
  t ← read_clock; t' ← read_clock; store_read (get_session t t' token).

Definition do_refresh (token : string) : Acct Json :=
  t ← read_clock;
  _ ← store_read (validate_refresh t token);
  _ ← ensure_authority;
  t ← read_clock; d1 ← draw_bytes; d2 ← draw_bytes;
  session ← store_call (refresh_session t d1 d2 token);
  mret (ser_session session).

(** The [match] of [Core::execute]. *)
Definition perform (now : Z) (action : Action) : Acct Json :=
  match action with
  | Start => do_start now
  | Poll id token => do_poll now id token
  | Passwords token => do_passwords token
  | Issue token name => do_issue token name
  | Revoke token name => _ ← grant token; _ ← store_call (revoke_password name); mret (JObject [])
  | Login identifier password => do_login now identifier password
  | GetSession token =>
      session ← check_session token; _ ← ensure_authority; mret (json_object (session_info_fields session))
  | RefreshSession token => do_refresh token
  | Logout token => t ← read_clock; _ ← store_call (delete_session t token); mret (JObject [])
  | Describe =>
      self ← get;
      identity_ ← lift_failure (map_err (λ _, failure_disabled) (account_identity (co_settings self)));
      mret (json_object [("did", JString (service_did identity_)); ("availableUserDomains", JArray []);
        ("inviteCodeRequired", JBool true)])
  | Did => store_read did_document_of
  | Preferences token =>
      _ ← check_session token; _ ← ensure_authority; mret (json_object [("preferences", JArray [])])
  end.

(** [Core::execute] *)
Definition execute (action : Action) : Acct Json :=
  self ← get;
  _ ← lift_failure (reject_if (negb (as_enabled (co_settings self))) failure_disabled);
  now ← read_clock;
  _ ← modify (retain_live now);
  perform now action.

(** ** The service *)

(** What the deadline makes of a dropped operation. *)
Definition outcome {A} (r : result Stop A) : result Failure A :=
  map_err (λ s, match s with Failed f => f | Dropped => failure_auth Unavailable end) r.

Definition push_event (event : Json) (c : Core) : Core :=
  let events := if len (events c) =? 100 then tail (events c) else events c in
  set_events (events ++ [event]) (saturating_add (next_event c) 1) c.

(** [AccountNode::execute]; [locked] says that another request holds the core. *)
Definition node_execute (locked : bool) (operation : Action) (w : World) : result Failure Json * World :=
  if locked then (Err failure_busy, w) else
  let '(r, w) := execute operation w in
  let result := outcome r in
  let c := w_core w in
  let event := json_object
    [("sequence", JNumber (PosInt (next_event c))); ("at", JNumber (PosInt (clock (w_ticks w))));
     ("event", JString (label operation));
     ("result", JString (match result with Ok _ => "ok" | Err f => fail_code f end))] in
  (result, mkWorld (push_event event c) (w_trace w) (S (w_ticks w)) (w_draws w) (w_calls w) (w_queries w)).

(** [AccountNode::open] on the credential store [Store::open] returned, an error
    also if the account cannot be read from it. *)
Definition node_open (settings : AccountSettings) (store : result Cred.Error Store) : option Core :=
  _ ← result_ok (account_validate settings);
  store ← result_ok store;
  account ← result_ok (CredStore.account store);
  match account with
  | Some account =>
      identity_ ← result_ok (account_identity settings);
      if bool_decide (as_allowed_fid settings = Some (fid account)) && bool_decide (identity_ = identity account)
      then Some (new_core settings store) else None
  | None => Some (new_core settings store)
  end.

(** [AccountNode::repository]; [down] and [down']: the database fails the first
    time, or later. *)
Definition node_repository (down down' : bool) (self : Core) (did : string) : option (result Cred.Error bytes) :=
  account ← mjoin (result_ok (read_account down self));
  if as_enabled (co_settings self) && bool_decide (id_did (identity account) = did)
  then Some (if down' then Err Cred.Persistence else empty_repository (co_store self)) else None.

(** [AccountNode::status], [AccountNode::events] *)
Definition node_status (locked down : bool) (self : Core) : Json :=
  if locked then json_object [("busy", JBool true); ("storage_ready", JBool false); ("signer_ready", JBool false)]
  else core_status down self.
Definition node_events (locked : bool) (self : Core) : Json :=
  if locked then json_object [("busy", JBool true); ("events", JArray [])]
  else json_object [("busy", JBool false); ("events", JArray (events self))].
End exec.
