(* ===== verification/Web.v ===== *)
(** * HTTP requests and responses of the node's own listeners

    What the handlers of [crates/psky] look at in a request and set in a
    response.  The extractors of the web framework have run: a header is
    absent, or its first value with the text [to_str] gives it, and the body
    is the value a JSON extractor accepted, fields in the order of the text. *)

From S2P Require Import Prelude RustStd BTreeMap Externs.

Inductive Method := MGet | MHead | MPost | MPut | MDelete | MOptions | MOther.
#[export] Instance Method_eq_dec : EqDecision Method.
Proof. solve_decision. Defined.

Record HttpRequest := mkHttpRequest {
  req_method : Method;
  req_path : string;
  (** the decoded pairs of the query, in the order of the text *)
  req_query : list (string * string);
  (** [headers.get(name)], lower-case names; [Some None] is not text *)
  req_header : string → option (option string);
  (** [None] when the extractor rejects the body *)
  req_json : option Json;
  (** the parameter of the route's path, decoded; [None] when it is not text *)
  req_param : option string
}.

(** A row of a router: a path, whether the method is one it takes, the handler. *)
Definition get_method (req : HttpRequest) : bool := bool_decide (req_method req = MGet) || bool_decide (req_method req = MHead).

(** The handler of a path, [Some None] when it takes another method. *)
Definition find_route {R} (path : string) (table : list (string * bool * R)) : option (option R) :=
  match filter (λ row, row.1.1 = path) table with
  | [] => None
  | rows => Some (snd <$> head (filter (λ row, row.1.2 = true) rows))
  end.

Lemma find_route_None {R} path (table : list (string * bool * R)) :
  find_route path table = None ↔ path ∉ (fst ∘ fst <$> table).
Proof.
  unfold find_route. rewrite list_elem_of_fmap. induction table as [|[[p m] r] table IH]; [split; [by intros _ (? & _ & ?%not_elem_of_nil)|done]|].
  rewrite filter_cons. cbn [fst]. case_decide as Hp.
  - subst p. split; [done|]. intros Hn. exfalso. apply Hn. exists (path, m, r). split; [done|left].
  - rewrite IH. split; intros Hn ([[p' m'] r'] & -> & He); apply Hn; [apply elem_of_cons in He as [[= -> _ _]|He]; [done|by eexists]|].
    eexists; split; [|by right]; done.
Qed.

(** [headers.get(name).and_then(|v| v.to_str().ok())] *)
Definition header_text (req : HttpRequest) (name : string) : option string := mjoin (req_header req name).

Inductive Body := BodyJson (v : Json) | BodyText (s : string) | BodyBytes (b : bytes) | BodyEmpty.

Record HttpReply := mkHttpReply { rp_status : Z; rp_headers : gmap string string; rp_body : Body }.

(** [headers.insert(name, value)] *)
Definition with_header (name value : string) (r : HttpReply) : HttpReply :=
  mkHttpReply (rp_status r) (<[name := value]> (rp_headers r)) (rp_body r).
Definition json_reply (status : Z) (v : Json) : HttpReply := mkHttpReply status ∅ (BodyJson v).

(** [serde_json::to_value] of a value that serializes as [v]: maps are ordered. *)
Fixpoint to_value (v : Json) : Json :=
  match v with
  | JArray l => JArray (map to_value l)
  | JObject fs => JObject (bt_collect (map (λ kv, (kv.1, to_value kv.2)) fs))
  | _ => v
  end.

Definition error_json (code message : string) : Json :=
  json_object [("error", JString code); ("message", JString message)].

(** The headers both listeners set on every answer. *)
Definition protected (csp : string) (r : HttpReply) : HttpReply :=
  with_header "content-security-policy" csp
    (with_header "referrer-policy" "no-referrer"
      (with_header "x-content-type-options" "nosniff" (with_header "cache-control" "no-store" r))).

Lemma protected_no_store csp r : rp_headers (protected csp r) !! "cache-control" = Some "no-store".
Proof. unfold protected. cbn [with_header rp_headers]. by rewrite !lookup_insert_ne, lookup_insert_eq by done. Qed.
