(* ===== verification/AccountHttp.v ===== *)
(** * The account service: requests ([crates/psky/src/account.rs])

    The host and origin checks in front of the routes, the credentials and
    bodies the routes accept, and the action each of them performs. *)

From S2P Require Import Prelude RustStd IpAddr BTreeMap Externs Fixtures RepoSyntax RepoRecords RepoRecordSet RepoMst RepoCar Repository CredIdentity CredTokens CredStore Http FarcasterMessage FarcasterClient FarcasterVerify Settings AccountNode AccountExec Web.

(** [IntoResponse for Failure] *)
Definition failure_reply (f : Failure) : HttpReply :=
  json_reply (fail_status f) (error_json (fail_code f) (fail_message f)).

(** [bearer] *)
Definition bearer (req : HttpRequest) : result Failure string :=
  ok_or failure_unverified
    (v ← header_text req "authorization"; v ← strip_prefix "Bearer " v;
     if negb (str_is_empty v) && (str_len v <=? 8192) then Some v else None).

(** [json_input] *)
Definition json_input {A} (input : option A) : result Failure A :=
  ok_or (mkFailure 400 "InvalidRequest" "Expected a bounded JSON request") input.

(** [PasswordName] *)
Definition de_password_name (v : Json) : option string :=
  fs ← strict_struct ["name"] v;
  match fs with [name] => name ≫= as_str | _ => None end.

(** [Login]: identifier, password, factor token. *)
Definition de_login (v : Json) : option (string * string * option string) :=
  fs ← strict_struct ["identifier"; "password"; "allowTakendown"; "authFactorToken"] v;
  match fs with
  | [identifier; password; takendown; factor] =>
      identifier ← identifier ≫= as_str; password ← password ≫= as_str;
      takendown ← from_option as_bool (Some false) takendown;
      factor ← get_opt_string factor;
      Some (identifier, password, factor)
  | _ => None
  end.

Definition de_object (v : Json) : option (list (string * Json)) :=
  match v with JObject fs => Some fs | _ => None end.

Inductive Route :=
| RouteLogin                  (* POST /account/login *)
| RoutePoll (id : string)     (* GET /account/login/{id} *)
| RouteListPasswords          (* GET /account/passwords *)
| RouteIssuePassword          (* POST /account/passwords *)
| RouteRevokePassword         (* DELETE /account/passwords *)
| RouteDescribe               (* GET /xrpc/com.atproto.server.describeServer *)
| RouteCreateSession          (* POST /xrpc/com.atproto.server.createSession *)
| RouteGetSession             (* GET /xrpc/com.atproto.server.getSession *)
| RouteRefreshSession         (* POST /xrpc/com.atproto.server.refreshSession *)
| RouteDeleteSession          (* POST /xrpc/com.atproto.server.deleteSession *)
| RoutePreferences            (* GET /xrpc/app.bsky.actor.getPreferences *)
| RouteDidDocument.           (* GET /.well-known/did.json *)

(** The action of a route, from its credential and body. *)
Definition route_action (route : Route) (req : HttpRequest) : result Failure Action :=
  match route with
  | RouteDescribe => Ok Describe
  | RouteLogin => _ ← json_input (req_json req ≫= de_object); Ok Start
  | RoutePoll id => token ← bearer req; Ok (Poll id token)
  | RouteListPasswords => token ← bearer req; Ok (Passwords token)
  | RouteIssuePassword =>
      name ← json_input (req_json req ≫= de_password_name); token ← bearer req; Ok (Issue token name)
  | RouteRevokePassword =>
      name ← json_input (req_json req ≫= de_password_name); token ← bearer req; Ok (Revoke token name)
  | RouteCreateSession =>
      '(identifier, password, factor) ← json_input (req_json req ≫= de_login);
      _ ← reject_if (from_option (λ token, negb (str_is_empty token)) false factor)
            (mkFailure 400 "InvalidRequest" "Email authentication factors are not supported");
      Ok (Login identifier password)
  | RouteGetSession => token ← bearer req; Ok (GetSession token)
  | RouteRefreshSession => token ← bearer req; Ok (RefreshSession token)
  | RouteDeleteSession => token ← bearer req; Ok (Logout token)
  | RoutePreferences => token ← bearer req; Ok (Preferences token)
  | RouteDidDocument => Ok Did
  end.

(** What the routes of [router] lead to. *)
Inductive Endpoint :=
| EndAsset (page : string)
| EndStatus
| EndAtprotoDid
| EndAction (route : Route)
| EndUnmatched.               (* a path of the router that no handler takes *)

(** The segment [{id}] of [/account/login/{id}] *)
Definition login_id (path : string) : option string :=
  id ← strip_prefix "/account/login/" path;
  if str_is_empty id || bool_decide (is_Some (split_once "/" id)) then None else Some id.

(** The table of [router]. *)
Definition account_endpoint (req : HttpRequest) : option Endpoint :=
  let get := get_method req in
  let post := bool_decide (req_method req = MPost) in
  let delete := bool_decide (req_method req = MDelete) in
  let table :=
    [("/account", get, EndAsset "account.html"); ("/account.js", get, EndAsset "account.js");
     ("/account.css", get, EndAsset "account.css"); ("/account/status", get, EndStatus);
     ("/account/login", post, EndAction RouteLogin); ("/account/passwords", get, EndAction RouteListPasswords);
     ("/account/passwords", post, EndAction RouteIssuePassword); ("/account/passwords", delete, EndAction RouteRevokePassword);
     ("/xrpc/com.atproto.server.describeServer", get, EndAction RouteDescribe);
     ("/xrpc/com.atproto.server.createSession", post, EndAction RouteCreateSession);
     ("/xrpc/com.atproto.server.getSession", get, EndAction RouteGetSession);
     ("/xrpc/com.atproto.server.refreshSession", post, EndAction RouteRefreshSession);
     ("/xrpc/com.atproto.server.deleteSession", post, EndAction RouteDeleteSession);
     ("/xrpc/app.bsky.actor.getPreferences", get, EndAction RoutePreferences);
     ("/.well-known/did.json", get, EndAction RouteDidDocument); ("/.well-known/atproto-did", get, EndAtprotoDid)] in
  match login_id (req_path req) with
  | Some _ => Some (if get then from_option (EndAction ∘ RoutePoll) EndUnmatched (req_param req) else EndUnmatched)
  | None => default EndUnmatched <$> find_route (req_path req) table
  end.

Section http.
Context {SHA : Sha256} {CID : CidLib} {HDC : DagCbor} {ECD : Ecdsa} {URL : UrlLib}
  {JSON : JsonText} {B64 : Base64Url} {HMAC : HmacSha256} {HEX : HexLib} {B58 : Base58}
  {RAW : JsonDocument} {TIME : TimeLib} {SIWE : SiweLib} {KEC : Keccak256} {QR : QrCodeLib} {B64S : Base64StdEncode}.
Context (peer : Peer) (clock : nat → Z) (random : nat → bytes) (trouble : Trouble).

(** [respond] *)
Definition respond (locked : bool) (action : result Failure Action) (w : World) : HttpReply * World :=
  match action with
  | Err f => (failure_reply f, w)
  | Ok action =>
      let '(r, w) := node_execute peer clock random trouble locked action w in
      (match r with Ok v => json_reply 200 v | Err f => failure_reply f end, w)
  end.

(** The route of an action. *)
Definition handle (locked : bool) (route : Route) (req : HttpRequest) (w : World) : HttpReply * World :=
  respond locked (route_action route req) w.

(** [GET /account/status] *)
Definition handle_status (locked down : bool) (w : World) : HttpReply * World :=
  (json_reply 200 (node_status locked down (w_core w)), w).

(** [GET /.well-known/atproto-did] *)
Definition handle_atproto_did (locked : bool) (w : World) : HttpReply * World :=
  let '(r, w) := node_execute peer clock random trouble locked Did w in
  (match (document ← r; ok_or failure_internal (json_get "id" document ≫= as_str)) with
   | Ok did => mkHttpReply 200 {["content-type" := "text/plain; charset=utf-8"]} (BodyText did)
   | Err f => failure_reply f
   end, w).

(** ** The middleware *)

Definition ACCOUNT_CSP : string :=
  "default-src 'none'; script-src 'self'; style-src 'self'; connect-src 'self'; img-src 'self' data:; base-uri 'none'; frame-ancestors 'none'; form-action 'none'".

(** [harden] *)
Definition harden (response : HttpReply) (xrpc : bool) : HttpReply :=
  let response := protected ACCOUNT_CSP response in
  if xrpc then
    with_header "access-control-allow-headers" "Authorization, Content-Type, atproto-proxy, atproto-accept-labelers"
      (with_header "access-control-allow-methods" "GET, POST, OPTIONS"
        (with_header "access-control-allow-origin" "*" response))
  else response.

Definition is_xrpc (path : string) : bool := starts_with_str "/xrpc/" path || starts_with_str "/.well-known/" path.

(** Whether the request names this node, and comes from it where that matters. *)
Definition request_allowed (settings : AccountSettings) (listener : SocketAddr) (req : HttpRequest) : bool :=
  let canonical := url_parse (as_service_url settings) in
  let host := default "" (header_text req "host") in
  let local_host := bool_decide (host = socket_addr_to_string listener)
    || bool_decide (host = "localhost:" +:+ to_string (sa_port listener)) in
  let same_origin :=
    from_option (λ value,
      from_option (λ url, bool_decide (value = url_origin url)) false canonical
      || (local_host && bool_decide (value = "http://" +:+ host))) true (header_text req "origin") in
  (local_host || bool_decide (url_authority <$> canonical = Some host)) && (is_xrpc (req_path req) || same_origin).

(** [security] around the routes [next]. *)
Definition security (locked : bool) (listener : SocketAddr) (next : HttpRequest → World → HttpReply * World)
    (req : HttpRequest) (w : World) : HttpReply * World :=
  let xrpc := is_xrpc (req_path req) in
  if locked then (harden (failure_reply failure_busy) xrpc, w) else
  if negb (request_allowed (co_settings (w_core w)) listener req) then
    (harden (failure_reply (mkFailure 403 "Forbidden" "Use the configured account origin")) xrpc, w)
  else if xrpc && bool_decide (req_method req = MOptions) then (harden (mkHttpReply 204 ∅ BodyEmpty) xrpc, w)
  else let '(response, w) := next req w in (harden response xrpc, w).

(** ** The router *)

(** [asset]: the pages built into the program; [framework]: the answer of the
    web framework to a request no handler takes. *)
Context (asset : string → HttpReply) (framework : HttpRequest → HttpReply).

(** The handler of an endpoint. *)
Definition endpoint_handler (locked down : bool) (endpoint : Endpoint) (req : HttpRequest) (w : World) : HttpReply * World :=
  match endpoint with
  | EndAsset page => (asset page, w)
  | EndStatus => handle_status locked down w
  | EndAtprotoDid => handle_atproto_did locked w
  | EndAction route => handle locked route req w
  | EndUnmatched => (framework req, w)
  end.

(** [router]: its routes behind the middleware, [None] for a path it does not
    have.  The core is tried by the middleware ([locked]), then by the handler. *)
Definition router (locked locked' down : bool) (listener : SocketAddr) (req : HttpRequest) (w : World) :
    option (HttpReply * World) :=
  endpoint ← account_endpoint req;
  Some (security locked listener (endpoint_handler locked' down endpoint) req w).
End http.
