(* ===== verification/AccountLogic.v ===== *)
(** * Reasoning about account operations

    Postconditions of computations over the core and its exchanges, with one
    rule per effect, and the inversion of successful runs. *)

From S2P Require Import Prelude RustStd IpAddr BTreeMap Externs Fixtures RepoSyntax RepoRecords RepoRecordSet RepoMst RepoCar Repository CredIdentity CredTokens CredStore Http FarcasterMessage FarcasterClient FarcasterVerify FarcasterTheorems Settings AccountNode AccountExec.

(** ** Exchanges only accumulate *)

Section extends.
Context `{UrlLib} `{JsonText} `{TimeLib} `{SiweLib} `{Keccak256} `{HexLib}.
Context (peer : Peer).

Abbreviation extends := (grows (λ _ : Exchange, True)).

Lemma extends_of {A} (P : Exchange → Prop) (m : Net AuthError A) : grows P m → extends m.
Proof. by apply grows_impl. Qed.

Ltac extend :=
  repeat first
    [ apply grows_ret | apply grows_lift
    | eapply extends_of; first [apply send_grows | apply rpc_grows | apply evidence_grows | apply finalized_block_grows]
    | apply grows_bind; [|intros ?]
    | match goal with
      | |- grows _ (if ?b then _ else _) => destruct b
      | |- grows _ (match ?x with (_, _) => _ end) => destruct x
      end ].

Lemma verify_authority_extends c p now expected : extends (verify_authority peer c p now expected).
Proof.
  unfold verify_authority. apply grows_bind; [extend|]. intros [number b]. apply grows_bind; [extend|].
  intros _. eapply extends_of, evidence_grows.
Qed.
Lemma verify_extends c proof ch now : extends (verify peer c proof ch now).
Proof. unfold verify. apply grows_bind; [extend|]. intros p. apply verify_authority_extends. Qed.
Lemma recheck_extends c i proof now : extends (recheck_identity peer c i proof now).
Proof. unfold recheck_identity. apply grows_bind; [extend|]. intros p. apply verify_authority_extends. Qed.
Lemma start_extends c ch : extends (start peer c ch).
Proof. unfold start. extend. Qed.
Lemma status_extends c token : extends (status peer c token).
Proof. unfold status, status_answer. extend. Qed.
End extends.

(** ** Every answer an operation relies on was given to it

    A run after the exchanges [tr] is a run from the beginning, of a peer that
    remembers [tr]. *)

Section local_runs.
Context `{UrlLib} `{JsonText} `{TimeLib} `{SiweLib} `{Keccak256} `{HexLib}.
Context (peer : Peer) (before : list Exchange).

Definition resumed : Peer := λ tr request, peer (before ++ tr) request.

Definition resumes {E A} (m m' : Net E A) : Prop :=
  ∀ tr, m (before ++ tr) = ((m' tr).1, before ++ (m' tr).2).

Lemma resumes_bind {E A B} (m m' : Net E A) (f f' : A → Net E B) :
  resumes m m' → (∀ a, resumes (f a) (f' a)) → resumes (m ≫= f) (m' ≫= f').
Proof.
  intros Hm Hf tr. unfold mbind, net_bind. rewrite Hm. destruct (m' tr) as [[a|e] tr1]; cbn [fst snd]; [|done].
  apply Hf.
Qed.
Lemma resumes_lift {E A} (r : result E A) : resumes (lift r) (lift r).
Proof. by intros tr. Qed.
Lemma resumes_ret {E A} (a : A) : resumes (mret a : Net E A) (mret a).
Proof. by intros tr. Qed.
Lemma resumes_transmit {E} request : resumes (@transmit _ E peer request) (transmit resumed request).
Proof. intros tr. unfold transmit. cbn [fst snd]. by rewrite app_assoc. Qed.

Ltac resume :=
  repeat first
    [ apply resumes_lift | apply resumes_ret | apply resumes_transmit
    | apply resumes_bind; [|intros ?]
    | match goal with
      | |- resumes (if ?b then _ else _) _ => destruct b
      | |- resumes (match ?x with (_, _) => _ end) _ => destruct x
      end ].

Lemma verify_authority_resumes c p now expected :
  resumes (verify_authority peer c p now expected) (verify_authority resumed c p now expected).
Proof.
  unfold verify_authority, finalized_block, check_wallet, read_custody, read_permission, eth_call, rpc, send. resume.
Qed.

Lemma verify_authority_local c p now expected id after :
  verify_authority peer c p now expected before = (Ok id, after) →
  ∃ new, after = before ++ new ∧ authority_evidence c new p now id ∧
    (∀ e, expected = Some e → vi_custody_address e = vi_custody_address id).
Proof.
  intros Hv. pose proof (verify_authority_resumes c p now expected []) as Hr. rewrite app_nil_r, Hv in Hr.
  destruct (verify_authority resumed c p now expected []) as [r new] eqn:Hn. cbn [fst snd] in Hr. injection Hr as <- ->.
  apply verify_authority_ok in Hn as [Hev Hexp]. exists new. split_and!; [done|done|]. intros e He. by apply Hexp.
Qed.
End local_runs.

(** ** Successful runs *)

Section runs.
Context {SHA : Sha256} {HEX : HexLib} {URL : UrlLib}.

Lemma acct_bind_ok {A B} (m : Acct A) (f : A → Acct B) w b w' :
  (m ≫= f) w = (Ok b, w') ↔ ∃ a w1, m w = (Ok a, w1) ∧ f a w1 = (Ok b, w').
Proof. unfold mbind, acct_bind. destruct (m w) as [[a|e] w1]; naive_solver. Qed.

Lemma lift_failure_ok {A} (r : result Failure A) w a w' :
  lift_failure r w = (Ok a, w') ↔ r = Ok a ∧ w' = w.
Proof. unfold lift_failure. destruct r; naive_solver. Qed.

Lemma store_read_ok {A} trouble (f : Store → result Cred.Error A) w a w' :
  store_read trouble f w = (Ok a, w') → f (co_store (w_core w)) = Ok a ∧ w' = queried w.
Proof. unfold store_read. destruct (broken _ _); [done|]. destruct (f _); naive_solver. Qed.

Lemma store_call_ok {A} trouble (f : Store → Store * result Cred.Error A) w a w' :
  store_call trouble f w = (Ok a, w') →
  ∃ s, f (co_store (w_core w)) = (s, Ok a) ∧ w' = set_core (set_store s (w_core w)) (queried w).
Proof. unfold store_call. destruct (broken _ _); [done|]. destruct (f _) as [s [?|?]]; naive_solver. Qed.

Lemma network_ok {A} trouble (m : Net AuthError A) w r w' : network trouble m w = (Ok r, w') →
  ∃ tr, m (w_trace w) = (r, tr) ∧ w' = mkWorld (w_core w) tr (w_ticks w) (w_draws w) (S (w_calls w)) (w_queries w).
Proof. unfold network. destruct (m (w_trace w)) as [r' tr]. destruct (cut _ _); intros [= <- <-]. eauto. Qed.
End runs.

(** A call that fails in the database writes back what it found. *)
Lemma set_own_store c : set_store (co_store c) c = c.
Proof. by destruct c. Qed.

(** ** Postconditions *)

Section triples.
Context {SHA : Sha256} {HEX : HexLib} {URL : UrlLib}.

(** A state of the core and the exchanges so far; counters do not matter. *)
Abbreviation Assertion := (Core → list Exchange → Prop).

(** From [P], a success satisfies [Q] and every other end [E]. *)
Definition triple {A} (P : Assertion) (m : Acct A) (Q : A → Assertion) (E : Assertion) : Prop :=
  ∀ w, P (w_core w) (w_trace w) →
  match m w with
  | (Ok a, w') => Q a (w_core w') (w_trace w')
  | (Err _, w') => E (w_core w') (w_trace w')
  end.

Definition preserves {A} (P : Assertion) (m : Acct A) : Prop := triple P m (λ _, P) P.

Lemma triple_bind {A B} P (m : Acct A) Q (f : A → Acct B) R E :
  triple P m Q E → (∀ a, triple (Q a) (f a) R E) → triple P (m ≫= f) R E.
Proof.
  intros Hm Hf w HP. specialize (Hm w HP). unfold mbind, acct_bind. destruct (m w) as [[a|e] w1]; [|done].
  exact (Hf a w1 Hm).
Qed.

Lemma triple_weaken {A} (P P' : Assertion) (m : Acct A) (Q Q' : A → Assertion) (E E' : Assertion) :
  triple P' m Q' E' → (∀ c tr, P c tr → P' c tr) → (∀ a c tr, Q' a c tr → Q a c tr) →
  (∀ c tr, E' c tr → E c tr) → triple P m Q E.
Proof.
  intros Hm HP HQ HE w Hw. specialize (Hm w (HP _ _ Hw)). destruct (m w) as [[a|e] w']; auto.
Qed.

Lemma triple_ret {A} P (a : A) (Q : A → Assertion) (E : Assertion) :
  (∀ c tr, P c tr → Q a c tr) → triple P (mret a) Q E.
Proof. intros HQ w HP. by apply HQ. Qed.

Lemma triple_get P E : triple P get (λ c c' tr, c' = c ∧ P c tr) E.
Proof. intros w HP. done. Qed.

Lemma triple_modify (P Q E : Assertion) f : (∀ c tr, P c tr → Q (f c) tr) → triple P (modify f) (λ _, Q) E.
Proof. intros HQ w HP. by apply HQ. Qed.

Lemma triple_fail {A} (P : Assertion) f (Q : A → Assertion) (E : Assertion) :
  (∀ c tr, P c tr → E c tr) → triple P (fail f) Q E.
Proof. intros HE w HP. by apply HE. Qed.

Lemma triple_lift {A} P (r : result Failure A) (Q : A → Assertion) (E : Assertion) :
  (∀ a c tr, r = Ok a → P c tr → Q a c tr) → (∀ c tr, P c tr → E c tr) → triple P (lift_failure r) Q E.
Proof. intros HQ HE w HP. unfold lift_failure. destruct r; simpl; auto. Qed.

Lemma triple_clock clock P E : triple P (read_clock clock) (λ t c tr, (∃ n, t = clock n) ∧ P c tr) E.
Proof. intros w HP. split; [by eexists|done]. Qed.

Lemma triple_draw random P E : triple P (draw_bytes random) (λ b c tr, (∃ n, b = random n) ∧ P c tr) E.
Proof. intros w HP. split; [by eexists|done]. Qed.

Lemma triple_token random P E :
  triple P (random_token random) (λ s c tr, (∃ n, s = hex_encode (random n)) ∧ P c tr) E.
Proof. intros w HP. split; [by eexists|done]. Qed.

Lemma triple_network {A} trouble (m : Net AuthError A) P (Q : result AuthError A → Assertion) (E : Assertion) :
  grows (λ _, True) m →
  (∀ r c tr tr', P c tr → m tr = (r, tr') → Q r c tr') → (∀ c tr new, P c tr → E c (tr ++ new)) →
  triple P (network trouble m) Q E.
Proof.
  intros Hm HQ HE w HP. unfold network. destruct (Hm (w_trace w)) as (new & Htr & _).
  destruct (m (w_trace w)) as [r tr] eqn:Hr. cbn [snd] in Htr. subst tr.
  destruct (cut trouble (w_calls w)) as [n|]; cbn [w_core w_trace]; [|by eapply HQ].
  rewrite take_app_add. by apply HE.
Qed.

Lemma triple_read {A} trouble (f : Store → result Cred.Error A) P (Q : A → Assertion) (E : Assertion) :
  (∀ a c tr, P c tr → f (co_store c) = Ok a → Q a c tr) → (∀ c tr, P c tr → E c tr) → triple P (store_read trouble f) Q E.
Proof. intros HQ HE w HP. unfold store_read. destruct (broken _ _); [by apply HE|]. destruct (f (co_store (w_core w))) as [a|e] eqn:Hf; simpl; auto. Qed.

Lemma triple_call {A} trouble (f : Store → Store * result Cred.Error A) P (Q : A → Assertion) (E : Assertion) :
  (∀ a s c tr, P c tr → f (co_store c) = (s, Ok a) → Q a (set_store s c) tr) →
  (∀ e s c tr, P c tr → f (co_store c) = (s, Err e) → E (set_store s c) tr) →
  (∀ c tr, P c tr → E c tr) → triple P (store_call trouble f) Q E.
Proof.
  intros HQ HE Hdown w HP. unfold store_call. destruct (broken _ _); [rewrite set_own_store; by apply Hdown|]. destruct (f (co_store (w_core w))) as [s [a|e]] eqn:Hf; simpl; eauto.
Qed.

(** Steps that leave the assertion alone. *)
Lemma preserves_bind {A B} P (m : Acct A) (f : A → Acct B) :
  preserves P m → (∀ a, preserves P (f a)) → preserves P (m ≫= f).
Proof. intros Hm Hf. by eapply triple_bind. Qed.
Lemma preserves_ret {A} P (a : A) : preserves P (mret a).
Proof. by apply triple_ret. Qed.
Lemma preserves_get P : preserves P get.
Proof. by intros w HP. Qed.
Lemma preserves_lift {A} P (r : result Failure A) : preserves P (lift_failure r).
Proof. by apply triple_lift. Qed.
Lemma preserves_fail {A} P f : preserves P (@fail _ A f).
Proof. by apply triple_fail. Qed.
Lemma preserves_clock clock P : preserves P (read_clock clock).
Proof. by intros w HP. Qed.
Lemma preserves_draw random P : preserves P (draw_bytes random).
Proof. by intros w HP. Qed.
Lemma preserves_token random P : preserves P (random_token random).
Proof. by intros w HP. Qed.
Lemma preserves_read {A} trouble P (f : Store → result Cred.Error A) : preserves P (store_read trouble f).
Proof. by apply triple_read. Qed.
(** A step whose result is known in what follows. *)
Lemma preserves_lifted {A B} P (r : result Failure A) (f : A → Acct B) :
  (∀ a, r = Ok a → preserves P (f a)) → preserves P (lift_failure r ≫= f).
Proof. intros Hf w HP. unfold mbind, acct_bind, lift_failure. destruct r as [a|e]; [|done]. by apply (Hf a). Qed.
Lemma preserves_at_get {B} P (f : Core → Acct B) :
  (∀ c tr, P c tr → triple (λ c' tr', c' = c ∧ P c' tr') (f c) (λ _, P) P) → preserves P (get ≫= f).
Proof. intros Hf w Hw. by apply (Hf (w_core w) (w_trace w)). Qed.
(** A step that yields a value or fails. *)
Lemma triple_lifted {A B} P (r : result Failure A) (f : A → Acct B) Q (E : Assertion) :
  (∀ a, r = Ok a → triple P (f a) Q E) → (∀ c tr, P c tr → E c tr) → triple P (lift_failure r ≫= f) Q E.
Proof.
  intros Hf HE w HP. unfold mbind, acct_bind, lift_failure. destruct r as [a|e]; [by apply (Hf a)|by apply HE].
Qed.
Lemma preserves_at_clock {B} clock P (f : Z → Acct B) :
  (∀ n, preserves P (f (clock n))) → preserves P (read_clock clock ≫= f).
Proof. intros Hf w Hw. by apply Hf. Qed.
Lemma preserves_at_draw {B} random P (f : bytes → Acct B) :
  (∀ n, preserves P (f (random n))) → preserves P (draw_bytes random ≫= f).
Proof. intros Hf w Hw. by apply Hf. Qed.
Lemma preserves_at_token {B} random P (f : string → Acct B) :
  (∀ n, preserves P (f (hex_encode (random n)))) → preserves P (random_token random ≫= f).
Proof. intros Hf w Hw. by apply Hf. Qed.
Lemma preserves_modify P f : (∀ c tr, P c tr → P (f c) tr) → preserves P (modify f).
Proof. apply triple_modify. Qed.
Lemma preserves_call {A} trouble P (f : Store → Store * result Cred.Error A) :
  (∀ c tr, P c tr → P (set_store (f (co_store c)).1 c) tr) → preserves P (store_call trouble f).
Proof. intros Hf. apply triple_call; [| |done]; intros ? s c tr HP Heq; specialize (Hf c tr HP); by rewrite Heq in Hf. Qed.
Lemma preserves_network {A} trouble P (m : Net AuthError A) :
  grows (λ _, True) m → (∀ c tr new, P c tr → P c (tr ++ new)) → preserves P (network trouble m).
Proof.
  intros Hm HP. apply triple_network; [done| |done].
  intros r c tr tr' Hc Hr. apply (grows_run _ _ _ _ _ Hm) in Hr as (new & -> & _). auto.
Qed.
End triples.

#[export] Hint Resolve preserves_ret preserves_get preserves_lift preserves_fail preserves_clock preserves_draw
  preserves_token preserves_read verify_extends recheck_extends start_extends status_extends : acct.

(** The steps of an operation that cannot affect an assertion. *)
Ltac preserve_step :=
  first
    [ solve [eauto with acct]
    | apply preserves_network; [solve [eauto with acct]|]
    | apply preserves_modify
    | apply preserves_call
    | apply preserves_bind; [|intros ?]
    | match goal with
      | |- preserves _ (if ?b then _ else _) => destruct b
      | |- preserves _ (match ?x with _ => _ end) => destruct x
      end ].
Ltac preserve := repeat preserve_step.

Ltac inv_acct_step :=
  match goal with
  | H : (_ ≫= _) _ = (Ok _, _) |- _ => apply acct_bind_ok in H; destruct H as (? & ? & ? & H)
  | H : lift_failure _ _ = (Ok _, _) |- _ => apply lift_failure_ok in H; destruct H as [? ?]
  | H : store_read _ _ _ = (Ok _, _) |- _ => apply store_read_ok in H; destruct H as [? ?]
  | H : store_call _ _ _ = (Ok _, _) |- _ => apply store_call_ok in H; destruct H as (? & ? & ?)
  | H : network _ _ _ = (Ok _, _) |- _ => apply network_ok in H; destruct H as (? & ? & ?)
  | H : get _ = (Ok _, _) |- _ => unfold get in H; injection H; clear H; intros
  | H : modify _ _ = (Ok _, _) |- _ => unfold modify in H; injection H; clear H; intros
  | H : fail _ _ = (Ok _, _) |- _ => discriminate H
  | H : mret _ _ = (Ok _, _) |- _ => unfold mret, acct_ret in H; injection H; clear H; intros
  | H : read_clock _ _ = (Ok _, _) |- _ => unfold read_clock in H; injection H; clear H; intros
  | H : draw_bytes _ _ = (Ok _, _) |- _ => unfold draw_bytes in H; injection H; clear H; intros
  end.
Ltac inv_acct := repeat (first [inv_acct_step | inv_result_step]; subst).

(** ** The clock only advances *)

Section ticks.
Context {SHA : Sha256} {CID : CidLib} {HDC : DagCbor} {ECD : Ecdsa} {URL : UrlLib}
  {JSON : JsonText} {B64 : Base64Url} {HMAC : HmacSha256} {HEX : HexLib} {B58 : Base58}
  {RAW : JsonDocument} {TIME : TimeLib} {SIWE : SiweLib} {KEC : Keccak256} {QR : QrCodeLib} {B64S : Base64StdEncode}.
Context (peer : Peer) (clock : nat → Z) (random : nat → bytes) (trouble : Trouble).

Definition ticks_on {A} (m : Acct A) : Prop := ∀ w, (w_ticks w ≤ w_ticks (m w).2)%nat.

Lemma ticks_bind {A B} (m : Acct A) (f : A → Acct B) : ticks_on m → (∀ a, ticks_on (f a)) → ticks_on (m ≫= f).
Proof.
  intros Hm Hf w. specialize (Hm w). unfold mbind, acct_bind. destruct (m w) as [[a|e] w1]; [|done].
  cbn [snd] in Hm. etrans; [exact Hm|apply Hf].
Qed.
Lemma ticks_read {A} (f : Store → result Cred.Error A) : ticks_on (store_read trouble f).
Proof. by intros w. Qed.
Lemma ticks_call {A} (f : Store → Store * result Cred.Error A) : ticks_on (store_call trouble f).
Proof. intros w. unfold store_call. destruct (broken _ _); [done|]. by destruct (f _). Qed.
Lemma ticks_network {A} (m : Net AuthError A) : ticks_on (network trouble m).
Proof. intros w. unfold network. destruct (m _). by destruct (cut _ _). Qed.
Lemma ticks_clock : ticks_on (read_clock clock).
Proof. intros w. cbn. lia. Qed.
Lemma ticks_starts now : ticks_on (limit_starts now).
Proof. intros w. unfold limit_starts. by destruct (limit _ _ _ _). Qed.
Lemma ticks_passwords now : ticks_on (limit_passwords now).
Proof. intros w. unfold limit_passwords. by destruct (limit _ _ _ _). Qed.

Ltac ticks :=
  repeat first
    [ apply ticks_bind; [|intros ?]
    | apply ticks_read | apply ticks_call | apply ticks_network | apply ticks_clock | apply ticks_starts
    | apply ticks_passwords
    | match goal with
      | |- ticks_on (if ?b then _ else _) => destruct b
      | |- ticks_on (match ?x with _ => _ end) => destruct x
      end
    | by intros w ].

Lemma execute_ticks action : ticks_on (execute peer clock random trouble action).
Proof.
  unfold execute. ticks. unfold perform, do_start, do_poll, do_passwords, do_issue, do_login, do_refresh, check_session,
    grant, ensure_authority, poll_proof, complete_poll, check_previous, replace_authority. ticks.
Qed.

(** The result and the next state of a request that was not locked out. *)
Lemma node_execute_spec locked action w r w' : node_execute peer clock random trouble locked action w = (r, w') →
  (locked = true ∧ r = Err failure_busy ∧ w' = w) ∨
  ∃ r1 w1 event, locked = false ∧ execute peer clock random trouble action w = (r1, w1) ∧ r = outcome r1 ∧
    w_core w' = push_event event (w_core w1) ∧ w_trace w' = w_trace w1 ∧ w_ticks w' = S (w_ticks w1) ∧
    w_draws w' = w_draws w1.
Proof.
  unfold node_execute. destruct locked; [intros [= <- <-]; by left|]. intros Hn. right.
  destruct (execute _ _ _ _ action w) as [r1 w1] eqn:He. injection Hn as <- <-. exists r1, w1. eexists. done.
Qed.

Lemma node_execute_ticks locked action w :
  (w_ticks w ≤ w_ticks (node_execute peer clock random trouble locked action w).2)%nat.
Proof.
  destruct (node_execute _ _ _ _ _ _ _) as [r w'] eqn:Hn. apply node_execute_spec in Hn as [(_ & _ & ->)|(r1 & w1 & e & _ & He & _ & _ & _ & Ht & _)]; [done|].
  pose proof (execute_ticks action w) as Hle. rewrite He in Hle. cbn [snd] in *. lia.
Qed.
End ticks.
