(* ===== verification/AccountLimits.v ===== *)
(** * The rate limits of the account service

    A window of the clock never holds more admitted calls than the limit, and
    a refused call reaches neither the credential store nor the network. *)

From S2P Require Import Prelude RustStd IpAddr BTreeMap Externs Fixtures RepoSyntax RepoRecords RepoRecordSet RepoMst RepoCar Repository CredIdentity CredTokens CredStore Http FarcasterMessage FarcasterClient FarcasterVerify Settings AccountNode AccountExec AccountLogic.

(** A history of calls: the limiter's times, and the calls it admitted. *)
Definition limit_step (window capacity : Z) (st : list Z * list Z) (now : Z) : list Z * list Z :=
  let '(times, r) := limit st.1 now window capacity in
  (times, match r with Ok _ => st.2 ++ [now] | Err _ => st.2 end).
Definition limit_history (window capacity : Z) (calls : list Z) : list Z * list Z :=
  foldl (limit_step window capacity) ([], []) calls.

(** The admitted calls of the window that starts at [t]. *)
Definition within (t window : Z) (l : list Z) : list Z := filter (λ x, t ≤ x < t + window) l.

Lemma within_snoc t window l x :
  within t window (l ++ [x]) = within t window l ++ (if decide (t ≤ x < t + window) then [x] else []).
Proof. unfold within. rewrite filter_app, filter_cons, filter_nil. done. Qed.

Lemma filter_length_le {A} (P Q : A → Prop) `{∀ x, Decision (P x), ∀ x, Decision (Q x)} (l : list A) :
  (∀ x, x ∈ l → P x → Q x) → len (filter P l) ≤ len (filter Q l).
Proof.
  induction l as [|x l IH]; intros HPQ; [done|]. rewrite !filter_cons.
  assert (len (filter P l) ≤ len (filter Q l)) by (apply IH; intros y Hy; apply HPQ; by right).
  destruct (decide (P x)) as [HP|]; [rewrite (decide_True (P := Q x)) by (apply HPQ; [by left|done])|];
    [|destruct (decide (Q x))]; autorewrite with psky; lia.
Qed.

(** What the limiter remembers after the calls up to [last]. *)
Record remembers (window capacity last : Z) (st : list Z * list Z) : Prop := {
  rm_past : Forall (λ x, x ≤ last) st.2;
  rm_times : ∀ now, last ≤ now → filter (λ x, saturating_sub now x < window) st.1 = filter (λ x, now - x < window) st.2;
  rm_windows : ∀ t, len (within t window st.2) ≤ capacity
}.

Lemma remembers_step window capacity last st now : 0 < window → remembers window capacity last st → last ≤ now →
  remembers window capacity now (limit_step window capacity st now).
Proof.
  intros Hw [Hpast Htimes Hwin] Hle.
  assert (Hpast' : Forall (λ x, x ≤ now) st.2) by (eapply Forall_impl; [exact Hpast|]; simpl; lia).
  assert (Hkept : ∀ now', now ≤ now' →
    filter (λ x, saturating_sub now' x < window) (filter (λ x, saturating_sub now x < window) st.1) =
    filter (λ x, now' - x < window) st.2).
  { intros now' Hn. rewrite list_filter_filter_l; [apply Htimes; lia|].
    intros x. unfold saturating_sub. lia. }
  unfold limit_step, limit.
  destruct (Z.leb_spec capacity (len (filter (λ x, saturating_sub now x < window) st.1))) as [|Hroom]; cbn [fst snd].
  - split; cbn [fst snd]; [done|done|done].
  - split; cbn [fst snd].
    + apply Forall_app. split; [done|]. by repeat constructor.
    + intros now' Hn. rewrite !filter_app, Hkept by done. f_equal. rewrite !filter_cons, !filter_nil.
      assert (saturating_sub now' now = now' - now) as -> by (unfold saturating_sub; lia). done.
    + intros t. rewrite within_snoc. autorewrite with psky. specialize (Hwin t).
      destruct (decide (t ≤ now < t + window)); [|rewrite len_nil; lia].
      rewrite (Htimes now) in Hroom by done.
      assert (len (within t window st.2) ≤ len (filter (λ x, now - x < window) st.2)).
      { apply filter_length_le. intros x _. lia. }
      rewrite len_cons, len_nil. lia.
Qed.

Lemma history_remembers window capacity calls last st : 0 < window → remembers window capacity last st →
  Sorted Z.le (last :: calls) → ∃ last', remembers window capacity last' (foldl (limit_step window capacity) st calls).
Proof.
  intros Hw. revert last st. induction calls as [|now calls IH]; intros last st Hr Hs; [by exists last|].
  apply Sorted_inv in Hs as [Hs Hhd]. apply HdRel_inv in Hhd.
  exact (IH now _ (remembers_step _ _ _ _ _ Hw Hr Hhd) Hs).
Qed.

Lemma empty_remembers window capacity last : 0 ≤ capacity → remembers window capacity last ([], []).
Proof. intros Hc. split; cbn [fst snd]; [constructor|done|]. intros t. unfold within. by rewrite filter_nil, len_nil. Qed.

(** ** Password guesses *)

Section guesses.
Context {SHA : Sha256} {CID : CidLib} {HDC : DagCbor} {ECD : Ecdsa} {URL : UrlLib}
  {JSON : JsonText} {B64 : Base64Url} {HMAC : HmacSha256} {HEX : HexLib} {B58 : Base58}
  {RAW : JsonDocument} {TIME : TimeLib} {SIWE : SiweLib} {KEC : Keccak256} {QR : QrCodeLib} {B64S : Base64StdEncode}.
Context (peer : Peer) (clock : nat → Z) (random : nat → bytes) (trouble : Trouble).

Abbreviation execute := (execute peer clock random trouble).
Abbreviation node_execute := (node_execute peer clock random trouble).

(** The time of a login whose password is compared: past the lock, the switch
    and the limiter. *)
Definition guess (locked : bool) (action : Action) (w : World) : option Z :=
  match locked, action with
  | false, Login _ _ =>
      if as_enabled (co_settings (w_core w)) then
        match limit (password_times (w_core w)) (clock (w_ticks w)) 60 20 with
        | (_, Ok _) => Some (clock (w_ticks w))
        | (_, Err _) => None
        end
      else None
  | _, _ => None
  end.

(** Requests in the order in which they reach the service. *)
Definition guess_step (st : World * list Z) (rq : bool * Action) : World * list Z :=
  ((node_execute rq.1 rq.2 st.1).2, st.2 ++ option_list (guess rq.1 rq.2 st.1)).
Definition guesses (w : World) (rqs : list (bool * Action)) : World * list Z := foldl guess_step (w, []) rqs.

Definition has_times (times : list Z) (c : Core) (_ : list Exchange) : Prop := password_times c = times.

Lemma starts_times times now : preserves (has_times times) (limit_starts now).
Proof. intros w Hw. unfold limit_starts. by destruct (limit _ _ _ _) as [l [?|?]]. Qed.

Lemma authority_times times : preserves (has_times times) (ensure_authority peer clock trouble).
Proof. unfold ensure_authority. preserve; done. Qed.

Lemma perform_times times now action : (∀ i p, action ≠ Login i p) →
  preserves (has_times times) (perform peer clock random trouble now action).
Proof.
  intros Hl. pose proof (authority_times times). pose proof (starts_times times).
  destruct action; try (by edestruct Hl);
    unfold perform, do_start, do_poll, do_passwords, do_issue, do_refresh, check_session, grant, poll_proof,
      complete_poll, check_previous, replace_authority; preserve; done.
Qed.

Lemma refused_login i p now w times f : limit (password_times (w_core w)) now 60 20 = (times, Err f) →
  perform peer clock random trouble now (Login i p) w =
    (Err (Failed failure_busy), set_core (set_times (start_times (w_core w)) times (w_core w)) w).
Proof.
  intros Hl. assert (f = failure_busy) as ->.
  { unfold limit in Hl. destruct (_ <=? _); by simplify_eq. }
  cbn [perform]. unfold do_login, mbind at 1, acct_bind at 1, limit_passwords. by rewrite Hl.
Qed.

Lemma admitted_login i p now w times u : limit (password_times (w_core w)) now 60 20 = (times, Ok u) →
  has_times times (w_core (perform peer clock random trouble now (Login i p) w).2) [].
Proof.
  intros Hl. cbn [perform]. unfold do_login, mbind at 1, acct_bind at 1, limit_passwords. rewrite Hl. cbn [map_err].
  match goal with |- has_times _ (w_core (?m ?w1).2) _ =>
    assert (preserves (has_times times) m) as Hp by (pose proof (authority_times times); preserve; done);
    specialize (Hp w1 eq_refl); destruct (m w1) as [[?|?] ?] end; exact Hp.
Qed.

(** The world in which the action of an enabled service is performed. *)
Definition entered (w : World) : World :=
  mkWorld (retain_live (clock (w_ticks w)) (w_core w)) (w_trace w) (S (w_ticks w)) (w_draws w) (w_calls w) (w_queries w).

Lemma execute_enabled action w : as_enabled (co_settings (w_core w)) = true →
  execute action w = perform peer clock random trouble (clock (w_ticks w)) action (entered w).
Proof.
  intros He. unfold AccountExec.execute, mbind, acct_bind, get, lift_failure. by rewrite He.
Qed.

Lemma execute_disabled action w : as_enabled (co_settings (w_core w)) = false →
  execute action w = (Err (Failed failure_disabled), w).
Proof. intros He. unfold AccountExec.execute, mbind, acct_bind, get, lift_failure. by rewrite He. Qed.

Lemma guess_times locked action w : let w' := (node_execute locked action w).2 in
  (password_times (w_core w'), option_list (guess locked action w)) =
    (password_times (w_core w), []) ∨
  let '(times, r) := limit (password_times (w_core w)) (clock (w_ticks w)) 60 20 in
  (password_times (w_core w'), option_list (guess locked action w)) =
    (times, match r with Ok _ => [clock (w_ticks w)] | Err _ => [] end).
Proof.
  destruct (AccountExec.node_execute _ _ _ _ _ _ _) as [r w'] eqn:Hn.
  apply node_execute_spec in Hn as [(-> & _ & ->)|(r1 & w1 & e & -> & He & _ & Hc & _)]; [by left|].
  cbn [snd]. rewrite Hc. cbn [push_event set_events password_times].
  destruct (as_enabled (co_settings (w_core w))) eqn:Hen.
  2: { rewrite execute_disabled in He by done. injection He as _ <-. left. unfold guess. rewrite Hen. by destruct action. }
  rewrite execute_enabled in He by done. unfold guess. rewrite Hen.
  assert ((∃ i p, action = Login i p) ∨ ∀ i p, action ≠ Login i p) as [(i & p & ->)|Hnl]
    by (destruct action; [..|left; eauto| | | | | |]; by right).
  - right. destruct (limit _ _ _ _) as [times [u|f]] eqn:Hl.
    + pose proof (admitted_login i p _ (entered w) _ _ Hl) as Ht. rewrite He in Ht. by rewrite Ht.
    + rewrite (refused_login i p _ (entered w) _ _ Hl) in He. by injection He as _ <-.
  - left. pose proof (perform_times (password_times (w_core w)) (clock (w_ticks w)) action Hnl (entered w) eq_refl) as Hp.
    rewrite He in Hp. destruct action; try (by edestruct Hnl); destruct r1; by rewrite Hp.
Qed.

Lemma guess_remembers locked action w adm : (∀ i j, (i ≤ j)%nat → clock i ≤ clock j) →
  (∃ last, remembers 60 20 last (password_times (w_core w), adm) ∧ last ≤ clock (w_ticks w)) →
  let '(w', adm') := guess_step (w, adm) (locked, action) in
  ∃ last, remembers 60 20 last (password_times (w_core w'), adm') ∧ last ≤ clock (w_ticks w').
Proof.
  intros Hmono (last & Hr & Hlast). unfold guess_step. cbn [fst snd].
  pose proof (Hmono _ _ (node_execute_ticks peer clock random trouble locked action w)) as Hticks.
  destruct (guess_times locked action w) as [Hg|Hg].
  - injection Hg as -> ->. rewrite app_nil_r. exists last. split; [done|lia].
  - pose proof (remembers_step 60 20 last _ (clock (w_ticks w)) eq_refl Hr Hlast) as Hs.
    unfold limit_step in Hs. cbn [fst snd] in Hs.
    destruct (limit _ _ _ _) as [times [u|f]]; injection Hg as -> ->; exists (clock (w_ticks w)); (split; [|done]);
      [exact Hs|by rewrite app_nil_r].
Qed.

Lemma guesses_remember rqs st : (∀ i j, (i ≤ j)%nat → clock i ≤ clock j) →
  (∃ last, remembers 60 20 last (password_times (w_core st.1), st.2) ∧ last ≤ clock (w_ticks st.1)) →
  let st' := foldl guess_step st rqs in
  ∃ last, remembers 60 20 last (password_times (w_core st'.1), st'.2) ∧ last ≤ clock (w_ticks st'.1).
Proof.
  intros Hmono. revert st. induction rqs as [|[locked action] rqs IH]; intros [w adm] Hinit; [exact Hinit|].
  apply IH. pose proof (guess_remembers locked action w adm Hmono Hinit) as Hstep. by destruct (guess_step _ _).
Qed.

Lemma unguessed_login locked i p w r w' : node_execute locked (Login i p) w = (r, w') →
  guess locked (Login i p) w = None →
  (∃ f, r = Err f) ∧ co_store (w_core w') = co_store (w_core w) ∧ w_trace w' = w_trace w.
Proof.
  intros Hn Hg. apply node_execute_spec in Hn as [(-> & -> & ->)|(r1 & w1 & e & -> & He & -> & Hc & Htr & _)];
    [split_and!; [by eexists|done|done]|].
  rewrite Hc, Htr. unfold guess in Hg. destruct (as_enabled (co_settings (w_core w))) eqn:Hen.
  - rewrite execute_enabled in He by done. destruct (limit _ _ _ _) as [times [u|f]] eqn:Hl; [done|].
    rewrite (refused_login i p _ (entered w) _ _ Hl) in He. injection He as <- <-.
    split_and!; [by eexists|done|done].
  - rewrite execute_disabled in He by done. injection He as <- <-. split_and!; [by eexists|done|done].
Qed.

End guesses.
