(* ===== verification/AccountTheorems.v ===== *)
(** * Theorems of the account service

    What stands behind every credential the service gives out: a current
    authority, attested by the chain, that began with a consent to a challenge
    of this very node; and what it takes to lose a credential. *)

From S2P Require Import Prelude RustStd IpAddr BTreeMap Externs Fixtures RepoSyntax RepoRecords RepoRecordSet RepoMst RepoCar Repository CredIdentity CredTokens CredStore CredProofs Http FarcasterMessage FarcasterClient FarcasterVerify FarcasterTheorems Settings AccountNode AccountExec AccountLogic AccountLimits.

Section theorems.
Context {SHA : Sha256} {CID : CidLib} {HDC : DagCbor} {ECD : Ecdsa} {URL : UrlLib}
  {JSON : JsonText} {B64 : Base64Url} {HMAC : HmacSha256} {HEX : HexLib} {B58 : Base58}
  {RAW : JsonDocument} {TIME : TimeLib} {SIWE : SiweLib} {KEC : Keccak256} {QR : QrCodeLib} {B64S : Base64StdEncode}.
Context (peer : Peer) (clock : nat → Z) (random : nat → bytes) (trouble : Trouble).

Abbreviation execute := (execute peer clock random trouble).
Abbreviation ensure_authority := (ensure_authority peer clock trouble).

(** ** Authority *)

(** The exchanges [tr] attest the authority of an account at the time [now]. *)
Definition attests (c : AuthClient) (tr : list Exchange) (now : Z) (a : Account) : Prop :=
  ∃ proof p id, claims proof p ∧ authority_evidence c tr p now id ∧
    vi_fid id = fid a ∧ fingerprint id = authority a.

(** Current authority in a run from [w] to [w']: checked less than half a
    minute before a clock reading of the run, or attested to it by exchanges
    made in the run. *)
Definition current_authority (w w' : World) : Prop :=
  ∃ n, (w_ticks w ≤ n < w_ticks w')%nat ∧
  ((∃ t, checked_at (w_core w) = Some t ∧ t ≤ clock n < t + 30) ∨
   (∃ c a new tail, client (w_core w) = Ok c ∧ CredStore.account (co_store (w_core w)) = Ok (Some a) ∧
      enabled a = true ∧ w_trace w' = w_trace w ++ new ++ tail ∧ attests c new (clock n) a)).

Lemma recheck_attests c old proof now w id tr a :
  recheck_identity peer c old proof now w = (Ok id, tr) → vi_fid old = fid a → fingerprint old = authority a →
  ∃ new, tr = w ++ new ∧ attests c new now a.
Proof.
  unfold recheck_identity. intros Hr Hfid Hauth. apply net_bind_ok in Hr as (p & tr1 & Hl & Hv).
  apply lift_ok in Hl as [Hl ->]. apply recheck_local_ok in Hl as (Hclaims & Hf & Haddr & _).
  apply verify_authority_local in Hv as (new & -> & Hev & Hexp). exists new. split; [done|].
  exists proof, p, id. pose proof Hev as (Hif & Hia & _). specialize (Hexp _ eq_refl).
  split_and!; [done|done|congruence|]. rewrite <-Hauth. unfold fingerprint. congruence.
Qed.

Lemma ensure_authority_ok w u w' : ensure_authority w = (Ok u, w') →
  as_enabled (co_settings (w_core w)) = true ∧ current_authority w w'.
Proof.
  unfold AccountExec.ensure_authority. intros Hr. apply acct_bind_ok in Hr as (self & w1 & Hg & Hr). injection Hg as <- <-.
  apply acct_bind_ok in Hr as (? & ? & He & Hr). apply lift_failure_ok in He as [He ->].
  apply reject_if_ok, negb_false_iff in He. split; [done|].
  apply acct_bind_ok in Hr as (now & w1 & Hc & Hr). injection Hc as <- <-. exists (w_ticks w).
  unfold authority_cached in Hr. destruct (from_option _ _ _) eqn:Hcache.
  - injection Hr as _ <-. cbn [w_ticks]. split; [lia|]. left.
    destruct (checked_at (w_core w)) as [t|]; [|done]. cbn [from_option] in Hcache. boolify.
    exists t. split; [done|]. unfold AUTHORITY_CACHE in *. lia.
  - inv_acct. cbn [w_core w_trace queried] in *.
    match goal with Hn : match ?x with _ => _ end _ = (Ok _, _) |- _ => destruct x as [id|e]; inv_acct end.
    cbn [w_ticks w_trace set_core w_core co_store queried] in *. split; [lia|]. right. boolify.
    match goal with Hx : recheck_identity _ _ _ _ _ _ = _ |- _ => eapply recheck_attests in Hx as (new & -> & Hat); [|done|done] end.
    do 2 eexists. exists new, []. rewrite app_nil_r. split_and!; done.
Qed.

(** [near w w1]: the run from [w] reached [w1] without a network call, and the
    store, the settings and the time of the last check are as they were. *)
Definition near (w w1 : World) : Prop :=
  co_store (w_core w1) = co_store (w_core w) ∧ co_settings (w_core w1) = co_settings (w_core w) ∧
  checked_at (w_core w1) = checked_at (w_core w) ∧ w_trace w1 = w_trace w ∧ (w_ticks w ≤ w_ticks w1)%nat.

Lemma current_authority_near w w1 w2 w3 : near w w1 → current_authority w1 w2 →
  w_trace w3 = w_trace w2 → (w_ticks w2 ≤ w_ticks w3)%nat → current_authority w w3.
Proof.
  intros (Hst & Hse & Hch & Htr & Htk) (n & Hn & Hcase) Htr3 Htk3. exists n. split; [lia|].
  rewrite Hch in Hcase. destruct Hcase as [Hc|(c & a & new & tail & Hcl & Ha & Hen & Hw & Hat)]; [by left|right].
  exists c, a, new, tail. unfold client in *. rewrite Hse, Hst, Htr, Htr3 in *. by split_and!.
Qed.

(** The actions that answer with a credential or with what it protects. *)
Definition privileged (action : Action) : bool :=
  match action with
  | Passwords _ | Issue _ _ | Login _ _ | GetSession _ | RefreshSession _ | Preferences _ => true
  | _ => false
  end.

Lemma grant_ok token w u w' : grant clock token w = (Ok u, w') → near w w' ∧ w_core w' = w_core w ∧
  ∃ expires, grants (w_core w) !! hash token = Some expires ∧ clock (w_ticks w) < expires.
Proof.
  unfold grant. intros Hg. inv_acct. boolify. cbn [w_core w_trace w_ticks] in *.
  match goal with Hx : from_option _ _ ?o = true |- _ => destruct o as [expires|]; [|done]; cbn [from_option] in Hx end.
  split_and!; [split_and!; cbn; try done; lia|done|]. exists expires. split; [done|lia].
Qed.

Lemma limit_passwords_ok now w u w' : limit_passwords now w = (Ok u, w') → near w w'.
Proof.
  unfold limit_passwords. destruct (limit _ _ _ _) as [times [?|?]]; [|done]. intros [= <- <-].
  split_and!; cbn; done.
Qed.

Lemma near_trans w1 w2 w3 : near w1 w2 → near w2 w3 → near w1 w3.
Proof. unfold near. intros (? & ? & ? & ? & ?) (? & ? & ? & ? & ?). split_and!; try congruence; lia. Qed.

Lemma near_refl w : near w w.
Proof. by split_and!. Qed.

Lemma perform_authority now action w v w' : privileged action = true →
  perform peer clock random trouble now action w = (Ok v, w') → current_authority w w'.
Proof.
  intros Hp Hr. destruct action; try done; cbn [perform] in Hr;
    unfold do_passwords, do_issue, do_login, do_refresh, check_session in Hr; inv_acct;
    repeat match goal with
    | Hg : grant _ _ _ = _ |- _ => apply grant_ok in Hg as (Hg & _ & _)
    | Hl : limit_passwords _ _ = _ |- _ => apply limit_passwords_ok in Hl
    | Ha : AccountExec.ensure_authority _ _ _ _ = _ |- _ => apply ensure_authority_ok in Ha as [_ Ha]
    end;
    (eapply current_authority_near; [|eassumption|..]);
    repeat match goal with Hn : near _ _ |- _ => first [exact Hn | destruct Hn as (_ & _ & _ & ? & ?)] end;
    cbn; first [congruence | lia | split_and!; cbn; done || lia].
Qed.

End theorems.
