(* ===== verification/AccountSafety.v ===== *)
(** * Invariants of the account service

    One traversal of every operation, for any assertion closed under the few
    things operations do to the store; and its two uses: an enabled account
    was signed in to, and a credential is lost only to a verdict. *)

From S2P Require Import Prelude RustStd IpAddr BTreeMap Externs Fixtures RepoSyntax RepoRecords RepoRecordSet RepoMst RepoCar Repository CredIdentity CredTokens CredStore CredProofs Http FarcasterMessage FarcasterClient FarcasterVerify FarcasterTheorems Settings AccountNode AccountExec AccountLogic AccountLimits.

Section safety.
Context {SHA : Sha256} {CID : CidLib} {HDC : DagCbor} {ECD : Ecdsa} {URL : UrlLib}
  {JSON : JsonText} {B64 : Base64Url} {HMAC : HmacSha256} {HEX : HexLib} {B58 : Base58}
  {RAW : JsonDocument} {TIME : TimeLib} {SIWE : SiweLib} {KEC : Keccak256} {QR : QrCodeLib} {B64S : Base64StdEncode}.
Context (peer : Peer) (clock : nat → Z) (random : nat → bytes) (trouble : Trouble).
Context (Hclock : ∀ n, is_u64 (clock n)) (Hrandom : ∀ n, len (random n) = 32).

Abbreviation execute := (execute peer clock random trouble).
Abbreviation Assertion := (Core → list Exchange → Prop).

(** A recheck that has just denied the authority. *)
Definition denied (tr : list Exchange) : Prop :=
  ∃ c identity_ proof now e before,
    recheck_identity peer c identity_ proof now before = (Err e, tr) ∧ (e = Unauthorized ∨ e = InvalidSignature).

(** A sign-in that has just been verified, for the service the settings name
    and a challenge of this node. *)
Definition verified_in (settings : AccountSettings) (tr : list Exchange) (v : VerifiedIdentity) : Prop :=
  ∃ self c proof ch t before n, co_settings self = settings ∧ client self = Ok c ∧
    verify peer c proof ch t before = (Ok v, tr) ∧ ch_nonce ch = hex_encode (random n).

Definition drawn (p : Pending) : Prop := ∃ n, ch_nonce (pn_challenge p) = hex_encode (random n).

(** What an operation may do to the core besides calling the store. *)
Definition volatile (c c' : Core) : Prop :=
  co_store c' = co_store c ∧ co_settings c' = co_settings c ∧
  ∀ id p', pending c' !! id = Some p' → drawn p' ∨
    ∃ p, pending c !! id = Some p ∧ pn_challenge p' = pn_challenge p.

(** The passwords an action is asked to revoke. *)
Definition revokes (action : Action) (op : CredOp) : Prop :=
  match op with OpRevoke name => ∃ token, action = Revoke token name | _ => True end.

Record closed (action : Action) (P : Assertion) : Prop := {
  cl_pending c tr id p : P c tr → pending c !! id = Some p → drawn p;
  cl_trace c tr new : P c tr → P c (tr ++ new);
  cl_volatile c c' tr : volatile c c' → P c tr → P c' tr;
  cl_store op c tr : changes_account op = false → op_ok op → revokes action op →
    P c tr → P (set_store (cred_step (co_store c) op) c) tr;
  cl_denied c tr : denied tr → P c tr → P (set_store (invalidate_authority (co_store c)).1 c) tr;
  cl_replaced c tr v a : verified_in (co_settings c) tr v → as_allowed_fid (co_settings c) = Some (vi_fid v) →
    CredStore.account (co_store c) = Ok (Some a) → authority a ≠ fingerprint v →
    P c tr → P (set_store (invalidate_authority (co_store c)).1 c) tr;
  cl_bound c tr v i now draw : verified_in (co_settings c) tr v → as_allowed_fid (co_settings c) = Some (vi_fid v) →
    account_identity (co_settings c) = Ok i → is_u64 now → len draw = 32 →
    P c tr → P (set_store (bind_verified now draw (vi_fid v) (fingerprint v) i (co_store c)).1 c) tr
}.

Section traversal.
Context (action : Action) (P : Assertion) (HP : closed action P).

Lemma triple_pure {A} (φ : Prop) (P' : Assertion) (m : Acct A) Q E :
  (φ → triple P' m Q E) → triple (λ c tr, φ ∧ P' c tr) m Q E.
Proof. intros Hm w [Hφ Hw]. by apply Hm. Qed.

Lemma volatile_same c c' : co_store c' = co_store c → co_settings c' = co_settings c → pending c' = pending c →
  volatile c c'.
Proof. intros Hs Hse Hp. split_and!; [done|done|]. rewrite Hp. intros id p Hl. right. by exists p. Qed.

Lemma volatile_update id f c : (∀ p, pn_challenge (f p) = pn_challenge p) → volatile c (update_pending id f c).
Proof.
  intros Hf. split_and!; [done|done|]. intros id' p'. unfold update_pending. cbn.
  destruct (decide (id' = id)) as [->|Hne].
  - rewrite lookup_alter_eq. intros (p & Hp & ->)%fmap_Some. right. exists p. by rewrite Hf.
  - rewrite lookup_alter_ne by done. right. by exists p'.
Qed.

Lemma volatile_filter (Q : string * Pending → Prop) `{∀ x, Decision (Q x)} c : volatile c (set_pending (filter Q (pending c)) c).
Proof. split_and!; [done|done|]. intros id p' [Hp _]%map_lookup_filter_Some. right. by exists p'. Qed.

Lemma volatile_delete id c : volatile c (set_pending (base.delete id (pending c)) c).
Proof. split_and!; [done|done|]. intros id' p'. cbn. intros [_ Hp]%lookup_delete_Some. right. by exists p'. Qed.

Lemma volatile_insert id p c : drawn p → volatile c (set_pending (<[id := p]> (pending c)) c).
Proof.
  intros Hd. split_and!; [done|done|]. intros id' p'. cbn. intros [[_ <-]|[_ Hp]]%lookup_insert_Some; [by left|right; by exists p'].
Qed.

Lemma quiet_call {A} op (f : Store → Store * result Cred.Error A) :
  (∀ st, (f st).1 = cred_step st op) → changes_account op = false → op_ok op → revokes action op →
  preserves P (store_call trouble f).
Proof. intros Hf Hc Ho Hr. apply preserves_call. intros c tr Hw. rewrite Hf. by apply (cl_store _ _ HP). Qed.

Lemma quiet_network {A} (m : Net AuthError A) : grows (λ _, True) m → preserves P (network trouble m).
Proof. intros Hm. apply preserves_network; [done|]. intros c tr new. apply (cl_trace _ _ HP). Qed.

Lemma quiet_modify f : (∀ c, volatile c (f c)) → preserves P (modify f).
Proof. intros Hf. apply preserves_modify. intros c tr. by apply (cl_volatile _ _ HP). Qed.

Lemma quiet_evidence doc : preserves P (store_call trouble (set_evidence doc)).
Proof. by apply (quiet_call (OpEvidence doc)). Qed.

(** An assertion that also remembers what the exchanges, the settings or the
    stored account say. *)
Definition given (φ : list Exchange → Prop) : Assertion := λ c tr, φ tr ∧ P c tr.

Lemma triple_post {A} (P' : Assertion) (m : Acct A) (Q : A → Assertion) (E : Assertion) :
  preserves P' m → (∀ a c tr, P' c tr → Q a c tr) → (∀ c tr, P' c tr → E c tr) → triple P' m Q E.
Proof. intros Hm HQ HE. eapply triple_weaken; [exact Hm|done|done|done]. Qed.

Lemma triple_pre {A} (P0 P' : Assertion) (m : Acct A) (Q : A → Assertion) (E : Assertion) :
  triple P' m Q E → (∀ c tr, P0 c tr → P' c tr) → triple P0 m Q E.
Proof. intros Hm HP0. by eapply triple_weaken. Qed.

Lemma network_extends {A} (m : Net AuthError A) tr r tr' : grows (λ _, True) m → m tr = (r, tr') →
  ∀ c, P c tr → P c tr'.
Proof. intros Hm Hr c Hw. apply (grows_run _ _ _ _ _ Hm) in Hr as (new & -> & _). by apply (cl_trace _ _ HP). Qed.

Lemma recheck_triple c i proof now : triple P (network trouble (recheck_identity peer c i proof now))
  (λ r, given (λ tr, ∀ e, r = Err e → e = Unauthorized ∨ e = InvalidSignature → denied tr)) P.
Proof.
  apply triple_network; [eauto with acct| |intros ? tr new; apply (cl_trace _ _ HP)].
  intros r c' tr tr' Hc Hr. split; [|exact (network_extends _ tr r tr' (recheck_extends peer c i proof now) Hr c' Hc)].
  intros e -> He. by do 6 eexists.
Qed.

Lemma authority_preserves : preserves P (ensure_authority peer clock trouble).
Proof.
  unfold ensure_authority. do 3 (apply preserves_bind; [eauto with acct|intros ?]).
  match goal with |- preserves _ (if ?b then _ else _) => destruct b end; [eauto with acct|].
  do 7 (apply preserves_bind; [eauto with acct|intros ?]).
  eapply triple_bind; [apply recheck_triple|]. intros [id|e].
  - apply (triple_pre _ P); [|by intros ? ? [_ ?]]. apply preserves_bind; [apply quiet_evidence|intros _].
    apply quiet_modify. intros c. by apply volatile_same.
  - apply (triple_bind _ _ (λ _, given (λ tr, e = Unauthorized ∨ e = InvalidSignature → denied tr))).
    { apply triple_modify. intros c tr [Hd Hw]. split; [by apply Hd|]. apply (cl_volatile _ _ HP c); [by apply volatile_same|done]. }
    intros _. apply (triple_bind _ _ (λ _, P)); [|intros _; apply preserves_fail].
    destruct (bool_decide _) eqn:He; [|apply triple_ret; by intros ? ? [_ ?]]. boolify.
    apply (triple_bind _ _ (λ _, P)).
    + apply triple_call; [| |by intros ? ? [_ ?]]; intros ? s c tr [Hd Hw] Heq; pose proof (cl_denied _ _ HP c tr (Hd He) Hw) as Hi; by rewrite Heq in Hi.
    + intros _. apply quiet_modify. intros c. by apply volatile_same.
Qed.

(** A sign-in verified for the FID the settings allow. *)
Definition admitted (v : VerifiedIdentity) (settings : AccountSettings) : Assertion :=
  λ c tr, (verified_in settings tr v ∧ co_settings c = settings) ∧ P c tr.

Section admitted.
Context (v : VerifiedIdentity) (settings : AccountSettings) (Hfid : as_allowed_fid settings = Some (vi_fid v)).
Abbreviation I := (admitted v settings).

Lemma admitted_call {A} (f : Store → Store * result Cred.Error A) :
  (∀ c tr, I c tr → P (set_store (f (co_store c)).1 c) tr) → preserves I (store_call trouble f).
Proof. intros Hf. apply preserves_call. intros c tr Hi. split; [apply Hi|by apply Hf]. Qed.

Lemma admitted_modify f : (∀ c, volatile c (f c)) → preserves I (modify f).
Proof.
  intros Hf. apply preserves_modify. intros c tr [[Hv Hs] Hw]. pose proof (Hf c) as (Hst & Hse & _).
  split; [by rewrite Hse|]. by apply (cl_volatile _ _ HP c).
Qed.

Lemma replace_preserves : preserves I (replace_authority trouble (fingerprint v)).
Proof.
  unfold replace_authority.
  apply (triple_bind _ _ (λ o c tr, CredStore.account (co_store c) = Ok o ∧ I c tr)).
  { by apply triple_read. }
  intros [a|]; [|apply triple_ret; by intros ? ? [_ ?]].
  destruct (bool_decide _) eqn:Ha; [apply triple_ret; by intros ? ? [_ ?]|]. boolify.
  apply (triple_bind _ _ (λ _, I)).
  - apply triple_call; [| |by intros ? ? [_ ?]]; intros ? s c tr (Hacc & [Hv Hs] & Hw) Heq; (split; [done|]);
      (pose proof (cl_replaced _ _ HP c tr v a) as Hi); rewrite Hs, Heq in Hi; by apply Hi.
  - intros _. apply admitted_modify. intros c. by apply volatile_same.
Qed.

Lemma admit_preserves now id proof : preserves I (admit_poll clock random trouble now id proof v settings).
Proof.
  unfold admit_poll, check_previous. apply preserves_bind; [preserve|intros _].
  apply preserves_bind; [apply replace_preserves|intros _].
  apply preserves_lifted. intros i Hi. apply map_err_ok in Hi.
  apply preserves_at_clock. intros n. apply preserves_at_draw. intros d.
  apply preserves_bind; [|intros account_; apply preserves_bind; [|intros _]].
  - apply admitted_call. intros c tr [[Hv Hs] Hw]. rewrite <-Hs in Hi, Hfid, Hv. by apply (cl_bound _ _ HP c).
  - apply admitted_call. intros c tr [_ Hw]. by apply (cl_store _ _ HP (OpEvidence _)).
  - apply preserves_bind; [eauto with acct|intros t]. apply preserves_bind; [|intros _].
    { apply admitted_modify. intros c. by apply volatile_same. }
    apply preserves_bind; [eauto with acct|intros token]. apply preserves_bind; [|intros _].
    { apply admitted_modify. intros c. by apply volatile_same. }
    apply preserves_bind; [|intros _; eauto with acct]. apply admitted_modify. intros c. by apply volatile_update.
Qed.
End admitted.

Lemma complete_preserves now id proof p v :
  triple (λ c tr, verified_in (co_settings c) tr v ∧ P c tr) (complete_poll clock random trouble now id proof p v) (λ _, P) P.
Proof.
  unfold complete_poll. eapply (triple_bind _ _ (λ _ c tr, verified_in (co_settings c) tr v ∧ P c tr)); [by intros w Hw|intros t].
  assert (Hremove : ∀ A f, triple P (modify (λ c, set_pending (base.delete id (pending c)) c) ≫= λ _, @fail _ A f) (λ _, P) P).
  { intros A f. apply preserves_bind; [|intros _; apply preserves_fail]. apply quiet_modify. intros c. apply volatile_delete. }
  destruct (_ <=? _); [eapply triple_pre; [apply Hremove|by intros ? ? [_ ?]]|].
  eapply triple_bind; [apply triple_get|]. intros self. cbn beta.
  destruct (negb _) eqn:Hfid; [eapply triple_pre; [apply Hremove|by intros ? ? (-> & _ & ?)]|]. boolify.
  eapply triple_weaken; [apply (admit_preserves v (co_settings self) Hfid)|..].
  - intros c tr (-> & Hv & Hw). by split.
  - by intros ? ? ? [_ ?].
  - by intros ? ? [_ ?].
Qed.

(** The steps of a poll up to the verification leave the settings alone. *)
Definition under (settings : AccountSettings) : Assertion := λ c tr, co_settings c = settings ∧ P c tr.

Lemma under_modify settings f : (∀ c, volatile c (f c)) → preserves (under settings) (modify f).
Proof.
  intros Hf. apply preserves_modify. intros c tr [Hs Hw]. pose proof (Hf c) as (_ & Hse & _).
  split; [by rewrite Hse|]. by apply (cl_volatile _ _ HP c).
Qed.

Lemma under_network {A} settings (m : Net AuthError A) : grows (λ _, True) m → preserves (under settings) (network trouble m).
Proof. intros Hm. apply preserves_network; [done|]. intros c tr new [Hs Hw]. split; [done|]. by apply (cl_trace _ _ HP). Qed.

Lemma proof_preserves settings c id p : preserves (under settings) (poll_proof peer trouble c id p).
Proof.
  unfold poll_proof. destruct (pn_proof p); [eauto with acct|].
  apply preserves_bind; [apply under_network; eauto with acct|intros r].
  apply preserves_bind; [eauto with acct|intros [|proof]]; [eauto with acct|].
  apply preserves_bind; [|intros _; eauto with acct]. apply under_modify. intros c0. by apply volatile_update.
Qed.

Lemma verified_triple settings self c proof p t : co_settings self = settings → client self = Ok c → drawn p →
  triple (under settings) (network trouble (verify peer c proof (pn_challenge p) t))
    (λ r c tr, (∀ v, r = Ok v → verified_in (co_settings c) tr v) ∧ P c tr) P.
Proof.
  intros Hset Hcl [n Hn]. apply triple_network; [eauto with acct| |intros ? tr new [_ Hw]; by apply (cl_trace _ _ HP)].
  intros r c0 tr tr' [Hs Hw] Hr. split; [|exact (network_extends _ tr r tr' (verify_extends peer c proof _ t) Hr c0 Hw)].
  intros v ->. rewrite Hs. do 7 eexists. split_and!; [exact Hset|exact Hcl|exact Hr|exact Hn].
Qed.

Lemma under_step {A B} settings (m : Acct A) (f : A → Acct B) : preserves (under settings) m →
  (∀ a, triple (under settings) (f a) (λ _, P) P) → triple (under settings) (m ≫= f) (λ _, P) P.
Proof.
  intros Hm Hf. apply (triple_bind _ _ (λ _, under settings)); [|done].
  eapply triple_weaken; [exact Hm|done|done|by intros c tr [_ Hw]].
Qed.

Lemma under_ret {A} settings (a : A) : triple (under settings) (mret a) (λ _, P) P.
Proof. apply triple_ret. by intros c tr [_ Hw]. Qed.

(** From a pending sign-in on. *)
Lemma poll_under self c now id p {B} : client self = Ok c → drawn p →
  triple (under (co_settings self))
    (_ ← lift_failure (reject_if (saturating_sub now (last_poll p) <? 2) failure_busy);
     _ ← modify (update_pending id (polled now));
     proof ← poll_proof peer trouble c id p;
     match proof with
     | None => mret B
     | Some proof =>
         t ← read_clock clock;
         verified ← network trouble (verify peer c proof (pn_challenge p) t);
         verified ← lift_failure (map_err failure_auth verified);
         complete_poll clock random trouble now id proof p verified
     end) (λ _, P) P.
Proof.
  intros Hcl Hp. apply under_step; [eauto with acct|intros _].
  apply under_step; [apply under_modify; intros c0; by apply volatile_update|intros _].
  apply under_step; [apply proof_preserves|intros [proof|]]; [|apply under_ret].
  apply under_step; [eauto with acct|intros t].
  eapply triple_bind; [by apply (verified_triple _ self)|]. intros [v|e]; [|by intros w [_ Hw]].
  eapply triple_pre; [apply (complete_preserves now id proof p v)|]. intros c0 tr [Hv Hw]. split; [by apply Hv|done].
Qed.

Lemma poll_preserves now id token : preserves P (do_poll peer clock random trouble now id token).
Proof.
  unfold do_poll. apply preserves_at_get. intros self tr0 Hself.
  assert (Hpre : ∀ B (m : Acct B), triple (under (co_settings self)) m (λ _, P) P →
    triple (λ c tr, c = self ∧ P c tr) m (λ _, P) P).
  { intros B m Hm. eapply triple_pre; [exact Hm|]. by intros c tr [-> Hw]. }
  assert (Herr : ∀ c tr, under (co_settings self) c tr → P c tr) by by intros c tr [_ Hw].
  apply Hpre, triple_lifted; [|done]. intros c Hcl. apply triple_lifted; [|done]. intros p Hp%ok_or_ok.
  apply triple_lifted; [|done]. intros _ _. destruct (completion p); [apply under_ret|].
  apply poll_under; [done|by eapply (cl_pending _ _ HP)].
Qed.

Lemma starts_preserves now : preserves P (limit_starts now).
Proof.
  intros w Hw. unfold limit_starts. destruct (limit _ _ _ _) as [times [?|?]];
    (apply (cl_volatile _ _ HP (w_core w)); [by apply volatile_same|exact Hw]).
Qed.
Lemma passwords_preserves now : preserves P (limit_passwords now).
Proof.
  intros w Hw. unfold limit_passwords. destruct (limit _ _ _ _) as [times [?|?]];
    (apply (cl_volatile _ _ HP (w_core w)); [by apply volatile_same|exact Hw]).
Qed.

Lemma start_preserves now : preserves P (do_start peer random trouble now).
Proof.
  unfold do_start. apply preserves_bind; [apply starts_preserves|intros _].
  apply preserves_bind; [eauto with acct|intros self]. apply preserves_bind; [eauto with acct|intros _].
  apply preserves_at_token. intros n. apply preserves_bind; [eauto with acct|intros c].
  apply preserves_bind; [apply quiet_network; eauto with acct|intros r].
  do 4 (apply preserves_bind; [eauto with acct|intros ?]).
  apply preserves_bind; [|intros _; eauto with acct]. apply quiet_modify. intros c0. apply volatile_insert. by exists n.
Qed.

(** A call that is one of the store's quiet steps, and what leads to it. *)
Ltac quiet op := eapply (quiet_call op); [done|done|cbn; auto|cbn; eauto].
Ltac quiet_step :=
  first
    [ apply preserves_at_clock; intros ? | apply preserves_at_draw; intros ?
    | solve [eauto with acct]
    | apply preserves_bind; [solve [eauto with acct]|intros ?] ].

Lemma grant_preserves token : preserves P (grant clock token).
Proof. unfold grant. preserve. Qed.
Lemma session_preserves token : preserves P (check_session clock trouble token).
Proof. unfold check_session. preserve. Qed.

Lemma perform_preserves now : preserves P (perform peer clock random trouble now action).
Proof.
  pose proof authority_preserves as Ha. pose proof (passwords_preserves now) as Hl.
  pose proof grant_preserves as Hg. pose proof session_preserves as Hs.
  enough (∀ a, a = action → preserves P (perform peer clock random trouble now a)) by eauto.
  intros a Heq; destruct a; cbn [perform].
  - apply start_preserves.
  - apply poll_preserves.
  - unfold do_passwords. preserve.
  - unfold do_issue. repeat quiet_step. apply preserves_bind; [quiet (OpIssue (clock n) (random n0) (random n1) name)|intros ?; preserve].
  - repeat quiet_step. apply preserves_bind; [quiet (OpRevoke name)|intros ?; preserve].
  - unfold do_login. repeat quiet_step.
    apply preserves_bind; [quiet (OpAuthenticate (clock n) (random n0) (random n1) (random n2) identifier password)|intros ?; preserve].
  - preserve.
  - unfold do_refresh. repeat quiet_step.
    apply preserves_bind; [quiet (OpRefresh (clock n0) (random n1) (random n2) token)|intros ?; preserve].
  - repeat quiet_step. apply preserves_bind; [quiet (OpDelete (clock n) token)|intros ?; preserve].
  - preserve.
  - preserve.
  - preserve.
Qed.

Lemma execute_preserves : preserves P (execute action).
Proof.
  unfold AccountExec.execute. do 3 (apply preserves_bind; [eauto with acct|intros ?]).
  apply preserves_bind; [|intros _; apply perform_preserves]. apply quiet_modify. intros c.
  split_and!; [done|done|]. intros id p'. cbn. intros [Hp _]%map_lookup_filter_Some. right. by exists p'.
Qed.
End traversal.

(** ** An enabled account was signed in to *)

Context {HJSON : JsonTextLaws} {HSHA : Sha256Laws}.

(** A sign-in verified before, for the FID and the authority of the account. *)
Definition signed_in (tr : list Exchange) (a : Account) : Prop :=
  ∃ settings before rest v, tr = before ++ rest ∧ verified_in settings before v ∧
    account_identity settings = Ok (identity a) ∧ vi_fid v = fid a ∧ fingerprint v = authority a.

Record sound (old : option string) (c : Core) (tr : list Exchange) : Prop := {
  so_wf : db_wf (jwt_key (co_store c)) (db (co_store c));
  so_policy a : stored_account (db (co_store c)) a →
    as_allowed_fid (co_settings c) = Some (fid a) ∧ account_identity (co_settings c) = Ok (identity a);
  so_pending id p : pending c !! id = Some p → drawn p;
  so_authority a : stored_account (db (co_store c)) a → enabled a = true → old = Some (authority a) ∨ signed_in tr a
}.

Lemma stored_same d d' a : account_row d' = account_row d → stored_account d' a ↔ stored_account d a.
Proof. unfold stored_account. by intros ->. Qed.

Lemma verified_fid settings tr v : verified_in settings tr v → is_u64 (vi_fid v).
Proof.
  intros (self & c & proof & ch & t & before & n & _ & _ & Hv & _). unfold verify in Hv. inv_net.
  match goal with Hp : parse _ _ _ _ _ = Ok _ |- _ => apply parse_sound in Hp as (_ & Hc & _) end.
  match goal with Ha : verify_authority _ _ _ _ _ _ = _ |- _ => apply verify_authority_ok in Ha as [(Hf & _) _] end.
  destruct Hc as (_ & _ & _ & Hr & _). rewrite Hf. unfold MAX_FID in Hr. split; [lia|].
  etrans; [apply Hr|done].
Qed.

Lemma sound_invalidate old c tr : sound old c tr → sound old (set_store (invalidate_authority (co_store c)).1 c) tr.
Proof.
  intros [Hwf Hpol Hpen Hau]. pose proof (invalidate_wf (co_store c) Hwf) as Hwf'.
  destruct (invalidate_authority (co_store c)) as [s r] eqn:Hi.
  assert (jwt_key s = jwt_key (co_store c)) as Hk by (pose proof (cred_step_key (co_store c) OpInvalidate) as Hk; cbn in Hk; by rewrite Hi in Hk).
  pose proof (invalidate_spec _ _ _ Hwf Hi) as Hs. cbn [fst] in *. destruct r as [u|e].
  - destruct Hs as (a0 & Ha0 & Hs). split; cbn [co_store set_store co_settings pending]; [by rewrite Hk| |done|].
    + intros a Ha. destruct (Hs a Ha) as (_ & -> & ->). by apply Hpol.
    + intros a Ha He. destruct (Hs a Ha) as (Hd & _). congruence.
  - subst s. by split.
Qed.

Lemma sound_closed old action : closed action (sound old).
Proof.
  split.
  - intros c tr id p Hs. apply (so_pending _ _ _ Hs).
  - intros c tr new [Hwf Hpol Hpen Hau]. split; [done..|]. intros a Ha He.
    destruct (Hau a Ha He) as [?|(se & b & r & v & -> & ?)]; [by left|]. right. exists se, b, (r ++ new), v. by rewrite app_assoc.
  - intros c c' tr (Hst & Hse & Hpn) [Hwf Hpol Hpen Hau]. split; rewrite ?Hst, ?Hse; [done..| |done].
    intros id p' Hp'. destruct (Hpn id p' Hp') as [?|(p & Hp & Hch)]; [done|].
    destruct (Hpen id p Hp) as [n Hn]. exists n. by rewrite Hch.
  - intros op c tr Hop Hok _ [Hwf Hpol Hpen Hau]. destruct (cred_step_keeps (co_store c) op Hop) as [Hrow _].
    split; cbn [co_store set_store co_settings pending]; [|intros a Ha; apply Hpol; by eapply stored_same|done|
      intros a Ha; apply Hau; by eapply stored_same].
    rewrite cred_step_key. by apply cred_step_wf.
  - intros c tr _. apply sound_invalidate.
  - intros c tr v a _ _ _ _. apply sound_invalidate.
  - intros c tr v i now draw Hv Hfid Hi Hnow Hdraw Hs. pose proof Hs as [Hwf Hpol Hpen Hau].
    pose proof (verified_fid _ _ _ Hv) as Hu.
    pose proof (cred_step_wf (co_store c) (OpBind now draw (vi_fid v) (fingerprint v) i) (conj Hnow (conj Hdraw Hu)) Hwf) as Hwf'.
    rewrite <-(cred_step_key (co_store c) (OpBind now draw (vi_fid v) (fingerprint v) i)) in Hwf'. cbn [cred_step] in Hwf'.
    destruct (bind_verified _ _ _ _ _ _) as [s r] eqn:Hb.
    pose proof (bind_verified_spec _ _ _ _ _ _ _ _ Hnow Hdraw Hu Hwf Hb) as Hspec. cbn [fst] in *.
    destruct r as [a|e]; [|subst s; destruct c; exact Hs].
    destruct Hspec as (Ha & Hf & Hid & Haut & He & _). 
    assert (∀ a', stored_account (db s) a' → a' = a) as Huniq by (intros a' Ha'; by eapply stored_account_unique).
    split; cbn [co_store set_store co_settings pending]; [done| |done|].
    + intros a' ->%Huniq. by rewrite Hf, Hid.
    + intros a' ->%Huniq _. right. exists (co_settings c), tr, [], v. rewrite app_nil_r, Hid. by split_and!.
Qed.

(** ** The service as a transition system *)

(** A request that finds the core free or not, or a change of the settings
    that the configuration guard accepts. *)
Inductive node_step (w : World) : World → Prop :=
| step_request locked action : node_step w (node_execute peer clock random trouble locked action w).2
| step_configure settings : check false (w_core w) settings = Ok () → node_step w (set_core (apply settings (w_core w)) w).

Definition sound_world (old : option string) (w : World) : Prop := sound old (w_core w) (w_trace w).

Lemma policy_checked d settings : (account_row d = None ∨ ∃ a, stored_account d a) →
  ∀ r, load_account d = Ok r →
  (∀ a, r = Some a → as_allowed_fid settings = Some (fid a) ∧ account_identity settings = Ok (identity a)) →
  ∀ a, stored_account d a → as_allowed_fid settings = Some (fid a) ∧ account_identity settings = Ok (identity a).
Proof.
  intros Hw r Hl Hr a Ha. apply load_account_stored in Hl; [|done]. destruct r as [a'|].
  - rewrite (stored_account_unique _ _ _ Ha Hl). by apply Hr.
  - destruct Ha as (k & Hrow & _). congruence.
Qed.

Lemma check_policy old c tr settings : sound old c tr → check false c settings = Ok () → sound old (apply settings c) tr.
Proof.
  intros [Hwf Hpol Hpen Hau] Hc. unfold apply. case_bool_decide; [done|].
  split; cbn [co_store co_settings pending]; [done| |by intros id p|done].
  unfold check, read_account in Hc. inv_result. match goal with Hl : account _ = Ok ?r |- _ => 
    apply (policy_checked _ _ (wf_account _ _ Hwf) r Hl) end.
  intros a ->. inv_result. boolify. by subst.
Qed.

Lemma step_sound old w w' : sound_world old w → node_step w w' → sound_world old w'.
Proof.
  intros Hs [locked action|settings Hc]; [|by apply check_policy].
  destruct (node_execute _ _ _ _ _ _ _) as [r w1] eqn:Hn.
  apply node_execute_spec in Hn as [(_ & _ & ->)|(r1 & w2 & event & _ & He & _ & Hc & Htr & _)]; [done|].
  pose proof (execute_preserves action _ (sound_closed old action) w Hs) as Hp. rewrite He in Hp.
  unfold sound_world. cbn [snd]. rewrite Hc, Htr.
  apply (cl_volatile _ _ (sound_closed old action) (w_core w2)); [by apply volatile_same|by destruct r1].
Qed.

Lemma opened_sound settings store core tr : db_wf (jwt_key store) (db store) → node_open settings (Ok store) = Some core →
  ∃ old, sound old core tr ∧
    ∀ au, old = Some au → ∃ a0, stored_account (db store) a0 ∧ enabled a0 = true ∧ authority a0 = au.
Proof.
  intros Hwf Ho. unfold node_open in Ho.
  destruct (account_validate settings) as [u|]; [|done]. cbn [result_ok mbind option_bind] in Ho.
  destruct (account store) as [r|] eqn:Hl; [|done]. cbn [result_ok mbind option_bind] in Ho.
  assert (Hcore : core = new_core settings store ∧
    ∀ a, r = Some a → as_allowed_fid settings = Some (fid a) ∧ account_identity settings = Ok (identity a)).
  { destruct r as [a|]; [|by injection Ho as <-]. destruct (account_identity settings) as [i|]; [|done].
    cbn [result_ok mbind option_bind] in Ho. destruct (_ && _) eqn:Hc; [|done]. boolify. injection Ho as <-.
    split; [done|]. intros a' [= <-]. by subst. }
  destruct Hcore as [-> Hpol]. pose proof (policy_checked _ settings (wf_account _ _ Hwf) r Hl Hpol) as Hp.
  destruct (wf_account _ _ Hwf) as [Hnone|[a0 Ha0]].
  - exists None. split; [|done]. split; cbn; [done|done|done|]. intros a (k & Hrow & _). congruence.
  - exists (if enabled a0 then Some (authority a0) else None). split.
    + split; cbn; [done|done|done|]. intros a Ha He. left. by rewrite (stored_account_unique _ _ _ Ha0 Ha), He.
    + intros au. destruct (enabled a0) eqn:He; intros [= <-]. by exists a0.
Qed.

Lemma run_sound old w w' : rtc node_step w w' → sound_world old w → sound_world old w'.
Proof. induction 1 as [w|w w1 w2 Hst _ IH]; [done|]. intros Hs. apply IH. by eapply step_sound. Qed.

(** The address to which a sign-in consents is the account's own service. *)
Lemma client_uri self c i : client self = Ok c → account_identity (co_settings self) = Ok i →
  cfg_uri (client_config c) = service_url i +:+ "/account".
Proof.
  unfold client, account_identity, origin, FarcasterClient.new. intros Hc Hi. inv_result. 
  cbn [client_config cfg_uri service_url]. congruence.
Qed.

(** What a verified sign-in means. *)
Lemma verified_consent settings tr v i : verified_in settings tr v → account_identity settings = Ok i →
  ∃ c proof p ch t n before new, tr = before ++ new ∧ ch_nonce ch = hex_encode (random n) ∧ claims proof p ∧
    consents (pp_message p) ch (cfg_domain (client_config c)) (service_url i +:+ "/account") t ∧
    authority_evidence c new p t v.
Proof.
  intros (self & c & proof & ch & t & before & n & <- & Hcl & Hv & Hn) Hi. unfold verify in Hv. inv_net.
  match goal with Hp : parse _ _ _ _ _ = Ok ?p |- _ => apply parse_sound in Hp as (Hco & Hc & _) end.
  match goal with Ha : verify_authority _ _ _ _ _ _ = _ |- _ => apply verify_authority_local in Ha as (new & -> & Hev & _) end.
  rewrite (client_uri _ _ _ Hcl Hi) in Hco. do 8 eexists. split_and!; done.
Qed.

(** C1: however the service is used and configured after it was opened, a
    stored account has the FID and the identity the settings permit.  If it is
    enabled, it was enabled with the same authority when the service opened,
    or someone signed in since: the holder of an address consented, for the
    account's own service URL, to a challenge whose nonce this service drew,
    and the chain attested at one finalized block that the address stands for
    that FID. *)
Theorem enabled_account_signed_in settings store core w0 w a :
  db_wf (jwt_key store) (db store) → node_open settings (Ok store) = Some core → w_core w0 = core →
  rtc node_step w0 w → stored_account (db (co_store (w_core w))) a →
  as_allowed_fid (co_settings (w_core w)) = Some (fid a) ∧ account_identity (co_settings (w_core w)) = Ok (identity a) ∧
  (enabled a = true →
    (∃ a0, stored_account (db store) a0 ∧ enabled a0 = true ∧ authority a0 = authority a) ∨
    ∃ c proof p ch t n v before new rest, w_trace w = before ++ new ++ rest ∧
      ch_nonce ch = hex_encode (random n) ∧ claims proof p ∧
      consents (pp_message p) ch (cfg_domain (client_config c)) (service_url (identity a) +:+ "/account") t ∧
      authority_evidence c new p t v ∧ vi_fid v = fid a ∧ fingerprint v = authority a).
Proof.
  intros Hwf Ho Hcore Hrun Ha.
  destruct (opened_sound settings store core (w_trace w0) Hwf Ho) as (old & Hs & Hold). rewrite <-Hcore in Hs.
  destruct (run_sound old w0 w Hrun Hs) as [_ Hpol _ Hau]. destruct (Hpol a Ha) as [Hf Hi]. split_and!; [done|done|].
  intros He. destruct (Hau a Ha He) as [->|(se & b & rest & v & Htr & Hv & Hid & Hvf & Hva)]; [left; by apply Hold|right].
  destruct (verified_consent _ _ _ _ Hv Hid) as (c & proof & p & ch & t & n & before & new & -> & Hn & Hcl & Hco & Hev).
  rewrite <-app_assoc in Htr. do 10 eexists. split_and!; done.
Qed.

(** ** Losing credentials *)

(** What an account keeps: it stays enabled with its authority, and so do the
    passwords the action does not revoke. *)
Definition kept (action : Action) (d d' : Db) : Prop :=
  (∀ a, stored_account d a → enabled a = true →
     ∃ a', stored_account d' a' ∧ enabled a' = true ∧ authority a' = authority a ∧ fid a' = fid a) ∧
  (∀ name row, passwords d !! name = Some row → (∀ token, action ≠ Revoke token name) →
     passwords d' !! name = Some row).

(** Exchanges made since [tr0] denied the authority of the account, or
    verified a sign-in for its FID with another authority. *)
Definition lost (tr0 tr : list Exchange) (d : Db) : Prop :=
  ∃ during rest, tr = tr0 ++ during ++ rest ∧
    (denied (tr0 ++ during) ∨
     ∃ se v a, verified_in se (tr0 ++ during) v ∧ stored_account d a ∧ vi_fid v = fid a ∧ fingerprint v ≠ authority a).

Section keeping.
Context (action : Action) (old : option string) (d0 : Db) (key : bytes) (tr0 : list Exchange) (Hwf0 : db_wf key d0).

Definition keeping : Assertion := λ c tr,
  sound old c tr ∧ (∃ during, tr = tr0 ++ during) ∧ (kept action d0 (db (co_store c)) ∨ lost tr0 tr d0).

Lemma kept_refl : kept action d0 d0.
Proof. split; [|done]. intros a Ha He. by exists a. Qed.

(** Without an enabled account there is nothing to lose. *)
Lemma nothing_to_lose d : (∀ a, stored_account d0 a → enabled a = false) → kept action d0 d.
Proof.
  intros Hdis. split; [intros a Ha He; by rewrite Hdis in He|]. intros name row Hn _.
  assert (passwords d0 = ∅) as He; [|by rewrite He in Hn].
  destruct (wf_account _ _ Hwf0) as [Hnone|[a Ha]]; [by apply (wf_unbound _ _ Hwf0)|].
  apply (wf_enabled _ _ Hwf0 a Ha), Hdis, Ha.
Qed.

Lemma enabled_or_nothing : (∃ a, stored_account d0 a ∧ enabled a = true) ∨ ∀ a, stored_account d0 a → enabled a = false.
Proof.
  destruct (wf_account _ _ Hwf0) as [Hnone|[a Ha]].
  - right. intros a (k & Hrow & _). congruence.
  - destruct (enabled a) eqn:He; [left; by exists a|right]. intros a' Ha'. by rewrite (stored_account_unique _ _ _ Ha' Ha).
Qed.

Lemma lost_now during : denied (tr0 ++ during) ∨
    (∃ se v a, verified_in se (tr0 ++ during) v ∧ stored_account d0 a ∧ vi_fid v = fid a ∧ fingerprint v ≠ authority a) →
  lost tr0 (tr0 ++ during) d0.
Proof. intros Hl. exists during, []. by rewrite app_nil_r. Qed.

Lemma keeping_store op c tr : changes_account op = false → op_ok op → revokes action op →
  keeping c tr → keeping (set_store (cred_step (co_store c) op) c) tr.
Proof.
  intros Hop Hok Hrev (Hs & Hd & Hk). split_and!; [by apply (cl_store _ _ (sound_closed old action))|done|].
  destruct Hk as [[Hacc Hpw]|Hl]; [left|by right]. destruct (cred_step_keeps (co_store c) op Hop) as [Hrow Hkeep].
  split; cbn [co_store set_store].
  - intros a Ha He. destruct (Hacc a Ha He) as (a' & Ha' & ?). exists a'. split; [|done]. by eapply stored_same.
  - intros name row Hn Hnr. apply Hkeep; [by apply Hpw|]. intros ->. cbn in Hrev. destruct Hrev as [token ->].
    by apply (Hnr token).
Qed.

Lemma keeping_replaced c tr v a : verified_in (co_settings c) tr v → as_allowed_fid (co_settings c) = Some (vi_fid v) →
  CredStore.account (co_store c) = Ok (Some a) → authority a ≠ fingerprint v →
  keeping c tr → keeping (set_store (invalidate_authority (co_store c)).1 c) tr.
Proof.
  intros Hv Hfid Hacc Hne (Hs & [during ->] & Hk). split_and!; [by apply sound_invalidate|by eexists|].
  destruct Hk as [[Hkeep _]|Hl]; [|by right].
  destruct enabled_or_nothing as [(a0 & Ha0 & He0)|Hdis]; [|left; by apply nothing_to_lose].
  right. apply lost_now. right. exists (co_settings c), v, a0. destruct (Hkeep a0 Ha0 He0) as (a' & Ha' & _ & Hau & Hf).
  apply load_account_stored in Hacc; [|apply (so_wf _ _ _ Hs)].
  rewrite (stored_account_unique _ _ _ Hacc Ha') in Hne.
  destruct (so_policy _ _ _ Hs a' Ha') as [Hpf _]. rewrite Hfid in Hpf. injection Hpf as Hpf.
  split_and!; [done|done|congruence|congruence].
Qed.

Lemma keeping_bound c tr v i now draw : verified_in (co_settings c) tr v → as_allowed_fid (co_settings c) = Some (vi_fid v) →
  account_identity (co_settings c) = Ok i → is_u64 now → len draw = 32 →
  keeping c tr → keeping (set_store (bind_verified now draw (vi_fid v) (fingerprint v) i (co_store c)).1 c) tr.
Proof.
  intros Hv Hfid Hi Hnow Hdraw (Hs & Hd & Hk).
  split_and!; [by apply (cl_bound _ _ (sound_closed old action))|done|]. destruct Hk as [[Hacc Hpw]|Hl]; [left|by right].
  destruct (bind_verified _ _ _ _ _ _) as [s r] eqn:Hb. cbn [fst co_store set_store].
  pose proof (bind_verified_spec _ _ _ _ _ _ _ _ Hnow Hdraw (verified_fid _ _ _ Hv) (so_wf _ _ _ Hs) Hb) as Hspec.
  destruct r as [a|e]; [|by subst s].
  destruct Hspec as (Ha & Hf & _ & Hau & He & Hold & Hpws). split; [|by rewrite Hpws].
  intros a0 Ha0 He0. destruct (Hacc a0 Ha0 He0) as (a' & Ha' & He' & Hau' & Hf').
  destruct (Hold a' Ha') as (Hof & _ & Hoa). specialize (Hoa He'). exists a. split_and!; congruence.
Qed.

Lemma keeping_closed : closed action keeping.
Proof.
  split.
  - intros c tr id p (Hs & _). apply (so_pending _ _ _ Hs).
  - intros c tr new (Hs & [during ->] & Hk). split_and!.
    + by apply (cl_trace _ _ (sound_closed old action)).
    + rewrite <-app_assoc. by eexists.
    + destruct Hk as [Hk|(b & rest & Htr & Hl)]; [by left|right]. exists b, (rest ++ new).
      split; [|done]. by rewrite Htr, !app_assoc.
  - intros c c' tr Hvol (Hs & Hd & Hk). pose proof Hvol as (Hst & _).
    split_and!; [by apply (cl_volatile _ _ (sound_closed old action) c)|done|by rewrite Hst].
  - apply keeping_store.
  - intros c tr Hd (Hs & [during ->] & _). split_and!; [by apply sound_invalidate|by eexists|].
    right. apply lost_now. by left.
  - apply keeping_replaced.
  - apply keeping_bound.
Qed.
End keeping.

End safety.
