(* ===== verification/AccountDemo.v ===== *)
(** * A concrete run of the account service

    A sign-in from the first request to an issued password, against a relay
    and a provider that answer in order, on which the theorems are tried. *)

From S2P Require Import Prelude RustStd IpAddr BTreeMap Externs Fixtures RepoSyntax RepoRecords RepoRecordSet RepoMst RepoCar Repository CredIdentity CredTokens CredStore CredProofs CredTheorems Http FarcasterMessage FarcasterClient FarcasterVerify FarcasterTheorems Settings AccountNode AccountExec AccountLogic AccountLimits AccountTheorems AccountSafety.

Definition run_settings : AccountSettings :=
  mkAccountSettings true "https://psky.example.org" (Some 7) "https://rpc.example.com".

(** Nine readings a second apart, then a pause longer than the cache. *)
Definition run_clock (n : nat) : Z :=
  1757900000 + (if (n <=? 8)%nat then Z.of_nat n else 100 + Z.min (Z.of_nat n) 1000).
Definition run_random (n : nat) : bytes := repeat (Z_byte (Z.of_nat n)) 32.
Definition run_token (n : nat) : string := hex_encode (run_random n).

Lemma run_clock_u64 n : is_u64 (run_clock n).
Proof.
  unfold run_clock. assert (0 ≤ (if (n <=? 8)%nat then Z.of_nat n else 100 + Z.min (Z.of_nat n) 1000) ≤ 1100).
  { destruct (Nat.leb_spec n 8); lia. }
  split; [lia|]. etrans; [apply (Z.add_le_mono_l _ 1100); lia|done].
Qed.
Lemma run_clock_mono i j : (i ≤ j)%nat → run_clock i ≤ run_clock j.
Proof. unfold run_clock. intros Hij. destruct (Nat.leb_spec i 8), (Nat.leb_spec j 8); lia. Qed.
Lemma run_random_len n : len (run_random n) = 32.
Proof. done. Qed.

Definition run_proof : SignedProof := mkSignedProof
  ("psky.example.org|" +:+ hex_encode w_owner +:+ "|Farcaster Auth|https://psky.example.org/account|10|" +:+
   run_token 0 +:+ "|1757900001|1757900300|farcaster://fid/7/")
  ("0x" +:+ hex_encode (w_owner ++ repeat x00 45)).

Definition chain_answers (number : string) : list Reply := w_rpc_answer <$>
  [JString "0xa";
   json_object [("number", JString number); ("hash", JString w_hash); ("timestamp", JString "0x68c76ce0")];
   JString "0x";
   JString ("0x" +:+ hex_encode (zeros 12 ++ w_owner));
   JString ("0x" +:+ hex_encode (zeros 64));
   JString ("0x" +:+ hex_encode (word 7))].

Definition run_peer : Peer := w_peer (
  [w_answer 201 (json_object
     [("channelToken", JString "channel-0001"); ("url", JString w_link); ("nonce", JString (run_token 0))]);
   w_answer 200 (json_object
     [("state", JString "completed"); ("message", JString (proof_message run_proof));
      ("signature", JString (proof_signature run_proof))])]
  ++ chain_answers "0x1f" ++ chain_answers "0x20").

Definition run_core : Core := new_core run_settings (fresh_store demo_jwt_key).
Definition run_start : World := mkWorld run_core [] 0 0 0 0.

Definition run_step (w : World) (action : Action) : World :=
  (node_execute run_peer run_clock run_random no_trouble false action w).2.
Definition run_result_of (w : World) (action : Action) : result Failure Json :=
  (node_execute run_peer run_clock run_random no_trouble false action w).1.

Definition run_started : World := run_step run_start Start.
Definition run_signed_in : World := run_step run_started (Poll (run_token 1) (run_token 2)).
Definition run_issued : World := run_step run_signed_in (Issue (run_token 4) "phone").

Example sign_in_completes :
  run_result_of run_started (Poll (run_token 1) (run_token 2)) =
    Ok (json_object [("status", JString "complete"); ("account_token", JString (run_token 4));
      ("fid", JNumber (PosInt 7)); ("handle", JString "psky.example.org");
      ("service_url", JString "https://psky.example.org"); ("expires_at", JNumber (PosInt 1757900602))]).
Proof. vm_compute. reflexivity. Qed.

(** Polling again is answered without another sign-in. *)
Example poll_is_idempotent :
  run_result_of run_signed_in (Poll (run_token 1) (run_token 2)) = run_result_of run_started (Poll (run_token 1) (run_token 2)) ∧
  length (w_trace (run_step run_signed_in (Poll (run_token 1) (run_token 2)))) = length (w_trace run_signed_in).
Proof. split; vm_compute; reflexivity. Qed.

(** When the database fails, no password is issued and nothing is lost. *)
Definition broken_database : Trouble := mkTrouble (λ _, None) (λ _, true).
Example database_failure_keeps_store :
  let '(r, w) := node_execute run_peer run_clock run_random broken_database false (Issue (run_token 4) "phone") run_signed_in in
  (match r with Err f => fail_status f | Ok _ => 200 end, bool_decide (account_row (db (co_store (w_core w))) =
    account_row (db (co_store (w_core run_signed_in)))), size (passwords (db (co_store (w_core w))))) = (500, true, 0%nat).
Proof. vm_compute. reflexivity. Qed.

(** ** Witnesses *)

Definition issue_run := execute run_peer run_clock run_random no_trouble (Issue (run_token 4) "phone") run_signed_in.
Definition issued_value : Json :=
  json_object [("created_at", JNumber (PosInt 1757900112)); ("handle", JString "psky.example.org");
    ("name", JString "phone"); ("password", JString ("psky-" +:+ b64_url_encode (run_random 5)));
    ("service_url", JString "https://psky.example.org")].

Lemma issue_run_ok : issue_run = (Ok issued_value, issue_run.2).
Proof. apply run_result. vm_compute. reflexivity. Qed.


Definition login_requests : list (bool * Action) :=
  [(false, Login "psky.example.org" "guess"); (true, Login "psky.example.org" "guess"); (false, Describe)].


Abbreviation run_node_step := (node_step run_peer run_clock run_random no_trouble).

Lemma run_reaches : rtc run_node_step run_start run_signed_in.
Proof.
  apply (rtc_l _ _ run_started); [apply (step_request _ _ _ _ _ false Start)|].
  apply rtc_once, (step_request _ _ _ _ _ false (Poll (run_token 1) (run_token 2))).
Qed.

Lemma run_opens : node_open run_settings (Ok (fresh_store demo_jwt_key)) = Some run_core.
Proof. vm_compute. reflexivity. Qed.

Lemma run_account : ∃ a, stored_account (db (co_store (w_core run_signed_in))) a ∧ enabled a = true.
Proof.
  destruct (enabled_account (db (co_store (w_core run_signed_in)))) as [a|e] eqn:Ha; [|vm_compute in Ha; discriminate Ha].
  exists a. apply (enabled_account_stored _ _); [|exact Ha].
  destruct (opened_sound run_peer run_random run_settings (fresh_store demo_jwt_key) run_core [] (fresh_wf demo_jwt_key) run_opens)
    as (old & Hs & _).
  apply (wf_account (jwt_key (co_store (w_core run_signed_in)))).
  eapply so_wf; exact (run_sound run_peer run_clock run_random no_trouble run_clock_u64 run_random_len old
    run_start run_signed_in run_reaches Hs).
Qed.

Lemma enabled_account_signed_in_witness : ∃ a,
  as_allowed_fid (co_settings (w_core run_signed_in)) = Some (fid a) ∧ enabled a = true ∧
  ∃ c proof p ch t n v before new rest, w_trace run_signed_in = before ++ new ++ rest ∧
    ch_nonce ch = hex_encode (run_random n) ∧ claims proof p ∧
    consents (pp_message p) ch (cfg_domain (client_config c)) (service_url (identity a) +:+ "/account") t ∧
    authority_evidence c new p t v ∧ vi_fid v = fid a ∧ fingerprint v = authority a.
Proof.
  destruct run_account as (a & Ha & He).
  pose proof (enabled_account_signed_in run_peer run_clock run_random no_trouble run_clock_u64 run_random_len
    run_settings (fresh_store demo_jwt_key) run_core run_start run_signed_in a (fresh_wf demo_jwt_key) run_opens) as H.
  specialize (H eq_refl run_reaches). specialize (H Ha). destruct H as (Hf & _ & H).
  exists a. split; [exact Hf|]. split; [exact He|]. destruct (H He) as [(a0 & (k & Hrow & _) & _)|Hs]; [discriminate Hrow|exact Hs].
Defined.

