(* ===== verification/ReportJson.v ===== *)
(** * Preflight reports as JSON values ([serde_json::to_value] of the structs of
    [crates/psky-hypersnap/src/lib.rs]) *)

From S2P Require Import Prelude RustStd BTreeMap Externs Http Hypersnap.

Definition json_opt {A} (f : A → Json) (o : option A) : Json := from_option f JNull o.
Definition json_nat (n : Z) : Json := JNumber (PosInt n).

Definition compatibility_name (c : Compatibility) : string :=
  match c with Compatible => "compatible" | Incompatible => "incompatible" | CompatUnknown => "unknown" end.
Definition freshness_name (f : Freshness) : string :=
  match f with Fresh => "fresh" | Lagging => "lagging" | FreshUnknown => "unknown" end.
Definition failure_name (f : Failure) : string :=
  match f with
  | Timeout => "timeout" | Transport => "transport" | Redirect => "redirect" | Unavailable => "unavailable"
  | HttpStatus => "http_status" | Oversized => "oversized" | Malformed => "malformed"
  end.

Definition ser_request_evidence (e : RequestEvidence) : Json :=
  json_object [("route", JString (ev_route e)); ("status", json_opt json_nat (ev_status e));
    ("response_bytes", json_nat (ev_response_bytes e));
    ("failure", json_opt (λ f, JString (failure_name f)) (ev_failure e))].
Definition ser_shard_info (s : ShardInfo) : Json :=
  json_object [("shard_id", json_nat (shard_id s)); ("max_height", json_nat (max_height s));
    ("block_delay_seconds", json_nat (block_delay_seconds s));
    ("num_messages", json_opt json_nat (shard_num_messages s))].
Definition ser_node_info (i : NodeInfo) : Json :=
  json_object [("version", JString (version i)); ("num_shards", json_nat (num_shards i));
    ("num_messages", json_opt json_nat (num_messages i)); ("peer_id", json_opt JString (peer_id i));
    ("shard_infos", JArray (ser_shard_info <$> shard_infos i))].
Definition ser_store_limit (l : StoreLimit) : Json :=
  json_object [("name", JString (sl_name l)); ("limit", json_nat (sl_limit l)); ("used", json_nat (sl_used l))].
Definition ser_storage (s : StorageAllocation) : Json :=
  json_object [("units", json_nat (units s)); ("limits", JArray (ser_store_limit <$> limits s))].
Definition ser_authority (a : AuthorityObservation) : Json :=
  json_object [("registry_events", json_nat (registry_events a));
    ("reported_custody", json_opt JString (reported_custody a)); ("verified", JBool (verified a))].
Definition ser_node_report (n : NodeReport) : Json :=
  json_object [("endpoint", JString (nr_endpoint n)); ("info", json_opt ser_node_info (nr_info n));
    ("reachable", JBool (nr_reachable n)); ("protocol", JString (compatibility_name (nr_protocol n)));
    ("network", JString (compatibility_name (nr_network n))); ("freshness", JString (freshness_name (nr_freshness n)));
    ("peer_unique", json_opt JBool (nr_peer_unique n)); ("healthy", JBool (nr_healthy n));
    ("observed_network", json_opt (λ w, JString (network_to_string w)) (nr_observed_network n));
    ("storage", json_opt ser_storage (nr_storage n)); ("authority", json_opt ser_authority (nr_authority n));
    ("requests", JArray (ser_request_evidence <$> nr_requests n))].
Definition ser_preflight_report (r : PreflightReport) : Json :=
  json_object [("expected_network", JString (network_to_string (pr_expected_network r)));
    ("test_fid", json_opt json_nat (pr_test_fid r)); ("compatible", JBool (pr_compatible r));
    ("healthy", JBool (pr_healthy r)); ("max_block_delay_seconds", json_nat (pr_max_block_delay_seconds r));
    ("distinct_peer_count", json_nat (pr_distinct_peer_count r));
    ("ready_for_reconstruction", JBool (pr_ready_for_reconstruction r));
    ("nodes", JArray (ser_node_report <$> pr_nodes r)); ("limitations", JArray (JString <$> pr_limitations r))].

(** [report["healthy"].as_bool().unwrap_or(false)] *)
Definition report_healthy (report : Json) : bool := default false (json_get "healthy" report ≫= as_bool).

Lemma report_healthy_sound r : report_healthy (ser_preflight_report r) = pr_healthy r.
Proof. reflexivity. Qed.
