(* ===== verification/Lab.v ===== *)
(** * The offline laboratory ([crates/psky/src/lab.rs])

    Deterministic fixture records, their signed export, and the experiment that
    reconstructs two revisions in two worker directories. *)

From S2P Require Import Prelude RustStd BTreeMap Externs Fixtures RepoSyntax RepoRecords RepoRecordSet RepoMst RepoCar Repository.

Definition FIXTURE_DID : string := "did:plc:aaaaaaaaaaaaaaaaaaaaaaaa".
Definition FIRST_REV : string := "3lcyfmqxq2k22".
Definition SECOND_REV : string := "3lcyfmqxq2k23".
Definition FIXTURE_KEY : bytes := repeat x07 32.

Record LabReport := mkLabReport {
  mode : string;
  network_proof : bool;
  lab_did : string;
  first_car_sha256 : string;
  second_car_sha256 : string;
  exports_checked : Z;
  lab_signer : string
}.

(** [serde_json::to_value], and the struct as it is written. *)
Definition lab_fields (r : LabReport) : list (string * Json) :=
  [("mode", JString (mode r)); ("network_proof", JBool (network_proof r)); ("did", JString (lab_did r));
   ("first_car_sha256", JString (first_car_sha256 r)); ("second_car_sha256", JString (second_car_sha256 r));
   ("exports_checked", JNumber (PosInt (exports_checked r))); ("signer", JString (lab_signer r))].

Inductive LabError :=
| LabIo (path : string)
| LabRepo (e : Repo.Error)
| LabDiverged (message : string).

Section lab.
Context {SHA : Sha256} {CID : CidLib} {HDC : DagCbor} {ECD : Ecdsa} {HEX : HexLib}
  {B64S : Base64Std} {RAW : JsonDocument}.

Definition fixture_post (text created_at : string) : Json :=
  json_object [("$type", JString "app.bsky.feed.post"); ("text", JString text); ("createdAt", JString created_at)].

(** [records.put(...)?] *)
Definition try_put (path : string) (value : Json) (records : RecordSet) : result Repo.Error RecordSet :=
  let '(records, r) := RepoRecordSet.put path value records in _ ← r; Ok records.

Definition fixture_records (second : bool) : result Repo.Error RecordSet :=
  records ← try_put "app.bsky.feed.post/3lcyfmqxq2k22"
    (fixture_post "PurpleSky offline reconstruction fixture." "2026-09-15T00:00:00Z") RepoRecordSet.new;
  if second then
    try_put "app.bsky.feed.post/3lcyfmqxq2k23"
      (fixture_post "A second fixture mutation, reconstructed on another worker." "2026-09-15T00:00:01Z") records
  else Ok records.

Definition fixture_car (second : bool) : result Repo.Error bytes :=
  signer ← signer_from_bytes FIXTURE_KEY;
  records ← fixture_records second;
  repo ← Repository.build FIXTURE_DID (if second then SECOND_REV else FIRST_REV) records signer;
  _ ← Repository.verify repo (public_key_sec1 signer);
  to_car repo.

(** ** The experiment *)

(** The files written below the output directory.  [broken path]: creating or
    writing [path] fails. *)
Definition LabM (A : Type) := gmap string bytes → result LabError A * gmap string bytes.

#[export] Instance lab_ret : MRet LabM := λ A a files, (Ok a, files).
#[export] Instance lab_bind : MBind LabM := λ A B f m files,
  match m files with (Ok a, files) => f a files | (Err e, files) => (Err e, files) end.

Context (broken : string → bool).

Definition lab_result {A} (r : result LabError A) : LabM A := λ files, (r, files).
Definition create_dir (path : string) : LabM () := λ files, (reject_if (broken path) (LabIo path), files).
Definition write (path : string) (contents : bytes) : LabM () := λ files,
  if broken path then (Err (LabIo path), files) else (Ok (), <[path := contents]> files).
Definition ensure (b : bool) (message : string) : LabM () := lab_result (reject_if (negb b) (LabDiverged message)).
Definition car (second : bool) : LabM bytes := lab_result (map_err LabRepo (fixture_car second)).

Definition sha256_hex (b : bytes) : string := hex_encode (sha256 b).

(** [run]: the empty path is the output directory itself, which must be new. *)
Definition run : LabM LabReport :=
  _ ← create_dir "";
  _ ← create_dir "worker-a"; _ ← create_dir "worker-b";
  a_first ← car false;
  _ ← write "worker-a/rev-1.car" a_first;
  b_first ← car false;
  _ ← ensure (bool_decide (a_first = b_first)) "first revision diverged";
  _ ← write "worker-b/rev-1.car" b_first;
  b_second ← car true;
  _ ← write "worker-b/rev-2.car" b_second;
  a_second ← car true;
  _ ← ensure (bool_decide (a_second = b_second)) "second revision diverged";
  _ ← ensure (negb (bool_decide (a_first = a_second))) "second mutation did not change export";
  _ ← write "worker-a/rev-2.car" a_second;
  signer ← lab_result (map_err LabRepo (signer_from_bytes FIXTURE_KEY));
  _ ← write "public-key.hex" (as_bytes (hex_encode (public_key_sec1 signer)));
  let report := mkLabReport "offline-fixture" false FIXTURE_DID (sha256_hex a_first) (sha256_hex a_second) 4
    "public fixture key; no protected signer or FID authorization" in
  _ ← write "report.json" (json_to_vec_pretty (JObject (lab_fields report)));
  mret report.

(** ** The experiment is reproducible *)

Lemma lab_bind_ok {A B} (m : LabM A) (f : A → LabM B) files b files' :
  (m ≫= f) files = (Ok b, files') ↔ ∃ a files1, m files = (Ok a, files1) ∧ f a files1 = (Ok b, files').
Proof. unfold mbind, lab_bind. destruct (m files) as [[a|e] files1]; naive_solver. Qed.
Lemma lab_bind_err {A B} (m : LabM A) (f : A → LabM B) files e files' :
  (m ≫= f) files = (Err e, files') ↔
  m files = (Err e, files') ∨ ∃ a files1, m files = (Ok a, files1) ∧ f a files1 = (Err e, files').
Proof. unfold mbind, lab_bind. destruct (m files) as [[a|e1] files1]; naive_solver. Qed.
Lemma lab_result_ok {A} (r : result LabError A) files a files' :
  lab_result r files = (Ok a, files') ↔ r = Ok a ∧ files' = files.
Proof. unfold lab_result. naive_solver. Qed.
Lemma write_ok path contents files u files' :
  write path contents files = (Ok u, files') ↔ broken path = false ∧ files' = <[path := contents]> files.
Proof. unfold write. destruct (broken path), u; naive_solver. Qed.
Lemma create_dir_ok path files u files' : create_dir path files = (Ok u, files') ↔ broken path = false ∧ files' = files.
Proof. unfold create_dir. destruct (broken path), u; naive_solver. Qed.

Lemma car_ok second files b files' : car second files = (Ok b, files') ↔ fixture_car second = Ok b ∧ files' = files.
Proof. unfold car. rewrite lab_result_ok. destruct (fixture_car second); naive_solver. Qed.
Lemma ensure_ok b message files u files' : ensure b message files = (Ok u, files') ↔ b = true ∧ files' = files.
Proof. unfold ensure. rewrite lab_result_ok. destruct b, u; naive_solver. Qed.

(** The errors a step may end with. *)
Definition lab_fails {A} (P : LabError → Prop) (m : LabM A) : Prop := ∀ files e files', m files = (Err e, files') → P e.
Lemma lab_fails_bind {A B} P (m : LabM A) (f : A → LabM B) :
  lab_fails P m → (∀ a, lab_fails P (f a)) → lab_fails P (m ≫= f).
Proof. intros Hm Hf files e files' [H|(a & files1 & _ & H)]%lab_bind_err; [by eapply Hm|by eapply Hf]. Qed.
(** The continuation sees only results the step can have. *)
Lemma lab_fails_bind_ok {A B} (P : LabError → Prop) (m : LabM A) (f : A → LabM B) :
  lab_fails P m → (∀ a files files', m files = (Ok a, files') → lab_fails P (f a)) → lab_fails P (m ≫= f).
Proof. intros Hm Hf files e files' [H|(a & files1 & Ha & H)]%lab_bind_err; [by eapply Hm|by eapply Hf]. Qed.

Definition not_diverged (e : LabError) : Prop :=
  match e with LabDiverged message => message = "second mutation did not change export" | _ => True end.

Lemma io_fails (m : LabM ()) : (∀ files e files', m files = (Err e, files') → ∃ path, e = LabIo path) → lab_fails not_diverged m.
Proof. intros Hm files e files' He. by destruct (Hm _ _ _ He) as [path ->]. Qed.
Lemma create_dir_fails path : lab_fails not_diverged (create_dir path).
Proof. apply io_fails. unfold create_dir. intros files e files'. destruct (broken path); intros [= <- _]; eauto. Qed.
Lemma write_fails path contents : lab_fails not_diverged (write path contents).
Proof. apply io_fails. unfold write. intros files e files'. destruct (broken path); intros [= <- _]; eauto. Qed.
Lemma repo_fails {A} (r : result Repo.Error A) : lab_fails not_diverged (lab_result (map_err LabRepo r)).
Proof. intros files e files'. unfold lab_result. destruct r; [done|]. by intros [= <- _]. Qed.
Lemma ensure_fails b message : b = true ∨ message = "second mutation did not change export" →
  lab_fails not_diverged (ensure b message).
Proof. intros Hb files e files'. unfold ensure, lab_result. destruct b; [done|]. intros [= <- _]. by destruct Hb. Qed.

Lemma run_fails : lab_fails not_diverged run.
Proof.
  unfold run. do 3 (apply lab_fails_bind; [apply create_dir_fails|intros _]).
  apply lab_fails_bind_ok; [apply repo_fails|]. intros a_first ? ? [Ha _]%car_ok.
  apply lab_fails_bind; [apply write_fails|intros _].
  apply lab_fails_bind_ok; [apply repo_fails|]. intros b_first ? ? [Hb _]%car_ok.
  apply lab_fails_bind; [apply ensure_fails; left; apply bool_decide_true; congruence|intros _].
  apply lab_fails_bind; [apply write_fails|intros _].
  apply lab_fails_bind_ok; [apply repo_fails|]. intros b_second ? ? [Hb2 _]%car_ok.
  apply lab_fails_bind; [apply write_fails|intros _].
  apply lab_fails_bind_ok; [apply repo_fails|]. intros a_second ? ? [Ha2 _]%car_ok.
  apply lab_fails_bind; [apply ensure_fails; left; apply bool_decide_true; congruence|intros _].
  apply lab_fails_bind; [apply ensure_fails; by right|intros _].
  apply lab_fails_bind; [apply write_fails|intros _].
  apply lab_fails_bind; [apply repo_fails|intros signer].
  apply lab_fails_bind; [apply write_fails|intros _]. apply lab_fails_bind; [apply write_fails|intros _]. by intros ? ? ?.
Qed.

(** What a successful experiment writes. *)
Definition reproduced (files : gmap string bytes) (report : LabReport) (first second : bytes) : Prop :=
  files !! "worker-a/rev-1.car" = Some first ∧ files !! "worker-b/rev-1.car" = Some first ∧
  files !! "worker-a/rev-2.car" = Some second ∧ files !! "worker-b/rev-2.car" = Some second ∧
  files !! "report.json" = Some (json_to_vec_pretty (JObject (lab_fields report))) ∧
  first_car_sha256 report = sha256_hex first ∧ second_car_sha256 report = sha256_hex second ∧
  network_proof report = false.

End lab.

(** The experiment completes, and stops at a directory it cannot create. *)
Example lab_completes : is_ok (run (λ _, false) ∅).1 = true.
Proof. vm_compute. reflexivity. Qed.
Example lab_stops : (run (λ path, bool_decide (path = "worker-b")) ∅).1 = Err (LabIo "worker-b").
Proof. vm_compute. reflexivity. Qed.
