(* ===== verification/FixtureExport.v ===== *)
(** * The fixture export ([crates/psky-repo/examples/export_fixture.rs])

    A program that writes a reproducible repository for readers in other
    languages: forty-one records under a public key, built, verified and
    exported, and a line that describes them. *)

From S2P Require Import Prelude RustStd BTreeMap Externs Fixtures RepoSyntax RepoRecords RepoRecordSet RepoMst RepoCar Repository Lab.

Inductive ExportError :=
| NoDestination
| ExportRepo (e : Repo.Error)
| ExportIo.

Section export.
Context {SHA : Sha256} {CID : CidLib} {HDC : DagCbor} {ECD : Ecdsa} {HEX : HexLib} {B64S : Base64Std}.

Definition export_post (n : Z) : Json :=
  json_object [("$type", JString "app.bsky.feed.post"); ("text", JString ("PurpleSky offline fixture " +:+ to_string n));
    ("createdAt", JString "2026-09-15T00:00:00Z")].

(** The posts [0..n] and the profile. *)
Definition export_posts (n : nat) : result Repo.Error RecordSet :=
  foldl (λ records n, records ← records; try_put ("app.bsky.feed.post/post" +:+ to_string n) (export_post n) records)
    (Ok RepoRecordSet.new) (Z.of_nat <$> seq 0 n).
Definition export_records : result Repo.Error RecordSet :=
  records ← export_posts 40;
  try_put "app.bsky.actor.profile/self"
    (json_object [("$type", JString "app.bsky.actor.profile"); ("displayName", JString "PurpleSky fixture")]) records.

Definition EXPORT_DID : string := "did:plc:abcdefghijklmnopqrstuvwx".
Definition EXPORT_REV : string := "3jzfcijpj2z2a".

Definition export_repository : result Repo.Error (Repository * RepoSigner) :=
  records ← export_records;
  signer ← signer_from_bytes (repeat x01 32);
  repo ← Repository.build EXPORT_DID EXPORT_REV records signer;
  _ ← Repository.verify repo (public_key_sec1 signer);
  Ok (repo, signer).

Definition export_line (path : string) (repo : Repository) (signer : RepoSigner) : Json :=
  json_object
    [("evidence", JString "offline_fixture_only"); ("car", JString path);
     ("did", JString (did repo)); ("revision", JString (revision repo));
     ("commit", JString (cid_to_string (root repo))); ("mst", JString (cid_to_string (mst_root repo)));
     ("records", JNumber (PosInt (rs_len (repo_records repo)))); ("blocks", JNumber (PosInt (block_count repo)));
     ("public_key_sec1_hex", JString (hex_encode (public_key_sec1 signer)))].

(** [main]: the file it writes and the line it prints.  [path] is its argument,
    [broken] says that the file cannot be written. *)
Definition export_main (path : option string) (broken : bool) : result ExportError (bytes * Json) :=
  path ← ok_or NoDestination path;
  '(repo, signer) ← map_err ExportRepo export_repository;
  car ← map_err ExportRepo (to_car repo);
  _ ← reject_if broken ExportIo;
  Ok (car, export_line path repo signer).

Context {HCID : CidLaws} {HCBOR : DagCborLaws} {HECD : EcdsaLaws} {HSHA : Sha256Laws}.

Lemma try_put_wf path value rs rs' : rs_wf rs → try_put path value rs = Ok rs' → rs_wf rs'.
Proof.
  intros Hwf Hp. unfold try_put in Hp. pose proof (put_wf path value rs Hwf) as Hw.
  destruct (RepoRecordSet.put path value rs) as [rs1 r]. by inv_result.
Qed.

Lemma export_posts_wf n rs : export_posts n = Ok rs → rs_wf rs.
Proof.
  revert rs. induction n as [|n IH]; intros rs; unfold export_posts; [intros [= <-]; apply new_wf|].
  rewrite seq_S, fmap_app, foldl_app. intros (rs0 & H0 & Hp)%bind_ok. eapply try_put_wf; [by apply IH|exact Hp].
Qed.

Lemma export_records_wf rs : export_records = Ok rs → rs_wf rs.
Proof. intros (rs0 & H0 & Hp)%bind_ok. eapply try_put_wf; [by eapply export_posts_wf|exact Hp]. Qed.

(** What the program writes is a complete export: a reader of the file alone
    recovers the commit it describes, every record and the tree. *)
Theorem exported_fixture_complete path broken car line : export_main path broken = Ok (car, line) → len car ≤ U64_MAX →
  broken = false ∧
  ∃ rs repo signer, export_records = Ok rs ∧ rs_wf rs ∧ Repository.build EXPORT_DID EXPORT_REV rs signer = Ok repo ∧
    Repository.verify repo (public_key_sec1 signer) = Ok () ∧ Some line = (λ path, export_line path repo signer) <$> path ∧
    ∀ b, encode (ser_signed (commit repo)) = Ok b → no_collision (repo_written rs (root repo) b) →
      ∃ bs, read_car car = Some ([root repo], 1, bs) ∧ head bs = Some (root repo, b) ∧ decode_signed b = Ok (commit repo).
Proof.
  unfold export_main, export_repository. intros Hm Hl. destruct path as [path|]; [|done]. inv_result.
  match goal with H : _ = Ok ?x |- _ => is_var x; destruct x as [repo signer] end. inv_result.
  split; [done|]. do 3 eexists. split_and!; [done|by eapply export_records_wf|done|done|done|].
  intros b Hb Hn. edestruct export_reads as (bs & ? & ? & ? & _); [by eapply export_records_wf|done..|]. by exists bs.
Qed.
End export.

(** On the concrete instances the program succeeds. *)
Definition export_described : option (option Z * option string) :=
  '(car, line) ← result_ok (export_main (Some "/tmp/fixture.car") false);
  Some (json_get "records" line ≫= as_u64, json_get "did" line ≫= as_str).
Example export_succeeds : export_described = Some (Some 41, Some "did:plc:abcdefghijklmnopqrstuvwx").
Proof. vm_compute. reflexivity. Qed.
