(* ===== verification/Console.v ===== *)
(** * The operator console ([crates/psky/src/server.rs])

    The control state behind its lock, the handlers of the management and the
    public listener, the background actions, and the shutdown. *)

From S2P Require Import Prelude RustStd IpAddr BTreeMap Externs Fixtures RepoSyntax RepoRecords RepoRecordSet RepoMst RepoCar Repository CredIdentity CredTokens CredStore Http FarcasterMessage FarcasterClient FarcasterVerify Settings ConfigStore AccountNode AccountExec Web AccountHttp Hypersnap Journal ReportJson Lab.

(** [ConsoleState]: the fields that never change. *)
Record ConsoleConfig := mkConsoleConfig {
  admin_addr : SocketAddr;
  public_addr : SocketAddr;
  admin_token : string;
  startup : Settings;
  instance_id : string
}.

(** [Control]; [ConfigStore] keeps its document, the directory is the node's. *)

Record Control := mkControl {
  ct_store : ConfigDocument;
  ct_preflight : option Json;
  preflight_revision : option Z;
  last_check_at : option Z;
  ct_lab : option Json;
  lab_revision : option Z;
  ct_journal : Journal;
  active : option Operation;
  recent : list Operation;
  next_operation : Z;
  shutting_down : bool
}.

Definition set_journal (j : Journal) (c : Control) : Control :=
  mkControl (ct_store c) (ct_preflight c) (preflight_revision c) (last_check_at c) (ct_lab c) (lab_revision c) j
    (active c) (recent c) (next_operation c) (shutting_down c).
Definition set_document (d : ConfigDocument) (c : Control) : Control :=
  mkControl d (ct_preflight c) (preflight_revision c) (last_check_at c) (ct_lab c) (lab_revision c) (ct_journal c)
    (active c) (recent c) (next_operation c) (shutting_down c).
Definition set_preflight (p : option Json) (revision time : option Z) (c : Control) : Control :=
  mkControl (ct_store c) p revision time (ct_lab c) (lab_revision c) (ct_journal c)
    (active c) (recent c) (next_operation c) (shutting_down c).
Definition set_lab (l : option Json) (revision : option Z) (c : Control) : Control :=
  mkControl (ct_store c) (ct_preflight c) (preflight_revision c) (last_check_at c) l revision (ct_journal c)
    (active c) (recent c) (next_operation c) (shutting_down c).
Definition set_operations (a : option Operation) (r : list Operation) (n : Z) (c : Control) : Control :=
  mkControl (ct_store c) (ct_preflight c) (preflight_revision c) (last_check_at c) (ct_lab c) (lab_revision c)
    (ct_journal c) a r n (shutting_down c).
Definition set_shutting_down (c : Control) : Control :=
  mkControl (ct_store c) (ct_preflight c) (preflight_revision c) (last_check_at c) (ct_lab c) (lab_revision c)
    (ct_journal c) (active c) (recent c) (next_operation c) true.

(** [control.journal.push(level, event, message)] *)
Definition record_event (now : Z) (level event message : string) (c : Control) : Control :=
  set_journal (push now level event message (ct_journal c)) c.

(** ** JSON of the journal and the actions *)

Definition kind_name (k : OperationKind) : string :=
  match k with Journal.Preflight => "preflight" | Reconstruct => "reconstruct" end.
Definition ser_operation (o : Operation) : Json :=
  JObject [("id", json_nat (op_id o)); ("kind", JString (kind_name (op_kind o))); ("status", JString (op_status o));
    ("started_at", json_nat (op_started_at o)); ("finished_at", json_opt json_nat (op_finished_at o));
    ("error", json_opt JString (op_error o)); ("config_revision", json_nat (op_config_revision o))].
Definition ser_event (e : Event) : Json :=
  JObject [("sequence", json_nat (ev_sequence e)); ("timestamp", json_nat (ev_timestamp e));
    ("level", JString (ev_level e)); ("event", JString (ev_event e)); ("message", JString (ev_message e))].
Definition ser_page (p : LogPage) : Json :=
  JObject [("entries", JArray (ser_event <$> page_entries p)); ("next_cursor", json_nat (next_cursor p));
    ("dropped_before", json_nat (dropped_before p)); ("truncated", JBool (truncated p))].

(** [failure] *)
Definition failure (status : Z) (error message : string) : HttpReply := json_reply status (error_json error message).

(** ** The token *)

Definition valid_token (token : string) : bool := (str_len token =? 64) && all_bytes is_ascii_hexdigit token.

(** An entry below the data directory as [symlink_metadata] and
    [read_to_string] see it; no text if it cannot be read as UTF-8. *)
Record TokenFile := mkTokenFile { tf_kind : NodeKind; tf_mode : Z; tf_text : option string }.

(** [read_admin_token] *)
Definition read_admin_token (file : option TokenFile) : option string :=
  meta ← file;
  if bool_decide (tf_kind meta = KFile) && (Z.land (tf_mode meta) 0x3f =? 0) then
    text ← tf_text meta;
    if str_len text <=? 65 then let token := trim text in if valid_token token then Some token else None else None
  else None.

(** What the file system does to [load_admin_token]: no call on the file
    succeeds, or writing or synchronizing a new file ends after [n] bytes. *)
Inductive TokenFault := TokenWorks | TokenUnavailable | TokenTruncated (n : nat).

(** [load_admin_token]: the file it leaves, and the token. *)
Definition load_admin_token `{HexLib} (fault : TokenFault) (file : option TokenFile) (draw : bytes) :
    option TokenFile * option string :=
  match fault, file with
  | TokenUnavailable, _ => (file, None)
  | _, Some _ => (file, read_admin_token file)
  | TokenTruncated n, None => (Some (mkTokenFile KFile 0x180 (Some (of_chars (take n (chars_of (hex_encode draw)))))), None)
  | TokenWorks, None => (Some (mkTokenFile KFile 0x180 (Some (hex_encode draw))), Some (hex_encode draw))
  end.

(** ** The guard in front of the management routes *)

Definition host_allowed (req : HttpRequest) (addr : SocketAddr) : bool :=
  from_option (λ h, bool_decide (h = socket_addr_to_string addr)
    || bool_decide (h = "localhost:" +:+ to_string (sa_port addr))) false (header_text req "host").

Definition origin_allowed (req : HttpRequest) (addr : SocketAddr) : bool :=
  if bool_decide (header_text req "sec-fetch-site" = Some "cross-site") then false else
  match req_header req "origin" with
  | None => true
  | Some origin =>
      from_option (λ o, bool_decide (o = "http://" +:+ socket_addr_to_string addr)
        || bool_decide (o = "http://localhost:" +:+ to_string (sa_port addr))) false origin
  end.

(** The pages that need no token. *)
Definition shell (req : HttpRequest) : bool :=
  (bool_decide (req_method req = MGet) || bool_decide (req_method req = MHead))
  && bool_decide (req_path req ∈ ["/"; "/admin.js"; "/admin.css"; "/llms.txt"]).

Definition authorized (token : string) (req : HttpRequest) : bool :=
  from_option (λ p, bool_decide (p = token)) false (header_text req "authorization" ≫= strip_prefix "Bearer ").

Definition CONSOLE_CSP : string :=
  "default-src 'none'; script-src 'self'; style-src 'self'; connect-src 'self'; base-uri 'none'; frame-ancestors 'none'; form-action 'none'".

(** [protect] around the routes [next]. *)
Definition protect {W} (state : ConsoleConfig) (next : HttpRequest → W → HttpReply * W) (req : HttpRequest) (w : W) :
    HttpReply * W :=
  let '(response, w) :=
    if negb (host_allowed req (admin_addr state)) || negb (origin_allowed req (admin_addr state)) then
      (failure 403 "Forbidden" "Use the local console origin", w)
    else if shell req || authorized (admin_token state) req then next req w
    else (failure 401 "AuthenticationRequired" "Provide the local admin bearer token", w) in
  (protected CONSOLE_CSP response, w).

(** [unavailable] *)
Definition unavailable (control : Control) : option HttpReply :=
  if shutting_down control then Some (failure 503 "ShuttingDown" "Node is shutting down")
  else if bool_decide (is_Some (active control)) then Some (failure 409 "Busy" "An operator action is running")
  else None.

Definition restart_required (state : ConsoleConfig) (settings : Settings) : bool :=
  negb (bool_decide (s_admin_bind settings = s_admin_bind (startup state)))
  || negb (bool_decide (s_public_bind settings = s_public_bind (startup state))).

(** ** The node *)

Section node.
Context {URL : UrlLib}.

(** A background task that was spawned: its action, and the peers to check. *)
Record Job := mkJob { job_operation : Operation; job_peers : option PreflightConfig }.

(** Everything behind the locks, the directory of the store, and the tasks. *)
Record Node := mkNode { control : Control; account_world : World; disk : Disk; jobs : list Job }.

Definition set_control (c : Control) (n : Node) : Node := mkNode c (account_world n) (disk n) (jobs n).

End node.

Section console.
Context {SHA : Sha256} {CID : CidLib} {HDC : DagCbor} {ECD : Ecdsa} {URL : UrlLib}
  {JSON : JsonText} {B64 : Base64Url} {HMAC : HmacSha256} {HEX : HexLib} {B58 : Base58} {B64S : Base64Std}
  {RAW : JsonDocument} {TIME : TimeLib} {SIWE : SiweLib} {KEC : Keccak256} {QR : QrCodeLib} {B64E : Base64StdEncode}.
Context (state : ConsoleConfig).

(** The checks of [ConsoleState::new] in front of the account service. *)
Definition console_valid (store : ConfigDocument) : bool :=
  ip_is_loopback (sa_ip (admin_addr state)) && valid_token (admin_token state) && is_ok (settings_validate (settings store)).

(** [ConsoleState::new] *)
Definition new_console (now : Z) (store : ConfigDocument)
    (credentials : result Cred.Error Store) (d : Disk) : option Node :=
  if negb (console_valid store) then None else
  core ← node_open (s_account (settings store)) credentials;
  let journal := push now "info" "node_started" "Management console started; production PDS is unavailable" journal_default in
  Some (mkNode (mkControl store None None None None None journal None [] 1 false) (mkWorld core [] 0 0 0 0) d []).

(** [status]; [locked]: a request holds the account. *)
Definition account_binding (account : Json) : string :=
  let flag name := default false (json_get name account ≫= as_bool) in
  if flag "busy" then "Account check in progress" else if flag "bound" then "Farcaster-bound account"
  else if flag "enabled" then "Awaiting Farcaster sign-in" else "Login disabled".

Definition status (uptime : Z) (version : string) (locked down : bool) (n : Node) : HttpReply :=
  let c := control n in let document := ct_store c in
  let account := node_status locked down (w_core (account_world n)) in
  json_reply 200 (json_object
    [("api_version", json_nat 1); ("instance_id", JString (instance_id state)); ("uptime_seconds", json_nat uptime);
     ("version", JString version); ("node_name", JString (s_node_name (settings document)));
     ("config_revision", json_nat (revision document));
     ("restart_required", JBool (restart_required state (settings document)));
     ("shutting_down", JBool (shutting_down c)); ("mode", JString "preflight-and-offline-lab"); ("pds_ready", JBool false);
     ("storage_gate", JString "unmodified Hypersnap durability and payload mapping are not proven");
     ("account_binding", JString (account_binding account)); ("account", account);
     ("signer", JString "Publishing signer not configured; app passwords cannot publish yet");
     ("publication_watermark", JNull); ("operation_running", JBool (bool_decide (is_Some (active c))));
     ("active_operation", json_opt (λ o, to_value (ser_operation o)) (active c));
     ("last_check_at", json_opt json_nat (last_check_at c));
     ("preflight_config_revision", json_opt json_nat (preflight_revision c));
     ("lab_config_revision", json_opt json_nat (lab_revision c));
     ("preflight", json_opt id (ct_preflight c)); ("lab", json_opt id (ct_lab c))]).

(** [config_response], [config] *)
Definition config_response (c : Control) : HttpReply :=
  let document := ct_store c in
  json_reply 200 (json_object
    [("revision", json_nat (revision document)); ("settings", to_value (ser_settings (settings document)));
     ("active_listeners", json_object
       [("admin_bind", JString (socket_addr_to_string (admin_addr state)));
        ("public_bind", JString (socket_addr_to_string (public_addr state)))]);
     ("restart_required", JBool (restart_required state (settings document)))]).

(** [ConfigUpdate] *)
Definition de_config_update (v : Json) : option (Z * Settings) :=
  fs ← strict_struct ["expected_revision"; "settings"] v;
  match fs with
  | [expected_revision; settings] =>
      expected_revision ← expected_revision ≫= as_u64; settings ← settings ≫= de_settings;
      Some (expected_revision, settings)
  | _ => None
  end.

(** What a published replacement does to the rest of the node. *)
Definition settings_changed (now : Z) (level event message : string) (document : ConfigDocument) (d : Disk) (n : Node) : Node :=
  let w := account_world n in
  mkNode (record_event now level event message (set_preflight None None None (set_document document (control n))))
    (set_core (apply (s_account (settings document)) (w_core w)) w) d (jobs n).

(** [update_config]: the account's core is locked from its check to its change. *)
Definition update_config (f : Faults) (down : bool) (now : Z) (req : HttpRequest) (n : Node) : HttpReply * Node :=
  match req_json req ≫= de_config_update with
  | None => (failure 400 "InvalidConfig" "Expected a bounded JSON settings document and revision", n)
  | Some (expected_revision, new_settings) =>
      let c := control n in
      match unavailable c with
      | Some response => (response, n)
      | None =>
          match check down (w_core (account_world n)) (s_account new_settings) with
          | Err message => (failure 400 "InvalidConfig" message, n)
          | Ok _ =>
              let '(d, document, r) := ConfigStore.replace f expected_revision new_settings (ct_store c) (disk n) in
              match r with
              | Ok _ =>
                  let n := settings_changed now "info" "config_updated"
                    "Settings saved; rerun peer checks for this revision" document d n in
                  (config_response (control n), n)
              | Err Settings.Conflict =>
                  (failure 409 "ConfigConflict" "Settings changed; fetch the latest revision and reapply your edits",
                   mkNode c (account_world n) d (jobs n))
              | Err (Settings.Invalid message) =>
                  (failure 400 "InvalidConfig" message, mkNode c (account_world n) d (jobs n))
              | Err (Persistence _) =>
                  if negb (revision document =? expected_revision) then
                    (failure 500 "ConfigDurabilityUnknown" "Settings published but durability is uncertain; reread configuration and check disk health before retrying",
                     settings_changed now "error" "config_durability_unknown"
                       "Settings published but directory sync failed; reread configuration before retrying" document d n)
                  else
                    (failure 500 "ConfigSaveFailed" "Settings could not be saved; active settings are unchanged",
                     mkNode (record_event now "error" "config_save_failed"
                       "Settings could not be saved; check data directory access and free space" c)
                       (account_world n) d (jobs n))
              end
          end
      end
  end.

(** [LogQuery]: [after] and [limit]. *)
Definition query_object (query : list (string * string)) : Json := JObject (prod_map id JString <$> query).
Definition log_limit : Z := 100.
Definition de_log_query (query : list (string * string)) : option (Z * Z) :=
  fs ← strict_struct ["after"; "limit"] (query_object query);
  match fs with
  | [after; limit] =>
      after ← from_option (λ v, as_str v ≫= parse_u64) (Some 0) after;
      limit ← from_option (λ v, as_str v ≫= parse_u64) (Some log_limit) limit;
      Some (after, limit)
  | _ => None
  end.

Definition logs (req : HttpRequest) (n : Node) : HttpReply :=
  match de_log_query (req_query req) with
  | None => failure 400 "InvalidCursor" "Use integer after and limit parameters"
  | Some (after, limit) =>
      if negb ((1 <=? limit) && (limit <=? LOG_CAPACITY)) then
        failure 400 "InvalidLimit" "Log limit must be 1 through 200"
      else json_reply 200 (ser_page (page (ct_journal (control n)) after limit))
  end.

Definition operations (n : Node) : HttpReply :=
  let value o := to_value (ser_operation o) in
  json_reply 200 (json_object
    [("active", json_opt value (active (control n))); ("recent", JArray (value <$> recent (control n)))]).

(** ** Background actions *)

(** What [start] resolves the peers to before it records the action;
    [broken]: the HTTP client cannot be built. *)
Definition job_config (broken : bool) (kind : OperationKind) (document : ConfigDocument) :
    result HttpReply (option PreflightConfig) :=
  match kind with
  | Reconstruct => Ok None
  | Journal.Preflight =>
      match Settings.preflight (settings document) with
      | Ok (Some config) =>
          if broken then Err (failure 500 "PreflightError" "Could not construct preflight client") else Ok (Some config)
      | Ok None => Err (failure 400 "NoEndpoints" "Add endpoints in Settings before checking peers")
      | Err _ => Err (failure 400 "InvalidConfig" "Peer settings are invalid")
      end
  end.

(** [start]; [now] and [now'] are its two readings of the clock. *)
Definition start (broken : bool) (now now' : Z) (kind : OperationKind) (n : Node) : HttpReply * Node :=
  let c := control n in
  match unavailable c with
  | Some response => (response, n)
  | None =>
      match job_config broken kind (ct_store c) with
      | Err response => (response, n)
      | Ok config =>
          let operation := mkOperation (next_operation c) kind "running" now None None (revision (ct_store c)) in
          let c := set_operations (Some operation) (recent c) (next_operation c + 1) c in
          let c := record_event now' "info" "operation_started"
            (match kind with
             | Journal.Preflight => "Reading configured peers; no network writes will be sent"
             | Reconstruct => "Starting a synthetic reconstruction in a new local directory"
             end) c in
          (json_reply 202 (ser_operation operation),
           mkNode c (account_world n) (disk n) (jobs n ++ [mkJob operation config]))
      end
  end.

(** What the task of a job may meet: the peers, the files it cannot write, the
    name drawn for its directory, and a panic. *)
Record JobRun := mkJobRun { job_peer : Peer; job_broken : string → bool; job_directory : bytes; job_panics : bool }.

(** The supervised task. *)
Definition job_result (run : JobRun) (job : Job) : result string Json :=
  match job_peers job with
  | Some config =>
      match job_panics run, (Hypersnap.run (job_peer run) config []).1 with
      | false, Ok report => Ok (ser_preflight_report report)
      | _, _ => Err "Preflight task failed"
      end
  | None =>
      match job_panics run, (Lab.run (job_broken run) ∅).1 with
      | false, Ok report =>
          Ok (json_object (lab_fields report ++ [("artifact_dir", JString ("lab-" +:+ hex_encode (job_directory run)))]))
      | _, _ => Err "Offline reconstruction failed; check data directory access and free space"
      end
  end.

Definition finished (now : Z) (result : result string Json) (o : Operation) : Operation :=
  mkOperation (op_id o) (op_kind o) (if is_ok result then "succeeded" else "failed") (op_started_at o) (Some now)
    (match result with Ok _ => None | Err e => Some e end) (op_config_revision o).

(** The report, the revision it belongs to, and the journal of [finish]. *)
Definition report_result (now now' : Z) (result : result string Json) (o : Operation) (c : Control) : Control :=
  let lab report := set_lab (Some report) (Some (op_config_revision o)) c in
  match result, op_kind o with
  | Ok report, Journal.Preflight =>
      let healthy := report_healthy report in
      record_event now' (if healthy then "info" else "warning") "preflight_finished"
        (if healthy then "Peer checks passed; storage reconstruction is still unproven"
         else "Peer checks finished with unhealthy or unknown observations")
        (set_preflight (Some report) (Some (op_config_revision o)) (Some now) c)
  | Ok report, Reconstruct =>
      record_event now' "info" "reconstruction_finished" "Offline fixture reconstruction passed; this is not network proof" (lab report)
  | Err error, Journal.Preflight => record_event now' "error" "operation_failed" error (set_preflight None None None c)
  | Err error, Reconstruct =>
      record_event now' "error" "operation_failed" error
        (lab (json_object [("error", JString "LabFailed"); ("network_proof", JBool false)]))
  end.

(** [finish] *)
Definition finish (now now' : Z) (operation : Operation) (result : result string Json) (c : Control) : Control :=
  let c := report_result now now' result operation c in
  let kept := if len (recent c) =? OPERATION_CAPACITY then removelast (recent c) else recent c in
  set_operations None (finished now result operation :: kept) (next_operation c) c.

(** One turn of the loop of [drain], and whether it returns. *)
Definition drain (now : Z) (c : Control) : bool * Control :=
  let c := if shutting_down c then c else
    record_event now "info" "shutdown_started" "Finishing accepted diagnostics before shutdown" (set_shutting_down c) in
  (negb (bool_decide (is_Some (active c))), c).
End console.

(** ** The routes *)

Inductive AdminRoute :=
| AdminAsset (path : string)
| AdminStatus
| AdminConfig
| AdminUpdateConfig
| AdminLogs
| AdminAccountLogs
| AdminOperations
| AdminPreflight
| AdminReconstruct.

(** The table of [admin_router]; a [get] route also answers HEAD. *)
Definition admin_route (method : Method) (path : string) : option AdminRoute :=
  let get_ := bool_decide (method = MGet) || bool_decide (method = MHead) in
  let post := bool_decide (method = MPost) in
  let table :=
    [("/", get_, AdminAsset "console.html"); ("/admin.js", get_, AdminAsset "console.js");
     ("/admin.css", get_, AdminAsset "console.css"); ("/llms.txt", get_, AdminAsset "llms.txt");
     ("/admin/status", get_, AdminStatus); ("/admin/config", get_, AdminConfig);
     ("/admin/config", bool_decide (method = MPut), AdminUpdateConfig); ("/admin/logs", get_, AdminLogs);
     ("/admin/account/logs", get_, AdminAccountLogs); ("/admin/operations", get_, AdminOperations);
     ("/admin/preflight", post, AdminPreflight); ("/admin/reconstruct", post, AdminReconstruct)] in
  (λ x, x.2.2) <$> list_find (λ x, x.1.1 = path ∧ x.1.2 = true) table.

(** The routes [public_router] has besides those of [account::router]. *)
Inductive PublicRoute := PubHealth | PubReady | PubRepo.

Definition public_route (req : HttpRequest) : option (option PublicRoute) :=
  let get := get_method req in
  find_route (req_path req)
    [("/health", get, PubHealth); ("/ready", get, PubReady); ("/xrpc/com.atproto.sync.getRepo", get, PubRepo)].

(** [not_ready] *)
Definition not_ready : HttpReply :=
  failure 503 "StorageContractUnproven" "Production PDS operations are unavailable; see the storage feasibility report".

(** What one request meets besides the node: the faults of the store, the
    clock, whether the account's core is held when it is tried, whether the
    HTTP client can be built, and whether the database fails. *)
Record Occasion := mkOccasion {
  oc_faults : Faults;
  oc_now : Z;
  oc_now' : Z;
  oc_uptime : Z;
  oc_locked : bool;
  oc_locked' : bool;
  oc_broken : bool;
  oc_down : bool;
  oc_down' : bool
}.

Section routes.
Context {SHA : Sha256} {CID : CidLib} {HDC : DagCbor} {ECD : Ecdsa} {URL : UrlLib}
  {JSON : JsonText} {B64 : Base64Url} {HMAC : HmacSha256} {HEX : HexLib} {B58 : Base58} {B64S : Base64Std}
  {RAW : JsonDocument} {TIME : TimeLib} {SIWE : SiweLib} {KEC : Keccak256} {QR : QrCodeLib} {B64E : Base64StdEncode}.
(** [asset]: the pages built into the program; [framework]: the answer of the
    web framework to a request no handler takes. *)
Context (state : ConsoleConfig) (asset : string → HttpReply) (framework : HttpRequest → HttpReply).
Context (peer : Peer) (clock : nat → Z) (random : nat → bytes) (trouble : Trouble).

(** The handlers behind [admin_router]. *)
Definition admin_handle (oc : Occasion) (req : HttpRequest) (n : Node) : HttpReply * Node :=
  match admin_route (req_method req) (req_path req) with
  | None => (framework req, n)
  | Some (AdminAsset path) => (asset path, n)
  | Some AdminStatus => (status state (oc_uptime oc) "0.1.0" (oc_locked oc) (oc_down oc) n, n)
  | Some AdminConfig => (config_response state (control n), n)
  | Some AdminUpdateConfig => update_config state (oc_faults oc) (oc_down oc) (oc_now oc) req n
  | Some AdminLogs => (logs req n, n)
  | Some AdminAccountLogs => (json_reply 200 (node_events (oc_locked oc) (w_core (account_world n))), n)
  | Some AdminOperations => (operations n, n)
  | Some AdminPreflight => start (oc_broken oc) (oc_now oc) (oc_now' oc) Journal.Preflight n
  | Some AdminReconstruct => start (oc_broken oc) (oc_now oc) (oc_now' oc) Reconstruct n
  end.

(** [admin_router] *)
Definition admin_router (oc : Occasion) (req : HttpRequest) (n : Node) : HttpReply * Node :=
  protect state (admin_handle oc) req n.

(** The CAR file of a repository and what it is evidence of. *)
Definition car_reply (evidence : string) (car : bytes) : HttpReply :=
  with_header "x-psky-evidence" evidence
    (with_header "content-type" "application/vnd.ipld.car" (mkHttpReply 200 ∅ (BodyBytes car))).

(** [com.atproto.sync.getRepo] for a DID that is not the account's *)
Definition fixture_repo (did : string) (n : Node) : HttpReply :=
  if negb (s_serve_fixture (settings (ct_store (control n)))) then not_ready else
  if negb (bool_decide (did = FIXTURE_DID)) then
    failure 404 "RepoNotFound" "Only the documented offline fixture DID is available"
  else match fixture_car true with
       | Ok car => car_reply "offline-fixture" car
       | Err _ => failure 500 "FixtureError" "Could not build fixture"
       end.

(** [com.atproto.sync.getRepo] *)
Definition get_repo (down down' : bool) (did : string) (n : Node) : HttpReply :=
  match node_repository down down' (w_core (account_world n)) did with
  | Some (Ok car) => car_reply "empty-account-repository" car
  | Some (Err _) => failure 500 "RepoError" "Could not read account metadata"
  | None => fixture_repo did n
  end.

(** [RepoQuery] *)
Definition de_repo_query (query : list (string * string)) : option string :=
  fs ← lenient_struct ["did"] (query_object query);
  match fs with [did] => did ≫= as_str | _ => None end.

(** [public_router] *)
Definition public_router (oc : Occasion) (req : HttpRequest) (n : Node) : HttpReply * Node :=
  match public_route req with
  | Some (Some PubHealth) => (json_reply 200 (json_object [("service", JString "PurpleSky"); ("pds_ready", JBool false)]), n)
  | Some (Some PubReady) => (not_ready, n)
  | Some (Some PubRepo) =>
      (from_option (λ did, get_repo (oc_down oc) (oc_down' oc) did n) (framework req) (de_repo_query (req_query req)), n)
  | Some None => (framework req, n)
  | None =>
      match router peer clock random trouble asset framework (oc_locked oc) (oc_locked' oc) (oc_down oc) (public_addr state)
              req (account_world n) with
      | Some (response, w) => (response, mkNode (control n) w (disk n) (jobs n))
      | None => (not_ready, n)
      end
  end.
End routes.
