(* ===== verification/ConsoleTheorems.v ===== *)
(** * The operator console: invariants and composition

    Every behaviour of a running node is a sequence of [console_step]s:
    requests on either listener, background actions that end, and turns of the
    shutdown loop. *)

From S2P Require Import Prelude RustStd IpAddr IpAddrText BTreeMap Externs Fixtures RepoSyntax RepoRecords RepoRecordSet RepoMst RepoCar Repository CredIdentity CredTokens CredStore CredProofs CredTheorems Http FarcasterMessage FarcasterClient FarcasterVerify FarcasterTheorems Settings ConfigStore SettingsTheorems AccountNode AccountExec Web AccountHttp AccountLogic AccountSafety Hypersnap Journal ReportJson Lab Console.

Section console.
Context {SHA : Sha256} {CID : CidLib} {HDC : DagCbor} {ECD : Ecdsa} {URL : UrlLib}
  {JSON : JsonText} {B64 : Base64Url} {HMAC : HmacSha256} {HEX : HexLib} {B58 : Base58} {B64S : Base64Std}
  {RAW : JsonDocument} {TIME : TimeLib} {SIWE : SiweLib} {KEC : Keccak256} {QR : QrCodeLib} {B64E : Base64StdEncode}.
Context (state : ConsoleConfig) (asset : string → HttpReply) (framework : HttpRequest → HttpReply).
Context (peer : Peer) (clock : nat → Z) (random : nat → bytes) (trouble : Trouble).

Abbreviation admin_router := (admin_router state asset framework).
Abbreviation public_router := (public_router state asset framework peer clock random trouble).
Abbreviation node_step := (node_step peer clock random trouble).

Definition job_ends (now now' : Z) (run : JobRun) (job : Job) (rest : list Job) (n : Node) : Node :=
  mkNode (finish now now' (job_operation job) (job_result run job) (control n)) (account_world n) (disk n) rest.

Inductive console_step (n : Node) : Node → Prop :=
| step_admin oc req : console_step n (admin_router oc req n).2
| step_public oc req : console_step n (public_router oc req n).2
| step_ends now now' run before job after : jobs n = before ++ job :: after →
    console_step n (job_ends now now' run job (before ++ after) n)
| step_drain now : console_step n (set_control (drain now (control n)).2 n).

(** ** What the steps change *)

Lemma protect_next {W} (next : HttpRequest → W → HttpReply * W) req w :
  (protect state next req w).2 = w ∨ (protect state next req w).2 = (next req w).2.
Proof.
  unfold protect. destruct (_ || _); [by left|]. destruct (_ || _); [|by left].
  destruct (next req w). by right.
Qed.

(** An admin request leaves the node alone, replaces the settings, or starts an action. *)
Lemma admin_cases oc req n (P : Node → Prop) :
  P n → P (update_config state (oc_faults oc) (oc_down oc) (oc_now oc) req n).2 →
  (∀ kind, P (start (oc_broken oc) (oc_now oc) (oc_now' oc) kind n).2) →
  P (admin_router oc req n).2.
Proof.
  intros Hn Hu Hs. unfold Console.admin_router. destruct (protect_next (admin_handle state asset framework oc) req n) as [->| ->]; [done|].
  unfold admin_handle. destruct (admin_route _ _) as [[]|]; try done; by apply Hs.
Qed.

(** A request the account service performs. *)
Definition request_step (w w' : World) : Prop :=
  ∃ locked action, w' = (node_execute peer clock random trouble locked action w).2.

Lemma security_cases locked listener (next : HttpRequest → World → HttpReply * World) req w :
  (security locked listener next req w).2 = w ∨
  locked = false ∧ request_allowed (co_settings (w_core w)) listener req = true ∧
    (security locked listener next req w).2 = (next req w).2.
Proof.
  unfold security. destruct locked; [by left|]. destruct (request_allowed _ _ _) eqn:Ha; cbn [negb]; [|by left].
  destruct (_ && _); [by left|]. right. by destruct (next req w).
Qed.

Lemma node_execute_steps locked action w : rtc request_step w (node_execute peer clock random trouble locked action w).2.
Proof. apply rtc_once. by exists locked, action. Qed.

Lemma handle_account locked route req w : rtc request_step w (handle peer clock random trouble locked route req w).2.
Proof.
  unfold handle, respond. destruct (route_action route req) as [action|]; [|done].
  pose proof (node_execute_steps locked action w) as Hn. by destruct (node_execute _ _ _ _ _ _ _).
Qed.
Lemma handle_did_account locked w : rtc request_step w (handle_atproto_did peer clock random trouble locked w).2.
Proof.
  unfold handle_atproto_did. pose proof (node_execute_steps locked Did w) as Hn.
  by destruct (node_execute _ _ _ _ _ _ _).
Qed.

Lemma endpoint_account locked down endpoint req w :
  rtc request_step w (endpoint_handler peer clock random trouble asset framework locked down endpoint req w).2.
Proof. destruct endpoint; try done; [apply handle_did_account|apply handle_account]. Qed.

(** A public request leaves the node alone, or is one to the account service. *)
Lemma public_cases oc req n :
  (public_router oc req n).2 = n ∨
  ∃ endpoint, account_endpoint req = Some endpoint ∧ public_route req = None ∧ oc_locked oc = false ∧
    request_allowed (co_settings (w_core (account_world n))) (public_addr state) req = true ∧
    (public_router oc req n).2 = mkNode (control n)
      (endpoint_handler peer clock random trouble asset framework (oc_locked' oc) (oc_down oc) endpoint req (account_world n)).2
      (disk n) (jobs n).
Proof.
  unfold Console.public_router. destruct (public_route req) as [[[]|]|]; [by left..|]. unfold router.
  destruct (account_endpoint req) as [endpoint|]; [|by left]. cbn [mbind option_bind].
  destruct (security_cases (oc_locked oc) (public_addr state)
    (endpoint_handler peer clock random trouble asset framework (oc_locked' oc) (oc_down oc) endpoint) req (account_world n))
    as [Hs|(Hl & Ha & Hs)]; destruct (security _ _ _ _ _) as [r w]; cbn [snd] in Hs; subst w; [left; by destruct n|right].
  by exists endpoint.
Qed.

(** A public request only uses the account service. *)
Lemma public_changes oc req n :
  ∃ w, (public_router oc req n).2 = mkNode (control n) w (disk n) (jobs n) ∧ rtc request_step (account_world n) w.
Proof.
  destruct (public_cases oc req n) as [->|(endpoint & _ & _ & _ & _ & ->)]; [exists (account_world n); by destruct n|].
  eexists. split; [done|]. apply endpoint_account.
Qed.

(** ** The guard *)

Lemma shell_assets req : shell req = true →
  ∃ page, admin_route (req_method req) (req_path req) = Some (AdminAsset page).
Proof.
  unfold shell. intros [Hm Hp]%andb_true_iff. boolify.
  assert (req_path req = "/" ∨ req_path req = "/admin.js" ∨ req_path req = "/admin.css" ∨ req_path req = "/llms.txt")
    as Hpath by set_solver.
  assert (req_method req = MGet ∨ req_method req = MHead) as Hmethod by (apply orb_true_iff in Hm as [?|?]; boolify; auto).
  destruct Hmethod as [-> | ->], Hpath as [->|[->|[->| ->]]]; by eexists.
Qed.

(** The request carries the operator's token. *)
Definition has_token (req : HttpRequest) : Prop := header_text req "authorization" = Some ("Bearer " +:+ admin_token state).

Lemma authorized_token req : authorized (admin_token state) req = true → has_token req.
Proof.
  unfold authorized, has_token. destruct (header_text req "authorization") as [v|]; [|done]. cbn [mbind option_bind].
  destruct (strip_prefix "Bearer " v) as [token|] eqn:Hv; [|done]. cbn [from_option]. intros Ht. boolify. subst token.
  apply strip_prefix_Some in Hv. by rewrite Hv.
Qed.

(** C5: management requests need the operator's token.  A request from another
    host or origin is refused, and one without the token is refused or answered
    with a static page, leaving the node as it was; so whatever changes the
    node or shows its state came to the console's own address with the token.
    No answer may be cached. *)
Theorem management_needs_token oc req n r n' : admin_router oc req n = (r, n') →
  rp_headers r !! "cache-control" = Some "no-store" ∧
  (n' = n ∧ (rp_status r = 403 ∨ rp_status r = 401) ∨
   host_allowed req (admin_addr state) = true ∧ origin_allowed req (admin_addr state) = true ∧
   (has_token req ∨ n' = n ∧ ∃ page, r = protected CONSOLE_CSP (asset page))).
Proof.
  unfold Console.admin_router, protect. intros Hr.
  destruct (negb (host_allowed req (admin_addr state)) || negb (origin_allowed req (admin_addr state))) eqn:Ho.
  { injection Hr as <- <-. split; [done|]. left. split; [done|by left]. }
  apply orb_false_iff in Ho as [Hh%negb_false_iff Ho%negb_false_iff].
  destruct (shell req || authorized (admin_token state) req) eqn:Hs.
  - destruct (admin_handle _ _ _ _ _ _) as [r1 n1] eqn:Ha. injection Hr as <- <-. split; [apply protected_no_store|]. right.
    split_and!; [done|done|]. apply orb_true_iff in Hs as [Hs|Hs]; [|by left; apply authorized_token]. right.
    apply shell_assets in Hs as [page Hp]. unfold admin_handle in Ha. rewrite Hp in Ha. injection Ha as <- <-.
    split; [done|by exists page].
  - injection Hr as <- <-. split; [done|]. left. split; [done|by right].
Qed.
(** ** The account service behind the console *)

(** Requests keep the settings of the account service. *)
Context (Hclock : ∀ n, is_u64 (clock n)) (Hrandom : ∀ n, len (random n) = 32).

Definition settled (s : AccountSettings) : Core → list Exchange → Prop := λ c _,
  co_settings c = s ∧ ∀ id p, pending c !! id = Some p → drawn random p.

Lemma settled_closed s action : closed peer random action (settled s).
Proof.
  split; unfold settled; cbn [set_store co_settings pending]; try done.
  - intros c tr id p [_ Hp]. apply Hp.
  - intros c c' tr (_ & Hs & Hv) [Hset Hp]. split; [by rewrite Hs|]. intros id p' Hp'.
    destruct (Hv id p' Hp') as [?|(p & Hl & Hch)]; [done|]. destruct (Hp id p Hl) as [k Hk]. exists k. by rewrite Hch.
Qed.

Lemma request_step_settled s w w' : request_step w w' → settled s (w_core w) (w_trace w) → settled s (w_core w') (w_trace w').
Proof.
  intros (locked & action & ->) Hs. destruct (node_execute _ _ _ _ _ _ _) as [r w1] eqn:Hn. cbn [snd].
  apply node_execute_spec in Hn as [(_ & _ & ->)|(r1 & w2 & event & _ & He & _ & Hc & _ & _)]; [done|].
  pose proof (execute_preserves peer clock random trouble Hclock Hrandom action (settled s) (settled_closed s action) w Hs) as Hp.
  rewrite He in Hp. rewrite Hc. by destruct r1.
Qed.

Lemma requests_settled s w w' : rtc request_step w w' → settled s (w_core w) (w_trace w) → settled s (w_core w') (w_trace w').
Proof. induction 1 as [|w w1 w2 Hst _ IH]; [done|]. intros Hs. by eapply IH, request_step_settled. Qed.

Lemma requests_node_steps w w' : rtc request_step w w' → rtc node_step w w'.
Proof.
  induction 1 as [|w w1 w2 (locked & action & ->) _ IH]; [done|]. eapply rtc_l; [|exact IH]. apply step_request.
Qed.

(** ** Replacing the settings *)

Context {LAWS : JsonDocumentLaws}.

Lemma replace_persistence f expected s store d d' store' message :
  ConfigStore.replace f expected s store d = (d', store', Err (Persistence message)) → expected = revision store.
Proof.
  unfold ConfigStore.replace, prepare_replace. destruct (Z.eqb_spec expected (revision store)); [done|]. by cbn.
Qed.

(** A check that passes read the account. *)
Lemma check_answered down c s u : check down c s = Ok u → check false c s = Ok u.
Proof. unfold check. destruct down; [|done]. by destruct (account_validate s). Qed.

(** What an update that changes nothing leaves as it was. *)
Definition same_settings (n n' : Node) : Prop :=
  ct_store (control n') = ct_store (control n) ∧ account_world n' = account_world n ∧ jobs n' = jobs n ∧
  disk_files (disk n') !! SETTINGS_FILE = disk_files (disk n) !! SETTINGS_FILE ∧ holds (disk n') (ct_store (control n)) ∧
  (control n' = control n ∨ ∃ now level event message, control n' = record_event now level event message (control n)).

(** The update that replaces the settings by [s]. *)
Definition replaced (f : Faults) (s : Settings) (r : HttpReply) (n n' : Node) : Prop :=
  unavailable (control n) = None ∧ check false (w_core (account_world n)) (s_account s) = Ok () ∧ settings_validate s = Ok () ∧
  ∃ now level event message d document,
    document = mkConfigDocument SCHEMA_VERSION (revision (ct_store (control n)) + 1) s ∧ holds d document ∧
    n' = settings_changed now level event message document d n ∧
    (r = config_response state (control n') ∨ rp_status r = 500 ∧ f_dirsync f = true).

(** Everything an update that puts [s] into force does: the running and the
    saved document are the next revision, the account service runs under the
    new account settings with its sign-ins and grants dropped if they changed,
    the peer report is gone, and nothing else is touched. *)
Definition applied (f : Faults) (s : Settings) (r : HttpReply) (n n' : Node) : Prop :=
  unavailable (control n) = None ∧ check false (w_core (account_world n)) (s_account s) = Ok () ∧ settings_validate s = Ok () ∧
  ct_store (control n') = mkConfigDocument SCHEMA_VERSION (revision (ct_store (control n)) + 1) s ∧
  holds (disk n') (ct_store (control n')) ∧
  (let c := w_core (account_world n) in let c' := w_core (account_world n') in
   co_settings c' = s_account s ∧ co_store c' = co_store c ∧
   (co_settings c ≠ s_account s → pending c' = ∅ ∧ grants c' = ∅ ∧ checked_at c' = None)) ∧
  ct_preflight (control n') = None ∧ preflight_revision (control n') = None ∧ last_check_at (control n') = None ∧
  jobs n' = jobs n ∧ recent (control n') = recent (control n) ∧ ct_lab (control n') = ct_lab (control n) ∧
  (r = config_response state (control n') ∨ rp_status r = 500 ∧ f_dirsync f = true).

Lemma replaced_applied f s r n n' : replaced f s r n n' → applied f s r n n'.
Proof.
  intros (Hav & Hc & Hv & now & level & event & message & d & document & -> & Hd & -> & Hr).
  unfold applied. split_and!; try done; cbn; unfold apply; case_bool_decide; by cbn.
Qed.

Lemma update_cases f down now req n r n' : holds (disk n) (ct_store (control n)) →
  update_config state f down now req n = (r, n') →
  (same_settings n n' ∧ rp_status r ∈ [400; 409; 500; 503]) ∨
  ∃ s, req_json req ≫= de_config_update = Some (revision (ct_store (control n)), s) ∧ replaced f s r n n'.
Proof.
  intros Hh Hu. unfold update_config in Hu.
  assert (∀ status e m, status ∈ [400; 409; 500; 503] → rp_status (failure status e m) ∈ [400; 409; 500; 503]) as Hst by done.
  assert (same_settings n n) as Hsame by (split_and!; by try left).
  destruct (req_json req ≫= de_config_update) as [[expected s]|] eqn:Hb;
    [|injection Hu as <- <-; left; split; [done|apply Hst; set_solver]].
  destruct (unavailable (control n)) as [busy|] eqn:Hav.
  { injection Hu as <- <-. left. split; [done|]. unfold unavailable in Hav.
    destruct (shutting_down _); [|destruct (bool_decide _); [|done]]; injection Hav as <-; apply Hst; set_solver. }
  destruct (check down _ (s_account s)) as [u|message] eqn:Hc; [|injection Hu as <- <-; left; split; [done|apply Hst; set_solver]].
  apply check_answered in Hc.
  destruct (ConfigStore.replace _ _ _ _ _) as [[d document] result] eqn:Hr.
  assert (addresses_wf s) as Hwf.
  { destruct (req_json req) as [v|]; [|done]. cbn [mbind option_bind] in Hb. unfold de_config_update in Hb.
    destruct (strict_struct _ _) as [fs|]; [|done]. cbn [mbind option_bind] in Hb.
    do 2 (destruct fs as [|? fs]; [done|]). destruct fs; [|done].
    destruct (_ ≫= as_u64); [|done]. cbn [mbind option_bind] in Hb.
    destruct (_ ≫= de_settings) as [s'|] eqn:Hs; [|done]. injection Hb as _ <-.
    match type of Hs with ?o ≫= _ = _ => destruct o as [v'|]; [|done] end. by eapply de_settings_addresses. }
  destruct (replace_atomic_cases _ _ _ _ _ _ _ _ Hh Hwf Hr) as [(-> & Hd & Hf & [e ->])|(-> & Hv & _ & -> & Hd & Hres)].
  - left. destruct e as [m| |m];
      [injection Hu as <- <-; split; [by split_and!; try left|apply Hst; set_solver]..|].
    apply replace_persistence in Hr as ->. rewrite Z.eqb_refl in Hu. cbn [negb] in Hu.
    injection Hu as <- <-. split; [|apply Hst; set_solver]. split_and!; try done. right. by do 4 eexists.
  - right. exists s. split; [done|]. destruct u. split_and!; [done..|].
    destruct Hres as [->|[Hsync [m ->]]].
    + injection Hu as <- <-. do 6 eexists. split_and!; [done|exact Hd|done|by left].
    + rewrite (proj2 (Z.eqb_neq _ _)) in Hu by (cbn [revision]; lia). injection Hu as <- <-.
      do 6 eexists. split_and!; [done|exact Hd|done|by right].
Qed.

(** ** The invariant of a running node *)

(** Actions that have ended. *)
Definition completed (c : Control) : Z :=
  next_operation c - 1 - (if bool_decide (is_Some (active c)) then 1 else 0).

(** The ended actions kept: the latest ones, newest first, each with its end. *)
Definition numbered (c : Control) : Prop :=
  0 ≤ completed c ∧ len (recent c) = Z.min (completed c) OPERATION_CAPACITY ∧
  ∀ i o, recent c !! i = Some o →
    op_id o = completed c - Z.of_nat i ∧ is_Some (op_finished_at o) ∧ (op_status o = "succeeded" ∨ op_status o = "failed").

(** The task behind the action that is shown as running. *)
Definition running_job (c : Control) (job : Job) : Prop :=
  active c = Some (job_operation job) ∧ op_status (job_operation job) = "running" ∧
  op_id (job_operation job) = next_operation c - 1 ∧ op_config_revision (job_operation job) = revision (ct_store c) ∧
  job_config false (op_kind (job_operation job)) (ct_store c) = Ok (job_peers job).

(** At most one task, and it is the action shown as running. *)
Definition serial (n : Node) : Prop :=
  (jobs n = [] ∧ active (control n) = None) ∨ ∃ job, jobs n = [job] ∧ running_job (control n) job.

(** A report is what peers answered under the settings in force. *)
Definition report_current (c : Control) : Prop :=
  ∀ r, ct_preflight c = Some r → preflight_revision c = Some (revision (ct_store c)) ∧
    ∃ config peers report, Settings.preflight (settings (ct_store c)) = Ok (Some config) ∧
      (Hypersnap.run peers config []).1 = Ok report ∧ r = ser_preflight_report report.

Record consistent (n : Node) : Prop := {
  cn_settings : settled (s_account (settings (ct_store (control n)))) (w_core (account_world n)) (w_trace (account_world n));
  cn_disk : holds (disk n) (ct_store (control n));
  cn_serial : serial n;
  cn_numbered : numbered (control n);
  cn_report : report_current (control n);
  cn_lab : ∀ r, lab_revision (control n) = Some r → r ≤ revision (ct_store (control n))
}.

Lemma unavailable_none c : unavailable c = None ↔ shutting_down c = false ∧ active c = None.
Proof.
  unfold unavailable. destruct (shutting_down c); [by split; [|intros []]|].
  destruct (active c); [by split; [|intros []]|]. by rewrite bool_decide_false by (by intros []).
Qed.

Lemma job_config_broken broken kind document config :
  job_config broken kind document = Ok config → job_config false kind document = Ok config.
Proof.
  unfold job_config. destruct kind; [|done]. destruct (Settings.preflight _) as [[|]|]; [|done..]. by destruct broken.
Qed.

(** The node with an action started. *)
Definition started (now now' : Z) (kind : OperationKind) (config : option PreflightConfig) (n n' : Node) : Prop :=
  ∃ event, let c := control n in
  let o := mkOperation (next_operation c) kind "running" now None None (revision (ct_store c)) in
  n' = mkNode (record_event now' "info" "operation_started" event (set_operations (Some o) (recent c) (next_operation c + 1) c))
    (account_world n) (disk n) (jobs n ++ [mkJob o config]).

Lemma start_cases broken now now' kind n r n' : start broken now now' kind n = (r, n') →
  (n' = n ∧ rp_status r ≠ 202) ∨
  (unavailable (control n) = None ∧ ∃ config, job_config broken kind (ct_store (control n)) = Ok config ∧
     started now now' kind config n n').
Proof.
  unfold start. destruct (unavailable (control n)) as [busy|] eqn:Hav.
  { intros [= <- <-]. left. split; [done|]. unfold unavailable in Hav.
    destruct (shutting_down _); [|destruct (bool_decide _); [|done]]; by injection Hav as <-. }
  destruct (job_config broken kind _) as [config|e] eqn:Hc.
  - intros [= <- <-]. right. split; [done|]. exists config. split; [done|]. by eexists.
  - intros [= <- <-]. left. split; [done|]. unfold job_config in Hc.
    destruct kind; [|done]. destruct (Settings.preflight _) as [[|]|]; [destruct broken; [|done]|..]; by injection Hc as <-.
Qed.

Lemma completed_active c : active c = None → completed c = next_operation c - 1.
Proof. unfold completed. intros ->. cbn. lia. Qed.

Lemma numbered_same c c' : recent c' = recent c → completed c' = completed c → numbered c → numbered c'.
Proof. unfold numbered. by intros -> ->. Qed.

Lemma start_consistent broken now now' kind n : consistent n → consistent (start broken now now' kind n).2.
Proof.
  intros Hn. destruct (start _ _ _ _ _) as [r n'] eqn:Hs. cbn [snd].
  apply start_cases in Hs as [[-> _]|(Hav & config & Hc & event & ->)]; [done|].
  apply unavailable_none in Hav as [_ Hact]. destruct Hn as [Hset Hdisk Hser Hnum Hrep Hlab].
  split; cbn [control account_world disk jobs]; [done|done| | |exact Hrep|exact Hlab].
  - right. destruct Hser as [[Hj _]|(job & _ & Hact' & _)]; [|congruence]. eexists. cbn [jobs control]. rewrite Hj.
    split; [reflexivity|]. split_and!; [done|done|cbn; lia|done|by eapply job_config_broken].
  - eapply numbered_same; [..|exact Hnum]; [done|]. rewrite (completed_active (control n)) by done. unfold completed. cbn. lia.
Qed.

Lemma apply_settled s0 s c tr : settled s0 c tr → settled s (apply s c) tr.
Proof. intros [_ Hp]. unfold apply. by case_bool_decide. Qed.

Lemma same_settings_consistent n n' : same_settings n n' → consistent n → consistent n'.
Proof.
  intros (Hst & Hw & Hj & _ & Hd & Hc) [Hset Hdisk Hser Hnum Hrep Hlab].
  destruct Hc as [Hc|(now & level & event & message & Hc)];
    (split; [rewrite Hw, Hst; done|rewrite Hst; done| | | |]); unfold serial; rewrite ?Hj, ?Hc; done.
Qed.

Lemma replaced_consistent f s r n n' : replaced f s r n n' → consistent n → consistent n'.
Proof.
  intros (Hav & _ & _ & now & level & event & message & d & document & Hdoc & Hd & -> & _) [Hset Hdisk Hser Hnum Hrep Hlab].
  apply unavailable_none in Hav as [_ Hact]. split; cbn.
  - by eapply apply_settled.
  - done.
  - left. destruct Hser as [[Hj _]|(job & _ & Hact' & _)]; [done|congruence].
  - done.
  - done.
  - intros rev Hr. apply Hlab in Hr. subst document. cbn. lia.
Qed.

Lemma update_consistent f down now req n : consistent n → consistent (update_config state f down now req n).2.
Proof.
  intros Hn. destruct (update_config _ _ _ _ _ _) as [r n'] eqn:Hu. cbn [snd].
  apply update_cases in Hu as [[Hs _]|(s & _ & Ha)]; [..|apply Hn].
  - by eapply same_settings_consistent.
  - by eapply replaced_consistent.
Qed.

Lemma removelast_lookup {A} (l : list A) i x : removelast l !! i = Some x → l !! i = Some x.
Proof.
  revert i. induction l as [|a l IH]; intros i; [done|]. cbn [removelast]. destruct l as [|b l]; [done|].
  destruct i as [|i]; [done|]. apply IH.
Qed.
Lemma removelast_length {A} (l : list A) : length (removelast l) = pred (length l).
Proof. induction l as [|a [|b l] IH]; [done..|]. cbn [removelast length] in *. by rewrite IH. Qed.

(** What [finish] does not touch, whatever the result. *)
Lemma finish_frame now now' o result c : let c' := finish now now' o result c in
  ct_store c' = ct_store c ∧ active c' = None ∧ next_operation c' = next_operation c ∧ shutting_down c' = shutting_down c ∧
  recent c' = finished now result o :: (if len (recent c) =? OPERATION_CAPACITY then removelast (recent c) else recent c).
Proof. unfold finish, report_result. by destruct result, (op_kind o). Qed.

Lemma finish_numbered now now' result c job : running_job c job → numbered c →
  numbered (finish now now' (job_operation job) result c).
Proof.
  intros (Hact & _ & Hid & _) (H0 & Hlen & Hrec).
  destruct (finish_frame now now' (job_operation job) result c) as (_ & Ha' & Hn' & _ & Hr').
  assert (completed c = next_operation c - 2) as Hc by (unfold completed; rewrite Hact; cbn; lia).
  unfold numbered. rewrite completed_active, Hn', Hr' by done. rewrite Hc in *. unfold OPERATION_CAPACITY in *.
  set (kept := if len (recent c) =? 32 then removelast (recent c) else recent c).
  assert (len kept = Z.min (next_operation c - 2) 31 ∧ ∀ i o, kept !! i = Some o → recent c !! i = Some o) as [Hk Hsub].
  { unfold kept. destruct (Z.eqb_spec (len (recent c)) 32); [|split; [lia|done]].
    split; [unfold len in *; rewrite removelast_length; lia|by apply removelast_lookup]. }
  split_and!; [lia|autorewrite with psky; lia|].
  intros [|i] o; cbn [lookup list_lookup]; intros Ho.
  - injection Ho as <-. cbn. split_and!; [lia|done|destruct result; auto].
  - apply Hsub, Hrec in Ho as (? & ? & ?). split_and!; [lia|done|done].
Qed.

Lemma job_result_report run job report document : job_result run job = Ok report →
  op_kind (job_operation job) = Journal.Preflight → job_config false Journal.Preflight document = Ok (job_peers job) →
  ∃ config peers r, Settings.preflight (settings document) = Ok (Some config) ∧
    (Hypersnap.run peers config []).1 = Ok r ∧ report = ser_preflight_report r.
Proof.
  unfold job_result, job_config. intros Hr _ Hc. destruct (Settings.preflight _) as [[config|]|] eqn:Hp; try done.
  injection Hc as Hc. rewrite <-Hc in Hr. destruct (job_panics run); [done|].
  destruct (Hypersnap.run (job_peer run) config []).1 as [r|] eqn:Hrun; [|done]. injection Hr as <-.
  exists config, (job_peer run), r. by split_and!.
Qed.

Lemma ends_consistent now now' run job rest n : consistent n → jobs n = [job] → rest = [] →
  consistent (job_ends now now' run job rest n).
Proof.
  intros [Hset Hdisk Hser Hnum Hrep Hlab] Hj ->.
  destruct Hser as [[? _]|(job' & Hj' & Hrun)]; [congruence|]. assert (job' = job) as -> by congruence.
  destruct (finish_frame now now' (job_operation job) (job_result run job) (control n)) as (Hst & Ha' & _).
  split; cbn [job_ends control account_world disk jobs]; rewrite ?Hst; [done|done|by left|by apply finish_numbered| |].
  - intros r. rewrite Hst. destruct Hrun as (_ & _ & _ & Hrev & Hcfg). unfold finish, report_result.
    destruct (job_result run job) as [report|e] eqn:Hres, (op_kind (job_operation job)) eqn:Hk; cbn;
      [|exact (Hrep r)|done|exact (Hrep r)].
    intros [= <-]. rewrite Hrev. split; [done|]. by eapply job_result_report.
  - intros r. destruct Hrun as (_ & _ & _ & Hrev & _). unfold finish, report_result.
    destruct (job_result run job), (op_kind (job_operation job)); cbn; try apply Hlab; intros [= <-]; lia.
Qed.

Lemma drain_frame now c : (drain now c).2 = c ∨
  (shutting_down c = false ∧
   (drain now c).2 = record_event now "info" "shutdown_started" "Finishing accepted diagnostics before shutdown" (set_shutting_down c)).
Proof. unfold drain. destruct (shutting_down c) eqn:Hs; [by left|right]. by split. Qed.

Lemma drain_consistent now n : consistent n → consistent (set_control (drain now (control n)).2 n).
Proof.
  intros [Hset Hdisk Hser Hnum Hrep Hlab].
  destruct (drain_frame now (control n)) as [->|[_ ->]]; (split; [done..|exact Hser|exact Hnum|exact Hrep|exact Hlab]).
Qed.

Lemma step_consistent n n' : console_step n n' → consistent n → consistent n'.
Proof.
  intros Hstep Hn. destruct Hstep as [oc req|oc req|now now' run before job after Hj|now].
  - apply admin_cases; [done|by apply update_consistent|intros; by apply start_consistent].
  - destruct (public_changes oc req n) as (w & -> & Hw). destruct Hn as [Hset Hdisk Hser Hnum Hrep Hlab].
    split; cbn [control account_world disk jobs]; try done.
    by apply (requests_settled _ _ _ Hw).
  - destruct (cn_serial _ Hn) as [[Hj' _]|(job' & Hj' & _)]; rewrite Hj' in Hj.
    + by destruct before.
    + destruct before as [|? [|]]; [|done..]. injection Hj as <- <-. by apply ends_consistent.
  - by apply drain_consistent.
Qed.

(** A node as [ConsoleState::new] builds it, on a saved configuration and a
    sound credential store. *)
Definition opened (n : Node) : Prop :=
  ∃ now store credentials d, new_console state now store (Ok credentials) d = Some n ∧ holds d store ∧
    db_wf (jwt_key credentials) (db credentials) ∧ len (jwt_key credentials) = 32.

Lemma node_open_core settings credentials core : node_open settings (Ok credentials) = Some core →
  core = new_core settings credentials.
Proof.
  unfold node_open. destruct (account_validate settings); [|done]. cbn [result_ok mbind option_bind].
  destruct (CredStore.account credentials) as [[acc|]|]; cbn [result_ok mbind option_bind]; [|by intros [= <-]|done].
  destruct (account_identity settings); [|done]. cbn [result_ok mbind option_bind]. destruct (_ && _); [by intros [= <-]|done].
Qed.

Lemma new_console_spec now store credentials d n : new_console state now store (Ok credentials) d = Some n →
  ∃ core event, node_open (s_account (settings store)) (Ok credentials) = Some core ∧
    settings_validate (settings store) = Ok () ∧ ip_is_loopback (sa_ip (admin_addr state)) = true ∧
    n = mkNode (mkControl store None None None None None (push now "info" "node_started" event journal_default) None [] 1 false)
      (mkWorld core [] 0 0 0 0) d [].
Proof.
  unfold new_console, console_valid. destruct (ip_is_loopback _); [|done]. destruct (valid_token _); [|done].
  destruct (settings_validate _) as [[]|]; [|done]. cbn [is_ok andb negb].
  destruct (node_open _ _) as [core|]; [|done]. cbn [mbind option_bind]. intros [= <-]. by do 2 eexists.
Qed.

Lemma opened_consistent n : opened n → consistent n.
Proof.
  intros (now & store & credentials & d & Hn & Hd & _). apply new_console_spec in Hn as (core & event & Ho & _ & _ & ->).
  apply node_open_core in Ho as ->. split; cbn; [by split|done|by left| |done|done].
  split_and!; [done|done|]. by intros [|i] o Ho.
Qed.

Lemma run_consistent n0 n : opened n0 → rtc console_step n0 n → consistent n.
Proof.
  intros Ho%opened_consistent Hrun. induction Hrun as [|n1 n2 n3 Hst _ IH]; [done|]. by eapply IH, step_consistent.
Qed.

(** ** The properties *)

(** C29: whatever was requested of the console in whatever order, the peer
    report it shows was answered by peers checked under the settings now in
    force, whose revision it is shown with: a new revision removes the old
    report, and no action that could bring it back runs meanwhile. *)
Theorem report_is_current n0 n r : opened n0 → rtc console_step n0 n → ct_preflight (control n) = Some r →
  preflight_revision (control n) = Some (revision (ct_store (control n))) ∧
  ∃ config peers report, Settings.preflight (settings (ct_store (control n))) = Ok (Some config) ∧
    (Hypersnap.run peers config []).1 = Ok report ∧ r = ser_preflight_report report.
Proof. intros Ho Hrun Hr. by apply (cn_report _ (run_consistent _ _ Ho Hrun)). Qed.

(** C30: actions run one at a time and none is lost.  There is never more than
    one background task, it is the action shown as running, with the revision
    now in force; the actions that ended are numbered without gaps, and the
    latest thirty-two are kept, newest first, each with its time and outcome. *)
Theorem actions_serial n0 n : opened n0 → rtc console_step n0 n → serial n ∧ numbered (control n).
Proof. intros Ho Hrun. by destruct (run_consistent _ _ Ho Hrun). Qed.

(** C11: an update of the settings is all or nothing over the saved file, the
    running configuration and the account service, whatever system calls fail.
    Either the answer is an error and all three are as before, or the caller
    knew the revision, no action was running, the account service agreed, and
    all three have the new settings, with the peer report gone; the answer is
    then the new configuration, or says that its durability is uncertain. *)
Theorem update_all_or_nothing n0 n f down now req r n' : opened n0 → rtc console_step n0 n →
  update_config state f down now req n = (r, n') →
  (same_settings n n' ∧ rp_status r ∈ [400; 409; 500; 503]) ∨
  ∃ s, req_json req ≫= de_config_update = Some (revision (ct_store (control n)), s) ∧ applied f s r n n'.
Proof.
  intros Ho Hrun Hu. apply update_cases in Hu as [?|(s & Hs & Ha)]; [by left| |apply (run_consistent _ _ Ho Hrun)].
  right. exists s. split; [done|]. by apply replaced_applied.
Qed.

Lemma step_account n n' : console_step n n' → consistent n → rtc node_step (account_world n) (account_world n').
Proof.
  intros Hstep Hn. destruct Hstep as [oc req|oc req|now now' run before job after Hj|now]; [| |done|done].
  - apply admin_cases; [done| |].
    + destruct (update_config _ _ _ _ _ _) as [r n'] eqn:Hu. cbn [snd].
      apply update_cases in Hu as [[(_ & -> & _) _]|(s & _ & Ha)]; [done| |apply Hn].
      destruct Ha as (_ & Hc & _ & now & level & event & message & d & document & -> & _ & -> & _).
      by apply rtc_once, step_configure.
    + intros kind. destruct (start _ _ _ _ _) as [r n'] eqn:Hs. cbn [snd].
      by apply start_cases in Hs as [[-> _]|(_ & config & _ & event & ->)].
  - destruct (public_changes oc req n) as (w & -> & Hw). by apply requests_node_steps.
Qed.

Lemma run_account_steps n0 n : consistent n0 → rtc console_step n0 n → rtc node_step (account_world n0) (account_world n).
Proof.
  intros Hn Hrun. induction Hrun as [|n1 n2 n3 Hst _ IH]; [done|].
  etrans; [by apply step_account|]. apply IH. by eapply step_consistent.
Qed.

Lemma console_refined n0 n : opened n0 → rtc console_step n0 n →
  rtc node_step (account_world n0) (account_world n) ∧
  co_settings (w_core (account_world n)) = s_account (settings (ct_store (control n))) ∧
  holds (disk n) (ct_store (control n)).
Proof.
  intros Ho Hrun. pose proof (run_consistent _ _ Ho Hrun) as Hn.
  split_and!; [apply run_account_steps; [by apply opened_consistent|done]|apply Hn|apply Hn].
Qed.

(** C12: the node implements the account service.  Seen from the account, every
    behaviour of the two listeners, the background actions and the shutdown is
    a sequence of account requests and of changes its configuration guard
    accepted, and the account always runs under the settings of the saved
    document. *)
Theorem console_refines_account n0 n : opened n0 → rtc console_step n0 n →
  rtc node_step (account_world n0) (account_world n) ∧
  co_settings (w_core (account_world n)) = s_account (settings (ct_store (control n))) ∧
  holds (disk n) (ct_store (control n)).
Proof. apply console_refined. Qed.

(** ** Shutdown *)

Lemma shut_unavailable c : shutting_down c = true → is_Some (unavailable c).
Proof. unfold unavailable. by intros ->. Qed.

Lemma step_shut n n' : consistent n → shutting_down (control n) = true → console_step n n' →
  shutting_down (control n') = true ∧ ct_store (control n') = ct_store (control n) ∧ disk n' = disk n ∧
  (jobs n' = jobs n ∨ jobs n' = []).
Proof.
  intros Hn Hs Hstep. destruct (shut_unavailable _ Hs) as [busy Hbusy].
  destruct Hstep as [oc req|oc req|now now' run before job after Hj|now].
  - apply admin_cases; [by split_and!; try left| |].
    + unfold update_config. destruct (req_json req ≫= de_config_update) as [[]|]; rewrite ?Hbusy; by split_and!; try left.
    + intros kind. unfold start. rewrite Hbusy. by split_and!; try left.
  - destruct (public_changes oc req n) as (w & -> & _). by split_and!; try left.
  - destruct (finish_frame now now' (job_operation job) (job_result run job) (control n)) as (Hst & _ & _ & Hsh & _).
    cbn [job_ends control disk jobs]. rewrite Hst, Hsh. split_and!; [done..|right].
    destruct (cn_serial _ Hn) as [[Hj' _]|(job' & Hj' & _)]; rewrite Hj' in Hj; destruct before as [|? [|]]; try done.
    by injection Hj as _ <-.
  - destruct (drain_frame now (control n)) as [->|[? _]]; [|congruence]. cbn. by split_and!; try left.
Qed.

Lemma run_shut n n' : consistent n → shutting_down (control n) = true → rtc console_step n n' →
  shutting_down (control n') = true ∧ ct_store (control n') = ct_store (control n) ∧ disk n' = disk n ∧
  (jobs n' = jobs n ∨ jobs n' = []) ∧ consistent n'.
Proof.
  intros Hn Hs Hrun. induction Hrun as [n|n n1 n2 Hst _ IH]; [by split_and!; try left|].
  destruct (step_shut n n1 Hn Hs Hst) as (Hs1 & Hst1 & Hd1 & Hj1).
  destruct (IH ltac:(by eapply step_consistent) Hs1) as (? & -> & -> & Hj2 & ?).
  split_and!; try done. destruct Hj2 as [->|]; [done|by right].
Qed.

Lemma drain_returns now n : consistent n → (drain now (control n)).1 = true ↔ jobs n = [].
Proof.
  intros Hn. assert ((drain now (control n)).1 = negb (bool_decide (is_Some (active (control n))))) as ->.
  { unfold drain. by destruct (shutting_down _). }
  destruct (cn_serial _ Hn) as [[-> ->]|(job & -> & -> & _)]; [done|]. by rewrite bool_decide_true by done.
Qed.


End console.
