(* ===== verification/NodeRestart.v ===== *)
(** * Restarting a node

    The composition of the configuration store, the credential store, the
    account service and the console: what a node leaves on disk starts again. *)

From S2P Require Import Prelude RustStd IpAddr IpAddrText BTreeMap Externs Fixtures RepoSyntax RepoRecords RepoRecordSet RepoMst RepoCar Repository CredIdentity CredTokens CredStore CredProofs CredTheorems Http FarcasterMessage FarcasterClient FarcasterVerify FarcasterTheorems Settings ConfigStore SettingsTheorems AccountNode AccountExec Web AccountHttp AccountLogic AccountSafety Hypersnap Journal ReportJson Lab Console ConsoleTheorems.

Section restart.
Context {SHA : Sha256} {CID : CidLib} {HDC : DagCbor} {ECD : Ecdsa} {URL : UrlLib}
  {JSON : JsonText} {B64 : Base64Url} {HMAC : HmacSha256} {HEX : HexLib} {B58 : Base58} {B64S : Base64Std}
  {RAW : JsonDocument} {TIME : TimeLib} {SIWE : SiweLib} {KEC : Keccak256} {QR : QrCodeLib} {B64E : Base64StdEncode}.
Context {LAWS : JsonDocumentLaws} {HJSON : JsonTextLaws} {HSHA : Sha256Laws}.
Context (state : ConsoleConfig) (asset : string → HttpReply) (framework : HttpRequest → HttpReply).
Context (peer : Peer) (clock : nat → Z) (random : nat → bytes) (trouble : Trouble).
Context (Hclock : ∀ n, is_u64 (clock n)) (Hrandom : ∀ n, len (random n) = 32).

Abbreviation console_step := (console_step state asset framework peer clock random trouble).
Abbreviation node_step := (node_step peer clock random trouble).
Abbreviation opened := (opened state).

(** The signing key of the credential store never changes. *)
Definition keyed (key : bytes) : Core → list Exchange → Prop := λ c _,
  jwt_key (co_store c) = key ∧ ∀ id p, pending c !! id = Some p → drawn random p.

Lemma keyed_closed key action : closed peer random action (keyed key).
Proof.
  split; unfold keyed; cbn [set_store co_store pending].
  - intros c tr id p [_ Hp]. apply Hp.
  - done.
  - intros c c' tr (Hs & _ & Hv) [Hkey Hp]. split; [by rewrite Hs|]. intros id p' Hp'.
    destruct (Hv id p' Hp') as [?|(p & Hl & Hch)]; [done|]. destruct (Hp id p Hl) as [k Hk]. exists k. by rewrite Hch.
  - intros op c tr _ _ _ [Hkey Hp]. by rewrite cred_step_key.
  - intros c tr _ [Hkey Hp]. split; [|done]. rewrite <-Hkey. exact (cred_step_key _ OpInvalidate).
  - intros c tr v a _ _ _ _ [Hkey Hp]. split; [|done]. rewrite <-Hkey. exact (cred_step_key _ OpInvalidate).
  - intros c tr v i now draw _ _ _ _ _ [Hkey Hp]. split; [|done]. rewrite <-Hkey.
    exact (cred_step_key _ (OpBind now draw (vi_fid v) (fingerprint v) i)).
Qed.

Lemma step_keyed key w w' : node_step w w' → keyed key (w_core w) (w_trace w) → keyed key (w_core w') (w_trace w').
Proof.
  intros [locked action|settings _] Hk.
  - destruct (node_execute _ _ _ _ _ _ _) as [r w1] eqn:Hn. cbn [snd].
    apply node_execute_spec in Hn as [(_ & _ & ->)|(r1 & w2 & event & _ & He & _ & Hc & _ & _)]; [done|].
    pose proof (execute_preserves peer clock random trouble Hclock Hrandom action _ (keyed_closed key action) w Hk) as Hp.
    rewrite He in Hp. rewrite Hc. by destruct r1.
  - destruct Hk as [Hk Hp]. cbn. unfold apply. by case_bool_decide.
Qed.

Lemma run_keyed key w w' : rtc node_step w w' → keyed key (w_core w) (w_trace w) → keyed key (w_core w') (w_trace w').
Proof. induction 1 as [|w w1 w2 Hst _ IH]; [done|]. intros Hs. by eapply IH, step_keyed. Qed.

(** What a run leaves in the credential store. *)
Lemma run_credentials n0 n : opened n0 → rtc console_step n0 n →
  let c := co_store (w_core (account_world n)) in
  db_wf (jwt_key c) (db c) ∧ len (jwt_key c) = 32 ∧
  ∀ a, stored_account (db c) a →
    as_allowed_fid (s_account (settings (ct_store (control n)))) = Some (fid a) ∧
    account_identity (s_account (settings (ct_store (control n)))) = Ok (identity a).
Proof.
  intros Ho Hrun c. destruct (console_refined state asset framework peer clock random trouble Hclock Hrandom n0 n Ho Hrun)
    as (Hsteps & Hset & _).
  destruct Ho as (now & store & credentials & d & Hn & _ & Hwf & Hlen).
  apply new_console_spec in Hn as (core & event & Ho & _ & _ & ->). cbn [account_world] in Hsteps.
  destruct (opened_sound peer random _ _ _ [] Hwf Ho) as (old & Hs & _).
  pose proof (run_sound peer clock random trouble Hclock Hrandom old _ _ Hsteps Hs) as [Hwf' Hpol _ _].
  apply node_open_core in Ho as ->.
  destruct (run_keyed (jwt_key credentials) _ _ Hsteps) as [Hkey _]; [by split|].
  split_and!; [done|by unfold c; rewrite Hkey|]. intros a Ha. rewrite <-Hset. by apply Hpol.
Qed.

Lemma holds_valid d store : holds d store → settings_validate (settings store) = Ok ().
Proof.
  intros (_ & node & _ & _ & _ & _ & Hc). unfold check_document in Hc. inv_result.
  by match goal with Hv : settings_validate _ = Ok ?u |- _ => destruct u end.
Qed.

(** A credential store that fits the settings opens under them. *)
Lemma fitting_opens settings c : settings_validate settings = Ok () → db_wf (jwt_key c) (db c) →
  (∀ doc k, account_row (db c) = Some (doc, k) → str_len doc ≤ 8192) →
  (∀ a, stored_account (db c) a → as_allowed_fid (s_account settings) = Some (fid a) ∧
    account_identity (s_account settings) = Ok (identity a)) →
  node_open (s_account settings) (Ok c) = Some (new_core (s_account settings) c).
Proof.
  intros Hv Hwf Hdoc Hpol. unfold node_open. unfold settings_validate in Hv.
  destruct (account_validate (s_account settings)); [|done]. cbn [result_ok mbind option_bind].
  unfold account, load_account. destruct (wf_account _ _ Hwf) as [Hnone|(acc & k & Hr & Hav)]; [by rewrite Hnone|].
  destruct (Hpol acc) as [Hfid Hid]; [by exists k|].
  rewrite Hr, (proj2 (Z.ltb_ge _ _)) by (by eapply Hdoc). cbn [reject_if mbind result_bind].
  rewrite (decode_account _ _ Hav). cbn [ok_or fmap result_fmap result_ok mbind option_bind]. rewrite Hid.
  cbn [result_ok mbind option_bind]. by rewrite Hfid, !bool_decide_true.
Qed.

(** What a node leaves on disk starts again.  After any behaviour of a node,
    with any system calls of its configuration store failing, opening the
    configuration gives the document the node was running under, the credential
    store reopens with the same key and tables, and the two fit each other, so
    that the console starts on them under any loopback address and token. *)
Lemma node_restarts n0 n t s1 mode file_mode draw now state' :
  opened n0 → rtc console_step n0 n → Z.land mode 0x3f = 0 → Z.land file_mode 0x3f = 0 →
  ip_is_loopback (sa_ip (admin_addr state')) = true → valid_token (admin_token state') = true →
  let c := co_store (w_core (account_world n)) in
  (∀ doc k, account_row (db c) = Some (doc, k) → str_len doc ≤ 8192) →
  ConfigStore.open (no_faults t) s1 (disk n) = (disk n, Ok (ct_store (control n))) ∧
  settings_validate (settings (ct_store (control n))) = Ok () ∧
  CredStore.open (Some (FsDirectory mode)) (Some (FsFile file_mode 1)) (db c) draw = (db c, Ok c) ∧
  ∃ n', new_console state' now (ct_store (control n)) (Ok c) (disk n) = Some n' ∧
    ct_store (control n') = ct_store (control n) ∧ co_store (w_core (account_world n')) = c.
Proof.
  intros Ho Hrun Hm Hfm Hloop Htoken c Hdoc. destruct (run_credentials n0 n Ho Hrun) as (Hwf & Hlen & Hpol).
  destruct (console_refined state asset framework peer clock random trouble Hclock Hrandom n0 n Ho Hrun) as (_ & _ & Hd).
  pose proof (holds_valid _ _ Hd) as Hv. split; [by apply holds_reopens|]. split; [done|].
  split; [by apply (wf_reopens (jwt_key c))|].
  unfold new_console, console_valid. rewrite Hloop, Htoken, Hv. cbn [is_ok andb negb].
  rewrite fitting_opens by done. cbn [mbind option_bind]. by eexists.
Qed.
End restart.
