(* ===== verification/Publication.v ===== *)
(** * The public listener

    What a reader of it finds: the repository the node serves for its account,
    and the key its DID document names for it; and what a request to it can
    change. *)

From S2P Require Import Prelude RustStd IpAddr IpAddrText BTreeMap Externs Fixtures RepoSyntax RepoRecords RepoRecordSet RepoMst RepoCar Repository CredIdentity CredTokens CredStore CredProofs CredTheorems Http FarcasterMessage FarcasterClient FarcasterVerify FarcasterTheorems Settings ConfigStore SettingsTheorems AccountNode AccountExec Web AccountHttp AccountLogic AccountSafety Hypersnap Journal ReportJson Lab Console ConsoleTheorems NodeRestart.

Section publication.
Context {SHA : Sha256} {CID : CidLib} {HDC : DagCbor} {ECD : Ecdsa} {URL : UrlLib}
  {JSON : JsonText} {B64 : Base64Url} {HMAC : HmacSha256} {HEX : HexLib} {B58 : Base58} {B64S : Base64Std}
  {RAW : JsonDocument} {TIME : TimeLib} {SIWE : SiweLib} {KEC : Keccak256} {QR : QrCodeLib} {B64E : Base64StdEncode}.
Context {LAWS : JsonDocumentLaws} {HJSON : JsonTextLaws} {HSHA : Sha256Laws}
  {HCID : CidLaws} {HCBOR : DagCborLaws} {HECD : EcdsaLaws}.

Lemma load_stored d a : stored_account d a → str_len (encode_account a) ≤ 8192 → load_account d = Ok (Some a).
Proof.
  intros (key & Hr & Hv) Hl. unfold load_account. rewrite Hr, (proj2 (Z.ltb_ge _ _)) by lia.
  cbn [reject_if mbind result_bind]. by rewrite (decode_account _ _ Hv).
Qed.

(** The repository of a stored account, and its signer. *)
Lemma stored_repository c a : stored_account (db c) a → str_len (encode_account a) ≤ 8192 →
  ∃ sg repo, repository c = Ok repo ∧ public_key_multibase a = multikey sg ∧ cid_to_string (root repo) = repo_cid a ∧
    Repository.build (id_did (identity a)) (repo_revision a) RepoRecordSet.new sg = Ok repo.
Proof.
  intros Ha Hl. pose proof (load_stored _ _ Ha Hl) as Hload. destruct Ha as (key & Hr & Hv).
  destruct (av_repo _ _ Hv) as (sg & repo & Hs & Hb & Hc). exists sg, repo.
  split_and!; [|by apply (av_multikey _ _ Hv)|done|done]. unfold repository, account. rewrite Hload.
  cbn [mbind result_bind ok_or]. rewrite Hr. cbn [fmap option_fmap option_map snd ok_or mbind result_bind].
  rewrite (av_key _ _ Hv), Z.eqb_refl. cbn [negb reject_if mbind result_bind]. rewrite Hs. cbn [map_err mbind result_bind].
  by rewrite Hb.
Qed.

(** The fixture does not pass for an account's repository. *)
Lemma fixture_is_marked did n car : fixture_repo did n ≠ car_reply "empty-account-repository" car.
Proof.
  unfold fixture_repo. destruct (negb _); [done|]. destruct (negb _); [done|]. destruct (fixture_car true); [|done].
  intros Hr. apply (f_equal (λ r, rp_headers r !! "x-psky-evidence")) in Hr. by vm_compute in Hr.
Qed.

(** The reply of [getRepo] that carries an account's repository. *)
Lemma served_car down down' did n car :
  get_repo down down' did n = car_reply "empty-account-repository" car →
  ∃ account, CredStore.account (co_store (w_core (account_world n))) = Ok (Some account) ∧ id_did (identity account) = did ∧
    as_enabled (co_settings (w_core (account_world n))) = true ∧ empty_repository (co_store (w_core (account_world n))) = Ok car.
Proof.
  unfold get_repo, node_repository, read_account. set (core := w_core (account_world n)).
  destruct down; [by intros ?%fixture_is_marked|].
  destruct (CredStore.account (co_store core)) as [[account|]|]; cbn [result_ok mjoin option_join mbind option_bind];
    [|by intros ?%fixture_is_marked..].
  destruct (as_enabled _ && _) eqn:He; [boolify|by intros ?%fixture_is_marked].
  destruct down'; [intros Hr; discriminate Hr|].
  destruct (empty_repository _) as [car'|e] eqn:Hc; intros Hr; [|discriminate Hr].
  apply (f_equal rp_body) in Hr. cbn in Hr. injection Hr as ->. by exists account.
Qed.

Context (state : ConsoleConfig) (asset : string → HttpReply) (framework : HttpRequest → HttpReply).
Context (peer : Peer) (clock : nat → Z) (random : nat → bytes) (trouble : Trouble).

(** The paths of the public listener. *)
Definition public_paths : list string :=
  ["/health"; "/ready"; "/xrpc/com.atproto.sync.getRepo";
   "/account"; "/account.js"; "/account.css"; "/account/status"; "/account/login"; "/account/passwords";
   "/xrpc/com.atproto.server.describeServer"; "/xrpc/com.atproto.server.createSession";
   "/xrpc/com.atproto.server.getSession"; "/xrpc/com.atproto.server.refreshSession";
   "/xrpc/com.atproto.server.deleteSession"; "/xrpc/app.bsky.actor.getPreferences";
   "/.well-known/did.json"; "/.well-known/atproto-did"].

Lemma unknown_path req : req_path req ∉ public_paths → login_id (req_path req) = None →
  public_route req = None ∧ account_endpoint req = None.
Proof.
  intros Hp Hl. unfold public_route, account_endpoint. rewrite Hl.
  split; [|apply fmap_None]; apply find_route_None; cbn [fmap list_fmap fst]; set_solver.
Qed.

(** The actions an endpoint performs on a request. *)
Definition endpoint_action (endpoint : Endpoint) (req : HttpRequest) : option Action :=
  match endpoint with
  | EndAction route => result_ok (route_action route req)
  | EndAtprotoDid => Some Did
  | _ => None
  end.

Lemma endpoint_performs locked down endpoint req w :
  (endpoint_handler peer clock random trouble asset framework locked down endpoint req w).2 =
  from_option (λ action, (node_execute peer clock random trouble locked action w).2) w (endpoint_action endpoint req).
Proof.
  destruct endpoint; try done; cbn [endpoint_handler endpoint_action].
  - unfold handle_atproto_did. cbn [from_option]. by destruct (node_execute _ _ _ _ _ _ _).
  - unfold handle, respond. destruct (route_action route req) as [action|]; cbn [result_ok from_option]; [|done].
    by destruct (node_execute _ _ _ _ _ _ _).
Qed.

(** C10: production stays closed to the public.  Whatever is sent to the public
    listener, the configuration, the saved settings, the journal and the
    background actions are left as they are.  A path it does not have, as every
    XRPC method of a data server that writes, is answered with 503 and no
    effect.  And the account service is used only by a request that names this
    node, and outside the XRPC and well-known paths comes from its own pages,
    for exactly the action of the route. *)
Theorem public_requests_confined oc req n r n' :
  Console.public_router state asset framework peer clock random trouble oc req n = (r, n') →
  control n' = control n ∧ disk n' = disk n ∧ jobs n' = jobs n ∧
  (req_path req ∉ public_paths → login_id (req_path req) = None → r = not_ready ∧ n' = n) ∧
  (n' = n ∨
   ∃ endpoint action, account_endpoint req = Some endpoint ∧ endpoint_action endpoint req = Some action ∧
     oc_locked oc = false ∧ request_allowed (co_settings (w_core (account_world n))) (public_addr state) req = true ∧
     account_world n' = (node_execute peer clock random trouble (oc_locked' oc) action (account_world n)).2).
Proof.
  intros Hr. split_and!; [| | |intros Hp Hl|].
  4: { destruct (unknown_path req Hp Hl) as [Hn He]. unfold Console.public_router, router in Hr. rewrite Hn, He in Hr. by injection Hr as <- <-. }
  all: pose proof (public_cases state asset framework peer clock random trouble oc req n) as Hc; rewrite Hr in Hc; cbn [snd] in Hc;
    destruct Hc as [->|(endpoint & He & _ & Hl & Ha & ->)]; auto.
  rewrite endpoint_performs. destruct (endpoint_action endpoint req) as [action|] eqn:Hact; cbn [from_option]; [right|left; by destruct n].
  by exists endpoint, action.
Qed.
Context (Hclock : ∀ n, is_u64 (clock n)) (Hrandom : ∀ n, len (random n) = 32).

(** C9: what the node publishes for its account is the account's, and anyone
    can check it.  If a running node answers [getRepo] with an account's
    repository, then the account is enabled in the settings, it is the one
    bound to that DID, its DID document names the key of a signer, and the CAR
    file holds a repository that verifies under this key: it reads back as one
    whose root is the one stored for the account, with a commit of the
    account's DID and revision and no record.  (The account document is within
    the limit of its reader, and the blocks of the repository do not collide.) *)
Theorem served_repository_verifies n0 n down down' did car :
  ConsoleTheorems.opened state n0 → rtc (ConsoleTheorems.console_step state asset framework peer clock random trouble) n0 n →
  get_repo down down' did n = car_reply "empty-account-repository" car →
  let c := co_store (w_core (account_world n)) in
  (∀ doc k, account_row (db c) = Some (doc, k) → str_len doc ≤ 8192) → len car ≤ U64_MAX →
  as_enabled (s_account (settings (ct_store (control n)))) = true ∧
  ∃ a sg repo, account_identity (s_account (settings (ct_store (control n)))) = Ok (identity a) ∧ id_did (identity a) = did ∧
    did_document_of c = Ok (did_document a) ∧ public_key_multibase a = multikey sg ∧
    cid_to_string (root repo) = repo_cid a ∧
    ∀ b, encode (ser_signed (commit repo)) = Ok b → no_collision (repo_written RepoRecordSet.new (root repo) b) →
      Repository.verify repo (public_key_sec1 sg) = Ok () ∧
      ∃ bs, read_car car = Some ([root repo], 1, bs) ∧ head bs = Some (root repo, b) ∧ decode_signed b = Ok (commit repo) ∧
        c_did (commit repo) = did ∧ c_rev (commit repo) = repo_revision a ∧
        walk (tree_fuel RepoRecordSet.new) (car_lookup bs) (mst_root repo) = Some [].
Proof.
  intros Ho Hrun Hget c Hdoc Hlen. apply served_car in Hget as (a & Hacc & Hdid & Hen & Hcar). fold c in Hacc, Hcar.
  destruct (run_credentials state asset framework peer clock random trouble Hclock Hrandom n0 n Ho Hrun) as (Hwf & _ & Hpol). fold c in Hwf, Hpol.
  destruct (console_refined state asset framework peer clock random trouble Hclock Hrandom n0 n Ho Hrun) as (_ & Hset & _).
  rewrite Hset in Hen. split; [done|].
  assert (stored_account (db c) a) as Hst by exact (load_account_stored _ _ (wf_account _ _ Hwf) Hacc).
  destruct (Hpol a Hst) as [_ Hid]. pose proof Hst as (key & Hrow & _). specialize (Hdoc _ _ Hrow).
  destruct (stored_repository c a Hst Hdoc) as (sg & repo & Hrepo & Hkey & Hcid & Hbuild).
  exists a, sg, repo. split_and!; [done|done| |done|done|]; [unfold did_document_of; by rewrite Hacc|].
  intros b Hb Hn. split; [by eapply built_verifies; [apply new_wf|..]|].
  unfold empty_repository in Hcar. rewrite Hrepo in Hcar. apply bind_ok in Hcar as (? & [= <-] & Hcar%map_err_ok).
  destruct (export_reads _ _ _ _ _ _ _ new_wf Hbuild Hb Hn Hcar Hlen) as (bs & Hr & Hh & Hd & Hw & _).
  exists bs. destruct (build_inv _ _ _ _ _ Hbuild) as (? & ? & ? & ? & _ & _ & _ & _ & Hc & _). rewrite Hc at 2 3. by split_and!.
Qed.
End publication.
