(* ===== verification/CommandLine.v ===== *)
(** * The commands ([crates/psky/src/main.rs])

    What each command does with its arguments, and a node served from the
    command line that is stopped and served again.  Parsing the arguments is
    the library's, waiting for connections and signals the runtime's. *)

From S2P Require Import Prelude RustStd IpAddr IpAddrText BTreeMap Externs Fixtures RepoSyntax RepoRecords RepoRecordSet RepoMst RepoCar Repository CredIdentity CredTokens CredStore CredProofs CredTheorems Http FarcasterMessage FarcasterClient FarcasterVerify FarcasterTheorems Settings ConfigStore SettingsTheorems AccountNode AccountExec Web AccountHttp AccountLogic AccountSafety Hypersnap Journal ReportJson Lab Console ConsoleTheorems NodeRestart.

Record Peers := mkPeers { endpoint : list string; peers_network : Network; peers_fid : option Z }.

Record ServeArgs := mkServeArgs {
  arg_admin_bind : SocketAddr;
  arg_public_bind : SocketAddr;
  arg_serve_fixture : bool;
  arg_peers : Peers
}.

(** The values of the options that are not given. *)
Definition default_serve : ServeArgs := mkServeArgs (localhost 8788) (localhost 8787) false (mkPeers [] Mainnet None).

Section commands.
Context {SHA : Sha256} {CID : CidLib} {HDC : DagCbor} {ECD : Ecdsa} {URL : UrlLib}
  {JSON : JsonText} {B64 : Base64Url} {HMAC : HmacSha256} {HEX : HexLib} {B58 : Base58} {B64S : Base64Std}
  {RAW : JsonDocument} {TIME : TimeLib} {SIWE : SiweLib} {KEC : Keccak256} {QR : QrCodeLib} {B64E : Base64StdEncode}.

(** The value whose text a command prints, and its exit status. *)
Definition Outcome (A : Type) : Type := option A * Z.

(** [Peers::config] *)
Definition peers_config (peers : Peers) : result ConfigError PreflightConfig :=
  config_new (endpoint peers) (peers_network peers) (peers_fid peers).

(** [psky preflight]; [broken]: the HTTP client cannot be built. *)
Definition preflight_command (broken : bool) (peer : Peer) (peers : Peers) : Outcome PreflightReport :=
  match peers_config peers with
  | Err _ => (None, 1)
  | Ok config =>
      if broken then (None, 1) else
      match (Hypersnap.run peer config []).1 with
      | Ok report => (Some report, if pr_compatible report then 0 else 2)
      | Err _ => (None, 1)
      end
  end.

(** [psky lab] *)
Definition lab_command (broken : string → bool) : Outcome LabReport :=
  match (Lab.run broken ∅).1 with Ok report => (Some report, 0) | Err _ => (None, 1) end.

(** [psky admin-token] *)
Definition admin_token_command (file : option TokenFile) : Outcome string :=
  match read_admin_token file with Some token => (Some token, 0) | None => (None, 1) end.

(** What the data directory holds between two processes. *)
Record Machine := mkMachine {
  m_disk : Disk;
  m_token : option TokenFile;
  m_directory : option FsEntry;
  m_database : option FsEntry;
  m_db : Db
}.

(** What SQLite and the file system do to [Store::open]: no file can be made,
    or the database fails before the schema transaction commits, or after. *)
Inductive DatabaseFault := DatabaseWorks | DatabaseUnmade | DatabaseFailsEarly | DatabaseFailsLate.

(** What one start meets: the faults of the configuration store, of the token
    and of the database, the sockets ([None] when the address is in use), what
    it draws and when. *)
Record Launch := mkLaunch {
  la_faults : Faults;
  la_bind : SocketAddr → option SocketAddr;
  la_token : bytes;
  la_token_fault : TokenFault;
  la_key : bytes;
  la_database_fault : DatabaseFault;
  la_instance : bytes;
  la_now : Z
}.

(** The settings of a first start. *)
Definition initial_settings (args : ServeArgs) : Settings :=
  mkSettings (s_account settings_default) (s_node_name settings_default) (endpoint (arg_peers args))
    (peers_network (arg_peers args)) (peers_fid (arg_peers args)) (s_request_timeout_ms settings_default)
    (s_max_response_bytes settings_default) (s_max_block_delay_seconds settings_default) (arg_serve_fixture args)
    (arg_admin_bind args) (arg_public_bind args).

(** [Store::open] with the entries it makes below the data directory. *)
Definition open_credentials (la : Launch) (m : Machine) : option FsEntry * option FsEntry * Db * result Cred.Error Store :=
  match la_database_fault la, prepare_directory (m_directory m), prepare_database (m_database m) with
  | DatabaseUnmade, _, _ => (m_directory m, m_database m, m_db m, Err Cred.Persistence)
  | _, Err e, _ => (m_directory m, m_database m, m_db m, Err e)
  | _, Ok directory, Err e => (Some directory, m_database m, m_db m, Err e)
  | fault, Ok directory, Ok file =>
      let '(db, credentials) := CredStore.open (m_directory m) (m_database m) (m_db m) (la_key la) in
      match fault with
      | DatabaseFailsEarly => (Some directory, Some file, m_db m, Err Cred.Persistence)
      | DatabaseFailsLate => (Some directory, Some file, db, Err Cred.Persistence)
      | _ => (Some directory, Some file, db, credentials)
      end
  end.

(** The console of a start that has its sockets and its token. *)
Definition serve_console (la : Launch) (state : ConsoleConfig) (store : ConfigDocument) (m : Machine) :
    Machine * option (ConsoleConfig * Node) :=
  if negb (console_valid state store) then (m, None) else
  let '(directory, file, db, credentials) := open_credentials la m in
  (mkMachine (m_disk m) (m_token m) directory file db,
   n ← new_console state (la_now la) store credentials (m_disk m); Some (state, n)).

(** [psky serve], up to the listening sockets: what it leaves in the data
    directory, and the node if it starts. *)
Definition serve (la : Launch) (args : ServeArgs) (m : Machine) : Machine * option (ConsoleConfig * Node) :=
  let '(d, store) := ConfigStore.open (la_faults la) (initial_settings args) (m_disk m) in
  let m := mkMachine d (m_token m) (m_directory m) (m_database m) (m_db m) in
  match store with
  | Err _ => (m, None)
  | Ok store =>
      let saved := settings store in
      match la_bind la (s_admin_bind saved), la_bind la (s_public_bind saved) with
      | Some admin_addr, Some public_addr =>
          let '(file, token) := load_admin_token (la_token_fault la) (m_token m) (la_token la) in
          let m := mkMachine d file (m_directory m) (m_database m) (m_db m) in
          match token with
          | None => (m, None)
          | Some token =>
              serve_console la (mkConsoleConfig admin_addr public_addr token saved (hex_encode (la_instance la))) store m
          end
      | _, _ => (m, None)
      end
  end.
End commands.

(** ** The operator's token *)

Section token.
Context {HEX : HexLib} {HHEX : HexLaws}.

Lemma trim_start_id l : Forall (λ c, is_trimmed_space c = false) l → trim_start_chars l = l.
Proof. intros [|c l' Hc _]; [done|]. cbn [trim_start_chars]. by rewrite Hc. Qed.

Lemma trim_id s : Forall (λ c, is_trimmed_space c = false) (chars_of s) → trim s = s.
Proof.
  intros Hs. unfold trim. rewrite (trim_start_id (chars_of s)) by done.
  rewrite trim_start_id by (by apply Forall_reverse). by rewrite reverse_involutive, of_chars_of.
Qed.

Lemma hex_digits_untrimmed draw : Forall (λ c, is_trimmed_space c = false) (chars_of (hex_encode draw)).
Proof.
  pose proof (hex_encode_digits draw) as Hx.
  apply Forall_forall. intros c Hc. unfold all_bytes in Hx. rewrite forallb_forall in Hx.
  specialize (Hx c ltac:(by apply list_elem_of_In)). unfold is_trimmed_space, is_ascii_digit, in_range in *.
  destruct (Ascii.eqb_spec c " "%char) as [->|]; [by vm_compute in Hx|]. rewrite orb_false_r. boolify.
  apply andb_false_iff. right. apply Z.leb_gt.
  apply orb_true_iff in Hx as [[? _]%andb_true_iff|[? _]%andb_true_iff]; boolify; lia.
Qed.

Lemma hex_token_ok draw : len draw = 32 → valid_token (hex_encode draw) = true ∧ trim (hex_encode draw) = hex_encode draw.
Proof.
  intros Hd. pose proof (hex_encode_digits draw) as Hx. split.
  - unfold valid_token. rewrite hex_encode_len, Hd. cbn [Z.mul Z.eqb Pos.mul Pos.eqb andb].
    eapply all_bytes_impl; [|exact Hx]. intros c. unfold is_ascii_hexdigit. intros ->. done.
  - apply trim_id. by apply hex_digits_untrimmed.
Qed.

(** A token file that reads as its token. *)
Definition token_file (file : option TokenFile) (token : string) : Prop :=
  read_admin_token file = Some token ∧ valid_token token = true.

Lemma new_token_file draw : len draw = 32 → token_file (Some (mkTokenFile KFile 0x180 (Some (hex_encode draw)))) (hex_encode draw).
Proof.
  intros Hd. destruct (hex_token_ok draw Hd) as [Hv Ht]. split; [|done].
  unfold read_admin_token. cbn [mbind option_bind tf_kind tf_mode tf_text]. by rewrite hex_encode_len, Hd, Ht, Hv.
Qed.

Lemma read_token_valid file token : read_admin_token file = Some token → token_file file token.
Proof.
  intros Hr. split; [done|]. unfold read_admin_token in Hr. destruct file as [meta|]; [|done]. cbn [mbind option_bind] in Hr.
  destruct (_ && _); [|done]. destruct (tf_text meta) as [text|]; [|done]. cbn [mbind option_bind] in Hr.
  destruct (_ <=? _); [|done]. destruct (valid_token (trim text)) eqn:Hv; [|done]. by injection Hr as <-.
Qed.

Lemma load_token_reloads fault file draw token file' : load_admin_token fault file draw = (file', Some token) → len draw = 32 →
  token_file file' token.
Proof.
  unfold load_admin_token. intros Hl Hd. destruct fault as [| |n], file as [meta|]; try done;
    injection Hl as <- Hr; [by apply read_token_valid|subst token; by apply new_token_file|by apply read_token_valid].
Qed.

Lemma load_token_again fault file draw token : token_file file token → fault ≠ TokenUnavailable →
  load_admin_token fault file draw = (file, Some token).
Proof.
  intros [Hr _] Hf. destruct file as [meta|]; [|done]. unfold load_admin_token. destruct fault; [|done|]; by rewrite Hr.
Qed.

(** A token file whose first writing was cut short is refused by every later
    start, and none replaces it. *)
Lemma truncated_token_blocks n draw file : len draw = 32 → (n < 64)%nat →
  (load_admin_token (TokenTruncated n) None draw).1 = Some file →
  ∀ fault draw', load_admin_token fault (Some file) draw' = (Some file, None).
Proof.
  intros Hd Hn [= <-] fault draw'. cbn [load_admin_token].
  assert (read_admin_token (Some (mkTokenFile KFile 0x180 (Some (of_chars (take n (chars_of (hex_encode draw))))))) = None) as Hr.
  2: { by destruct fault; cbn [load_admin_token]; rewrite ?Hr. }
  destruct (read_admin_token _) as [token|] eqn:Hr; [exfalso|done]. pose proof (read_token_valid _ _ Hr) as [_ Hv].
  unfold read_admin_token in Hr. cbn [mbind option_bind tf_kind tf_mode tf_text] in Hr.
  destruct (_ && _); [|done]. destruct (_ <=? _); [|done]. rewrite trim_id in Hr.
  2: { rewrite chars_of_of. apply Forall_take. by apply hex_digits_untrimmed. }
  destruct (valid_token _); [|done]. injection Hr as <-. unfold valid_token in Hv. boolify.
  match goal with Hl : str_len _ = 64 |- _ => unfold str_len in Hl; rewrite <-chars_of_length, chars_of_of, length_take in Hl; lia end.
Qed.
End token.

(** ** A served node can be served again *)

Section served.
Context {SHA : Sha256} {CID : CidLib} {HDC : DagCbor} {ECD : Ecdsa} {URL : UrlLib}
  {JSON : JsonText} {B64 : Base64Url} {HMAC : HmacSha256} {HEX : HexLib} {B58 : Base58} {B64S : Base64Std}
  {RAW : JsonDocument} {TIME : TimeLib} {SIWE : SiweLib} {KEC : Keccak256} {QR : QrCodeLib} {B64E : Base64StdEncode}.
Context {LAWS : JsonDocumentLaws} {HJSON : JsonTextLaws} {HSHA : Sha256Laws} {HHEX : HexLaws}.
Context (asset : string → HttpReply) (framework : HttpRequest → HttpReply).
Context (peer : Peer) (clock : nat → Z) (random : nat → bytes) (trouble : Trouble).
Context (Hclock : ∀ n, is_u64 (clock n)) (Hrandom : ∀ n, len (random n) = 32).

(** The database of a new directory, or one the node left. *)
Definition database_ok (d : Db) : Prop :=
  d = mkDb 0 None None ∅ ∅ None ∨ ∃ key, db_wf key d ∧ len key = 32.

Lemma prepared directory file d draw db st : CredStore.open directory file d draw = (db, Ok st) →
  ∃ mode file_mode, default (FsDirectory 0x1c0) directory = FsDirectory mode ∧ Z.land mode 0x3f = 0 ∧
    default (FsFile 0x180 1) file = FsFile file_mode 1 ∧ Z.land file_mode 0x3f = 0 ∧ st = mkStore db (jwt_key st) ∧
    open_schema d draw = Ok (db, jwt_key st).
Proof.
  unfold CredStore.open, prepare_directory, prepare_database. intros Ho.
  destruct (default (FsDirectory 448) directory) as [mode| | |]; try done.
  destruct (Z.eqb_spec (Z.land mode 63) 0); cbn [negb reject_if mbind result_bind] in Ho; [|done].
  destruct (default (FsFile 384 1) file) as [|file_mode nlink| |]; try done.
  destruct (Z.eqb_spec (Z.land file_mode 63) 0), (Z.eqb_spec nlink 1); cbn [negb orb reject_if mbind result_bind] in Ho; try done.
  destruct (open_schema d draw) as [[d' key]|] eqn:Hs; cbn [mbind result_bind] in Ho; [|done].
  destruct (open_check _) as [[]|]; cbn [mbind result_bind] in Ho; [|done]. injection Ho as <- <-. subst nlink.
  by exists mode, file_mode.
Qed.

Lemma opened_credentials directory file d draw db st : CredStore.open directory file d draw = (db, Ok st) →
  database_ok d → len draw = 32 → db_wf (jwt_key st) (CredStore.db st) ∧ len (jwt_key st) = 32.
Proof.
  intros (mode & file_mode & _ & _ & _ & _ & -> & Hs)%prepared Hok Hd. cbn [CredStore.db jwt_key] in *.
  destruct Hok as [->|(key & Hwf & Hk)].
  - unfold open_schema in Hs. cbn [user_version secret Z.ltb Z.compare reject_if mbind result_bind] in Hs.
    injection Hs as <- <-. split; [apply (fresh_wf draw)|done].
  - unfold open_schema in Hs. rewrite (wf_version _ _ Hwf), (wf_secret _ _ Hwf), Hk in Hs.
    cbn [Z.ltb Z.compare Z.eqb Pos.compare Pos.compare_cont Pos.eqb negb reject_if mbind result_bind] in Hs.
    injection Hs as <- <-. split; [|done]. by destruct Hwf.
Qed.

Lemma validated_loopback s : settings_validate s = Ok () → ip_is_loopback (sa_ip (s_admin_bind s)) = true.
Proof. unfold settings_validate. intros Hv. inv_result. by boolify. Qed.

(** The database a start opened, and the entries it is in. *)
Lemma open_credentials_ok la m directory file db credentials :
  open_credentials la m = (directory, file, db, Ok credentials) →
  CredStore.open (m_directory m) (m_database m) (m_db m) (la_key la) = (db, Ok credentials) ∧
  directory = Some (default (FsDirectory 0x1c0) (m_directory m)) ∧ file = Some (default (FsFile 0x180 1) (m_database m)).
Proof.
  unfold open_credentials. intros Ho.
  destruct (prepare_directory (m_directory m)) as [entry|e] eqn:Hd; [|by destruct (la_database_fault la)].
  destruct (prepare_database (m_database m)) as [entry'|e] eqn:Hf; [|by destruct (la_database_fault la)].
  assert (entry = default (FsDirectory 0x1c0) (m_directory m)) as ->.
  { unfold prepare_directory in Hd. destruct (default _ _); [|done..]. destruct (negb _); [done|]. by injection Hd as <-. }
  assert (entry' = default (FsFile 0x180 1) (m_database m)) as ->.
  { unfold prepare_database in Hf. destruct (default (FsFile _ _) _) as [|md nl| |]; cbn zeta in Hf; try discriminate Hf. destruct (_ || _); [done|]. by injection Hf as <-. }
  destruct (la_database_fault la), (CredStore.open _ _ _ _) as [db1 r]; try done. injection Ho as <- <- <- ->. done.
Qed.

(** The parts of a successful start. *)
Lemma serve_spec la args m state n m' : serve la args m = (m', Some (state, n)) →
  ∃ d store token file db credentials admin_addr public_addr,
    ConfigStore.open (la_faults la) (initial_settings args) (m_disk m) = (d, Ok store) ∧
    la_bind la (s_admin_bind (settings store)) = Some admin_addr ∧ la_bind la (s_public_bind (settings store)) = Some public_addr ∧
    load_admin_token (la_token_fault la) (m_token m) (la_token la) = (file, Some token) ∧
    CredStore.open (m_directory m) (m_database m) (m_db m) (la_key la) = (db, Ok credentials) ∧
    state = mkConsoleConfig admin_addr public_addr token (settings store) (hex_encode (la_instance la)) ∧
    new_console state (la_now la) store (Ok credentials) d = Some n ∧
    m' = mkMachine d file (Some (default (FsDirectory 0x1c0) (m_directory m)))
      (Some (default (FsFile 0x180 1) (m_database m))) db.
Proof.
  unfold serve. intros Hs. destruct (ConfigStore.open _ _ _) as [d [store|]]; [|done].
  destruct (la_bind la (s_admin_bind _)) as [admin_addr|] eqn:Ha; [|done].
  destruct (la_bind la (s_public_bind _)) as [public_addr|] eqn:Hp; [|done].
  destruct (load_admin_token _ _ _) as [file [token|]]; [|done]. unfold serve_console in Hs.
  destruct (negb _); [done|]. destruct (open_credentials la _) as [[[directory database] db] r] eqn:Hc.
  injection Hs as <- Hn. destruct r as [credentials|e].
  - apply open_credentials_ok in Hc as (Hc & -> & ->). destruct (new_console _ _ _ _ _) as [n1|] eqn:Hnew; [|done].
    injection Hn as <- <-. by exists d, store, token, file, db, credentials, admin_addr, public_addr.
  - unfold new_console in Hn. destruct (negb _); [done|]. unfold node_open in Hn.
    by destruct (account_validate _); cbn [result_ok mbind option_bind] in Hn.
Qed.

(** A served node is one the theorems about the console speak of. *)
Lemma served_opened la args m state n m' : serve la args m = (m', Some (state, n)) →
  f_swap (la_faults la) = None → addresses_wf (initial_settings args) → database_ok (m_db m) → len (la_key la) = 32 →
  ConsoleTheorems.opened state n.
Proof.
  intros Hs Hswap Hwf Hdb Hkd.
  apply serve_spec in Hs as (d & store & token & file & db1 & cr & aa & pa & Hopen & _ & _ & _ & Hcred & -> & Hnew & _).
  destruct (opened_credentials _ _ _ _ _ _ Hcred Hdb Hkd) as [Hcwf Hclen].
  exists (la_now la), store, cr, d. split_and!; try done. by eapply open_holds.
Qed.

(** C6: a served node can be served again.  However a node that [psky serve]
    started was used, whatever system calls of its configuration store failed,
    once it stopped [psky serve] starts again in the same data directory if its
    sockets can be bound: with the configuration, the token and the credentials
    the node had, whatever the options now say.  (The stored account has to be
    within the limit that the credential store enforces when it reads it.) *)
Theorem served_node_restarts la args m state n0 m0 n la' args' t :
  serve la args m = (m0, Some (state, n0)) →
  f_swap (la_faults la) = None → addresses_wf (initial_settings args) →
  database_ok (m_db m) → len (la_token la) = 32 → len (la_key la) = 32 →
  rtc (ConsoleTheorems.console_step state asset framework peer clock random trouble) n0 n →
  la_faults la' = no_faults t → la_token_fault la' = TokenWorks → la_database_fault la' = DatabaseWorks →
  (∀ a, ∃ b, la_bind la' a = Some b ∧ sa_ip b = sa_ip a) →
  let c := co_store (w_core (account_world n)) in
  (∀ doc k, account_row (db c) = Some (doc, k) → str_len doc ≤ 8192) →
  ∃ state' n' m',
    serve la' args' (mkMachine (disk n) (m_token m0) (m_directory m0) (m_database m0) (db c)) = (m', Some (state', n')) ∧
    admin_token state' = admin_token state ∧ ct_store (control n') = ct_store (control n) ∧
    co_store (w_core (account_world n')) = c.
Proof.
  intros Hs Hswap Hwf Hdb Htd Hkd Hrun Hf' Htf Hdf Hb' c Hdoc. pose proof (served_opened _ _ _ _ _ _ Hs Hswap Hwf Hdb Hkd) as Ho.
  apply serve_spec in Hs as (d & store & token & file & db1 & cr & aa & pa & Hopen & Hba & Hbp & Htok & Hcred & -> & Hnew & ->).
  cbn [m_token m_directory m_database admin_token] in *.
  destruct (prepared _ _ _ _ _ _ Hcred) as (mode & file_mode & Hm & Hmode & Hfm & Hfmode & _).
  pose proof (load_token_reloads _ _ _ _ _ Htok Htd) as Htoken.
  destruct (Hb' (s_admin_bind (settings (ct_store (control n))))) as (aa' & Hba' & Hip).
  destruct (Hb' (s_public_bind (settings (ct_store (control n))))) as (pa' & Hbp' & _).
  set (state' := mkConsoleConfig aa' pa' token (settings (ct_store (control n))) (hex_encode (la_instance la'))).
  pose proof (node_restarts _ _ _ _ _ _ _ Hclock Hrandom n0 n t (initial_settings args') mode file_mode (la_key la') (la_now la')
    state' Ho Hrun Hmode Hfmode) as Hr.
  assert (Hloop : ip_is_loopback (sa_ip (admin_addr state')) = true).
  { cbn [state' admin_addr]. rewrite Hip. apply validated_loopback, (holds_valid (disk n)).
    by apply (console_refined _ _ _ _ _ _ _ Hclock Hrandom n0 n Ho Hrun). }
  destruct (Hr Hloop (proj2 Htoken) Hdoc) as (Hopen' & _ & Hcred' & n' & Hnew' & Hst & Hco).
  exists state', n'. eexists. split; [|by split_and!].
  unfold serve. cbn [m_disk m_token m_directory m_database m_db]. rewrite Hf', Hopen', Hba', Hbp', Htf.
  rewrite (load_token_again _ _ _ _ Htoken) by done. fold state'. unfold serve_console.
  assert (console_valid state' (ct_store (control n)) = true) as ->.
  { unfold new_console in Hnew'. by destruct (console_valid _ _). }
  cbn [negb]. unfold open_credentials. cbn [m_disk m_token m_directory m_database m_db]. rewrite Hdf.
  assert (prepare_directory (Some (FsDirectory mode)) = Ok (FsDirectory mode)) as Hpd by (cbn; by rewrite Hmode).
  assert (prepare_database (Some (FsFile file_mode 1)) = Ok (FsFile file_mode 1)) as Hpf by (cbn; by rewrite Hfmode).
  unfold c in *. rewrite Hm, Hfm, Hpd, Hpf, Hcred'. by rewrite Hnew'.
Qed.
End served.
