(* ===== verification/Startup.v ===== *)
(** * Starting again after a start that failed ([serve] of [crates/psky/src/main.rs])

    What any number of attempts to start a new node may leave in its data
    directory, and the start that succeeds there. *)

From S2P Require Import Prelude RustStd IpAddr IpAddrText BTreeMap Externs Fixtures RepoSyntax RepoRecords RepoRecordSet RepoMst RepoCar Repository CredIdentity CredTokens CredStore CredProofs CredTheorems Http FarcasterMessage FarcasterClient FarcasterVerify FarcasterTheorems Settings ConfigStore SettingsTheorems AccountNode AccountExec Web AccountHttp AccountLogic AccountSafety Hypersnap Journal ReportJson Lab Console ConsoleTheorems NodeRestart CommandLine.

(** ** The configuration *)

Section configuration.
Context `{UrlLib} `{JsonDocumentLaws}.

(** A directory in which no settings were saved. *)
Definition unset (d : Disk) : Prop :=
  (disk_dir d = DirMissing ∧ disk_files d = ∅) ∨ (disk_dir d = DirEntries ∧ disk_files d !! SETTINGS_FILE = None).

Lemma open_leaves f s d d' r : open f s d = (d', r) → f_swap f = None → addresses_wf s →
  unset d ∨ (∃ document, holds d document) → unset d' ∨ ∃ document, holds d' document.
Proof.
  unfold open. intros Ho Hsw Ha Hd.
  assert (unset (prepare_dir f s d).1 ∨ ∃ document, holds (prepare_dir f s d).1 document) as Hd1.
  { unfold prepare_dir. destruct (f_dir_stat f); [done|]. destruct (disk_dir d) eqn:Hdir; [|done|].
    - destruct (settings_validate s); [|done]. destruct (f_mkdir f); [done|]. left. right. by cbn.
    - by destruct (f_mkdir f). }
  destruct (prepare_dir f s d) as [d1 [u|e]] eqn:Hp; cbn [fst] in Hd1; [|by injection Ho as <- <-].
  apply prepare_dir_ok in Hp as [Hdir _].
  destruct (read_document f d1) as [[saved|]|e]; [by injection Ho as <- <-| |by injection Ho as <- <-].
  destruct (settings_validate s) as [[]|] eqn:Hv; [|by injection Ho as <- <-].
  destruct (publish _ _ _ _) as [d2 pr] eqn:Hpub. assert (d' = d2) as -> by by destruct pr; injection Ho.
  apply publish_cases in Hpub as [[Hu _]|(Hpub & _ & _)].
  - destruct Hd1 as [Hun|[document Hh]]; [left|right; exists document; by eapply untouched_holds].
    right. destruct Hu as [Hdu Hfu]. rewrite Hdu. split; [done|]. rewrite Hfu.
    + destruct Hun as [[_ ->]|[_ ?]]; [apply lookup_empty|done].
    + intros Heq. by apply (temporary_is_not_settings f).
  - right. eexists. by eapply published_holds.
Qed.

(** Where nothing was saved, the options become the settings. *)
Lemma open_creates t s d : unset d → disk_files d !! temporary_name (no_faults t) = None →
  settings_validate s = Ok () → addresses_wf s →
  len (json_to_vec_pretty (ser_document (mkConfigDocument SCHEMA_VERSION 1 s))) ≤ MAX_SETTINGS_BYTES →
  ∃ d', open (no_faults t) s d = (d', Ok (mkConfigDocument SCHEMA_VERSION 1 s)).
Proof.
  intros Hu Ht Hv Ha Hl. unfold open.
  assert (∃ d1, prepare_dir (no_faults t) s d = (d1, Ok ()) ∧ disk_files d1 !! SETTINGS_FILE = None ∧
    disk_files d1 !! temporary_name (no_faults t) = None) as (d1 & -> & Hs1 & Ht1).
  { unfold prepare_dir. cbn [no_faults f_dir_stat f_mkdir f_dir_stat2 reject_if].
    destruct Hu as [[-> _]|[-> Hs]]; [rewrite Hv; by eexists|by eexists]. }
  unfold read_document. cbn [no_faults f_stat]. rewrite Hs1, Hv. unfold publish.
  rewrite (proj2 (Z.ltb_ge _ _)), Ht1 by done. cbn [no_faults f_create f_write f_sync f_publish orb].
  rewrite (bool_decide_false (is_Some None)) by by intros []. cbn [disk_files put_file set_files disk_dir next_ino].
  rewrite lookup_insert_ne, Hs1, (bool_decide_false (is_Some None)) by (try apply temporary_is_not_settings; by intros []).
  by eexists.
Qed.
End configuration.

Section startup.
Context {SHA : Sha256} {CID : CidLib} {HDC : DagCbor} {ECD : Ecdsa} {URL : UrlLib}
  {JSON : JsonText} {B64 : Base64Url} {HMAC : HmacSha256} {HEX : HexLib} {B58 : Base58} {B64S : Base64Std}
  {RAW : JsonDocument} {TIME : TimeLib} {SIWE : SiweLib} {KEC : Keccak256} {QR : QrCodeLib} {B64E : Base64StdEncode}.
Context {LAWS : JsonDocumentLaws} {HJSON : JsonTextLaws} {HSHA : Sha256Laws} {HHEX : HexLaws}.

(** ** The credentials *)

(** The tables of a node no account was bound to. *)
Definition unbound (d : Db) : Prop := d = empty_db ∨ ∃ key, len key = 32 ∧ d = db (fresh_store key).

Definition entries_ok (directory file : option FsEntry) : Prop :=
  (∃ mode, default (FsDirectory 0x1c0) directory = FsDirectory mode ∧ Z.land mode 0x3f = 0) ∧
  (∃ mode, default (FsFile 0x180 1) file = FsFile mode 1 ∧ Z.land mode 0x3f = 0).

Lemma entries_prepared directory file : entries_ok directory file →
  prepare_directory directory = Ok (default (FsDirectory 0x1c0) directory) ∧
  prepare_database file = Ok (default (FsFile 0x180 1) file).
Proof.
  intros [(mode & Hd & Hm) (fmode & Hf & Hfm)]. unfold prepare_directory, prepare_database. rewrite Hd, Hf.
  by rewrite Hm, Hfm.
Qed.

Lemma unbound_opens directory file d draw : entries_ok directory file → unbound d → len draw = 32 →
  ∃ key, len key = 32 ∧ CredStore.open directory file d draw = (db (fresh_store key), Ok (fresh_store key)).
Proof.
  intros [He1 He2]%entries_prepared Hu Hd. unfold CredStore.open. rewrite He1, He2. cbn [mbind result_bind].
  destruct Hu as [->|(key & Hk & ->)]; unfold open_schema; cbn [user_version secret empty_db fresh_store db Z.ltb Z.compare reject_if mbind result_bind Pos.compare Pos.compare_cont].
  - by exists draw.
  - rewrite Hk. by exists key.
Qed.

(** ** What attempts leave *)

Record startable (m : Machine) : Prop := {
  sa_disk : unset (m_disk m) ∨ ∃ document, holds (m_disk m) document;
  sa_token : m_token m = None ∨ ∃ token, token_file (m_token m) token;
  sa_entries : entries_ok (m_directory m) (m_database m);
  sa_tables : unbound (m_db m)
}.

(** An attempt: the draws have their lengths, nothing else writes the settings
    file, and a token file that is created is written in full. *)
Record attempt_ok (la : Launch) (args : ServeArgs) : Prop := {
  at_swap : f_swap (la_faults la) = None;
  at_addresses : addresses_wf (initial_settings args);
  at_token : len (la_token la) = 32;
  at_written : ∀ n, la_token_fault la ≠ TokenTruncated n;
  at_key : len (la_key la) = 32
}.

Lemma open_credentials_leaves la m directory file d r : startable m → len (la_key la) = 32 →
  open_credentials la m = (directory, file, d, r) → entries_ok directory file ∧ unbound d.
Proof.
  intros [_ _ He Hu] Hk. pose proof (entries_prepared _ _ He) as [Hd Hf]. unfold open_credentials. rewrite Hd, Hf.
  destruct (unbound_opens _ _ _ (la_key la) He Hu Hk) as (key & Hkey & Ho). rewrite Ho.
  assert (unbound (db (fresh_store key))) as Hu' by (right; by exists key).
  destruct (la_database_fault la); intros [= <- <- <- _]; (split; [|done]); try done; destruct He as [(mode & -> & ?) (fmode & -> & ?)];
    split; by eexists.
Qed.

Lemma attempt_leaves la args m : startable m → attempt_ok la args → startable (serve la args m).1.
Proof.
  intros Hm [Hsw Ha Htl Hw Hk]. unfold serve. destruct (ConfigStore.open _ _ _) as [d store] eqn:Ho.
  pose proof (open_leaves _ _ _ _ _ Ho Hsw Ha (sa_disk _ Hm)) as Hd.
  assert (startable (mkMachine d (m_token m) (m_directory m) (m_database m) (m_db m))) as Hm1 by (destruct Hm; by split).
  destruct store as [store|]; [|done]. destruct (la_bind la _) as [aa|]; [|done]. destruct (la_bind la _) as [pa|]; [|done].
  destruct (load_admin_token _ _ _) as [file token] eqn:Ht.
  assert (file = None ∨ ∃ t, token_file file t) as Hfile.
  { unfold load_admin_token in Ht. destruct (la_token_fault la) as [| |n] eqn:Hf; [| |by destruct (Hw n)].
    - destruct (m_token m) as [meta|] eqn:Hmt; injection Ht as <- _; [|right; eexists; by apply new_token_file].
      pose proof (sa_token _ Hm) as Hold. by rewrite Hmt in Hold.
    - assert (file = m_token m) as -> by by destruct (m_token m); injection Ht. apply (sa_token _ Hm). }
  assert (startable (mkMachine d file (m_directory m) (m_database m) (m_db m))) as Hm2 by (destruct Hm; by split).
  destruct token as [token|]; [|done]. unfold serve_console. destruct (negb _); [done|].
  destruct (open_credentials la _) as [[[directory database] tables] r] eqn:Hc. cbn [fst m_disk m_token].
  apply open_credentials_leaves in Hc as [? ?]; [|done|done]. by split.
Qed.

(** Any sequence of attempts. *)
Definition attempts (m : Machine) (starts : list (Launch * ServeArgs)) : Machine :=
  foldl (λ m start, (serve start.1 start.2 m).1) m starts.

Lemma attempts_leave m starts : startable m → Forall (λ start, attempt_ok start.1 start.2) starts → startable (attempts m starts).
Proof.
  revert m. induction starts as [|[la args] starts IH]; intros m Hm Hall; [done|]. apply Forall_cons in Hall as [Ha Hall].
  apply IH; [|done]. by apply attempt_leaves.
Qed.

(** ** The start that succeeds *)

(** A data directory that does not exist yet. *)
Definition new_machine (next : Z) : Machine := mkMachine (mkDisk DirMissing ∅ next) None None None empty_db.

Lemma new_startable next : startable (new_machine next).
Proof.
  split; [left; left; done|by left| |by left]. split; [exists 0x1c0|exists 0x180]; done.
Qed.

(** Nothing fails, both sockets can be bound, and the options are usable. *)
Record launch_ok (t : string) (la : Launch) (args : ServeArgs) : Prop := {
  lo_faults : la_faults la = no_faults t;
  lo_token : la_token_fault la = TokenWorks;
  lo_database : la_database_fault la = DatabaseWorks;
  lo_bind : ∀ a, ∃ b, la_bind la a = Some b ∧ sa_ip b = sa_ip a;
  lo_settings : settings_validate (initial_settings args) = Ok ();
  lo_size : len (json_to_vec_pretty (ser_document (mkConfigDocument SCHEMA_VERSION 1 (initial_settings args)))) ≤ MAX_SETTINGS_BYTES
}.

Lemma startable_opens m t s : startable m → disk_files (m_disk m) !! temporary_name (no_faults t) = None →
  settings_validate s = Ok () → addresses_wf s →
  len (json_to_vec_pretty (ser_document (mkConfigDocument SCHEMA_VERSION 1 s))) ≤ MAX_SETTINGS_BYTES →
  ∃ d document, ConfigStore.open (no_faults t) s (m_disk m) = (d, Ok document) ∧ settings_validate (settings document) = Ok ().
Proof.
  intros Hm Ht Hv Ha Hl. destruct (sa_disk _ Hm) as [Hu|[document Hh]].
  - destruct (open_creates t s (m_disk m) Hu Ht Hv Ha Hl) as [d Hd]. by do 2 eexists.
  - exists (m_disk m), document. split; [by apply holds_reopens|by eapply holds_valid].
Qed.

Lemma startable_token m draw : startable m → len draw = 32 →
  ∃ file token, load_admin_token TokenWorks (m_token m) draw = (file, Some token) ∧ valid_token token = true.
Proof.
  intros Hm Hd. destruct (sa_token _ Hm) as [->|[token Ht]].
  - do 2 eexists. split; [done|]. by apply new_token_file.
  - exists (m_token m), token. split; [by apply load_token_again|apply Ht].
Qed.

Lemma unbound_console state now store key d : console_valid state store = true →
  is_Some (new_console state now store (Ok (fresh_store key)) d).
Proof.
  intros Hv. unfold new_console. rewrite Hv. cbn [negb]. unfold console_valid in Hv. boolify.
  unfold node_open. assert (settings_validate (settings store) = Ok ()) as Hset by by destruct (settings_validate _) as [[]|].
  unfold settings_validate in Hset. destruct (account_validate _); [|done]. by eexists.
Qed.

(** C8: a start can be tried again.  Whatever a new node met in any number of
    attempts to start it, system calls of the configuration store failing,
    sockets in use, the token or the database out of reach, options changing
    from one attempt to the next, it starts once nothing fails and the options
    are usable, if only no attempt was stopped while it was writing a new
    token. *)
Theorem failed_start_recovers next starts t la args :
  Forall (λ start, attempt_ok start.1 start.2) starts → attempt_ok la args → launch_ok t la args →
  let m := attempts (new_machine next) starts in
  disk_files (m_disk m) !! temporary_name (no_faults t) = None →
  ∃ m' state n, serve la args m = (m', Some (state, n)) ∧ ConsoleTheorems.opened state n.
Proof.
  intros Hall Hok [Hf Htf Hdf Hbind Hset Hsize] m Htemp.
  pose proof (attempts_leave _ starts (new_startable next) Hall) as Hm. fold m in Hm.
  assert (∃ m' state n, serve la args m = (m', Some (state, n))) as (m' & state & n & Hs).
  { destruct (startable_opens m t _ Hm Htemp Hset (at_addresses _ _ Hok) Hsize) as (d & document & Ho & Hv).
    destruct (startable_token m (la_token la) Hm (at_token _ _ Hok)) as (file & token & Ht & Htv).
    destruct (Hbind (s_admin_bind (settings document))) as (aa & Haa & Hip).
    destruct (Hbind (s_public_bind (settings document))) as (pa & Hpa & _).
    destruct (unbound_opens _ _ _ (la_key la) (sa_entries _ Hm) (sa_tables _ Hm) (at_key _ _ Hok)) as (key & _ & Hc).
    destruct (entries_prepared _ _ (sa_entries _ Hm)) as [Hpd Hpf].
    set (state := mkConsoleConfig aa pa token (settings document) (hex_encode (la_instance la))).
    assert (console_valid state document = true) as Hcv.
    { unfold console_valid. cbn [state admin_addr admin_token]. rewrite Hip, Htv, Hv, (validated_loopback _ Hv). done. }
    destruct (unbound_console state (la_now la) document key d Hcv) as [n Hn].
    eexists _, state, n. unfold serve. rewrite Hf, Ho, Haa, Hpa, Htf. cbn [m_disk m_token m_directory m_database m_db]. rewrite Ht. unfold serve_console. fold state. rewrite Hcv.
    cbn [negb]. unfold open_credentials. cbn [m_disk m_token m_directory m_database m_db]. rewrite Hdf, Hpd, Hpf, Hc, Hn. done. }
  exists m', state, n. split; [done|]. eapply served_opened; [exact Hs|by rewrite Hf|apply Hok| |apply Hok].
  destruct (sa_tables _ Hm) as [->|(key & Hk & ->)]; [by left|]. right. exists key. split; [apply fresh_wf|done].
Qed.
End startup.
