(* ===== verification/ConsoleDemo.v ===== *)
(** * A concrete run of a node

    Start from the command line, an update that enables the account, a peer
    check, an update of the settings whose directory cannot be
    synchronized, a shutdown, a sign-in and a restart, on which the theorems are tried. *)

From S2P Require Import Prelude RustStd IpAddr IpAddrText BTreeMap Externs Fixtures RepoSyntax RepoRecords RepoRecordSet RepoMst RepoCar Repository CredIdentity CredTokens CredStore CredProofs CredTheorems Http FarcasterMessage FarcasterClient FarcasterVerify FarcasterTheorems Settings ConfigStore SettingsTheorems AccountNode AccountExec Web AccountHttp AccountLogic AccountLimits AccountTheorems AccountSafety AccountDemo Hypersnap HypersnapTheorems Journal ReportJson Lab Console ConsoleTheorems NodeRestart Publication CommandLine Startup.

Definition cd_endpoints : list string := ["https://snap.example.org"; "http://127.0.0.1:3381"].
Definition cd_args : ServeArgs := mkServeArgs (localhost 8788) (localhost 8787) false (mkPeers cd_endpoints Mainnet (Some 3)).
Definition cd_launch (temporary : string) : Launch :=
  mkLaunch (no_faults temporary) Some (repeat x5a 32) TokenWorks demo_jwt_key DatabaseWorks (repeat x0a 16) 1757900000.
Definition cd_machine : Machine := mkMachine demo_disk None None None (mkDb 0 None None ∅ ∅ None).
Definition cd_served := serve (cd_launch "a1") cd_args cd_machine.

Definition cd_token : string := hex_encode (repeat x5a 32).
Definition cd_asset (page : string) : HttpReply := mkHttpReply 200 ∅ (BodyText page).
Definition cd_framework (req : HttpRequest) : HttpReply := mkHttpReply 404 ∅ BodyEmpty.

Definition cd_nothing : ConsoleConfig * Node :=
  (mkConsoleConfig (localhost 1) (localhost 1) "" settings_default "",
   mkNode (mkControl demo_store None None None None None journal_default None [] 1 false) run_start demo_disk []).
Definition cd_state : ConsoleConfig := (default cd_nothing cd_served.2).1.
Definition cd_start : Node := (default cd_nothing cd_served.2).2.
Definition cd_stored : Machine := cd_served.1.

Lemma cd_served_some : cd_served = (cd_stored, Some (cd_state, cd_start)).
Proof.
  assert (bool_decide (is_Some cd_served.2) = true) as Hs by (vm_compute; reflexivity).
  unfold cd_state, cd_start, cd_stored. destruct cd_served as [? [[? ?]|]]; [reflexivity|discriminate Hs].
Qed.

Lemma cd_addresses : addresses_wf (initial_settings cd_args).
Proof.
  assert (Forall (λ n, 0 ≤ n < 256) [127; 0; 0; 1]) as ? by repeat (constructor; try lia). by split_and!.
Qed.
Lemma cd_database : database_ok (m_db cd_machine).
Proof. left. reflexivity. Qed.
Lemma cd_is_opened : ConsoleTheorems.opened cd_state cd_start.
Proof. exact (served_opened _ _ _ _ _ _ cd_served_some eq_refl cd_addresses cd_database eq_refl). Qed.

(** The settings the operator saves first: they enable the account. *)
Definition cd_settings : Settings :=
  mkSettings run_settings "Our node" cd_endpoints Mainnet (Some 3) 5000 65536 60 false
    (localhost 8788) (mkSocketAddr (V4 [0; 0; 0; 0]) 8787 0).

(** Requests to the console. *)
Definition cd_request (method : Method) (path : string) (token : string) (body : option Json) : HttpRequest :=
  mkHttpRequest method path []
    (λ name, if bool_decide (name = "host") then Some (Some "127.0.0.1:8788")
             else if bool_decide (name = "authorization") then Some (Some ("Bearer " +:+ token)) else None) body None.
Definition cd_occasion (f : Faults) : Occasion := mkOccasion f 1757900001 1757900002 1 false false false false false.

Abbreviation cd_step := (ConsoleTheorems.console_step cd_state cd_asset cd_framework run_peer run_clock run_random no_trouble).
Abbreviation cd_admin := (Console.admin_router cd_state cd_asset cd_framework).

Definition cd_body (expected : Z) (s : Settings) : Json :=
  JObject [("expected_revision", json_nat expected); ("settings", ser_settings s)].
Definition cd_enable := cd_admin (cd_occasion (no_faults "a2")) (cd_request MPut "/admin/config" cd_token (Some (cd_body 1 cd_settings))) cd_start.
Definition cd_enabled : Node := cd_enable.2.
Definition cd_checking : Node :=
  (cd_admin (cd_occasion (no_faults "b2")) (cd_request MPost "/admin/preflight" cd_token None) cd_enabled).2.

Example enabled_by_update : (rp_status cd_enable.1, bool_decide (settings (ct_store (control cd_enabled)) = cd_settings),
  as_enabled (co_settings (w_core (account_world cd_enabled)))) = (200, true, true).
Proof. vm_compute. reflexivity. Qed.
Definition cd_run : JobRun := mkJobRun hw_peer (λ _, false) [] false.
Definition cd_job : Job := default (mkJob (mkOperation 0 Reconstruct "" 0 None None 0) None) (head (jobs cd_checking)).
Lemma cd_one_job : jobs cd_checking = [cd_job].
Proof.
  assert (length (jobs cd_checking) = 1%nat) as Hl by (vm_compute; reflexivity).
  unfold cd_job. destruct (jobs cd_checking) as [|j [|]]; [discriminate Hl|reflexivity|discriminate Hl].
Qed.
Definition cd_checked : Node := job_ends 1757900005 1757900005 cd_run cd_job [] cd_checking.

Lemma cd_reaches_checking : rtc cd_step cd_start cd_checking.
Proof. eapply rtc_r; [apply rtc_once, step_admin|apply step_admin]. Qed.
Lemma cd_reaches : rtc cd_step cd_start cd_checked.
Proof.
  eapply rtc_r; [exact cd_reaches_checking|].
  exact (step_ends _ _ _ _ _ _ _ cd_checking 1757900005 1757900005 cd_run [] cd_job [] cd_one_job).
Qed.

Definition cd_report : Json := default JNull (ct_preflight (control cd_checked)).
Lemma cd_reported : ct_preflight (control cd_checked) = Some cd_report.
Proof.
  assert (bool_decide (is_Some (ct_preflight (control cd_checked))) = true) as Hs by (vm_compute; reflexivity).
  unfold cd_report. destruct (ct_preflight (control cd_checked)); [reflexivity|discriminate Hs].
Qed.

Lemma report_is_current_witness :
  preflight_revision (control cd_checked) = Some (revision (ct_store (control cd_checked))) ∧
  ∃ config peers report, Settings.preflight (settings (ct_store (control cd_checked))) = Ok (Some config) ∧
    (Hypersnap.run peers config []).1 = Ok report ∧ cd_report = ser_preflight_report report.
Proof.
  pose proof (report_is_current cd_state cd_asset cd_framework run_peer run_clock run_random no_trouble run_clock_u64 run_random_len
    cd_start cd_checked cd_report) as H.
  specialize (H cd_is_opened cd_reaches). exact (H cd_reported).
Defined.

Lemma actions_serial_witness : serial cd_checked ∧ numbered (control cd_checked).
Proof.
  pose proof (actions_serial cd_state cd_asset cd_framework run_peer run_clock run_random no_trouble run_clock_u64 run_random_len
    cd_start cd_checked) as H.
  exact (H cd_is_opened cd_reaches).
Defined.

Lemma console_refines_account_witness :
  rtc run_node_step (account_world cd_start) (account_world cd_checked) ∧
  co_settings (w_core (account_world cd_checked)) = s_account (settings (ct_store (control cd_checked))) ∧
  holds (disk cd_checked) (ct_store (control cd_checked)).
Proof.
  pose proof (console_refines_account cd_state cd_asset cd_framework run_peer run_clock run_random no_trouble run_clock_u64
    run_random_len cd_start cd_checked) as H.
  exact (H cd_is_opened cd_reaches).
Defined.

(** New settings whose directory cannot be synchronized. *)
Definition cd_new_settings : Settings :=
  mkSettings run_settings "Renamed" [] Mainnet None 5000 65536 60 true
    (localhost 8788) (mkSocketAddr (V4 [0; 0; 0; 0]) 8787 0).
Definition cd_put : HttpRequest := cd_request MPut "/admin/config" cd_token (Some (cd_body 2 cd_new_settings)).
Definition cd_update := update_config cd_state dirsync_fault false 1757900010 cd_put cd_checked.

Example update_published : (rp_status cd_update.1, revision (ct_store (control cd_update.2)),
  bool_decide (settings (ct_store (control cd_update.2)) = cd_new_settings), ct_preflight (control cd_update.2)) = (500, 3, true, None).
Proof. vm_compute. reflexivity. Qed.

Lemma update_all_or_nothing_witness :
  (same_settings cd_checked cd_update.2 ∧ rp_status cd_update.1 ∈ [400; 409; 500; 503]) ∨
  ∃ s, req_json cd_put ≫= de_config_update = Some (revision (ct_store (control cd_checked)), s) ∧
    applied cd_state dirsync_fault s cd_update.1 cd_checked cd_update.2.
Proof.
  pose proof (update_all_or_nothing cd_state cd_asset cd_framework run_peer run_clock run_random no_trouble run_clock_u64
    run_random_len cd_start cd_checked dirsync_fault false 1757900010 cd_put cd_update.1 cd_update.2) as H.
  specialize (H cd_is_opened cd_reaches). apply H. apply surjective_pairing.
Defined.

(** A shutdown while the peers are being checked. *)
Definition cd_draining : Node := set_control (drain 1757900003 (control cd_checking)).2 cd_checking.
Definition cd_drained : Node := job_ends 1757900005 1757900005 cd_run cd_job [] cd_draining.

Lemma cd_drains : rtc cd_step cd_draining cd_drained.
Proof.
  apply rtc_once. exact (step_ends _ _ _ _ _ _ _ cd_draining 1757900005 1757900005 cd_run [] cd_job [] cd_one_job).
Qed.


(** A request with another token. *)
Definition cd_guess : HttpRequest := cd_request MPost "/admin/reconstruct" (hex_encode (repeat x5b 32)) None.
Definition cd_refusal := cd_admin (cd_occasion (no_faults "c3")) cd_guess cd_start.

Example guess_refused : rp_status cd_refusal.1 = 401.
Proof. vm_compute. reflexivity. Qed.

Lemma management_needs_token_witness :
  rp_headers cd_refusal.1 !! "cache-control" = Some "no-store" ∧
  (cd_refusal.2 = cd_start ∧ (rp_status cd_refusal.1 = 403 ∨ rp_status cd_refusal.1 = 401) ∨
   host_allowed cd_guess (admin_addr cd_state) = true ∧ origin_allowed cd_guess (admin_addr cd_state) = true ∧
   (has_token cd_state cd_guess ∨ cd_refusal.2 = cd_start ∧ ∃ page, cd_refusal.1 = protected CONSOLE_CSP (cd_asset page))).
Proof.
  exact (management_needs_token cd_state cd_asset cd_framework (cd_occasion (no_faults "c3")) cd_guess cd_start
    cd_refusal.1 cd_refusal.2 (surjective_pairing _)).
Defined.

(** A sign-in through the public listener, and a restart after it. *)
Definition cd_public_request (method : Method) (path token : string) (body : option Json) : HttpRequest :=
  mkHttpRequest method path []
    (λ name, if bool_decide (name = "host") then Some (Some "psky.example.org")
             else if bool_decide (name = "authorization") then Some (Some ("Bearer " +:+ token)) else None) body (login_id path).
Abbreviation cd_public :=
  (Console.public_router cd_state cd_asset cd_framework run_peer run_clock run_random no_trouble (cd_occasion (no_faults "d4"))).
Definition cd_login := cd_public
  (cd_public_request MPost "/account/login" "" (Some (JObject []))) cd_checked.
Definition cd_poll := cd_public
  (cd_public_request MGet ("/account/login/" +:+ run_token 1) (run_token 2) None) cd_login.2.
Definition cd_credentials' : Store := co_store (w_core (account_world cd_poll.2)).

Example sign_in_on_node : (rp_status cd_login.1, rp_status cd_poll.1, bool_decide (is_Some (account_row (db cd_credentials')))) =
  (200, 200, true).
Proof. vm_compute. reflexivity. Qed.

Lemma cd_reaches_poll : rtc cd_step cd_start cd_poll.2.
Proof.
  eapply rtc_r; [eapply rtc_r; [exact cd_reaches|]|].
  - exact (step_public _ _ _ _ _ _ _ cd_checked (cd_occasion (no_faults "d4")) 
      (cd_public_request MPost "/account/login" "" (Some (JObject [])))).
  - exact (step_public _ _ _ _ _ _ _ cd_login.2 (cd_occasion (no_faults "d4")) 
      (cd_public_request MGet ("/account/login/" +:+ run_token 1) (run_token 2) None)).
Qed.

Lemma cd_account_small doc k : account_row (db cd_credentials') = Some (doc, k) → str_len doc ≤ 8192.
Proof.
  assert (from_option (λ row, str_len row.1 <=? 8192) true (account_row (db cd_credentials')) = true) as Hb
    by (vm_compute; reflexivity).
  intros Hr. rewrite Hr in Hb. apply Z.leb_le. exact Hb.
Qed.

Lemma served_node_restarts_witness : ∃ state' n' m',
  serve (cd_launch "e5") default_serve
    (mkMachine (disk cd_poll.2) (m_token cd_stored) (m_directory cd_stored) (m_database cd_stored) (db cd_credentials'))
    = (m', Some (state', n')) ∧
  admin_token state' = admin_token cd_state ∧ ct_store (control n') = ct_store (control cd_poll.2) ∧
  co_store (w_core (account_world n')) = cd_credentials'.
Proof.
  pose proof (served_node_restarts cd_asset cd_framework run_peer run_clock run_random no_trouble run_clock_u64 run_random_len
    (cd_launch "a1") cd_args cd_machine cd_state cd_start cd_stored cd_poll.2 (cd_launch "e5") default_serve "e5") as H.
  specialize (H cd_served_some eq_refl cd_addresses). specialize (H cd_database eq_refl eq_refl).
  specialize (H cd_reaches_poll eq_refl eq_refl eq_refl). apply H; [|exact cd_account_small].
  intros addr. exists addr. exact (conj eq_refl eq_refl).
Defined.

(** The repository the node now serves for its account. *)
Definition cd_did : string := "did:web:psky.example.org".
Definition cd_reply : HttpReply := get_repo false false cd_did cd_poll.2.
Definition cd_car : bytes := match rp_body cd_reply with BodyBytes b => b | _ => [] end.

Lemma cd_serves : get_repo false false cd_did cd_poll.2 = car_reply "empty-account-repository" cd_car.
Proof.
  assert (match get_repo false false cd_did cd_poll.2 with
    | mkHttpReply status headers (BodyBytes b) => bool_decide (status = 200) && bool_decide
        (headers = {["x-psky-evidence" := "empty-account-repository"; "content-type" := "application/vnd.ipld.car"]})
    | _ => false end = true) as Hs by (vm_compute; reflexivity).
  unfold cd_car, cd_reply. destruct (get_repo _ _ _ _) as [status headers [| |b|]]; try discriminate Hs.
  boolify. subst. done.
Qed.

Lemma cd_car_small : len cd_car ≤ U64_MAX.
Proof. apply Z.leb_le. vm_compute. reflexivity. Qed.

(** Its blocks do not collide. *)
Definition cd_repository : result Cred.Error Repository := CredStore.repository cd_credentials'.
Example cd_collision_free :
  match cd_repository with
  | Ok repo => match encode (ser_signed (commit repo)) with
               | Ok b => collision_free (repo_written RepoRecordSet.new (root repo) b) | Err _ => false end
  | Err _ => false
  end = true.
Proof. vm_compute. reflexivity. Qed.

Lemma served_repository_verifies_witness :
  as_enabled (s_account (settings (ct_store (control cd_poll.2)))) = true ∧
  ∃ a sg repo, account_identity (s_account (settings (ct_store (control cd_poll.2)))) = Ok (identity a) ∧
    id_did (identity a) = cd_did ∧ did_document_of cd_credentials' = Ok (did_document a) ∧
    public_key_multibase a = multikey sg ∧ cid_to_string (root repo) = repo_cid a ∧
    ∀ b, encode (ser_signed (commit repo)) = Ok b → no_collision (repo_written RepoRecordSet.new (root repo) b) →
      Repository.verify repo (public_key_sec1 sg) = Ok () ∧
      ∃ bs, read_car cd_car = Some ([root repo], 1, bs) ∧ head bs = Some (root repo, b) ∧
        decode_signed b = Ok (commit repo) ∧ c_did (commit repo) = cd_did ∧ c_rev (commit repo) = repo_revision a ∧
        walk (tree_fuel RepoRecordSet.new) (car_lookup bs) (mst_root repo) = Some [].
Proof.
  exact (served_repository_verifies cd_state cd_asset cd_framework run_peer run_clock run_random no_trouble run_clock_u64
    run_random_len cd_start cd_poll.2 false false cd_did cd_car cd_is_opened cd_reaches_poll cd_serves cd_account_small cd_car_small).
Defined.

(** A write of a data server, sent to the public listener. *)
Definition cd_write : HttpRequest :=
  cd_public_request MPost "/xrpc/com.atproto.repo.createRecord" (run_token 2) (Some (JObject [])).

Lemma public_requests_confined_witness :
  (cd_public cd_write cd_poll.2).1 = not_ready ∧ (cd_public cd_write cd_poll.2).2 = cd_poll.2.
Proof.
  apply (public_requests_confined cd_state cd_asset cd_framework run_peer run_clock run_random no_trouble
    (cd_occasion (no_faults "d4")) cd_write cd_poll.2 _ _ (surjective_pairing _)); [|reflexivity].
  vm_compute. set_solver.
Defined.

(** Attempts to start a new node: the directory cannot be synchronized, a
    socket is in use, the token is out of reach, the database fails after its
    schema was made. *)
Definition cd_failing (f : Faults) (bind : SocketAddr → option SocketAddr) (token : TokenFault) (database : DatabaseFault) : Launch :=
  mkLaunch f bind (repeat x5a 32) token demo_jwt_key database (repeat x0a 16) 1757900000.
Definition cd_attempts : list (Launch * ServeArgs) :=
  [(cd_failing dirsync_fault Some TokenWorks DatabaseWorks, cd_args);
   (cd_failing (no_faults "f1") (λ _, None) TokenWorks DatabaseWorks, default_serve);
   (cd_failing (no_faults "f2") Some TokenUnavailable DatabaseWorks, cd_args);
   (cd_failing (no_faults "f3") Some TokenWorks DatabaseFailsLate, cd_args)].
Definition cd_attempted : Machine := attempts (new_machine 1) cd_attempts.

Example attempts_fail : (λ start, bool_decide (is_Some (serve start.1 start.2 (new_machine 1)).2)) <$> cd_attempts =
  [false; false; false; false].
Proof. vm_compute. reflexivity. Qed.

Lemma cd_attempts_ok : Forall (λ start, attempt_ok start.1 start.2) cd_attempts.
Proof. repeat (apply Forall_cons_2; [split; [reflexivity|exact cd_addresses|reflexivity|done|reflexivity]|]). by apply Forall_nil_2. Qed.

Lemma failed_start_recovers_witness :
  ∃ m' state n, serve (cd_launch "a9") cd_args cd_attempted = (m', Some (state, n)) ∧ ConsoleTheorems.opened state n.
Proof.
  apply (failed_start_recovers 1 cd_attempts "a9" (cd_launch "a9") cd_args cd_attempts_ok).
  - split; [reflexivity|exact cd_addresses|reflexivity|done|reflexivity].
  - split; [reflexivity|reflexivity|reflexivity| |vm_compute; reflexivity|apply Z.leb_le; vm_compute; reflexivity].
    intros a. exists a. exact (conj eq_refl eq_refl).
  - vm_compute. reflexivity.
Defined.
