(* ===== verification/TestKit.v ===== *)
(** * Replaying unit tests

    The unit tests of the crates are replayed on the model: a test is the
    boolean its assertions come to on the concrete instances of [Fixtures], and
    that it passes is an equation the kernel evaluates. *)

From S2P Require Import Prelude RustStd BTreeMap Externs.

(** Assertions, all of which hold. *)
Definition asserts (l : list bool) : bool := forallb id l.

(** [unwrap]: a test that meets an error fails. *)
Definition unwrap {E A} (r : result E A) (k : A → bool) : bool :=
  match r with Ok a => k a | Err _ => false end.
Definition unwrap_some {A} (o : option A) (k : A → bool) : bool := from_option k false o.

(** [unwrap_err] *)
Definition unwrap_err {E A} (r : result E A) (k : E → bool) : bool :=
  match r with Ok _ => false | Err e => k e end.
Definition is_err {E A} (r : result E A) : bool := negb (is_ok r).

(** [assert_eq!] *)
Definition equals {A} `{EqDecision A} (a b : A) : bool := bool_decide (a = b).

(** [for x in xs { ... }] *)
Definition for_all {A} (xs : list A) (test : A → bool) : bool := forallb test xs.

(** The same with a state the steps go on with. *)
Fixpoint each {A W} (xs : list A) (step : A → W → (W → bool) → bool) (w : W) (k : W → bool) : bool :=
  match xs with
  | [] => k w
  | x :: xs => step x w (λ w, each xs step w k)
  end.

(** [str::contains] *)
Fixpoint contains (needle s : string) : bool :=
  starts_with_str needle s || match s with EmptyString => false | String _ s => contains needle s end.

(** [str::repeat] *)
Fixpoint str_repeat (s : string) (n : nat) : string :=
  match n with O => EmptyString | S n => s +:+ str_repeat s n end.

(** ** Values *)

(** [value[key]] as a text, a number, a boolean *)
Definition json_str (key : string) (v : Json) : option string := json_get key v ≫= as_str.
Definition json_num (key : string) (v : Json) : option Z := json_get key v ≫= as_u64.
Definition json_flag (key : string) (v : Json) : option bool := json_get key v ≫= as_bool.

(** Whether a text shows up anywhere in the value. *)
Fixpoint json_contains (needle : string) (v : Json) : bool :=
  match v with
  | JString s => contains needle s
  | JArray l => existsb (json_contains needle) l
  | JObject fs => existsb (λ kv, contains needle kv.1 || json_contains needle kv.2) fs
  | _ => false
  end.

(** [value[key] = v], on a map *)
Definition json_put (key : string) (v : Json) (value : Json) : Json :=
  match value with JObject fs => JObject (bt_collect (fs ++ [(key, v)])) | _ => value end.
Definition json_update (key : string) (f : Json → Json) (value : Json) : Json :=
  from_option (λ v, json_put key (f v) value) value (json_get key value).
