(* ===== verification/MessageTests.v ===== *)
(** * The unit tests of the sign-in message ([mod tests] of [crates/psky-farcaster-auth/src/message.rs])

    They need a reader of the text of a sign-in message (EIP-4361), which the
    sources take from a library: [text_siwe] reads its lines, with times in
    seconds as in [Fixtures], and a signature holds the address and the hash of
    the text.  The test of an externally computed signature is not replayed. *)

From S2P Require Import Prelude RustStd BTreeMap Externs Fixtures FarcasterMessage TestKit.

(** ** A reader of message texts *)

Definition newline : string := String (ascii_of_nat 10) EmptyString.

Record TextMessage := mkTextMessage {
  tm_domain : string;
  tm_address : string;
  tm_statement : string;
  tm_uri : string;
  tm_chain : Z;
  tm_nonce : string;
  tm_issued : Z;
  tm_expiration : option Z;
  tm_not_before : option Z;
  tm_resources : list string
}.

(** An optional line of the given name, and the lines after it. *)
Definition take_line (name : string) (lines : list string) : option Z * list string :=
  match lines with
  | line :: rest => match strip_prefix name line ≫= parse_u64 with Some n => (Some n, rest) | None => (None, lines) end
  | [] => (None, [])
  end.

Definition read_resources (lines : list string) : option (list string) :=
  match lines with
  | [] => Some []
  | header :: rest => if bool_decide (header = "Resources:") then mapM (strip_prefix "- ") rest else None
  end.

(** The blank lines are skipped whatever they hold. *)
Definition text_parse (s : string) : option TextMessage :=
  match split_on (ascii_of_nat 10) s with
  | preamble :: address :: _ :: statement :: _ :: uri :: version :: chain :: nonce :: issued :: rest =>
      domain ← strip_suffix " wants you to sign in with your Ethereum account:" preamble;
      uri ← strip_prefix "URI: " uri;
      version ← strip_prefix "Version: " version;
      _ ← (if bool_decide (version = "1") then Some () else None);
      chain ← strip_prefix "Chain ID: " chain ≫= parse_u64;
      nonce ← strip_prefix "Nonce: " nonce;
      issued ← strip_prefix "Issued At: " issued ≫= parse_u64;
      let '(expiration, rest) := take_line "Expiration Time: " rest in
      let '(not_before, rest) := take_line "Not Before: " rest in
      resources ← read_resources rest;
      Some (mkTextMessage domain address statement uri chain nonce issued expiration not_before resources)
  | _ => None
  end.

Definition line_of (name : string) (n : option Z) : list string := option_list ((λ n, name +:+ to_string n) <$> n).
Definition text_print (m : TextMessage) : string :=
  String.concat newline
    ([tm_domain m +:+ " wants you to sign in with your Ethereum account:"; tm_address m; ""; tm_statement m; "";
      "URI: " +:+ tm_uri m; "Version: 1"; "Chain ID: " +:+ to_string (tm_chain m); "Nonce: " +:+ tm_nonce m;
      "Issued At: " +:+ to_string (tm_issued m)] ++
     line_of "Expiration Time: " (tm_expiration m) ++ line_of "Not Before: " (tm_not_before m) ++
     match tm_resources m with [] => [] | rs => "Resources:" :: ((λ r, "- " +:+ r) <$> rs) end).

Definition text_address (m : TextMessage) : bytes :=
  default (repeat x00 20) (strip_prefix "0x" (tm_address m) ≫= hex_decode).
Definition text_time (n : Z) : OffsetDateTime := mkOffsetDateTime n 0.

(** The 64 bytes in front of the recovery byte. *)
Definition text_sign (address : bytes) (text : string) : bytes := address ++ sha256 (as_bytes text) ++ repeat x00 12.

#[local] Instance text_siwe : SiweLib := {|
  SiweMessage := TextMessage;
  siwe_parse := text_parse;
  siwe_to_string := text_print;
  siwe_domain := tm_domain;
  siwe_address := text_address;
  siwe_statement m := Some (tm_statement m);
  siwe_uri := tm_uri;
  siwe_chain_id := tm_chain;
  siwe_nonce := tm_nonce;
  siwe_issued_at m := text_time (tm_issued m);
  siwe_expiration_time m := text_time <$> tm_expiration m;
  siwe_not_before m := text_time <$> tm_not_before m;
  siwe_request_id _ := None;
  siwe_resources := tm_resources;
  siwe_verify_eip191 m signature := bool_decide (take 64 signature = text_sign (text_address m) (text_print m))
|}.

(** ** Edits of a text *)

(** [str::replacen(from, to, 1)] *)
Fixpoint replace_first (from to s : string) : string :=
  match strip_prefix from s with
  | Some rest => to +:+ rest
  | None => match s with String c s => String c (replace_first from to s) | EmptyString => EmptyString end
  end.

(** [str::replace]; the texts are shorter than the fuel. *)
Fixpoint replace_all (fuel : nat) (from to s : string) : string :=
  match fuel, strip_prefix from s, s with
  | O, _, _ => s
  | S fuel, Some rest, _ => to +:+ replace_all fuel from to rest
  | S fuel, None, String c s => String c (replace_all fuel from to s)
  | S fuel, None, EmptyString => EmptyString
  end.
Definition str_replace (from to s : string) : string := replace_all (S (String.length s)) from to s.

(** [replace_range(i..i + 2, to)] *)
Definition replace_two (i : nat) (to s : string) : string :=
  of_chars (take i (chars_of s)) +:+ to +:+ of_chars (drop (i + 2) (chars_of s)).

(** ** Helpers of the module *)

Definition TEST_NOW : Z := 1770000000.
Definition ADDRESS : string := "0x7E5F4552091A69125d5DfCb7b8C2659029395Bdf".

Definition test_challenge : Challenge := mkChallenge "0123456789ABCDEF0123456789ABCDEF" TEST_NOW (TEST_NOW + 300).
Definition stamp (n : Z) : string := default "" (result_ok (timestamp n)).

Definition message_fixture : SignedProof :=
  let message := String.concat newline
    ["pds.example wants you to sign in with your Ethereum account:"; ADDRESS; ""; "Farcaster Auth"; "";
     "URI: https://pds.example/onboard"; "Version: 1"; "Chain ID: 10"; "Nonce: " +:+ ch_nonce test_challenge;
     "Issued At: " +:+ stamp TEST_NOW; "Expiration Time: " +:+ stamp (TEST_NOW + 300); "Not Before: " +:+ stamp TEST_NOW;
     "Resources:"; "- farcaster://fid/8531"] in
  let address := default [] (strip_prefix "0x" ADDRESS ≫= hex_decode) in
  mkSignedProof message ("0x" +:+ hex_encode (text_sign address message ++ [x1b])).

Definition parse_at (proof : SignedProof) (now : Z) : result AuthError ParsedProof :=
  parse proof test_challenge "pds.example" "https://pds.example/onboard" now.
Definition parse_fixture (proof : SignedProof) : result AuthError ParsedProof := parse_at proof (TEST_NOW + 1).

Definition with_message (f : string → string) (proof : SignedProof) : SignedProof :=
  mkSignedProof (f (proof_message proof)) (proof_signature proof).
Definition with_signature (f : string → string) (proof : SignedProof) : SignedProof :=
  mkSignedProof (proof_message proof) (f (proof_signature proof)).

(** [parse_fixture(&proof).err() == Some(error)] *)
Definition refuses (error : AuthError) (r : result AuthError ParsedProof) : bool := unwrap_err r (equals error).
Definition message_refused (f : string → string) : bool :=
  refuses InvalidMessage (parse_fixture (with_message f message_fixture)).

(** ** Signatures *)

Definition to_lowercase (s : string) : string := of_chars (to_ascii_lowercase <$> chars_of s).

Definition deterministic_eoa_proof_verifies_raw_message : bool :=
  unwrap (parse_fixture message_fixture) (λ parsed, asserts [
    equals (pp_fid parsed) 8531;
    equals (Some (hex_encode (siwe_address (pp_message parsed)))) (strip_prefix "0x" (to_lowercase ADDRESS));
    is_ok (verify_eoa parsed);
    equals (pp_digest parsed) (erc191_digest (siwe_to_string (pp_message parsed)))]).

Definition wrong_message_or_signature_does_not_verify : bool := asserts [
  unwrap (parse_fixture (with_message (str_replace "fid/8531" "fid/8532") message_fixture))
    (λ parsed, equals (verify_eoa parsed) (Err InvalidSignature));
  unwrap (parse_fixture (with_signature (replace_two 4 "ff") message_fixture))
    (λ parsed, equals (verify_eoa parsed) (Err InvalidSignature))].

Definition malformed_or_unbounded_signature_is_rejected : bool := asserts [
  for_all [""; "0xzz"; "0xf"; "ff"; "0x" +:+ str_repeat "ab" (Z.to_nat (MAX_SIGNATURE_BYTES + 1))]
    (λ signature, refuses InvalidSignature (parse_fixture (with_signature (λ _, signature) message_fixture)));
  unwrap (parse_fixture (with_signature (λ _, "0x00") message_fixture))
    (λ parsed, equals (verify_eoa parsed) (Err InvalidSignature))].

Definition counterfactual_wrapper_is_explicitly_unsupported : bool :=
  refuses UnsupportedWallet (parse_fixture (with_signature (λ s, s +:+ str_repeat "6492" 16) message_fixture)).

Definition bad_recovery_ids_are_not_accepted : bool :=
  unwrap (parse_fixture (with_signature (λ s, replace_two (String.length s - 2) "ff" s) message_fixture))
    (λ parsed, equals (verify_eoa parsed) (Err InvalidSignature)).

(** ** Challenges *)

Definition challenge_requires_random_shape_and_bounded_lifetime : bool :=
  let invalid item := equals (validate_challenge item) (Err InvalidChallenge) in
  asserts [
    for_all [""; "short"; "0123456789ABCDEF!"; "0123456789ABCDEF" +:+ newline]
      (λ nonce, invalid (mkChallenge nonce TEST_NOW (TEST_NOW + 300)));
    for_all [0; 601] (λ delta, invalid (mkChallenge (ch_nonce test_challenge) TEST_NOW (TEST_NOW + delta)));
    invalid (mkChallenge (ch_nonce test_challenge) U64_MAX 0)].

Definition exact_challenge_time_bounds : bool := asserts [
  for_all [TEST_NOW - 1; TEST_NOW + 300; U64_MAX] (λ now, refuses InvalidChallenge (parse_at message_fixture now));
  is_ok (parse_at message_fixture (TEST_NOW + 299))].

Definition recheck_can_parse_expired_consent_without_establishing_new_login : bool := asserts [
  is_ok (parse_authority message_fixture "pds.example" "https://pds.example/onboard");
  refuses InvalidChallenge (parse_at message_fixture (TEST_NOW + 600))].

(** ** Messages *)

Definition nonce_domain_and_uri_cannot_be_substituted : bool :=
  for_all [("pds.example wants", "other.example wants"); ("https://pds.example/onboard", "https://pds.example/admin");
           ("0123456789ABCDEF0123456789ABCDEF", "FFFFFFFFFFFFFFFFFFFFFFFFFFFFFFFF")]
    (λ '(from, to), message_refused (str_replace from to)).

Definition chain_statement_and_version_cannot_be_substituted : bool :=
  for_all [("Chain ID: 10", "Chain ID: 1"); ("Farcaster Auth", "Approve signer"); ("Version: 1", "Version: 2")]
    (λ '(from, to), message_refused (str_replace from to)).

Definition parser_blank_line_skipping_is_closed_by_round_trip : bool := asserts [
  message_refused (replace_first (newline +:+ newline +:+ "Farcaster") (newline +:+ "HIDDEN INSTRUCTION" +:+ newline +:+ "Farcaster"));
  message_refused (λ s, s +:+ newline)].

Definition exactly_one_unambiguous_positive_fid_resource : bool := asserts [
  for_all ["0"; "08531"; "-8531"; "8531/extra"; "9007199254740992"; "18446744073709551616"]
    (λ value, message_refused (str_replace "fid/8531" ("fid/" +:+ value)));
  message_refused (λ s, s +:+ newline +:+ "- farcaster://fid/1");
  message_refused (str_replace "farcaster://fid/8531" "https://evil.example/fid/8531")].

Definition harmless_legacy_statement_and_trailing_fid_slash_parse_but_require_new_signature : bool := asserts [
  unwrap (parse_fixture (with_message (str_replace "Farcaster Auth" "Farcaster Connect") message_fixture))
    (λ parsed, is_err (verify_eoa parsed));
  unwrap (parse_fixture (with_message (λ s, s +:+ "/") message_fixture)) (λ parsed, equals (pp_fid parsed) 8531)].

Definition expiry_must_match_requested_consent : bool := asserts [
  for_all [TEST_NOW + 299; TEST_NOW + 301; TEST_NOW - 1]
    (λ expiry, message_refused (str_replace (stamp (TEST_NOW + 300)) (stamp expiry)));
  message_refused (str_replace ("Expiration Time: " +:+ stamp (TEST_NOW + 300) +:+ newline) "")].

Definition issued_at_and_not_before_are_bounded : bool := asserts [
  for_all [TEST_NOW - 61; TEST_NOW + 62]
    (λ issued, message_refused (replace_first ("Issued At: " +:+ stamp TEST_NOW) ("Issued At: " +:+ stamp issued)));
  message_refused (str_replace ("Not Before: " +:+ stamp TEST_NOW) ("Not Before: " +:+ stamp (TEST_NOW + 1)))].

(** ** They pass *)

Example signature_tests_pass : asserts [
  deterministic_eoa_proof_verifies_raw_message; wrong_message_or_signature_does_not_verify;
  malformed_or_unbounded_signature_is_rejected; counterfactual_wrapper_is_explicitly_unsupported;
  bad_recovery_ids_are_not_accepted] = true.
Proof. vm_compute. reflexivity. Qed.

Example challenge_tests_pass : asserts [
  challenge_requires_random_shape_and_bounded_lifetime; exact_challenge_time_bounds;
  recheck_can_parse_expired_consent_without_establishing_new_login] = true.
Proof. vm_compute. reflexivity. Qed.

Example message_tests_pass : asserts [
  nonce_domain_and_uri_cannot_be_substituted; chain_statement_and_version_cannot_be_substituted;
  parser_blank_line_skipping_is_closed_by_round_trip; exactly_one_unambiguous_positive_fid_resource;
  harmless_legacy_statement_and_trailing_fid_slash_parse_but_require_new_signature;
  expiry_must_match_requested_consent; issued_at_and_not_before_are_bounded] = true.
Proof. vm_compute. reflexivity. Qed.
